(* ===== verification/_CoqProject ===== *)
-Q . S2P
Prelude.v
Vocab.v
Ids.v
Payload.v
Wire.v
Epitrope.v
Origin.v
View.v
Chain.v
Issue.v
Budget.v
Decision.v
Revoke.v
Lifecycle.v
Records.v
Store.v
Seal.v
RecordKey.v
StoreAudit.v
Invocation.v
Transition.v
Directory.v
Claim.v
Shred.v
Recovery.v
Read.v
Rekey.v
Invariant.v
Steps.v
StoreRun.v
RekeyInv.v
Runs.v
Rotation.v
Ceiling.v
Guarantees.v
Idempotency.v
Custody.v
AuditRead.v
Daemon.v
Limits.v
Calls.v
Reads.v
Capture.v
Orchestrator.v
Confine.v
Ends.v
Authority.v
Replies.v
Stream.v
Server.v
Client.v
Connection.v
Handshake.v
Interop.v
Serving.v
Keys.v
Disk.v
RootRotation.v
RootRep.v
RootStage.v
RootGuarantees.v
Owned.v
Keyring.v
Proc.v
DiskView.v
StoreDir.v
StoreDirGuarantees.v
DiskWrite.v
KeyFile.v
Socket.v
SocketInv.v
Cli.v
CliGuarantees.v
CliRun.v
Fixture.v
Process.v
Scenario.v
Witness.v
DaemonWitness.v
DiskWitness.v
