(* ===== verification/Prelude.v ===== *)
(** * Dioptron: a verification development

    Dioptron is a custody daemon: agents ask it, under delegated grants with
    budgets, to capture web targets, and it keeps what it captured sealed per
    tenant, with an audit log and crash-safe accounting. The repository has
    five crates under [src/crates]:

    - [syntheke], the contract: vocabulary, identifiers, payloads, wire format;
    - [epitrope], the authority: grants, chains, scopes, budgets, decisions and
      the lifecycle table, all pure functions over a read view;
    - [phylake], the custody store: one transactional database that holds
      every record, changes it in atomic steps B1 to B5 and recovers;
    - [dioptron], the daemon: a server that authenticates connections and an
      orchestrator that runs their requests over the store;
    - [xenos], a client of the daemon with its own frame codec.

    This library models all five, and proves the properties that make them
    correct. [epitrope] sees the store only through the classes [GrantView]
    and [LedgerView] ([View.v]): its theorems hold for every view, and
    [Store.v] gives the store's instances, so the store's theorems use them
    inside its transactions, as the code does. The orchestrator is a program
    over the store's operations ([Daemon.v]): between any two of its steps the
    other tasks may run any operations of their own, so its theorems hold
    under every interleaving. The server and the client are programs over
    byte streams ([Stream.v]); what a dispatch answers is an input of the
    connection loop.

    The store is modelled twice. [Store.v] has the logical store, a record of
    finite maps, over which the operations are defined. [Disk.v] has the
    physical one, keyspaces of sealed bytes under hashed keys, with the code
    that reads it, caches keyrings over it, registers and shreds tenants on it
    and rotates its root key; [Rep] ([RootRep.v]) relates the two. The files around the store, its directory,
    the root key file and the socket, are worlds that processes act on one
    system call at a time ([Proc.v], [Socket.v]), where any call may fail and
    the process may die between any two.

    ** Files

    Contract ([syntheke]):
    - [Prelude]: results and their monad, machine integers as [Z] with their
      bounds, bytes and little-endian codecs, sums over finite maps, the hint
      database [dioptron] and the tactics of the development;
    - [Vocab]: [vocab.rs], [names.rs], [budget.rs], [outcome.rs], [error.rs];
    - [Ids]: [ids.rs] (ULID text, id newtypes, idempotency keys);
    - [Payload]: [payload.rs];
    - [Wire]: [wire.rs] and [codec.rs]; the archive library is a parameter.

    Authority ([epitrope]):
    - [Epitrope]: settlements, steps and the crate error;
    - [Origin]: [origin.rs], parsing and matching of targets;
    - [View], [Chain], [Issue], [Revoke]: grants and views, the walk to the
      root and audit scopes, attenuation at issue, subtree revocation;
    - [Budget]: reservation and settlement arithmetic on [u64] dimensions;
    - [Decision]: [authorize] and [plan];
    - [Lifecycle]: the transition table and the recovery actions.

    Store ([phylake]):
    - [Records]: the stored records and their conversions;
    - [Store]: the state [Db], one finite map per record slot keyed by the
      logical components of the physical key; transactions, commits with
      failpoints; the views; the keyrings;
    - [Seal]: the sealed value format and key wrapping; [RecordKey]: the
      physical keys. They justify the two abstractions of [Db]: a slot's
      physical key is injective in the slot, and a value opens only where it
      was sealed;
    - [StoreAudit], [Invocation] (B1), [Transition] (B2 to B5), [Directory],
      [Claim], [Shred], [Recovery], [Read], [Rekey]: the operations, one
      definition per function of the corresponding file of [store/], each a
      transaction body [X_tx] that returns what it stages and the operation [X]
      that commits it.

    Store invariants and guarantees:
    - [Invariant]: what an invocation holds in a ledger, how debits and
      releases move it, and the store invariant [Inv];
    - [Steps], [StoreRun], [RekeyInv]: every operation preserves [Inv];
    - [Runs]: recovery; a run is any sequence of the store's eighteen write operations,
      each at its own time and under its own crash points; [run_Inv];
    - [Rotation]: tenant key rotations; [Ceiling]: spending limits along runs;
    - [Guarantees], [Idempotency], [Custody], [AuditRead]: the store's
      properties.

    The store on disk ([phylake]):
    - [Keys]: [crypto/keys.rs], the derivation of store and tenant keys, and
      the random source;
    - [Disk]: the metadata ([store/meta.rs]), keyspaces, sealed reads and
      writes ([store/mod.rs], [store/codec.rs]), the archives of the records;
    - [RootRotation]: [store/root_rotation.rs]; [RootRep]: when a disk
      represents a logical store under a set of keys; [RootStage]: what each
      stage of a rotation moves; [RootGuarantees]: its property; [Owned]: every
      reachable logical store is fit to be rotated;
    - [Keyring]: the keyring cache of [store/keyring.rs]; [DiskView]:
      [store/view.rs] over the disk; [DiskWrite]: registering a tenant,
      installing a root grant and shredding a tenant ([store/directory.rs],
      [store/shred.rs]) as transactions on the disk;
    - [Proc]: processes over a world, one call at a time, and their logic
      [hoare]; [StoreDir]: creating, opening, verifying and compacting a store
      directory ([store/mod.rs], [store/compact.rs], [store/backup.rs]), with
      [StoreDirGuarantees]; [KeyFile]: [keyfile.rs].

    Orchestrator ([dioptron/src/orchestrator]):
    - [Daemon]: the state ([World]: the store and the running calls), what can
      happen between two steps ([Tick]), the program monad [M], calls and
      replies ([mod.rs], [producer.rs]);
    - [Limits] ([limits.rs]), [Calls] ([directory.rs]), [Reads] ([reads.rs],
      [plan.rs]), [Capture] ([capture.rs]), [Orchestrator] ([handle],
      [execute], [dispatch]);
    - [Confine], [Ends], [Authority], [Replies]: its properties.

    Server and client ([dioptron/src/server], [xenos]):
    - [Stream]: bytes as they arrive, archives;
    - [Server]: limits, frames, the handshake ([mod.rs], [frame.rs],
      [handshake.rs], [tenants.rs]); [Connection]: the reader, the connection
      loop, the two as tasks joined by a channel, what they buffer, and the
      accept loop ([connection.rs], [mod.rs]);
    - [Client]: [frame.rs], [raw.rs], [client.rs] and the bounded reads and
      writes;
    - [Handshake], [Interop], [Serving]: their properties.

    The process ([dioptron]):
    - [Socket]: [server/socket.rs] and what [server/mod.rs] does with the
      socket's file, as interleaved programs of several daemons; [SocketInv]:
      a rely-guarantee argument over them;
    - [Cli]: [cli.rs], [cli/args.rs] and [failpoint.rs], the command line;
      [CliGuarantees]: printing and parsing it; [CliRun]: [keygen],
      [init] and [tenant add];
    - [Fixture]: [fixture.rs], the scripted producer;
    - [Process]: [main.rs], [cli::run], [cli/serve.rs], [clock.rs] and
      [cancel.rs]: a [Machine] of key file, store, socket path and announced
      lines, and the commands that run over it to an exit code, recovery and
      [tenant add] one transaction at a time.

    [Scenario] is a concrete deployment, evaluated; [Witness], [DaemonWitness]
    and [DiskWitness] apply every conditional property at concrete inputs.

    ** What the theorems show

    - Accounting: in every run, with crashes at any commit and recovery in any
      order, each ledger is exactly the sum of what its invocations hold, never
      over a ceiling; ended invocations are final and settled once.
    - Authority: [authorize] allows exactly the authorized calls; chains,
      issue and revocation are exact or attenuate; refusals do not reveal
      foreign records.
    - Recovery and crashes: operations are atomic under crashes, recovery
      always completes, reaches the terminal state the table prescribes, and
      is idempotent; the audit log has no gaps and loses nothing, and a query
      of it returns exactly what its scope selects.
    - Custody: published captures read back verbatim, unpublished ones are
      invisible, shredded tenants stay erased, revocations are final; sealed
      values and wrapped keys open only in place; physical keys do not clash.
    - Rotation: a tenant rekey completes from any reachable state, no record
      is ever sealed under a key the store has dropped, and readers do not see
      it.
    - The disk: decisions and keyrings read from the sealed records are those
      of the logical store; rotating the root key hands the same logical store
      to the new key or leaves the disk alone, and every reachable store is
      fit for it; creating a store is all or nothing, and compaction never
      loses it, whichever call fails or is the last; registering, installing
      root grants and shredding do on the disk what they do on the logical
      store, and what is left in the files after a shred and a compaction
      unwraps no key of the shredded tenant.
    - Idempotency: a committed begin or claim answers every later attempt; the
      binding covers exactly the request; no later operation of the store, a
      settlement, a recovery, a rekey or a shred, lets a key run twice.
    - Requests: handling one is a run of the store in which the request's own
      operations are only those it asks for, under its own tenant; content is
      given only under authority that the store as the call found it gave at one
      of the call's own steps; every capture ends its invocation and reports
      that ending, publishes only what its limits allow, and waits for its
      producer until an answer or the timer of its deadline and grace; dry
      runs write nothing; refusals are audited; replies fit their frame.
    - Connections: only a peer that proves its tenant's key over a fresh nonce
      is admitted, and a refused one cannot tell why; an honest client is
      admitted; every request is answered once, under its id; closing is
      clean; the reader, the channel of one item and the loop, in any order of
      their moves, do what the loop does on everything the reader forwards, and
      the frame bodies they and the writer hold stay within the announced
      bound.
    - Process: the root key loads exactly from a private file of the user, and
      is written whole or not at all; what [keygen] and [init] make, later
      commands open; [tenant add] installs one working root grant; at most one
      daemon serves per socket directory, and only a dead socket is replaced;
      a daemon has ended every open invocation before it can be reached,
      wherever its recovery was cut short before; every command line is a well-formed
      command or a usage error, and the exit code says which and whether
      anything was done.
    - Formats: frames, headers, transcripts, identifiers, origins and grant
      records round trip or are injective; the client's own codec is the
      contract's.

    ** Bounds and fuel

    Machine integers are [Z] with the width written out ([u8_max] to
    [u64_max], [checked_add], [saturating_add]). Loops of the source that are
    not structural take fuel with a proof that it suffices: the chain walk has
    one round per depth, at most 256 since depths are [u8]; the subtree and
    lineage walks have the source's own limits; [rekey_tenant] ends within the
    number of walked records plus the five keyspaces ([rekey_completes]); the
    wait for a producer takes the steps left before the runtime wakes the
    timer of its backstop ([wakes] of [Environment]), and no more
    ([produce_exact]); the reader of a
    connection needs no more rounds than its stream has arrivals
    ([read_frames_enough]); every other loop is over a list.

    ** Parameters

    SHA-256, the keyed blob address and the physical keys ([Hashes]), HMAC
    ([RecordKey]), the AEAD ([Aead] with the law [AeadLaws]), Ed25519
    ([Signatures]), the archive library ([Wire], [Archive] with the law
    [ArchiveLaws]), the runtime's largest semaphore, and, for the
    orchestrator, what the other tasks, the clocks, the random source and the
    producer do and when the runtime wakes a timer ([Environment]). On the disk: HKDF and HMAC ([Kdf] with
    [KdfLaws]: they answer, with the length asked for), the random source
    ([Entropy]), a cipher that never fails to seal ([AeadTotal]), the archives
    of the stored records ([StoreCodec]), the fate of each system call ([Env],
    [Holder]) and the users of processes ([Users]). That two records do not
    share a hashed key is a hypothesis ([Distinct], [Unaliased]): it is what
    an HMAC collision would break. In the logical store the same idealisation
    is the law [physical_inj] of [Hashes]: the walk of a tenant rekey visits
    records in the order of their hashed keys, and no two of them share one. The time is an argument and is constant
    during one store operation.

    ** Not modelled

    The database engine's own failures inside a transaction; in [Process] the
    engine may refuse a transaction as a whole.  That B1 to B5,
    claims, audit notes, rekey batches, issue, revocation and sessions, run
    over the disk, stage what they stage over the logical store: reads, tenant
    registration, root grants, shredding, root rotation and directories are
    related to it, these writes are not. A store task that panics. In the serve
    command, the threads, their wake-ups and the instant of the shutdown signal:
    what request tasks do to the store before the signal, and in the drain after
    it, is an arbitrary sequence of its operations there, and the connections
    and the requests are modelled apart. Text printed for people ([USAGE], error
    reports, logs, [Debug]) and the accessors of records; wiping secrets from
    memory, which no value of the model can show. *)
From stdpp Require Export prelude gmap strings.
From Stdlib Require Export Strings.Byte.
From Stdlib Require String.
From Stdlib Require Import ZArith Lia.

Local Open Scope Z_scope.

(** ** Results

    Rust's [Result<A, E>]; [?] is the monadic bind. *)

Inductive result (E A : Type) : Type :=
| Ok (a : A)
| Err (e : E).
Arguments Ok {E A} a.
Arguments Err {E A} e.

#[global] Instance result_ret {E} : MRet (result E) := fun A a => Ok a.
#[global] Instance result_bind {E} : MBind (result E) := fun A B f m =>
  match m with Ok a => f a | Err e => Err e end.
#[global] Instance result_fmap {E} : FMap (result E) := fun A B f m =>
  match m with Ok a => Ok (f a) | Err e => Err e end.

Definition is_ok {E A} (r : result E A) : bool :=
  match r with Ok _ => true | Err _ => false end.

(** [Result::map_err], and snafu's [.context(Selector)] on a result. *)
Definition map_err {E F A} (f : E -> F) (r : result E A) : result F A :=
  match r with Ok a => Ok a | Err e => Err (f e) end.

(** snafu's [.context(Selector)] on an option. *)
Definition ok_or {E A} (o : option A) (e : E) : result E A :=
  match o with Some a => Ok a | None => Err e end.

(** snafu's [ensure!]. *)
Definition ensure {E} (b : bool) (e : E) : result E unit :=
  if b then Ok tt else Err e.

(** A [for] loop whose body may return early with an error. *)
Fixpoint mfold {E A S} (f : S -> A -> result E S) (s : S) (l : list A) : result E S :=
  match l with
  | [] => Ok s
  | a :: l => s' ← f s a; mfold f s' l
  end.

(** [iter().map(f).collect::<Result<Vec<_>, _>>()]: stops at the first error. *)
Fixpoint collect {E A B} (f : A -> result E B) (l : list A) : result E (list B) :=
  match l with
  | [] => Ok []
  | a :: l => b ← f a; bs ← collect f l; Ok (b :: bs)
  end.

Lemma bind_Ok {E A B} (f : A -> result E B) (m : result E A) b :
  (m ≫= f) = Ok b <-> exists a, m = Ok a /\ f a = Ok b.
Proof. destruct m; cbn; split; naive_solver. Qed.

Lemma bind_Err {E A B} (f : A -> result E B) (m : result E A) e :
  (m ≫= f) = Err e <-> m = Err e \/ exists a, m = Ok a /\ f a = Err e.
Proof. destruct m; cbn; split; naive_solver. Qed.

Lemma map_err_Ok {E F A} (f : E -> F) (r : result E A) a :
  map_err f r = Ok a <-> r = Ok a.
Proof. destruct r; cbn; naive_solver. Qed.

Lemma ok_or_Ok {E A} (o : option A) (e : E) a : ok_or o e = Ok a <-> o = Some a.
Proof. destruct o; cbn; naive_solver. Qed.

Lemma ensure_Ok {E} b (e : E) u : ensure b e = Ok u <-> b = true.
Proof. destruct b, u; cbn; naive_solver. Qed.

Lemma ensure_Err {E} b (e e' : E) : ensure b e = Err e' <-> b = false /\ e' = e.
Proof. destruct b; cbn; naive_solver. Qed.

Lemma collect_Forall2 {E A B} (f : A -> result E B) l bs :
  collect f l = Ok bs <-> Forall2 (fun a b => f a = Ok b) l bs.
Proof.
  revert bs; induction l as [|a l IH]; intros bs; cbn.
  - split; [intros [= <-]; constructor | by intros ->%Forall2_nil_inv_l].
  - split.
    + rewrite bind_Ok; intros (b & Hb & H). rewrite bind_Ok in H.
      destruct H as (bs' & Hbs & [= <-]). constructor; [done|]. by apply IH.
    + intros (b & bs' & Hb & Hbs & ->)%Forall2_cons_inv_l.
      rewrite Hb; cbn. apply IH in Hbs. by rewrite Hbs.
Qed.

Lemma Ok_inj {E A} (a b : A) : @Ok E A a = Ok b -> a = b.
Proof. congruence. Qed.
Lemma Err_inj {E A} (a b : E) : @Err E A a = Err b -> a = b.
Proof. congruence. Qed.

(** Splits every successful computation among the hypotheses into its
    steps. *)
Ltac inv_ok_step :=
  match goal with
  | H : Ok _ = Ok _ |- _ => apply Ok_inj in H; subst
  | H : Err _ = Err _ |- _ => apply Err_inj in H; subst
  | H : Ok _ = Err _ |- _ => discriminate H
  | H : Err _ = Ok _ |- _ => discriminate H
  | H : (_ ≫= _) = Ok _ |- _ => apply bind_Ok in H as (? & ? & H)
  | H : map_err _ _ = Ok _ |- _ => apply map_err_Ok in H
  | H : ok_or _ _ = Ok _ |- _ => apply ok_or_Ok in H
  | H : ensure _ _ = Ok _ |- _ => apply ensure_Ok in H
  end.
Ltac inv_ok := repeat (inv_ok_step; cbn beta iota in * ).

(** Case analysis on the scrutinee of a match or if in hypothesis [H]. *)
Ltac case_in H :=
  match type of H with
  | context [match ?x with _ => _ end] =>
      let E := fresh "E" in destruct x eqn:E
  end.

Lemma forallb_impl {A} (p q : A -> bool) l :
  (forall a, p a = true -> q a = true) -> forallb p l = true -> forallb q l = true.
Proof. rewrite !forallb_forall. auto. Qed.

(** ** Sums over finite maps and multiplicities *)

Section map_sum.
Context {K V : Type} `{Countable K}.
Implicit Types (f g : V -> Z) (m : gmap K V).

Definition map_sum f m : Z := map_fold (fun _ v acc => f v + acc) 0 m.

Lemma map_sum_empty f : map_sum f ∅ = 0.
Proof. apply map_fold_empty. Qed.

Lemma map_sum_insert_new f m k v : m !! k = None -> map_sum f (<[k := v]> m) = f v + map_sum f m.
Proof. intros Hk. unfold map_sum. rewrite map_fold_insert_L; [done| |done]. intros. lia. Qed.

Lemma map_sum_insert f m k v w :
  m !! k = Some w -> map_sum f (<[k := v]> m) = map_sum f m - f w + f v.
Proof.
  intros Hk. rewrite <- (insert_delete_id m k w Hk) at 2. rewrite <- insert_delete_eq.
  rewrite !map_sum_insert_new by apply lookup_delete_eq. lia.
Qed.

Lemma map_sum_nonneg f m : (forall k v, m !! k = Some v -> 0 <= f v) -> 0 <= map_sum f m.
Proof.
  induction m as [|k v m Hk IH] using map_ind; intros Hf; [by rewrite map_sum_empty|].
  rewrite map_sum_insert_new by done.
  assert (0 <= f v) by (apply (Hf k); apply lookup_insert_eq).
  assert (0 <= map_sum f m); [|lia]. apply IH. intros k' v' Hk'. apply (Hf k').
  rewrite lookup_insert_ne; [done|]. by intros ->; rewrite Hk in Hk'.
Qed.

Lemma map_sum_le f m bound :
  (forall k v, m !! k = Some v -> f v <= bound) -> map_sum f m <= bound * Z.of_nat (size m).
Proof.
  induction m as [|k v m Hk IH] using map_ind; intros Hf; [rewrite map_sum_empty, map_size_empty; lia|].
  rewrite map_sum_insert_new, map_size_insert_None by done.
  assert (f v <= bound) by (apply (Hf k); apply lookup_insert_eq).
  assert (map_sum f m <= bound * Z.of_nat (size m)); [|lia]. apply IH. intros k' v' Hk'. apply (Hf k').
  rewrite lookup_insert_ne; [done|]. by intros ->; rewrite Hk in Hk'.
Qed.

Lemma map_sum_ge f m k v :
  (forall k v, m !! k = Some v -> 0 <= f v) -> m !! k = Some v -> f v <= map_sum f m.
Proof.
  intros Hf Hk. rewrite <- (insert_delete_id m k v Hk), map_sum_insert_new by apply lookup_delete_eq.
  enough (0 <= map_sum f (delete k m)) by lia. apply map_sum_nonneg.
  intros k' v' [_ Hk']%lookup_delete_Some. by apply (Hf k').
Qed.
End map_sum.

(** How often [x] occurs in [l]. *)
Fixpoint occ {A} `{EqDecision A} (x : A) (l : list A) : Z :=
  match l with [] => 0 | y :: l => (if bool_decide (x = y) then 1 else 0) + occ x l end.

Lemma occ_nonneg {A} `{EqDecision A} (x : A) l : 0 <= occ x l.
Proof. induction l; cbn; [lia|]. case_bool_decide; lia. Qed.

(** ** Machine integers

    An unsigned integer of width [w] is a [Z]; the operations of the source
    that can leave the range are written out. *)

Definition u8_max : Z := 255.
Definition u16_max : Z := 65535.
Definition u32_max : Z := 4294967295.
Definition u64_max : Z := 18446744073709551615.

Definition in_range (max z : Z) : Prop := 0 <= z <= max.
#[global] Instance in_range_dec max z : Decision (in_range max z).
Proof. unfold in_range. apply _. Defined.

Definition checked_add (max a b : Z) : option Z :=
  if a + b <=? max then Some (a + b) else None.
Definition checked_mul (max a b : Z) : option Z :=
  if a * b <=? max then Some (a * b) else None.
Definition checked_sub (a b : Z) : option Z :=
  if b <=? a then Some (a - b) else None.
Definition saturating_sub (a b : Z) : Z := Z.max 0 (a - b).
Definition saturating_add (max a b : Z) : Z := Z.min max (a + b).

Lemma checked_add_Some max a b c :
  checked_add max a b = Some c <-> c = a + b /\ a + b <= max.
Proof. unfold checked_add; destruct (Z.leb_spec (a + b) max); naive_solver lia. Qed.
Lemma checked_add_None max a b : checked_add max a b = None <-> max < a + b.
Proof. unfold checked_add; destruct (Z.leb_spec (a + b) max); naive_solver lia. Qed.
Lemma checked_sub_Some a b c : checked_sub a b = Some c <-> c = a - b /\ b <= a.
Proof. unfold checked_sub; destruct (Z.leb_spec b a); naive_solver lia. Qed.
Lemma checked_mul_Some max a b c :
  checked_mul max a b = Some c <-> c = a * b /\ a * b <= max.
Proof. unfold checked_mul; destruct (Z.leb_spec (a * b) max); naive_solver lia. Qed.

(** ** Bytes and text

    A Rust [u8] is a [byte]; [&[u8]], [Vec<u8>] and the UTF-8 bytes of a
    [&str] are lists of bytes. *)

Abbreviation bytes := (list byte) (only parsing).
Abbreviation str := (list byte) (only parsing).

(** The bytes of a string literal. *)
Definition lit (s : string) : str := String.list_byte_of_string s.

Definition b2z (b : byte) : Z := Z.of_N (Byte.to_N b).
Definition z2b (z : Z) : byte :=
  match Byte.of_N (Z.to_N (z mod 256)) with Some b => b | None => "000"%byte end.

#[global] Instance byte_eq_dec : EqDecision byte := Byte.byte_eq_dec.
#[global] Program Instance byte_countable : Countable byte :=
  inj_countable Byte.to_N Byte.of_N _.
Next Obligation. apply Byte.of_to_N. Qed.

Lemma b2z_range b : 0 <= b2z b < 256.
Proof. unfold b2z. pose proof (Byte.to_N_bounded b). lia. Qed.

Lemma b2z_z2b z : b2z (z2b z) = z mod 256.
Proof.
  unfold b2z, z2b. pose proof (Z.mod_pos_bound z 256 ltac:(lia)) as Hm.
  destruct (Byte.of_N (Z.to_N (z mod 256))) eqn:E.
  - apply Byte.to_of_N in E. rewrite E. lia.
  - apply Byte.of_N_None_iff in E. lia.
Qed.

Lemma b2z_inj a b : b2z a = b2z b -> a = b.
Proof.
  unfold b2z. intros H%N2Z.inj.
  pose proof (Byte.of_to_N a) as Ha. pose proof (Byte.of_to_N b) as Hb.
  rewrite H in Ha. congruence.
Qed.

Lemma z2b_b2z b : z2b (b2z b) = b.
Proof. apply b2z_inj. rewrite b2z_z2b. apply Z.mod_small, b2z_range. Qed.

(** [to_le_bytes] and [from_le_bytes] of an [n]-byte unsigned integer. *)
Fixpoint to_le_bytes (n : nat) (z : Z) : bytes :=
  match n with
  | O => []
  | S n => z2b z :: to_le_bytes n (z / 256)
  end.
Fixpoint from_le_bytes (l : bytes) : Z :=
  match l with
  | [] => 0
  | b :: l => b2z b + 256 * from_le_bytes l
  end.
(** The big-endian forms. *)
Definition to_be_bytes (n : nat) (z : Z) : bytes := reverse (to_le_bytes n z).
Definition from_be_bytes (l : bytes) : Z := from_le_bytes (reverse l).

Lemma length_to_le_bytes n z : length (to_le_bytes n z) = n.
Proof. revert z; induction n; intros; cbn; auto. Qed.

Lemma from_to_le_bytes n z :
  from_le_bytes (to_le_bytes n z) = z mod 256 ^ Z.of_nat n.
Proof.
  revert z; induction n as [|n IH]; intros z; cbn [to_le_bytes from_le_bytes].
  - by rewrite Z.mod_1_r.
  - rewrite IH, b2z_z2b, Nat2Z.inj_succ, Z.pow_succ_r by lia.
    rewrite (Z.rem_mul_r z 256) by lia. lia.
Qed.

Lemma to_le_bytes_inj n x y :
  0 <= x < 256 ^ Z.of_nat n -> 0 <= y < 256 ^ Z.of_nat n ->
  to_le_bytes n x = to_le_bytes n y -> x = y.
Proof.
  intros Hx Hy Heq. apply (f_equal from_le_bytes) in Heq.
  rewrite !from_to_le_bytes, !Z.mod_small in Heq; auto.
Qed.

(** Two length-prefixed fields followed by anything are equal only field by
    field. *)
Lemma prefixed_inj n (x y u v : bytes) :
  Z.of_nat (length x) < 256 ^ Z.of_nat n -> Z.of_nat (length y) < 256 ^ Z.of_nat n ->
  to_le_bytes n (Z.of_nat (length x)) ++ x ++ u = to_le_bytes n (Z.of_nat (length y)) ++ y ++ v ->
  x = y /\ u = v.
Proof.
  intros Hx Hy Heq. apply app_inj_1 in Heq as [Hl Heq]; [|by rewrite !length_to_le_bytes].
  apply to_le_bytes_inj in Hl; [|lia..]. apply app_inj_1 in Heq; [done|lia].
Qed.

Lemma to_from_le_bytes l : to_le_bytes (length l) (from_le_bytes l) = l.
Proof.
  induction l as [|b l IH]; [done|]. cbn [length to_le_bytes from_le_bytes].
  pose proof (b2z_range b). f_equal.
  - apply b2z_inj. rewrite b2z_z2b, Z.mul_comm, Z.mod_add by lia. apply Z.mod_small; lia.
  - replace ((b2z b + 256 * from_le_bytes l) / 256) with (from_le_bytes l); [done|].
    rewrite (Z.mul_comm 256), Z.div_add, Z.div_small by lia. lia.
Qed.

Lemma from_le_bytes_range l : 0 <= from_le_bytes l < 256 ^ Z.of_nat (length l).
Proof.
  induction l as [|b l IH]; cbn [from_le_bytes length]; [lia|].
  rewrite Nat2Z.inj_succ, Z.pow_succ_r by lia. pose proof (b2z_range b). nia.
Qed.

(** Byte strings in the database's key order, lexicographic. *)
Fixpoint bytes_le (a b : bytes) : bool :=
  match a, b with
  | [], _ => true
  | _ :: _, [] => false
  | x :: a, y :: b => (b2z x <? b2z y) || ((b2z x =? b2z y) && bytes_le a b)
  end.
Definition bytes_lt (a b : bytes) : bool := negb (bytes_le b a).

Lemma bytes_le_refl a : bytes_le a a = true.
Proof. induction a as [|x a IH]; [done|]. cbn. by rewrite Z.eqb_refl, IH, orb_true_r. Qed.
Lemma bytes_le_total a b : bytes_le a b = true \/ bytes_le b a = true.
Proof.
  revert b; induction a as [|x a IH]; intros [|y b]; cbn; auto.
  rewrite !orb_true_iff, !andb_true_iff, !Z.ltb_lt, !Z.eqb_eq.
  destruct (IH b), (Z.lt_total (b2z x) (b2z y)) as [|[|]]; auto 6.
Qed.
Lemma bytes_le_trans a b c : bytes_le a b = true -> bytes_le b c = true -> bytes_le a c = true.
Proof.
  revert b c; induction a as [|x a IH]; intros [|y b] [|z c]; cbn; try done.
  rewrite !orb_true_iff, !andb_true_iff, !Z.ltb_lt, !Z.eqb_eq.
  intros [?|[? ?]] [?|[? ?]]; try (left; lia). right. split; [lia|]. by apply (IH b).
Qed.
Lemma bytes_le_antisym a b : bytes_le a b = true -> bytes_le b a = true -> a = b.
Proof.
  revert b; induction a as [|x a IH]; intros [|y b]; cbn; try done.
  rewrite !orb_true_iff, !andb_true_iff, !Z.ltb_lt, !Z.eqb_eq.
  intros [?|[Hx ?]] [?|[? ?]]; try lia. apply b2z_inj in Hx. subst. f_equal. by apply IH.
Qed.

(** *** ASCII classes ([u8::is_ascii_*], [to_ascii_*case]) *)

Definition between (lo hi : Z) (b : byte) : bool := (lo <=? b2z b) && (b2z b <=? hi).
Definition is_ascii_graphic : byte -> bool := between 33 126.
Definition is_ascii_digit : byte -> bool := between 48 57.
Definition is_ascii_lower : byte -> bool := between 97 122.
Definition is_ascii_upper : byte -> bool := between 65 90.
Definition is_ascii_alphabetic (b : byte) : bool := is_ascii_lower b || is_ascii_upper b.
Definition is_ascii_alphanumeric (b : byte) : bool := is_ascii_alphabetic b || is_ascii_digit b.
Definition is_ascii_hexdigit (b : byte) : bool :=
  is_ascii_digit b || between 65 70 b || between 97 102 b.
Definition to_ascii_lowercase (b : byte) : byte :=
  if is_ascii_upper b then z2b (b2z b + 32) else b.
Definition to_ascii_uppercase (b : byte) : byte :=
  if is_ascii_lower b then z2b (b2z b - 32) else b.
Definition eq_ignore_ascii_case (s t : str) : bool :=
  bool_decide (to_ascii_lowercase <$> s = to_ascii_lowercase <$> t).

(** A property of all 256 bytes that computes can be checked by evaluation. *)
Definition all_bytes : bytes := z2b <$> seqZ 0 256.
Lemma all_bytes_complete b : In b all_bytes.
Proof.
  unfold all_bytes. apply list_elem_of_In, list_elem_of_fmap. exists (b2z b).
  rewrite z2b_b2z. split; [done|]. apply elem_of_seqZ. pose proof (b2z_range b). lia.
Qed.
Lemma byte_forall (P : byte -> bool) : forallb P all_bytes = true -> forall b, P b = true.
Proof. rewrite forallb_forall. intros H b. apply H, all_bytes_complete. Qed.

(** Proves [forall b : byte, P b = true] by evaluating [P] on every byte. *)
Ltac by_all_bytes := apply byte_forall; vm_compute; reflexivity.

(** ** Hint database and shared tactics *)

Create HintDb dioptron.
#[export] Hint Resolve b2z_range from_le_bytes_range length_to_le_bytes : dioptron.

(** Turns boolean tests among the hypotheses and in the goal into
    propositions. *)
Ltac bool_simpl :=
  repeat match goal with
  | H : (_ && _) = true |- _ => apply andb_true_iff in H as [? H]
  | H : (_ || _) = false |- _ => apply orb_false_iff in H as [? H]
  | H : negb _ = true |- _ => apply negb_true_iff in H
  | H : negb _ = false |- _ => apply negb_false_iff in H
  | H : bool_decide _ = true |- _ => apply bool_decide_eq_true in H
  | H : bool_decide _ = false |- _ => apply bool_decide_eq_false in H
  | H : (_ <=? _) = true |- _ => apply Z.leb_le in H
  | H : (_ <=? _) = false |- _ => apply Z.leb_gt in H
  | H : (_ <? _) = true |- _ => apply Z.ltb_lt in H
  | H : (_ <? _) = false |- _ => apply Z.ltb_ge in H
  | H : (_ =? _) = true |- _ => apply Z.eqb_eq in H
  | H : (_ =? _) = false |- _ => apply Z.eqb_neq in H
  end.
