(* ===== verification/Vocab.v ===== *)
(** * Contract vocabulary ([syntheke]: names, vocab, budget, outcome)

    The fieldless enums of the contract with their stable names, the
    per-dimension records [Ceilings] and [Cost], the failure taxonomy and
    the invocation state vocabulary. Each enum lives in a module of its own
    name, so [Capability.Capture] reads as [Capability::Capture] does. *)
From S2P Require Import Prelude.
Local Open Scope Z_scope.

(** ** [named_enum!] (crates/syntheke/src/names.rs) *)

Definition find_name {A} (all : list A) (name : A -> str) (n : str) : option A :=
  List.find (fun v => bool_decide (name v = n)) all.

(** What the macro gives every vocabulary enum: its variants in declaration
    order and one name per variant. The laws say that the list is complete
    and that the names determine the variants. *)
Class NamedEnum (A : Type) := {
  enum_all : list A;
  enum_name : A -> str;
  enum_complete : forall v : A, In v enum_all;
  enum_find_name : forall v : A, find_name enum_all enum_name (enum_name v) = Some v;
}.
#[global] Hint Mode NamedEnum ! : typeclass_instances.

(** [from_name] of the macro. *)
Definition from_name {A} `{NamedEnum A} (n : str) : option A := find_name enum_all enum_name n.

Lemma enum_name_inj {A} `{NamedEnum A} (a b : A) : enum_name a = enum_name b -> a = b.
Proof. intros He. pose proof (enum_find_name a) as Ha. rewrite He, enum_find_name in Ha. congruence. Qed.

Ltac solve_named := intros []; vm_compute; tauto.

(** ** Vocabulary (crates/syntheke/src/vocab.rs, budget.rs) *)

Module Capability.
Inductive Capability : Set :=
  | SessionCreate | SessionFork | Capture | Ingest | Read | Query | GrantIssue
  | GrantRevoke | AuditQuery.
#[global] Instance Capability_eq_dec : EqDecision Capability.
Proof. solve_decision. Defined.
#[global, refine] Instance Capability_named : NamedEnum Capability := {|
  enum_all := [
    SessionCreate; SessionFork; Capture; Ingest; Read; Query; GrantIssue;
    GrantRevoke; AuditQuery];
  enum_name v := lit match v with
    | SessionCreate => "SessionCreate"
    | SessionFork => "SessionFork"
    | Capture => "Capture"
    | Ingest => "Ingest"
    | Read => "Read"
    | Query => "Query"
    | GrantIssue => "GrantIssue"
    | GrantRevoke => "GrantRevoke"
    | AuditQuery => "AuditQuery"
    end |}.
Proof. all: solve_named. Defined.
End Capability.
Abbreviation Capability := Capability.Capability.

(** [Capability::is_state_changing]. *)
Definition is_state_changing (c : Capability) : bool :=
  match c with
  | Capability.SessionCreate | Capability.SessionFork | Capability.Capture
  | Capability.Ingest | Capability.GrantIssue | Capability.GrantRevoke => true
  | Capability.Read | Capability.Query | Capability.AuditQuery => false
  end.

Module Mode.
Inductive Mode : Set :=
  | Execute | DryRun.
#[global] Instance Mode_eq_dec : EqDecision Mode.
Proof. solve_decision. Defined.
#[global, refine] Instance Mode_named : NamedEnum Mode := {|
  enum_all := [
    Execute; DryRun];
  enum_name v := lit match v with
    | Execute => "Execute"
    | DryRun => "DryRun"
    end |}.
Proof. all: solve_named. Defined.
End Mode.
Abbreviation Mode := Mode.Mode.

Module TenantClass.
Inductive TenantClass : Set :=
  | Operator | Agent | SubAgent.
#[global] Instance TenantClass_eq_dec : EqDecision TenantClass.
Proof. solve_decision. Defined.
#[global, refine] Instance TenantClass_named : NamedEnum TenantClass := {|
  enum_all := [
    Operator; Agent; SubAgent];
  enum_name v := lit match v with
    | Operator => "Operator"
    | Agent => "Agent"
    | SubAgent => "SubAgent"
    end |}.
Proof. all: solve_named. Defined.
End TenantClass.
Abbreviation TenantClass := TenantClass.TenantClass.

Module AuditScope.
Inductive AuditScope : Set :=
  | All | OwnAndOwnedSessions.
#[global] Instance AuditScope_eq_dec : EqDecision AuditScope.
Proof. solve_decision. Defined.
#[global, refine] Instance AuditScope_named : NamedEnum AuditScope := {|
  enum_all := [
    All; OwnAndOwnedSessions];
  enum_name v := lit match v with
    | All => "All"
    | OwnAndOwnedSessions => "OwnAndOwnedSessions"
    end |}.
Proof. all: solve_named. Defined.
End AuditScope.
Abbreviation AuditScope := AuditScope.AuditScope.

Module Dimension.
Inductive Dimension : Set :=
  | WallTimeMs | Fetches | BytesTransferred | OutputBytes | Tokens | OpsBand.
#[global] Instance Dimension_eq_dec : EqDecision Dimension.
Proof. solve_decision. Defined.
#[global, refine] Instance Dimension_named : NamedEnum Dimension := {|
  enum_all := [
    WallTimeMs; Fetches; BytesTransferred; OutputBytes; Tokens; OpsBand];
  enum_name v := lit match v with
    | WallTimeMs => "wall_time_ms"
    | Fetches => "fetches"
    | BytesTransferred => "bytes_transferred"
    | OutputBytes => "output_bytes"
    | Tokens => "tokens"
    | OpsBand => "ops_band"
    end |}.
Proof. all: solve_named. Defined.
End Dimension.
Abbreviation Dimension := Dimension.Dimension.

(** [Ceilings]: [None] sets no ceiling on the dimension. *)
Module Ceilings.
Record Ceilings : Set := mk {
  wall_time_ms : option Z; fetches : option Z; bytes_transferred : option Z;
  output_bytes : option Z; tokens : option Z; ops_band : option Z;
}.
#[global] Instance Ceilings_eq_dec : EqDecision Ceilings.
Proof. solve_decision. Defined.
End Ceilings.
Abbreviation Ceilings := Ceilings.Ceilings.

(** [Ceilings::get]. *)
Definition ceilings_get (c : Ceilings) (d : Dimension) : option Z :=
  match d with
  | Dimension.WallTimeMs => Ceilings.wall_time_ms c
  | Dimension.Fetches => Ceilings.fetches c
  | Dimension.BytesTransferred => Ceilings.bytes_transferred c
  | Dimension.OutputBytes => Ceilings.output_bytes c
  | Dimension.Tokens => Ceilings.tokens c
  | Dimension.OpsBand => Ceilings.ops_band c
  end.

(** [Cost]: an amount on every dimension. *)
Module Cost.
Record Cost : Set := mk {
  wall_time_ms : Z; fetches : Z; bytes_transferred : Z;
  output_bytes : Z; tokens : Z; ops_band : Z;
}.
#[global] Instance Cost_eq_dec : EqDecision Cost.
Proof. solve_decision. Defined.
End Cost.
Abbreviation Cost := Cost.Cost.

(** [Cost::get]. *)
Definition cost_get (c : Cost) (d : Dimension) : Z :=
  match d with
  | Dimension.WallTimeMs => Cost.wall_time_ms c
  | Dimension.Fetches => Cost.fetches c
  | Dimension.BytesTransferred => Cost.bytes_transferred c
  | Dimension.OutputBytes => Cost.output_bytes c
  | Dimension.Tokens => Cost.tokens c
  | Dimension.OpsBand => Cost.ops_band c
  end.

(** [Ceilings::default] and [Cost::default]. *)
Definition ceilings_default : Ceilings := Ceilings.mk None None None None None None.
Definition cost_default : Cost := Cost.mk 0 0 0 0 0 0.

(** ** Outcomes (crates/syntheke/src/outcome.rs) *)

Module DenyCode.
Inductive DenyCode : Set :=
  | CapabilityNotGranted | ScopeViolation | GrantNotYetValid | GrantExpired
  | GrantRevoked | NarrowingViolation | BudgetUnavailable | SessionRequired
  | NotSupported.
#[global] Instance DenyCode_eq_dec : EqDecision DenyCode.
Proof. solve_decision. Defined.
#[global, refine] Instance DenyCode_named : NamedEnum DenyCode := {|
  enum_all := [
    CapabilityNotGranted; ScopeViolation; GrantNotYetValid; GrantExpired;
    GrantRevoked; NarrowingViolation; BudgetUnavailable; SessionRequired; NotSupported];
  enum_name v := lit match v with
    | CapabilityNotGranted => "CapabilityNotGranted"
    | ScopeViolation => "ScopeViolation"
    | GrantNotYetValid => "GrantNotYetValid"
    | GrantExpired => "GrantExpired"
    | GrantRevoked => "GrantRevoked"
    | NarrowingViolation => "NarrowingViolation"
    | BudgetUnavailable => "BudgetUnavailable"
    | SessionRequired => "SessionRequired"
    | NotSupported => "NotSupported"
    end |}.
Proof. all: solve_named. Defined.
End DenyCode.
Abbreviation DenyCode := DenyCode.DenyCode.

Module NarrowingAxis.
Inductive NarrowingAxis : Set :=
  | Capabilities | AuditScope | SessionScope | TargetScope | Ceilings | Expiry
  | Depth | IssuerAuthority.
#[global] Instance NarrowingAxis_eq_dec : EqDecision NarrowingAxis.
Proof. solve_decision. Defined.
#[global, refine] Instance NarrowingAxis_named : NamedEnum NarrowingAxis := {|
  enum_all := [
    Capabilities; AuditScope; SessionScope; TargetScope; Ceilings; Expiry; Depth;
    IssuerAuthority];
  enum_name v := lit match v with
    | Capabilities => "capabilities"
    | AuditScope => "audit_scope"
    | SessionScope => "session_scope"
    | TargetScope => "target_scope"
    | Ceilings => "ceilings"
    | Expiry => "expiry"
    | Depth => "depth"
    | IssuerAuthority => "issuer_authority"
    end |}.
Proof. all: solve_named. Defined.
End NarrowingAxis.
Abbreviation NarrowingAxis := NarrowingAxis.NarrowingAxis.

Module TransferClass.
Inductive TransferClass : Set :=
  | Reset | Timeout | TooLarge | Status | Redirect | Tls | PolicyRefused.
#[global] Instance TransferClass_eq_dec : EqDecision TransferClass.
Proof. solve_decision. Defined.
#[global, refine] Instance TransferClass_named : NamedEnum TransferClass := {|
  enum_all := [
    Reset; Timeout; TooLarge; Status; Redirect; Tls; PolicyRefused];
  enum_name v := lit match v with
    | Reset => "Reset"
    | Timeout => "Timeout"
    | TooLarge => "TooLarge"
    | Status => "Status"
    | Redirect => "Redirect"
    | Tls => "Tls"
    | PolicyRefused => "PolicyRefused"
    end |}.
Proof. all: solve_named. Defined.
End TransferClass.
Abbreviation TransferClass := TransferClass.TransferClass.

Module ExtractionClass.
Inductive ExtractionClass : Set :=
  | Malformed | Unsupported | TooLarge.
#[global] Instance ExtractionClass_eq_dec : EqDecision ExtractionClass.
Proof. solve_decision. Defined.
#[global, refine] Instance ExtractionClass_named : NamedEnum ExtractionClass := {|
  enum_all := [
    Malformed; Unsupported; TooLarge];
  enum_name v := lit match v with
    | Malformed => "Malformed"
    | Unsupported => "Unsupported"
    | TooLarge => "TooLarge"
    end |}.
Proof. all: solve_named. Defined.
End ExtractionClass.
Abbreviation ExtractionClass := ExtractionClass.ExtractionClass.

Module OutcomeKind.
Inductive OutcomeKind : Set :=
  | Success | Plan | InProgress | ProtocolError | AuthFailed | Denied
  | NotFoundOrDenied | BudgetExceeded | ProducerUnavailable | TransferFailed
  | ExtractionFailed | DeadlineExceeded | Cancelled | UnknownEffect
  | IdempotencyConflict.
#[global] Instance OutcomeKind_eq_dec : EqDecision OutcomeKind.
Proof. solve_decision. Defined.
#[global, refine] Instance OutcomeKind_named : NamedEnum OutcomeKind := {|
  enum_all := [
    Success; Plan; InProgress; ProtocolError; AuthFailed; Denied; NotFoundOrDenied;
    BudgetExceeded; ProducerUnavailable; TransferFailed; ExtractionFailed;
    DeadlineExceeded; Cancelled; UnknownEffect; IdempotencyConflict];
  enum_name v := lit match v with
    | Success => "Success"
    | Plan => "Plan"
    | InProgress => "InProgress"
    | ProtocolError => "ProtocolError"
    | AuthFailed => "AuthFailed"
    | Denied => "Denied"
    | NotFoundOrDenied => "NotFoundOrDenied"
    | BudgetExceeded => "BudgetExceeded"
    | ProducerUnavailable => "ProducerUnavailable"
    | TransferFailed => "TransferFailed"
    | ExtractionFailed => "ExtractionFailed"
    | DeadlineExceeded => "DeadlineExceeded"
    | Cancelled => "Cancelled"
    | UnknownEffect => "UnknownEffect"
    | IdempotencyConflict => "IdempotencyConflict"
    end |}.
Proof. all: solve_named. Defined.
End OutcomeKind.
Abbreviation OutcomeKind := OutcomeKind.OutcomeKind.

Module InvocationState.
Inductive InvocationState : Set :=
  | Planned | Denied | IntentPersisted | Dispatched | TransferComplete | Published
  | Settled | Released | UnknownEffect.
#[global] Instance InvocationState_eq_dec : EqDecision InvocationState.
Proof. solve_decision. Defined.
#[global, refine] Instance InvocationState_named : NamedEnum InvocationState := {|
  enum_all := [
    Planned; Denied; IntentPersisted; Dispatched; TransferComplete; Published;
    Settled; Released; UnknownEffect];
  enum_name v := lit match v with
    | Planned => "Planned"
    | Denied => "Denied"
    | IntentPersisted => "IntentPersisted"
    | Dispatched => "Dispatched"
    | TransferComplete => "TransferComplete"
    | Published => "Published"
    | Settled => "Settled"
    | Released => "Released"
    | UnknownEffect => "UnknownEffect"
    end |}.
Proof. all: solve_named. Defined.
End InvocationState.
Abbreviation InvocationState := InvocationState.InvocationState.

Module ReleaseReason.
Inductive ReleaseReason : Set :=
  | Abandoned | Revoked | ProducerUnavailable | Cancelled | DeadlineExceeded | Expired.
#[global] Instance ReleaseReason_eq_dec : EqDecision ReleaseReason.
Proof. solve_decision. Defined.
#[global, refine] Instance ReleaseReason_named : NamedEnum ReleaseReason := {|
  enum_all := [
    Abandoned; Revoked; ProducerUnavailable; Cancelled; DeadlineExceeded; Expired];
  enum_name v := lit match v with
    | Abandoned => "Abandoned"
    | Revoked => "Revoked"
    | ProducerUnavailable => "ProducerUnavailable"
    | Cancelled => "Cancelled"
    | DeadlineExceeded => "DeadlineExceeded"
    | Expired => "Expired"
    end |}.
Proof. all: solve_named. Defined.
End ReleaseReason.
Abbreviation ReleaseReason := ReleaseReason.ReleaseReason.

(** [InvocationState::is_terminal] and [InvocationState::is_durable]. *)
Definition is_terminal (s : InvocationState) : bool :=
  match s with
  | InvocationState.Denied | InvocationState.Settled
  | InvocationState.Released | InvocationState.UnknownEffect => true
  | _ => false
  end.
Definition is_durable (s : InvocationState) : bool :=
  match s with InvocationState.Planned => false | _ => true end.

(** [Failure]: what a caller observes. *)
Module Failure.
Inductive Failure : Set :=
| ProtocolError
| AuthFailed
| Denied (code : DenyCode) (axis : option NarrowingAxis)
| NotFoundOrDenied
| BudgetExceeded (dimension : Dimension)
| ProducerUnavailable
| TransferFailed (class : TransferClass)
| ExtractionFailed (class : ExtractionClass)
| DeadlineExceeded
| Cancelled
| UnknownEffect
| IdempotencyConflict.
#[global] Instance Failure_eq_dec : EqDecision Failure.
Proof. solve_decision. Defined.
End Failure.
Abbreviation Failure := Failure.Failure.

(** [Failure::denied], [Failure::narrowing], [Failure::is_well_formed] and
    [Failure::kind]. *)
Definition failure_denied (code : DenyCode) : Failure := Failure.Denied code None.
Definition failure_narrowing (axis : NarrowingAxis) : Failure :=
  Failure.Denied DenyCode.NarrowingViolation (Some axis).
Definition is_well_formed (f : Failure) : bool :=
  match f with
  | Failure.Denied code axis =>
      Bool.eqb (match code with DenyCode.NarrowingViolation => true | _ => false end)
               (match axis with Some _ => true | None => false end)
  | _ => true
  end.
Definition failure_kind (f : Failure) : OutcomeKind :=
  match f with
  | Failure.ProtocolError => OutcomeKind.ProtocolError
  | Failure.AuthFailed => OutcomeKind.AuthFailed
  | Failure.Denied _ _ => OutcomeKind.Denied
  | Failure.NotFoundOrDenied => OutcomeKind.NotFoundOrDenied
  | Failure.BudgetExceeded _ => OutcomeKind.BudgetExceeded
  | Failure.ProducerUnavailable => OutcomeKind.ProducerUnavailable
  | Failure.TransferFailed _ => OutcomeKind.TransferFailed
  | Failure.ExtractionFailed _ => OutcomeKind.ExtractionFailed
  | Failure.DeadlineExceeded => OutcomeKind.DeadlineExceeded
  | Failure.Cancelled => OutcomeKind.Cancelled
  | Failure.UnknownEffect => OutcomeKind.UnknownEffect
  | Failure.IdempotencyConflict => OutcomeKind.IdempotencyConflict
  end.

(** ** Countable enums, for use as map keys and in sets *)

Definition named_countable {A} `{EqDecision A} `{NamedEnum A} : Countable A :=
  inj_countable (enum_name : A -> str) from_name enum_find_name.
#[global] Instance Capability_countable : Countable Capability := named_countable.
#[global] Instance Dimension_countable : Countable Dimension := named_countable.

(** ** Per-dimension reasoning *)

Lemma cost_ext (a b : Cost) : (forall d, cost_get a d = cost_get b d) -> a = b.
Proof.
  intros H. destruct a, b. f_equal.
  - apply (H Dimension.WallTimeMs).
  - apply (H Dimension.Fetches).
  - apply (H Dimension.BytesTransferred).
  - apply (H Dimension.OutputBytes).
  - apply (H Dimension.Tokens).
  - apply (H Dimension.OpsBand).
Qed.

(** A test on every dimension of [Dimension::ALL]. *)
Lemma forallb_dimensions (P : Dimension -> bool) :
  forallb P enum_all = true <-> forall d, P d = true.
Proof.
  rewrite forallb_forall. split; [|auto]. intros H d. apply H, enum_complete.
Qed.

(** Every amount of a cost is a [u64]. *)
Definition cost_wf (c : Cost) : Prop := forall d, in_range u64_max (cost_get c d).
Definition ceilings_wf (c : Ceilings) : Prop :=
  forall d z, ceilings_get c d = Some z -> in_range u64_max z.
Definition cost_wfb (c : Cost) : bool :=
  forallb (fun d => bool_decide (in_range u64_max (cost_get c d))) enum_all.
Lemma cost_wfb_spec c : cost_wfb c = true <-> cost_wf c.
Proof.
  unfold cost_wfb. rewrite forallb_dimensions.
  split; intros H d; specialize (H d); by apply bool_decide_eq_true in H || apply bool_decide_eq_true.
Qed.

(** ** Frame kinds and the crate error (wire.rs, error.rs)

    The source locations and the opaque error sources of rkyv are dropped;
    every other field is kept. *)
Module FrameKind.
Inductive FrameKind : Set :=
| ClientHello | ServerHello | Auth | Admitted_ | Request | Cancel | Response | Fault.
#[global] Instance FrameKind_eq_dec : EqDecision FrameKind.
Proof. solve_decision. Defined.
#[global, refine] Instance FrameKind_named : NamedEnum FrameKind := {|
  enum_all := [ClientHello; ServerHello; Auth; Admitted_; Request; Cancel; Response; Fault];
  enum_name v := lit match v with
    | ClientHello => "ClientHello"
    | ServerHello => "ServerHello"
    | Auth => "Auth"
    | Admitted_ => "Admitted"
    | Request => "Request"
    | Cancel => "Cancel"
    | Response => "Response"
    | Fault => "Fault"
    end |}.
Proof. all: solve_named. Defined.
End FrameKind.
Abbreviation FrameKind := FrameKind.FrameKind.

Inductive SynthekeError : Set :=
| UlidLength (len : nat)
| UlidCharacter (position : nat)
| UlidOverflow
| IdempotencyKeyLength (len : nat)
| BadMagic (found : bytes)
| UnknownFrameKind (kind : byte)
| UnknownFlags (flags : byte)
| NonzeroReserved (reserved : Z)
| FrameTooLarge (len : Z) (cap : Z)
| BodyLengthMismatch (declared : Z) (actual : Z)
| UnexpectedFrameKind (expected found : FrameKind)
| InvalidArchive
| NonCanonical (len : Z) (canonical_len : Z)
| EncodeFailed
| InvalidVersionRange (min max : Z)
| MaxFrameOutOfRange (max_frame : Z)
| MissingIdempotencyKey (capability : Capability)
| PredicateTooLong (len : nat) (max : nat)
| FaultNotConnectionLevel (kind : OutcomeKind)
| DeniedAxisMismatch.
