(* ===== verification/Ids.v ===== *)
(** * Identifiers ([syntheke::ids])

    The 16-byte identifiers with their ULID text form, sequence numbers,
    timestamps and idempotency keys. [[u8; 16]] is a list of bytes; where
    the fixed length matters the statements say so. *)
From S2P Require Import Prelude Vocab.
Local Open Scope Z_scope.

Definition ULID_LEN : nat := 26.
Definition ALPHABET : str := lit "0123456789ABCDEFGHJKMNPQRSTVWXYZ".
Definition MAX_LEADING_DIGIT : Z := 7.

(** The loop of [write_ulid]: fills [n] slots from the last to the first. *)
Fixpoint write_slots (n : nat) (value : Z) (out : str) : str :=
  match n with
  | O => out
  | S n =>
      let low := Z.land value 31 in
      write_slots n (Z.shiftr value 5) (default "0"%byte (ALPHABET !! Z.to_nat low) :: out)
  end.
Definition write_ulid (b : bytes) : str := write_slots ULID_LEN (from_be_bytes b) [].

(** [ALPHABET.iter().position(|&symbol| symbol == upper)]. *)
Fixpoint position_of (c : byte) (l : str) (i : Z) : option Z :=
  match l with
  | [] => None
  | s :: l => if bool_decide (s = c) then Some i else position_of c l (i + 1)
  end.

(** The loop of [parse_ulid]; the value is a [u128], whose left shift drops
    the bits above the width. *)
Fixpoint parse_digits (position : nat) (value : Z) (l : str) : result SynthekeError Z :=
  match l with
  | [] => Ok value
  | c :: l =>
      digit ← ok_or (position_of (to_ascii_uppercase c) ALPHABET 0) (UlidCharacter position);
      _ ← ensure (negb (Nat.eqb position 0) || (digit <=? MAX_LEADING_DIGIT)) UlidOverflow;
      parse_digits (S position) (Z.lor (Z.shiftl value 5 mod 2 ^ 128) digit) l
  end.
Definition parse_ulid (text : str) : result SynthekeError bytes :=
  _ ← ensure (Nat.eqb (length text) ULID_LEN) (UlidLength (length text));
  value ← parse_digits 0 0 text;
  Ok (to_be_bytes 16 value).

(** ** The identifier newtypes ([ulid_id!]) *)

Record TenantId : Set := TenantId_from_bytes { TenantId_to_bytes : bytes }.
Record GrantId : Set := GrantId_from_bytes { GrantId_to_bytes : bytes }.
Record SessionId : Set := SessionId_from_bytes { SessionId_to_bytes : bytes }.
Record InvocationId : Set := InvocationId_from_bytes { InvocationId_to_bytes : bytes }.
Record ArtifactRef : Set := ArtifactRef_from_bytes { ArtifactRef_to_bytes : bytes }.
Record ReservationId : Set := ReservationId_from_bytes { ReservationId_to_bytes : bytes }.

#[global] Instance TenantId_eq_dec : EqDecision TenantId.
Proof. solve_decision. Defined.
#[global] Instance GrantId_eq_dec : EqDecision GrantId.
Proof. solve_decision. Defined.
#[global] Instance SessionId_eq_dec : EqDecision SessionId.
Proof. solve_decision. Defined.
#[global] Instance InvocationId_eq_dec : EqDecision InvocationId.
Proof. solve_decision. Defined.
#[global] Instance ArtifactRef_eq_dec : EqDecision ArtifactRef.
Proof. solve_decision. Defined.
#[global] Instance ReservationId_eq_dec : EqDecision ReservationId.
Proof. solve_decision. Defined.

Ltac solve_newtype_countable mk proj :=
  refine (inj_countable' proj mk _); intros []; reflexivity.
#[global] Instance TenantId_countable : Countable TenantId.
Proof. solve_newtype_countable TenantId_from_bytes TenantId_to_bytes. Defined.
#[global] Instance GrantId_countable : Countable GrantId.
Proof. solve_newtype_countable GrantId_from_bytes GrantId_to_bytes. Defined.
#[global] Instance SessionId_countable : Countable SessionId.
Proof. solve_newtype_countable SessionId_from_bytes SessionId_to_bytes. Defined.
#[global] Instance InvocationId_countable : Countable InvocationId.
Proof. solve_newtype_countable InvocationId_from_bytes InvocationId_to_bytes. Defined.
#[global] Instance ArtifactRef_countable : Countable ArtifactRef.
Proof. solve_newtype_countable ArtifactRef_from_bytes ArtifactRef_to_bytes. Defined.

(** [Display] and [FromStr] of an identifier. *)
Definition TenantId_display (id : TenantId) : str := write_ulid (TenantId_to_bytes id).
Definition TenantId_from_str (text : str) : result SynthekeError TenantId :=
  TenantId_from_bytes <$> parse_ulid text.

(** [AuditSeq] wraps a [u64], [Timestamp] an [i64]. *)
Abbreviation AuditSeq := Z (only parsing).
Abbreviation Timestamp := Z (only parsing).

(** ** [IdempotencyKey] *)

Definition IDEM_MIN_LEN : nat := 16.
Definition IDEM_MAX_LEN : nat := 64.
Record IdempotencyKey : Set := IdempotencyKey_unchecked { IdempotencyKey_as_bytes : bytes }.
#[global] Instance IdempotencyKey_eq_dec : EqDecision IdempotencyKey.
Proof. solve_decision. Defined.
#[global] Instance IdempotencyKey_countable : Countable IdempotencyKey.
Proof. solve_newtype_countable IdempotencyKey_unchecked IdempotencyKey_as_bytes. Defined.

Definition idem_len_ok (b : bytes) : bool :=
  (IDEM_MIN_LEN <=? length b)%nat && (length b <=? IDEM_MAX_LEN)%nat.
Definition idem_check (k : IdempotencyKey) : result SynthekeError unit :=
  let len := length (IdempotencyKey_as_bytes k) in
  ensure (idem_len_ok (IdempotencyKey_as_bytes k)) (IdempotencyKeyLength len).
Definition idem_new (b : bytes) : result SynthekeError IdempotencyKey :=
  let key := IdempotencyKey_unchecked b in
  _ ← idem_check key; Ok key.
Definition idem_from_slice (b : bytes) : result SynthekeError IdempotencyKey :=
  _ ← ensure (idem_len_ok b) (IdempotencyKeyLength (length b));
  Ok (IdempotencyKey_unchecked b).

(** ** Base-32 digits *)

Definition digit_char (d : Z) : byte := default "0"%byte (ALPHABET !! Z.to_nat d).
Definition digit_of (c : byte) : option Z := position_of (to_ascii_uppercase c) ALPHABET 0.

Definition digit_of_ok (c : byte) : bool :=
  match digit_of c with
  | Some d => (0 <=? d) && (d <? 32) && bool_decide (digit_char d = to_ascii_uppercase c)
  | None => true
  end.
Lemma digit_of_Some c d :
  digit_of c = Some d -> 0 <= d < 32 /\ digit_char d = to_ascii_uppercase c.
Proof.
  intros H. assert (digit_of_ok c = true) as Hok by (revert c H; clear; intros c _; revert c; by_all_bytes).
  unfold digit_of_ok in Hok. rewrite H in Hok. bool_simpl. auto.
Qed.

Lemma digit_of_char d : 0 <= d < 32 -> digit_of (digit_char d) = Some d.
Proof.
  intros Hd. rewrite <- (Z2Nat.id d) at 2 by lia. unfold digit_char.
  assert (Z.to_nat d < 32)%nat as Hn by lia. revert Hn. generalize (Z.to_nat d). clear.
  intros n Hn. do 32 (destruct n as [|n]; [vm_compute; reflexivity|]). lia.
Qed.

Lemma lor_shift5 x d : 0 <= d < 32 -> Z.lor (Z.shiftl x 5) d = 32 * x + d.
Proof.
  intros Hd. rewrite <- Z.lxor_lor, <- Z.add_nocarry_lxor.
  2,3: apply Z.bits_inj'; intros i Hi; rewrite Z.land_spec, Z.bits_0;
    destruct (Z.lt_ge_cases i 5);
    [ by rewrite Z.shiftl_spec_low | rewrite <- (Z.mod_small d (2 ^ 5)) by lia;
      rewrite Z.mod_pow2_bits_high by lia; apply andb_false_r ].
  rewrite Z.shiftl_mul_pow2 by lia. lia.
Qed.

Lemma land31 x d : 0 <= d < 32 -> Z.land (32 * x + d) 31 = d.
Proof.
  intros. change 31 with (Z.ones 5). rewrite Z.land_ones, Z.add_comm, Z.mul_comm by lia.
  change (2 ^ 5) with 32. rewrite Z.mod_add by lia. apply Z.mod_small. lia.
Qed.
Lemma shiftr5 x d : 0 <= d < 32 -> Z.shiftr (32 * x + d) 5 = x.
Proof.
  intros. rewrite Z.shiftr_div_pow2 by lia. change (2 ^ 5) with 32.
  rewrite Z.add_comm, Z.mul_comm, Z.div_add, Z.div_small by lia. lia.
Qed.

(** The value a ULID's first [n] digits hold is below [8 * 32 ^ (n - 1)],
    because the leading digit is at most 7. *)
Definition ulid_bound (n : nat) : Z := if (n =? 0)%nat then 1 else 8 * 32 ^ (Z.of_nat n - 1).
Lemma ulid_bound_S n : (0 < n)%nat -> ulid_bound (S n) = 32 * ulid_bound n.
Proof.
  intros. unfold ulid_bound. destruct n as [|n]; [lia|]. cbn [Nat.eqb].
  replace (Z.of_nat (S (S n)) - 1) with (Z.succ (Z.of_nat (S n) - 1)) by lia.
  rewrite Z.pow_succ_r by lia. lia.
Qed.
Lemma ulid_bound_le n : (n <= 26)%nat -> ulid_bound n <= 2 ^ 128.
Proof.
  intros. do 27 (destruct n as [|n]; [vm_compute; discriminate|]). lia.
Qed.

Lemma write_slots_app n v out : write_slots n v out = write_slots n v [] ++ out.
Proof.
  revert v out; induction n as [|n IH]; intros v out; cbn; [done|].
  rewrite IH, (IH _ [_]). by rewrite <- app_assoc.
Qed.
Lemma write_slots_S n v :
  write_slots (S n) v [] = write_slots n (Z.shiftr v 5) [] ++ [digit_char (Z.land v 31)].
Proof. cbn [write_slots]. apply write_slots_app. Qed.
Lemma length_write_slots n v : length (write_slots n v []) = n.
Proof. revert v; induction n; intros; [done|]. rewrite write_slots_S, length_app, IHn. cbn; lia. Qed.

Lemma parse_digits_app p v l1 l2 :
  parse_digits p v (l1 ++ l2) =
  (v' ← parse_digits p v l1; parse_digits (p + length l1) v' l2).
Proof.
  revert p v; induction l1 as [|c l1 IH]; intros p v; cbn.
  - by rewrite Nat.add_0_r.
  - destruct (ok_or _ _); cbn; [|done]. destruct (ensure _ _); cbn; [|done].
    rewrite IH. by rewrite Nat.add_succ_r.
Qed.

(** One more digit after at least one: no bit is lost and no check fails. *)
Lemma parse_digits_last p v c d :
  (0 < p <= 25)%nat -> 0 <= v < ulid_bound p -> digit_of c = Some d ->
  parse_digits p v [c] = Ok (32 * v + d).
Proof.
  intros Hp Hv Hd. cbn [parse_digits]. fold (digit_of c). rewrite Hd; cbn [ok_or].
  cbn. replace (Nat.eqb p 0) with false by (symmetry; apply Nat.eqb_neq; lia). cbn.
  apply digit_of_Some in Hd as [Hd _].
  pose proof (ulid_bound_S p ltac:(lia)). pose proof (ulid_bound_le (S p) ltac:(lia)).
  rewrite Z.mod_small, lor_shift5; [done|done|].
  rewrite Z.shiftl_mul_pow2 by lia. lia.
Qed.

Lemma parse_digits_first c :
  parse_digits 0 0 [c] =
  (d ← ok_or (digit_of c) (UlidCharacter 0); _ ← ensure (d <=? 7) UlidOverflow; Ok d).
Proof. done. Qed.

Lemma parse_write_slots n v :
  (0 < n <= 26)%nat -> 0 <= v < ulid_bound n -> parse_digits 0 0 (write_slots n v []) = Ok v.
Proof.
  revert v; induction n as [|n IH]; intros v Hn Hv; [lia|].
  rewrite write_slots_S, parse_digits_app, length_write_slots.
  assert (exists x d, v = 32 * x + d /\ 0 <= d < 32) as (x & d & -> & Hd).
  { exists (v / 32), (v mod 32). pose proof (Z.mod_pos_bound v 32). pose proof (Z.div_mod v 32). lia. }
  rewrite shiftr5, land31 by done. destruct n as [|n].
  - unfold ulid_bound in Hv; cbn in Hv.
    change (parse_digits 0 0 [digit_char d] = Ok (32 * x + d)).
    rewrite parse_digits_first, digit_of_char by lia. cbn.
    destruct (Z.leb_spec d 7); [|lia]. cbn. f_equal. lia.
  - pose proof (ulid_bound_S (S n) ltac:(lia)).
    rewrite IH by lia. cbn [mbind result_bind].
    rewrite Nat.add_0_l. apply parse_digits_last; [lia|lia|]. by apply digit_of_char.
Qed.

Lemma parse_digits_sound l v :
  (0 < length l <= 26)%nat -> parse_digits 0 0 l = Ok v ->
  0 <= v < ulid_bound (length l) /\ write_slots (length l) v [] = to_ascii_uppercase <$> l.
Proof.
  revert v; induction l as [|c l IH] using rev_ind; intros v Hl Hp; [cbn in Hl; lia|].
  rewrite length_app in *; cbn [length] in *. rewrite parse_digits_app in Hp.
  apply bind_Ok in Hp as (x & Hx & Hp). destruct l as [|c' l].
  - injection Hx as <-. change (parse_digits 0 0 [c] = Ok v) in Hp.
    rewrite parse_digits_first in Hp. inv_ok.
    match goal with H : digit_of c = Some _ |- _ => apply digit_of_Some in H as [? Hc] end.
    bool_simpl. unfold ulid_bound; cbn. split; [lia|].
    pose proof (land31 0 v) as HL. rewrite Z.add_0_l in HL. cbn [write_slots].
    rewrite HL by lia. f_equal. exact Hc.
  - destruct (IH x ltac:(cbn in *; lia) Hx) as [Hb Hw].
    assert (exists d, digit_of c = Some d) as [d Hd].
    { cbn [parse_digits] in Hp. inv_ok. eauto. }
    rewrite parse_digits_last with (d := d) in Hp; [|cbn in *; lia|done|done].
    injection Hp as <-. apply digit_of_Some in Hd as [Hd Hc].
    pose proof (ulid_bound_S (length (c' :: l)) ltac:(cbn; lia)).
    rewrite Nat.add_1_r, write_slots_S, shiftr5, land31, Hw, fmap_app, Hc by done.
    split; [lia|done].
Qed.

Lemma from_be_bytes_range b : length b = 16%nat -> 0 <= from_be_bytes b < 2 ^ 128.
Proof.
  intros Hb. unfold from_be_bytes. pose proof (from_le_bytes_range (reverse b)) as H.
  rewrite length_reverse, Hb in H. exact H.
Qed.
Lemma to_from_be_bytes b : to_be_bytes (length b) (from_be_bytes b) = b.
Proof.
  unfold to_be_bytes, from_be_bytes. rewrite <- (length_reverse b).
  by rewrite to_from_le_bytes, reverse_involutive.
Qed.
Lemma from_to_be_bytes n v :
  0 <= v < 256 ^ Z.of_nat n -> from_be_bytes (to_be_bytes n v) = v.
Proof.
  intros. unfold to_be_bytes, from_be_bytes. rewrite reverse_involutive, from_to_le_bytes.
  by apply Z.mod_small.
Qed.

(** Identifier text round trip: printing 16 bytes as a ULID and parsing
    the text gives the same 16 bytes back. *)
Theorem ulid_roundtrip (b : bytes) :
  length b = 16%nat -> parse_ulid (write_ulid b) = Ok b.
Proof.
  intros Hb. unfold parse_ulid, write_ulid.
  rewrite length_write_slots. cbn [ULID_LEN Nat.eqb ensure mbind result_bind].
  rewrite parse_write_slots.
  - cbn [mbind result_bind]. by rewrite <- Hb, to_from_be_bytes.
  - unfold ULID_LEN; lia.
  - apply from_be_bytes_range, Hb.
Qed.

(** One accepted spelling per identifier and letter case: a text that
    parses holds exactly the canonical characters of the identifier it
    parses to, up to ASCII case, and it parses to 16 bytes. *)
Theorem ulid_canonical (text : str) (b : bytes) :
  parse_ulid text = Ok b ->
  length b = 16%nat /\ write_ulid b = to_ascii_uppercase <$> text.
Proof.
  unfold parse_ulid, write_ulid. intros H. inv_ok.
  match goal with H : Nat.eqb _ _ = true |- _ => apply Nat.eqb_eq in H as Hlen end.
  match goal with H : parse_digits 0 0 _ = Ok _ |- _ => apply parse_digits_sound in H as [Hv Hw] end.
  2: { unfold ULID_LEN in *; lia. }
  split; [apply length_reverse|]. rewrite from_to_be_bytes.
  - by rewrite <- Hlen.
  - rewrite Hlen in Hv. exact Hv.
Qed.
