(* ===== verification/Payload.v ===== *)
(** * Request and response payloads ([syntheke::payload], [SessionScope])

    Plain data, one record per payload type. [Vec<T>] is a list, [String]
    its UTF-8 bytes, an unsigned integer a [Z]. *)
From S2P Require Import Prelude Vocab Ids.
Local Open Scope Z_scope.

Definition MAX_QUERY_PREDICATE_LEN : nat := 1024.

(** [SessionScope] (vocab.rs). *)
Module SessionScope.
Inductive SessionScope : Set :=
| Own
| Sessions (sessions : list SessionId).
#[global] Instance SessionScope_eq_dec : EqDecision SessionScope.
Proof. solve_decision. Defined.
End SessionScope.
Abbreviation SessionScope := SessionScope.SessionScope.

(** [SessionFork]. *)
Module SessionForkRequest.
Record SessionForkRequest : Set := mk {
  parent_session : SessionId;
}.
#[global] Instance SessionForkRequest_eq_dec : EqDecision SessionForkRequest.
Proof. solve_decision. Defined.
End SessionForkRequest.
Abbreviation SessionForkRequest := SessionForkRequest.SessionForkRequest.

(** Caller-set bounds on one capture. *)
Module CaptureLimits.
Record CaptureLimits : Set := mk {
  max_output_bytes : option Z;
  max_transfer_bytes : option Z;
}.
#[global] Instance CaptureLimits_eq_dec : EqDecision CaptureLimits.
Proof. solve_decision. Defined.
End CaptureLimits.
Abbreviation CaptureLimits := CaptureLimits.CaptureLimits.

(** The caller's egress policy, opaque. *)
Module EgressPolicy.
Record EgressPolicy : Set := mk {
  policy_bytes : bytes;
}.
#[global] Instance EgressPolicy_eq_dec : EqDecision EgressPolicy.
Proof. solve_decision. Defined.
End EgressPolicy.
Abbreviation EgressPolicy := EgressPolicy.EgressPolicy.

(** [Capture]. *)
Module CaptureRequest.
Record CaptureRequest : Set := mk {
  session : SessionId;
  target : str;
  limits : CaptureLimits;
  egress_policy : option EgressPolicy;
}.
#[global] Instance CaptureRequest_eq_dec : EqDecision CaptureRequest.
Proof. solve_decision. Defined.
End CaptureRequest.
Abbreviation CaptureRequest := CaptureRequest.CaptureRequest.

(** [Ingest]. *)
Module IngestRequest.
Record IngestRequest : Set := mk {
  artifact_ref : ArtifactRef;
}.
#[global] Instance IngestRequest_eq_dec : EqDecision IngestRequest.
Proof. solve_decision. Defined.
End IngestRequest.
Abbreviation IngestRequest := IngestRequest.IngestRequest.

(** [Read]: [offset] is a [u64], [len] a [u32]. *)
Module ReadRequest.
Record ReadRequest : Set := mk {
  artifact_ref : ArtifactRef;
  offset : Z;
  len : Z;
}.
#[global] Instance ReadRequest_eq_dec : EqDecision ReadRequest.
Proof. solve_decision. Defined.
End ReadRequest.
Abbreviation ReadRequest := ReadRequest.ReadRequest.

(** [Query]. *)
Module QueryRequest.
Record QueryRequest : Set := mk {
  session_scope : option SessionId;
  predicate : str;
  limit : Z;
}.
#[global] Instance QueryRequest_eq_dec : EqDecision QueryRequest.
Proof. solve_decision. Defined.
End QueryRequest.
Abbreviation QueryRequest := QueryRequest.QueryRequest.

(** [GrantIssue]: the parent is the request's designated grant. *)
Module GrantIssueRequest.
Record GrantIssueRequest : Set := mk {
  holder : TenantId;
  capabilities : list Capability;
  session_scope : SessionScope;
  target_scope : list str;
  ceilings : Ceilings;
  not_before : Timestamp;
  expires_at : Timestamp;
  max_depth : option Z;
}.
#[global] Instance GrantIssueRequest_eq_dec : EqDecision GrantIssueRequest.
Proof. solve_decision. Defined.
End GrantIssueRequest.
Abbreviation GrantIssueRequest := GrantIssueRequest.GrantIssueRequest.

(** [GrantRevoke]. *)
Module GrantRevokeRequest.
Record GrantRevokeRequest : Set := mk {
  target_grant : GrantId;
}.
#[global] Instance GrantRevokeRequest_eq_dec : EqDecision GrantRevokeRequest.
Proof. solve_decision. Defined.
End GrantRevokeRequest.
Abbreviation GrantRevokeRequest := GrantRevokeRequest.GrantRevokeRequest.

(** [AuditQuery]. *)
Module AuditQueryRequest.
Record AuditQueryRequest : Set := mk {
  audit_scope : AuditScope;
  session : option SessionId;
  after : option AuditSeq;
  limit : Z;
}.
#[global] Instance AuditQueryRequest_eq_dec : EqDecision AuditQueryRequest.
Proof. solve_decision. Defined.
End AuditQueryRequest.
Abbreviation AuditQueryRequest := AuditQueryRequest.AuditQueryRequest.

(** [RequestBody]: the capability-specific body of a request. *)
Module RequestBody.
Inductive RequestBody : Set :=
| SessionCreate
| SessionFork (request : SessionForkRequest)
| Capture (request : CaptureRequest)
| Ingest (request : IngestRequest)
| Read (request : ReadRequest)
| Query (request : QueryRequest)
| GrantIssue (request : GrantIssueRequest)
| GrantRevoke (request : GrantRevokeRequest)
| AuditQuery (request : AuditQueryRequest).
#[global] Instance RequestBody_eq_dec : EqDecision RequestBody.
Proof. solve_decision. Defined.
End RequestBody.
Abbreviation RequestBody := RequestBody.RequestBody.

(** [RequestBody::capability]. *)
Definition body_capability (b : RequestBody) : Capability :=
  match b with
  | RequestBody.SessionCreate => Capability.SessionCreate
  | RequestBody.SessionFork _ => Capability.SessionFork
  | RequestBody.Capture _ => Capability.Capture
  | RequestBody.Ingest _ => Capability.Ingest
  | RequestBody.Read _ => Capability.Read
  | RequestBody.Query _ => Capability.Query
  | RequestBody.GrantIssue _ => Capability.GrantIssue
  | RequestBody.GrantRevoke _ => Capability.GrantRevoke
  | RequestBody.AuditQuery _ => Capability.AuditQuery
  end.

(** Reply to [SessionCreate] and [SessionFork]. *)
Module SessionOpened.
Record SessionOpened : Set := mk {
  session : SessionId;
  owner : TenantId;
  parent_session : option SessionId;
}.
#[global] Instance SessionOpened_eq_dec : EqDecision SessionOpened.
Proof. solve_decision. Defined.
End SessionOpened.
Abbreviation SessionOpened := SessionOpened.SessionOpened.

(** The evidence identity of a capture. *)
Module SourceRef.
Record SourceRef : Set := mk {
  fingerprint : str;
  schema_id : str;
  producer_revision : str;
}.
#[global] Instance SourceRef_eq_dec : EqDecision SourceRef.
Proof. solve_decision. Defined.
End SourceRef.
Abbreviation SourceRef := SourceRef.SourceRef.

(** Reply to [Capture]. *)
Module CaptureOutcome.
Record CaptureOutcome : Set := mk {
  artifact_ref : ArtifactRef;
  source : SourceRef;
  text_view : option str;
  truncated : bool;
  output_bytes : Z;
  revoked_after_effect : bool;
}.
#[global] Instance CaptureOutcome_eq_dec : EqDecision CaptureOutcome.
Proof. solve_decision. Defined.
End CaptureOutcome.
Abbreviation CaptureOutcome := CaptureOutcome.CaptureOutcome.

(** Reply to [Ingest]. *)
Module IngestReceipt.
Record IngestReceipt : Set := mk {
  artifact_ref : ArtifactRef;
}.
#[global] Instance IngestReceipt_eq_dec : EqDecision IngestReceipt.
Proof. solve_decision. Defined.
End IngestReceipt.
Abbreviation IngestReceipt := IngestReceipt.IngestReceipt.

(** Reply to [Read]. *)
Module ReadChunk.
Record ReadChunk : Set := mk {
  offset : Z;
  chunk : bytes;
  total_len : Z;
}.
#[global] Instance ReadChunk_eq_dec : EqDecision ReadChunk.
Proof. solve_decision. Defined.
End ReadChunk.
Abbreviation ReadChunk := ReadChunk.ReadChunk.

(** Reply to [Query]. *)
Module QueryPage.
Record QueryPage : Set := mk {
  result_refs : list ArtifactRef;
  more : bool;
}.
#[global] Instance QueryPage_eq_dec : EqDecision QueryPage.
Proof. solve_decision. Defined.
End QueryPage.
Abbreviation QueryPage := QueryPage.QueryPage.

(** Reply to [GrantIssue]. *)
Module GrantIssued.
Record GrantIssued : Set := mk {
  grant : GrantId;
  parent_grant : GrantId;
}.
#[global] Instance GrantIssued_eq_dec : EqDecision GrantIssued.
Proof. solve_decision. Defined.
End GrantIssued.
Abbreviation GrantIssued := GrantIssued.GrantIssued.

(** Reply to [GrantRevoke]. *)
Module GrantRevoked.
Record GrantRevoked : Set := mk {
  revoked_grant : GrantId;
  effect_sequence : AuditSeq;
  effect_time : Timestamp;
}.
#[global] Instance GrantRevoked_eq_dec : EqDecision GrantRevoked.
Proof. solve_decision. Defined.
End GrantRevoked.
Abbreviation GrantRevoked := GrantRevoked.GrantRevoked.

(** One audit record as returned by [AuditQuery]. *)
Module AuditRecord.
Record AuditRecord : Set := mk {
  seq : AuditSeq;
  time : Timestamp;
  tenant : TenantId;
  session : option SessionId;
  invocation : InvocationId;
  capability : Capability;
  state : InvocationState;
  outcome : OutcomeKind;
}.
#[global] Instance AuditRecord_eq_dec : EqDecision AuditRecord.
Proof. solve_decision. Defined.
End AuditRecord.
Abbreviation AuditRecord := AuditRecord.AuditRecord.

(** Reply to [AuditQuery]. *)
Module AuditPage.
Record AuditPage : Set := mk {
  scope_applied : AuditScope;
  records : list AuditRecord;
  next_after : option AuditSeq;
}.
#[global] Instance AuditPage_eq_dec : EqDecision AuditPage.
Proof. solve_decision. Defined.
End AuditPage.
Abbreviation AuditPage := AuditPage.AuditPage.

(** Reply to a dry-run. *)
Module Plan.
Record Plan : Set := mk {
  capability : Capability;
  cost : Cost;
  grant_chain : list GrantId;
  rule_chain : list str;
  refusal : option Failure;
}.
#[global] Instance Plan_eq_dec : EqDecision Plan.
Proof. solve_decision. Defined.
End Plan.
Abbreviation Plan := Plan.Plan.

(** [ResponseBody]: the body of a reply. *)
Module ResponseBody.
Inductive ResponseBody : Set :=
| SessionOpened (reply : SessionOpened)
| Captured (reply : CaptureOutcome)
| Ingested (reply : IngestReceipt)
| Chunk (reply : ReadChunk)
| QueryPage (reply : QueryPage)
| GrantIssued (reply : GrantIssued)
| GrantRevoked (reply : GrantRevoked)
| AuditPage (reply : AuditPage)
| Plan (reply : Plan)
| InProgress
| Failed (reply : Failure).
#[global] Instance ResponseBody_eq_dec : EqDecision ResponseBody.
Proof. solve_decision. Defined.
End ResponseBody.
Abbreviation ResponseBody := ResponseBody.ResponseBody.

(** [ResponseBody::outcome]. *)
Definition body_outcome (b : ResponseBody) : OutcomeKind :=
  match b with
  | ResponseBody.SessionOpened _ => OutcomeKind.Success
  | ResponseBody.Captured _ => OutcomeKind.Success
  | ResponseBody.Ingested _ => OutcomeKind.Success
  | ResponseBody.Chunk _ => OutcomeKind.Success
  | ResponseBody.QueryPage _ => OutcomeKind.Success
  | ResponseBody.GrantIssued _ => OutcomeKind.Success
  | ResponseBody.GrantRevoked _ => OutcomeKind.Success
  | ResponseBody.AuditPage _ => OutcomeKind.Success
  | ResponseBody.Plan _ => OutcomeKind.Plan
  | ResponseBody.InProgress => OutcomeKind.InProgress
  | ResponseBody.Failed failure => failure_kind failure
  end.
