(* ===== verification/Wire.v ===== *)
(** * Wire protocol ([syntheke::wire], [syntheke::codec])

    Frame header codec, handshake and request messages with their checks,
    version negotiation, the authentication transcript, and the validating
    body codec. The archive library (rkyv) is a parameter of the codec. *)
From S2P Require Import Prelude Vocab Ids Payload.
Local Open Scope Z_scope.

(** ** Constants *)
Definition CONTRACT_VERSION : Z := 1.
Definition WIRE_VERSION : Z := 1.
Definition MAGIC : bytes := lit "DPT1".
Definition HEADER_LEN : nat := 12.
Definition PRE_AUTH_MAX_BODY : Z := 4 * 1024.
Definition DEFAULT_MAX_BODY : Z := 1024 * 1024.
Definition HARD_MAX_BODY : Z := 4 * 1024 * 1024.
Definition AUTH_LABEL : bytes := lit "dioptron-auth-v1".
Definition NONCE_LEN : nat := 16.
Definition SIGNATURE_LEN : nat := 64.
Definition AUTH_TRANSCRIPT_LEN : nat := 66.

Definition clamp_cap (cap : Z) : Z := if cap >? HARD_MAX_BODY then HARD_MAX_BODY else cap.

(** ** Frame kinds *)
Definition kind_to_u8 (k : FrameKind) : Z :=
  match k with
  | FrameKind.ClientHello => 1 | FrameKind.ServerHello => 2 | FrameKind.Auth => 3
  | FrameKind.Admitted_ => 4 | FrameKind.Request => 5 | FrameKind.Cancel => 6
  | FrameKind.Response => 7 | FrameKind.Fault => 8
  end.
Definition kind_from_u8 (b : Z) : option FrameKind :=
  match b with
  | 1 => Some FrameKind.ClientHello | 2 => Some FrameKind.ServerHello
  | 3 => Some FrameKind.Auth | 4 => Some FrameKind.Admitted_
  | 5 => Some FrameKind.Request | 6 => Some FrameKind.Cancel
  | 7 => Some FrameKind.Response | 8 => Some FrameKind.Fault
  | _ => None
  end.

(** The name table, [FrameKind::ALL], [name] and [from_name]. *)
#[global, refine] Instance FrameKind_named : NamedEnum FrameKind := {|
  enum_all := [
    FrameKind.ClientHello; FrameKind.ServerHello; FrameKind.Auth; FrameKind.Admitted_;
    FrameKind.Request; FrameKind.Cancel; FrameKind.Response; FrameKind.Fault];
  enum_name v := lit match v with
    | FrameKind.ClientHello => "ClientHello"
    | FrameKind.ServerHello => "ServerHello"
    | FrameKind.Auth => "Auth"
    | FrameKind.Admitted_ => "Admitted"
    | FrameKind.Request => "Request"
    | FrameKind.Cancel => "Cancel"
    | FrameKind.Response => "Response"
    | FrameKind.Fault => "Fault"
    end |}.
Proof. all: solve_named. Defined.

(** ** Frame header *)
Definition FLAGS_KNOWN : Z := 0.
Definition FLAGS_NONE : byte := z2b 0.

Module FrameHeader.
Record FrameHeader : Set := mk { kind : FrameKind; flags : byte; len : Z }.
End FrameHeader.
Abbreviation FrameHeader := FrameHeader.FrameHeader.

Definition header_new (kind : FrameKind) (len : Z) : FrameHeader :=
  FrameHeader.mk kind FLAGS_NONE len.

Definition header_encode (h : FrameHeader) : bytes :=
  MAGIC ++ [z2b (kind_to_u8 (FrameHeader.kind h)); FrameHeader.flags h; z2b 0; z2b 0]
        ++ to_le_bytes 4 (FrameHeader.len h).

(** [FrameHeader::decode]. The source takes [&[u8; HEADER_LEN]]; a list of
    another length does not arise and reads as a bad magic. *)
Definition header_decode (b : bytes) (cap : Z) : result SynthekeError FrameHeader :=
  match b with
  | [m0; m1; m2; m3; kind; flags; r0; r1; l0; l1; l2; l3] =>
      let found := [m0; m1; m2; m3] in
      _ ← ensure (bool_decide (found = MAGIC)) (BadMagic found);
      kind ← ok_or (kind_from_u8 (b2z kind)) (UnknownFrameKind kind);
      _ ← ensure (Z.land (b2z flags) (Z.lnot FLAGS_KNOWN) =? 0) (UnknownFlags flags);
      let reserved := from_le_bytes [r0; r1] in
      _ ← ensure (reserved =? 0) (NonzeroReserved reserved);
      let len := from_le_bytes [l0; l1; l2; l3] in
      let cap := clamp_cap cap in
      _ ← ensure (len <=? cap) (FrameTooLarge len cap);
      Ok (FrameHeader.mk kind flags len)
  | _ => Err (BadMagic (take 4 b))
  end.

(** ** Messages *)
Record Nonce : Set := Nonce_from_bytes { Nonce_to_bytes : bytes }.
#[global] Instance Nonce_eq_dec : EqDecision Nonce.
Proof. solve_decision. Defined.

(** The [Message] trait: the frame kind that carries a type and the
    invariants the archive validator cannot express. *)
Class Message (T : Type) := {
  KIND : FrameKind;
  message_check : T -> result SynthekeError unit;
}.
#[global] Hint Mode Message ! : typeclass_instances.
Arguments KIND T {_}.

Module ClientHello.
Record ClientHello : Set := mk {
  version_min : Z; version_max : Z; tenant : TenantId; client_nonce : Nonce }.
End ClientHello.
Abbreviation ClientHello := ClientHello.ClientHello.
Definition client_hello_check (m : ClientHello) : result SynthekeError unit :=
  ensure (ClientHello.version_min m <=? ClientHello.version_max m)
    (InvalidVersionRange (ClientHello.version_min m) (ClientHello.version_max m)).
#[global] Instance ClientHello_message : Message ClientHello := {|
  KIND := FrameKind.ClientHello; message_check := client_hello_check |}.

Module VersionChoice.
Inductive VersionChoice : Set := Chosen (version : Z) | Incompatible.
#[global] Instance VersionChoice_eq_dec : EqDecision VersionChoice.
Proof. solve_decision. Defined.
End VersionChoice.
Abbreviation VersionChoice := VersionChoice.VersionChoice.

Definition negotiate_version (client_min client_max server_min server_max : Z) : VersionChoice :=
  let low := if client_min >? server_min then client_min else server_min in
  let high := if client_max <? server_max then client_max else server_max in
  if low <=? high then VersionChoice.Chosen high else VersionChoice.Incompatible.

Module ServerHello.
Record ServerHello : Set := mk {
  version : VersionChoice; server_nonce : Nonce; max_frame : Z }.
End ServerHello.
Abbreviation ServerHello := ServerHello.ServerHello.
Definition server_hello_check (m : ServerHello) : result SynthekeError unit :=
  ensure ((PRE_AUTH_MAX_BODY <=? ServerHello.max_frame m)
          && (ServerHello.max_frame m <=? HARD_MAX_BODY))
    (MaxFrameOutOfRange (ServerHello.max_frame m)).
#[global] Instance ServerHello_message : Message ServerHello := {|
  KIND := FrameKind.ServerHello; message_check := server_hello_check |}.

Module Auth.
Record Auth : Set := mk { signature : bytes }.
End Auth.
Abbreviation Auth := Auth.Auth.
#[global] Instance Auth_message : Message Auth := {|
  KIND := FrameKind.Auth; message_check _ := Ok tt |}.

Inductive AdmittedMsg : Set := AdmittedMsg_unit.
#[global] Instance Admitted_message : Message AdmittedMsg := {|
  KIND := FrameKind.Admitted_; message_check _ := Ok tt |}.

Module Request.
Record Request : Set := mk {
  request_id : Z; grant : GrantId; idempotency_key : option IdempotencyKey;
  mode : Mode; deadline_ms : Z; body : RequestBody }.
End Request.
Abbreviation Request := Request.Request.
Definition request_check (m : Request) : result SynthekeError unit :=
  let capability := body_capability (Request.body m) in
  _ ← match Request.idempotency_key m with
      | Some key => idem_check key
      | None =>
          ensure (bool_decide (Request.mode m = Mode.DryRun) || negb (is_state_changing capability))
            (MissingIdempotencyKey capability)
      end;
  match Request.body m with
  | RequestBody.Query query =>
      let len := length (QueryRequest.predicate query) in
      ensure (len <=? MAX_QUERY_PREDICATE_LEN)%nat (PredicateTooLong len MAX_QUERY_PREDICATE_LEN)
  | _ => Ok tt
  end.
#[global] Instance Request_message : Message Request := {|
  KIND := FrameKind.Request; message_check := request_check |}.

Module Cancel.
Record Cancel : Set := mk { request_id : Z }.
End Cancel.
Abbreviation Cancel := Cancel.Cancel.
#[global] Instance Cancel_message : Message Cancel := {|
  KIND := FrameKind.Cancel; message_check _ := Ok tt |}.

Module Response.
Record Response : Set := mk {
  request_id : Z; invocation : option InvocationId; body : ResponseBody }.
End Response.
Abbreviation Response := Response.Response.
Definition response_check (m : Response) : result SynthekeError unit :=
  let failure := match Response.body m with
    | ResponseBody.Failed failure => Some failure
    | ResponseBody.Plan plan => Plan.refusal plan
    | _ => None
    end in
  match failure with
  | Some failure => ensure (is_well_formed failure) DeniedAxisMismatch
  | None => Ok tt
  end.
#[global] Instance Response_message : Message Response := {|
  KIND := FrameKind.Response; message_check := response_check |}.

Module Fault.
Record Fault : Set := mk { failure : Failure }.
End Fault.
Abbreviation Fault := Fault.Fault.
Definition fault_check (m : Fault) : result SynthekeError unit :=
  ensure (match Fault.failure m with
          | Failure.ProtocolError | Failure.AuthFailed => true | _ => false end)
    (FaultNotConnectionLevel (failure_kind (Fault.failure m))).
#[global] Instance Fault_message : Message Fault := {|
  KIND := FrameKind.Fault; message_check := fault_check |}.

(** ** Authentication transcript *)

(** [out.iter_mut().zip(src)] with [*slot = *byte]. *)
Fixpoint fill (out src : bytes) : bytes :=
  match out, src with
  | _ :: out, b :: src => b :: fill out src
  | out, [] => out
  | [], _ => []
  end.
Definition auth_transcript (version : Z) (tenant : TenantId) (client_nonce server_nonce : Nonce)
    : bytes :=
  let parts := [AUTH_LABEL; to_le_bytes 2 version; TenantId_to_bytes tenant;
                Nonce_to_bytes client_nonce; Nonce_to_bytes server_nonce] in
  fill (replicate AUTH_TRANSCRIPT_LEN (z2b 0)) (concat parts).

(** ** Body codec

    [to_bytes] is [rkyv::to_bytes]; [access] is [rkyv::access] followed by
    [rkyv::deserialize]. Both are library code. *)
Definition len_u64 (len : nat) : Z := Z.min u64_max (Z.of_nat len).
Definition within (len : nat) (cap : Z) : bool := Z.of_nat len <=? cap.

Section codec.
Context {T : Type} `{Message T}.
Variable to_bytes : T -> option bytes.
Variable access : bytes -> option T.

Definition encode (message : T) : result SynthekeError bytes :=
  _ ← message_check message;
  ok_or (to_bytes message) EncodeFailed.

Definition encode_frame (message : T) (cap : Z) : result SynthekeError bytes :=
  body ← encode message;
  let cap := clamp_cap cap in
  let fits := Z.of_nat (length body) in
  len ← ok_or (if (fits <=? u32_max) && (fits <=? cap) then Some fits else None)
          (FrameTooLarge (len_u64 (length body)) cap);
  Ok (header_encode (header_new (KIND T) len) ++ body).

Definition decode (body : bytes) (cap : Z) : result SynthekeError T :=
  let cap := clamp_cap cap in
  _ ← ensure (within (length body) cap) (FrameTooLarge (len_u64 (length body)) cap);
  message ← ok_or (access body) InvalidArchive;
  canonical ← ok_or (to_bytes message) EncodeFailed;
  _ ← ensure (bool_decide (canonical = body))
        (NonCanonical (len_u64 (length body)) (len_u64 (length canonical)));
  _ ← message_check message;
  Ok message.

Definition decode_frame (header : FrameHeader) (body : bytes) (cap : Z) : result SynthekeError T :=
  _ ← ensure (bool_decide (FrameHeader.kind header = KIND T))
        (UnexpectedFrameKind (KIND T) (FrameHeader.kind header));
  _ ← ensure (FrameHeader.len header =? Z.of_nat (length body))
        (BodyLengthMismatch (FrameHeader.len header) (len_u64 (length body)));
  decode body cap.

(** What is received as a value is what the encoder sends for it. *)
Lemma decode_Ok body cap m :
  decode body cap = Ok m <->
  Z.of_nat (length body) <= clamp_cap cap /\ access body = Some m /\
  to_bytes m = Some body /\ message_check m = Ok tt.
Proof using Type.
  unfold decode. split.
  - intros Hd. inv_ok. unfold within in *. bool_simpl. subst.
    repeat match goal with u : () |- _ => destruct u end. auto.
  - intros (Hl & Ha & Ht & Hc). unfold within.
    apply Z.leb_le in Hl. rewrite Hl; cbn. rewrite Ha; cbn. rewrite Ht; cbn.
    rewrite bool_decide_eq_true_2 by done; cbn. by rewrite Hc.
Qed.
End codec.

(** ** Header lemmas *)

Lemma kind_from_to_u8 k : kind_from_u8 (kind_to_u8 k) = Some k.
Proof. by destruct k. Qed.
Lemma kind_to_u8_range k : 0 <= kind_to_u8 k < 256.
Proof. by destruct k. Qed.
Lemma kind_to_from_u8 z k : kind_from_u8 z = Some k -> kind_to_u8 k = z.
Proof.
  unfold kind_from_u8. intros Hk. destruct z as [|p|p]; try discriminate Hk.
  do 4 (destruct p as [p|p|]; try discriminate Hk; try (injection Hk as <-; reflexivity)).
Qed.
Lemma b2z_kind k : b2z (z2b (kind_to_u8 k)) = kind_to_u8 k.
Proof. rewrite b2z_z2b. apply Z.mod_small, kind_to_u8_range. Qed.

Lemma clamp_cap_spec cap : clamp_cap cap = Z.min cap HARD_MAX_BODY.
Proof. unfold clamp_cap. rewrite Z.gtb_ltb. destruct (Z.ltb_spec HARD_MAX_BODY cap); lia. Qed.

Lemma flags_none_spec b : Z.land (b2z b) (Z.lnot FLAGS_KNOWN) = b2z b.
Proof. change (Z.lnot FLAGS_KNOWN) with (-1). apply Z.land_m1_r. Qed.

Lemma header_decode_encode h cap :
  FrameHeader.flags h = FLAGS_NONE -> in_range u32_max (FrameHeader.len h) ->
  header_decode (header_encode h) cap =
  if FrameHeader.len h <=? clamp_cap cap then Ok h
  else Err (FrameTooLarge (FrameHeader.len h) (clamp_cap cap)).
Proof.
  destruct h as [k f len]; cbn [FrameHeader.flags FrameHeader.len]. intros -> [Hl Hm].
  assert (from_le_bytes (to_le_bytes 4 len) = len) as Hlen.
  { rewrite from_to_le_bytes. apply Z.mod_small. change (256 ^ Z.of_nat 4) with 4294967296.
    unfold u32_max in Hm. lia. }
  pose proof (length_to_le_bytes 4 len) as H4. unfold header_encode, header_decode.
  cbn [FrameHeader.kind FrameHeader.flags FrameHeader.len].
  destruct (to_le_bytes 4 len) as [|l0 [|l1 [|l2 [|l3 [|]]]]]; try discriminate H4.
  change MAGIC with ["D"; "P"; "T"; "1"]%byte. cbn [app].
  rewrite b2z_kind, kind_from_to_u8, Hlen, bool_decide_eq_true_2 by done.
  cbn [ensure ok_or mbind result_bind].
  change (Z.land (b2z FLAGS_NONE) (Z.lnot FLAGS_KNOWN) =? 0) with true.
  change (from_le_bytes [z2b 0; z2b 0] =? 0) with true. cbn [ensure mbind result_bind].
  by destruct (len <=? clamp_cap cap).
Qed.

Lemma header_decode_Ok b cap h :
  header_decode b cap = Ok h ->
  header_encode h = b /\ FrameHeader.flags h = FLAGS_NONE /\
  in_range u32_max (FrameHeader.len h) /\ FrameHeader.len h <= clamp_cap cap.
Proof.
  unfold header_decode. intros Hd.
  destruct b as [|m0 [|m1 [|m2 [|m3 [|k [|f [|r0 [|r1 [|l0 [|l1 [|l2 [|l3 [|]]]]]]]]]]]]];
    try discriminate Hd.
  inv_ok. bool_simpl.
  repeat match goal with
  | H : _ = MAGIC |- _ => injection H as -> -> -> ->
  | H : kind_from_u8 _ = Some _ |- _ => apply kind_to_from_u8 in H
  | H : Z.land _ _ = 0 |- _ => rewrite flags_none_spec in H; apply (b2z_inj _ FLAGS_NONE) in H; subst f
  end.
  pose proof (from_le_bytes_range [l0; l1; l2; l3]) as Hr. change (256 ^ _) with 4294967296 in Hr.
  assert (r0 = z2b 0 /\ r1 = z2b 0) as [-> ->].
  { cbn [from_le_bytes] in *. pose proof (b2z_range r0). pose proof (b2z_range r1).
    split; apply b2z_inj; change (b2z (z2b 0)) with 0; lia. }
  unfold header_encode. cbn [FrameHeader.kind FrameHeader.flags FrameHeader.len].
  change 4%nat with (length [l0; l1; l2; l3]). rewrite to_from_le_bytes.
  unfold in_range, u32_max. split; [|split; [done|cbn [from_le_bytes] in *; lia]].
  match goal with H : kind_to_u8 _ = b2z k |- _ => rewrite H, z2b_b2z end. reflexivity.
Qed.

Lemma length_header_encode h : length (header_encode h) = HEADER_LEN.
Proof. unfold header_encode. by rewrite !length_app, length_to_le_bytes. Qed.

(** ** Transcript lemmas *)

Lemma fill_eq out src : length out = length src -> fill out src = src.
Proof.
  revert src; induction out as [|o out IH]; intros [|b src]; cbn; try lia; [done|].
  intros ?. f_equal. apply IH. lia.
Qed.


Lemma auth_transcript_concat version tenant cn sn :
  length (TenantId_to_bytes tenant) = 16%nat ->
  length (Nonce_to_bytes cn) = NONCE_LEN -> length (Nonce_to_bytes sn) = NONCE_LEN ->
  auth_transcript version tenant cn sn =
  AUTH_LABEL ++ to_le_bytes 2 version ++ TenantId_to_bytes tenant
    ++ Nonce_to_bytes cn ++ Nonce_to_bytes sn.
Proof.
  unfold NONCE_LEN. intros Ht Hc Hs. unfold auth_transcript. cbn [concat].
  rewrite app_nil_r. apply fill_eq.
  rewrite length_replicate, !length_app, length_to_le_bytes, Ht, Hc, Hs. done.
Qed.

(** ** Properties *)

(** Frame header round trip and length gate: the twelve bytes a header
    encodes to decode to that header when its declared length is within the
    bound in force (the caller's bound clamped to 4 MiB), and are refused as
    too large, from the header alone, when it is not. *)
Theorem frame_header_roundtrip (kind : FrameKind) (len cap : Z) :
  in_range u32_max len ->
  header_decode (header_encode (header_new kind len)) cap =
  if len <=? Z.min cap HARD_MAX_BODY then Ok (header_new kind len)
  else Err (FrameTooLarge len (Z.min cap HARD_MAX_BODY)).
Proof. intros Hl. rewrite <- clamp_cap_spec. by apply header_decode_encode. Qed.

(** Only canonical headers are accepted: twelve bytes that decode are
    exactly the encoding of the decoded header, which has no flag set and a
    length within the clamped bound; so magic, reserved bytes and flags of an
    accepted frame are all fixed. *)
Theorem frame_header_canonical (b : bytes) (cap : Z) (h : FrameHeader) :
  header_decode b cap = Ok h ->
  header_encode h = b /\ FrameHeader.flags h = FLAGS_NONE /\
  0 <= FrameHeader.len h <= Z.min cap HARD_MAX_BODY.
Proof.
  intros (? & ? & [? _] & ?)%header_decode_Ok. rewrite clamp_cap_spec in *. auto.
Qed.

(** Version negotiation picks the highest version in both ranges, and
    reports incompatibility exactly when the ranges share no version. *)
Theorem negotiate_version_spec (cmin cmax smin smax : Z) :
  match negotiate_version cmin cmax smin smax with
  | VersionChoice.Chosen v =>
      (cmin <= v <= cmax /\ smin <= v <= smax) /\
      forall w, cmin <= w <= cmax -> smin <= w <= smax -> w <= v
  | VersionChoice.Incompatible =>
      forall w, ~ (cmin <= w <= cmax /\ smin <= w <= smax)
  end.
Proof.
  unfold negotiate_version. rewrite Z.gtb_ltb.
  destruct (Z.ltb_spec smin cmin), (Z.ltb_spec cmax smax);
    match goal with |- context [?a <=? ?b] => destruct (Z.leb_spec a b) end;
    repeat split; intros; lia.
Qed.

(** The signed transcript is 66 bytes and determines the version, the
    tenant and both nonces: a signature over one handshake's transcript
    cannot be presented for another version, tenant or nonce pair. *)
Theorem auth_transcript_injective v1 v2 t1 t2 c1 c2 s1 s2 :
  in_range u16_max v1 -> in_range u16_max v2 ->
  length (TenantId_to_bytes t1) = 16%nat -> length (TenantId_to_bytes t2) = 16%nat ->
  length (Nonce_to_bytes c1) = NONCE_LEN -> length (Nonce_to_bytes c2) = NONCE_LEN ->
  length (Nonce_to_bytes s1) = NONCE_LEN -> length (Nonce_to_bytes s2) = NONCE_LEN ->
  length (auth_transcript v1 t1 c1 s1) = AUTH_TRANSCRIPT_LEN /\
  (auth_transcript v1 t1 c1 s1 = auth_transcript v2 t2 c2 s2 ->
   v1 = v2 /\ t1 = t2 /\ c1 = c2 /\ s1 = s2).
Proof.
  unfold in_range, u16_max. intros Hv1 Hv2 Ht1 Ht2 Hc1 Hc2 Hs1 Hs2.
  rewrite !auth_transcript_concat by done. split.
  { unfold NONCE_LEN in *. rewrite !length_app, length_to_le_bytes, Ht1, Hc1, Hs1. done. }
  intros Heq%app_inv_head.
  apply app_inj_1 in Heq as [Hv Heq]; [|by rewrite !length_to_le_bytes].
  apply app_inj_1 in Heq as [Ht Heq]; [|congruence].
  apply app_inj_1 in Heq as [Hc Hs]; [|congruence].
  apply to_le_bytes_inj in Hv; [|change (256 ^ Z.of_nat 2) with 65536; lia..].
  destruct t1, t2, c1, c2, s1, s2; cbn in *; by subst.
Qed.

Section codec_properties.
Context {T : Type} `{Message T}.
Variable to_bytes : T -> option bytes.
Variable access : bytes -> option T.

(** Every value has exactly one accepted body: two bodies that decode to
    the same message are the same bytes, whatever the archive library does. *)
Theorem decode_unique_body (b1 b2 : bytes) (cap1 cap2 : Z) (m : T) :
  decode to_bytes access b1 cap1 = Ok m -> decode to_bytes access b2 cap2 = Ok m -> b1 = b2.
Proof using Type.
  intros (_ & _ & H1 & _)%decode_Ok (_ & _ & H2 & _)%decode_Ok. congruence.
Qed.

(** Frame round trip: if the archive library deserializes what it
    serialized, the frame [encode_frame] builds under a bound is read back
    under that bound: its first twelve bytes decode to a header announcing
    the rest, and the rest decodes to the message. *)
Theorem encode_frame_roundtrip (m : T) (cap : Z) (frame : bytes) :
  (forall m' b, to_bytes m' = Some b -> access b = Some m') ->
  encode_frame to_bytes m cap = Ok frame ->
  exists header, header_decode (take HEADER_LEN frame) cap = Ok header /\
    decode_frame to_bytes access header (drop HEADER_LEN frame) cap = Ok m.
Proof using Type.
  intros Hrt He. unfold encode_frame, encode in He. inv_ok.
  match goal with H : (if ?b then _ else _) = Some _ |- _ => destruct b eqn:Hb; [|discriminate H];
    injection H as <- end. bool_simpl.
  match goal with H : to_bytes m = Some ?b |- _ => rename H into Hto; set (body := b) in * end.
  exists (header_new (KIND T) (Z.of_nat (length body))).
  rewrite <- (length_header_encode (header_new (KIND T) (Z.of_nat (length body)))).
  rewrite take_app_length, drop_app_length. split.
  - rewrite header_decode_encode; [|done|split; cbn; lia]. cbn [FrameHeader.len header_new].
    by rewrite (proj2 (Z.leb_le _ _)) by done.
  - unfold decode_frame. cbn [FrameHeader.kind FrameHeader.len header_new].
    rewrite bool_decide_eq_true_2, Z.eqb_refl by done. cbn [ensure mbind result_bind].
    match goal with u : () |- _ => destruct u end.
    apply decode_Ok. repeat split; auto.
Qed.
End codec_properties.

(** A request that passes its check is safe to execute: an executed
    state-changing request carries an idempotency key of 16 to 64 bytes, any
    key it carries has that length, and a query predicate is at most 1024
    bytes. *)
Theorem request_check_sound (m : Request) :
  request_check m = Ok tt ->
  (Request.mode m = Mode.Execute -> is_state_changing (body_capability (Request.body m)) = true ->
   is_Some (Request.idempotency_key m)) /\
  (forall k, Request.idempotency_key m = Some k ->
   (16 <= length (IdempotencyKey_as_bytes k) <= 64)%nat) /\
  (forall q, Request.body m = RequestBody.Query q ->
   (length (QueryRequest.predicate q) <= 1024)%nat).
Proof.
  unfold request_check. intros Hc. inv_ok. split; [|split].
  - intros Hm Hs. destruct (Request.idempotency_key m); [done|]. inv_ok.
    rewrite Hm, Hs in *. discriminate.
  - intros k Hk. rewrite Hk in *. unfold idem_check, idem_len_ok in *. inv_ok. bool_simpl.
    apply Nat.leb_le in H as H1. apply Nat.leb_le in H0 as H2. done.
  - intros q Hq. rewrite Hq in Hc. inv_ok. by apply Nat.leb_le in Hc.
Qed.
