(* ===== verification/Epitrope.v ===== *)
(** * Authorization faults and shared data ([epitrope::error])

    [Error] is the crate's error type; [V] stands for the boxed source of
    [ViewError], so the store can wrap its own errors there. Source
    locations are dropped. [Settlement] (budget.rs) and [Step]
    (lifecycle.rs) are declared here because the error type carries them. *)
From S2P Require Import Prelude Vocab Ids.
Local Open Scope Z_scope.

(** [Settlement]: how a settled reservation moves every ledger. *)
Module Settlement.
Record Settlement : Set := mk { debit : Cost; release : Cost }.
#[global] Instance Settlement_eq_dec : EqDecision Settlement.
Proof. solve_decision. Defined.
End Settlement.
Abbreviation Settlement := Settlement.Settlement.

(** [Step]: one step an invocation may take. *)
Module Step.
Inductive Step : Set :=
| Deny
| PersistIntent
| Dispatch
| CompleteTransfer
| Publish
| Settle
| Release (reason : ReleaseReason)
| MarkUnknownEffect.
#[global] Instance Step_eq_dec : EqDecision Step.
Proof. solve_decision. Defined.
End Step.
Abbreviation Step := Step.Step.

Module Error.
Inductive Error (V : Type) : Type :=
| View (source : V)
| ChainBroken (grant : GrantId)
| ChainMalformed (grant : GrantId)
| TenantLineage (tenant : TenantId)
| OriginSyntax (reason : string)
| LedgerOverflow (dimension : Dimension)
| LedgerUnderflow (dimension : Dimension)
| SettleOverrun (dimension : Dimension) (reserved actual : Z) (settlement : Settlement)
| SessionNotApplicable (capability : Capability)
| IllegalTransition (from : InvocationState) (step : Step).
Arguments View {V} source.
Arguments ChainBroken {V} grant.
Arguments ChainMalformed {V} grant.
Arguments TenantLineage {V} tenant.
Arguments OriginSyntax {V} reason.
Arguments LedgerOverflow {V} dimension.
Arguments LedgerUnderflow {V} dimension.
Arguments SettleOverrun {V} dimension reserved actual settlement.
Arguments SessionNotApplicable {V} capability.
Arguments IllegalTransition {V} from step.
End Error.
Abbreviation Error := Error.Error.
