(* ===== verification/Origin.v ===== *)
(** * Origins and origin patterns ([epitrope::origin])

    The minimal URL-origin parser, the pattern grammar of a grant's target
    scope, matching and covering. *)
From S2P Require Import Prelude Vocab Ids Epitrope.
Local Open Scope Z_scope.

(** ** Text operations of the standard library *)

Fixpoint strip_prefix (pat s : str) : option str :=
  match pat, s with
  | [], s => Some s
  | p :: pat, c :: s => if bool_decide (p = c) then strip_prefix pat s else None
  | _ :: _, [] => None
  end.
Definition strip_suffix (pat s : str) : option str :=
  reverse <$> strip_prefix (reverse pat) (reverse s).
(** [str::split_once]: splits at the first occurrence of [pat]. *)
Fixpoint split_once (pat s : str) : option (str * str) :=
  match strip_prefix pat s with
  | Some rest => Some ([], rest)
  | None => match s with
            | [] => None
            | c :: s => prod_map (cons c) id <$> split_once pat s
            end
  end.
(** [str::split(c)]: never empty. *)
Fixpoint split_on (sep : byte) (s : str) : list str :=
  match s with
  | [] => [[]]
  | c :: s =>
      if bool_decide (c = sep) then [] :: split_on sep s
      else match split_on sep s with
           | l :: ls => (c :: l) :: ls
           | [] => [[c]]
           end
  end.
(** [str::find] of the first byte satisfying [p]. *)
Fixpoint find_byte (p : byte -> bool) (s : str) : option nat :=
  match s with
  | [] => None
  | c :: s => if p c then Some O else S <$> find_byte p s
  end.
Definition split_at_checked (n : nat) (s : str) : option (str * str) :=
  if (n <=? length s)%nat then Some (take n s, drop n s) else None.
Definition starts_with (c : byte) (s : str) : bool := bool_decide (head s = Some c).
Definition ends_with (c : byte) (s : str) : bool := bool_decide (last s = Some c).
(** Decimal digits folded with overflow checks: [acc * 10 + digit]. *)
Fixpoint parse_decimal (max acc : Z) (s : str) : option Z :=
  match s with
  | [] => Some acc
  | c :: s =>
      m ← checked_mul max acc 10;
      a ← checked_add max m (b2z c - 48);
      parse_decimal max a s
  end.
(** Decimal formatting of an unsigned integer ([{}]); [fuel] bounds the
    number of digits. *)
Fixpoint print_decimal (fuel : nat) (z : Z) : str :=
  match fuel with
  | O => []
  | S fuel =>
      if z <? 10 then [z2b (48 + z)]
      else print_decimal fuel (z / 10) ++ [z2b (48 + z mod 10)]
  end.
(** A [u16] has at most five digits and a [u8] at most three. *)
Definition display_uint (z : Z) : str := print_decimal 5 z.

(** ** Data *)

Definition MAX_HOST_LEN : nat := 253.
Definition MAX_LABEL_LEN : nat := 63.

Module Scheme.
Inductive Scheme : Set := Http | Https.
#[global] Instance Scheme_eq_dec : EqDecision Scheme.
Proof. solve_decision. Defined.
End Scheme.
Abbreviation Scheme := Scheme.Scheme.
Definition SCHEME_ALL : list Scheme := [Scheme.Http; Scheme.Https].
Definition default_port (s : Scheme) : Z :=
  match s with Scheme.Http => 80 | Scheme.Https => 443 end.

(** [Host]: a lowercase domain or an IPv4 address ([[u8; 4]]). *)
Module Host.
Inductive Host : Set := Domain (name : str) | Ipv4 (a b c d : Z).
#[global] Instance Host_eq_dec : EqDecision Host.
Proof. solve_decision. Defined.
End Host.
Abbreviation Host := Host.Host.

Module Origin.
Record Origin : Set := mk { scheme : Scheme; host : Host; port : Z }.
#[global] Instance Origin_eq_dec : EqDecision Origin.
Proof. solve_decision. Defined.
End Origin.
Abbreviation Origin := Origin.Origin.

Module HostPattern.
Inductive HostPattern : Set := Any | Exact (host : Host) | Subdomains (domain : str).
#[global] Instance HostPattern_eq_dec : EqDecision HostPattern.
Proof. solve_decision. Defined.
End HostPattern.
Abbreviation HostPattern := HostPattern.HostPattern.

Module OriginPattern.
Record OriginPattern : Set := mk {
  scheme : option Scheme; host : HostPattern; port : option Z }.
#[global] Instance OriginPattern_eq_dec : EqDecision OriginPattern.
Proof. solve_decision. Defined.
End OriginPattern.
Abbreviation OriginPattern := OriginPattern.OriginPattern.

(** [TargetScope]: the patterns. *)
Record TargetScope : Set := TargetScope_mk { patterns : list OriginPattern }.
#[global] Instance TargetScope_eq_dec : EqDecision TargetScope.
Proof. solve_decision. Defined.

(** ** Parsing *)
Section parse.
Context {V : Type}.

Definition scheme_parse (text : str) : result (Error V) Scheme :=
  if eq_ignore_ascii_case text (lit "http") then Ok Scheme.Http
  else if eq_ignore_ascii_case text (lit "https") then Ok Scheme.Https
  else Err (Error.OriginSyntax "scheme is not http or https").

Definition split_port (authority : str) : result (Error V) (str * option Z) :=
  match split_once (lit ":") authority with
  | None => Ok (authority, None)
  | Some (host, port) =>
      _ ← ensure (negb (bool_decide (port = [])) && forallb is_ascii_digit port)
            (Error.OriginSyntax "port is empty or not decimal");
      port ← ok_or (parse_decimal u16_max 0 port) (Error.OriginSyntax "port is above 65535");
      _ ← ensure (negb (port =? 0)) (Error.OriginSyntax "port is 0");
      Ok (host, Some port)
  end.

Definition ends_in_number (label : str) : bool :=
  let decimal := negb (bool_decide (label = [])) && forallb is_ascii_digit label in
  let digits := match strip_prefix (lit "0x") label with
                | Some d => Some d
                | None => strip_prefix (lit "0X") label
                end in
  let hex := match digits with Some d => forallb is_ascii_hexdigit d | None => false end in
  decimal || hex.

Definition octet (label : str) : result (Error V) Z :=
  let canonical :=
    negb (bool_decide (label = [])) && (length label <=? 3)%nat
    && forallb is_ascii_digit label
    && (bool_decide (label = lit "0") || negb (starts_with "0"%byte label)) in
  _ ← ensure canonical (Error.OriginSyntax "numeric host octet is not canonical decimal");
  ok_or (parse_decimal u8_max 0 label) (Error.OriginSyntax "numeric host octet is above 255").

Definition parse_ipv4 (labels : list str) : result (Error V) Host :=
  match labels with
  | [a; b; c; d] =>
      a ← octet a; b ← octet b; c ← octet c; d ← octet d;
      Ok (Host.Ipv4 a b c d)
  | _ => Err (Error.OriginSyntax "numeric host is not four dotted octets")
  end.

Definition is_ldh_label (label : str) : bool :=
  negb (bool_decide (label = [])) && (length label <=? MAX_LABEL_LEN)%nat
  && forallb (fun b => is_ascii_alphanumeric b || bool_decide (b = "-"%byte)) label
  && negb (starts_with "-"%byte label) && negb (ends_with "-"%byte label).

Definition parse_host (text : str) : result (Error V) Host :=
  _ ← ensure (negb (bool_decide (text = [])) && (length text <=? MAX_HOST_LEN)%nat)
        (Error.OriginSyntax "host is empty or too long");
  let labels := split_on "."%byte text in
  let last := default [] (last labels) in
  if ends_in_number last then parse_ipv4 labels
  else
    _ ← ensure (forallb is_ldh_label labels)
          (Error.OriginSyntax
             "host label is empty, too long, or not letters, digits, and hyphens");
    Ok (Host.Domain (to_ascii_lowercase <$> text)).

Definition is_boundary (c : byte) : bool :=
  bool_decide (c = "/"%byte) || bool_decide (c = "?"%byte)
  || bool_decide (c = "#"%byte) || bool_decide (c = "\"%byte).

(** [Origin::parse]. *)
Definition origin_parse (target : str) : result (Error V) Origin :=
  _ ← ensure (forallb is_ascii_graphic target)
        (Error.OriginSyntax "target holds whitespace, control, or non-ASCII bytes");
  '(scheme, rest) ← ok_or (split_once (lit "://") target)
        (Error.OriginSyntax "target has no scheme separator");
  scheme ← scheme_parse scheme;
  let end_ := default (length rest) (find_byte is_boundary rest) in
  '(authority, _) ← ok_or (split_at_checked end_ rest)
        (Error.OriginSyntax "authority boundary is not a character boundary");
  '(host, port) ← split_port authority;
  host ← parse_host host;
  Ok (Origin.mk scheme host (default (default_port scheme) port)).

(** [OriginPattern::parse]. *)
Definition pattern_parse (text : str) : result (Error V) OriginPattern :=
  _ ← ensure (forallb is_ascii_graphic text)
        (Error.OriginSyntax "pattern holds whitespace, control, or non-ASCII bytes");
  '(scheme, authority) ← match split_once (lit "://") text with
      | Some (scheme, authority) => s ← scheme_parse scheme; Ok (Some s, authority)
      | None => Ok (None, text)
      end;
  '(host, port) ← split_port authority;
  host ← (if bool_decide (host = lit "*") then Ok HostPattern.Any
          else match strip_prefix (lit "*.") host with
               | Some domain =>
                   h ← parse_host domain;
                   match h with
                   | Host.Domain domain => Ok (HostPattern.Subdomains domain)
                   | Host.Ipv4 _ _ _ _ =>
                       Err (Error.OriginSyntax "a wildcard cannot precede an address")
                   end
               | None => h ← parse_host host; Ok (HostPattern.Exact h)
               end);
  Ok (OriginPattern.mk scheme host port).

(** [TargetScope::parse]. *)
Definition scope_parse (patterns : list str) : result (Error V) TargetScope :=
  TargetScope_mk <$> collect pattern_parse patterns.
End parse.

(** ** Display *)
Definition host_display (h : Host) : str :=
  match h with
  | Host.Domain domain => domain
  | Host.Ipv4 a b c d =>
      display_uint a ++ lit "." ++ display_uint b ++ lit "." ++
      display_uint c ++ lit "." ++ display_uint d
  end.
Definition scheme_display (s : Scheme) : str :=
  match s with Scheme.Http => lit "http" | Scheme.Https => lit "https" end.
Definition origin_display (o : Origin) : str :=
  scheme_display (Origin.scheme o) ++ lit "://" ++ host_display (Origin.host o)
  ++ lit ":" ++ display_uint (Origin.port o).

(** ** Matching and covering *)
Definition is_proper_subdomain (name domain : str) : bool :=
  match strip_suffix domain name ≫= strip_suffix (lit ".") with
  | Some front => negb (bool_decide (front = []))
  | None => false
  end.

Definition admits_scheme (p : OriginPattern) (s : Scheme) : bool :=
  match OriginPattern.scheme p with None => true | Some own => bool_decide (own = s) end.
Definition port_for (p : OriginPattern) (s : Scheme) : Z :=
  default (default_port s) (OriginPattern.port p).

Definition pattern_matches (p : OriginPattern) (o : Origin) : bool :=
  admits_scheme p (Origin.scheme o)
  && (port_for p (Origin.scheme o) =? Origin.port o)
  && match OriginPattern.host p with
     | HostPattern.Any => true
     | HostPattern.Exact host => bool_decide (host = Origin.host o)
     | HostPattern.Subdomains domain =>
         match Origin.host o with
         | Host.Domain name => is_proper_subdomain name domain
         | Host.Ipv4 _ _ _ _ => false
         end
     end.

Definition pattern_covers (self inner : OriginPattern) : bool :=
  let schemes_covered :=
    forallb (fun s => admits_scheme self s && (port_for self s =? port_for inner s))
      (filter (fun s => admits_scheme inner s = true) SCHEME_ALL) in
  let host_covered :=
    match OriginPattern.host self, OriginPattern.host inner with
    | HostPattern.Any, _ => true
    | _, HostPattern.Any => false
    | HostPattern.Exact _, HostPattern.Subdomains _ => false
    | HostPattern.Exact outer, HostPattern.Exact host => bool_decide (outer = host)
    | HostPattern.Subdomains outer, HostPattern.Exact host =>
        match host with
        | Host.Domain name => is_proper_subdomain name outer
        | Host.Ipv4 _ _ _ _ => false
        end
    | HostPattern.Subdomains outer, HostPattern.Subdomains domain =>
        bool_decide (domain = outer) || is_proper_subdomain domain outer
    end in
  schemes_covered && host_covered.

Definition scope_matches (s : TargetScope) (o : Origin) : bool :=
  existsb (fun p => pattern_matches p o) (patterns s).
Definition scope_covers (self inner : TargetScope) : bool :=
  forallb (fun p => existsb (fun outer => pattern_covers outer p) (patterns self))
    (patterns inner).

Example origin_parse_example :
  origin_display <$> origin_parse (V := unit) (lit "https://Example.com/article?x=1")
  = Ok (lit "https://example.com:443").
Proof. vm_compute. reflexivity. Qed.
Example origin_parse_userinfo :
  is_ok (origin_parse (V := unit) (lit "https://user@example.com/")) = false.
Proof. vm_compute. reflexivity. Qed.

(** ** Text lemmas *)

Lemma strip_prefix_Some pat s r : strip_prefix pat s = Some r <-> s = pat ++ r.
Proof.
  revert s; induction pat as [|p pat IH]; intros s; cbn; [naive_solver|].
  destruct s as [|c s]; [naive_solver|]. case_bool_decide; subst.
  - rewrite IH. naive_solver.
  - naive_solver.
Qed.
Lemma strip_suffix_Some pat s r : strip_suffix pat s = Some r <-> s = r ++ pat.
Proof.
  unfold strip_suffix. rewrite fmap_Some. split.
  - intros (q & Hq%strip_prefix_Some & ->).
    rewrite <- (reverse_involutive s), Hq, reverse_app. by rewrite reverse_involutive.
  - intros ->. exists (reverse r). rewrite reverse_involutive, strip_prefix_Some, reverse_app. done.
Qed.
Lemma strip_prefix_app pat r : strip_prefix pat (pat ++ r) = Some r.
Proof. by apply strip_prefix_Some. Qed.

Lemma split_once_Some pat s a b : split_once pat s = Some (a, b) -> s = a ++ pat ++ b.
Proof.
  revert a b; induction s as [|c s IH]; intros a b; cbn [split_once].
  - destruct (strip_prefix pat []) as [r|] eqn:E; [|done].
    apply strip_prefix_Some in E. intros [= <- <-]. done.
  - destruct (strip_prefix pat (c :: s)) as [r|] eqn:E.
    + apply strip_prefix_Some in E. intros [= <- <-]. done.
    + rewrite fmap_Some. intros ([a' b'] & Hs%IH & [= -> ->]). cbn. by rewrite Hs.
Qed.

(** The first occurrence: nothing before it starts the pattern. *)
Lemma split_once_first p pat a b :
  Forall (fun c => c <> p) a -> split_once (p :: pat) (a ++ (p :: pat) ++ b) = Some (a, b).
Proof.
  induction 1 as [|c a Hc Ha IH].
  - cbn [app]. cbn [split_once]. change (p :: pat ++ b) with ((p :: pat) ++ b).
    by rewrite strip_prefix_app.
  - cbn [app split_once strip_prefix]. rewrite bool_decide_eq_false_2 by congruence.
    change (p :: pat ++ b) with ((p :: pat) ++ b). by rewrite IH.
Qed.

Lemma find_byte_None p s : forallb (fun c => negb (p c)) s = true -> find_byte p s = None.
Proof.
  induction s as [|c s IH]; cbn; [done|]. intros [Hc Hs]%andb_true_iff.
  apply negb_true_iff in Hc. rewrite Hc, IH by done. done.
Qed.

Lemma print_decimal_snoc_parse max acc l d :
  parse_decimal max acc (l ++ [d]) =
  (a ← parse_decimal max acc l; m ← checked_mul max a 10; checked_add max m (b2z d - 48)).
Proof.
  revert acc; induction l as [|c l IH]; intros acc; cbn.
  - by repeat (destruct (checked_mul _ _ _) || destruct (checked_add _ _ _); cbn).
  - destruct (checked_mul max acc 10) as [m|]; cbn; [|done].
    destruct (checked_add max m _) as [a|]; cbn; [|done]. apply IH.
Qed.

Lemma b2z_digit d : 0 <= d < 10 -> b2z (z2b (48 + d)) = 48 + d.
Proof. intros. rewrite b2z_z2b. apply Z.mod_small. lia. Qed.

Lemma parse_print_decimal max fuel z :
  0 <= z <= max -> z < 10 ^ Z.of_nat fuel ->
  parse_decimal max 0 (print_decimal fuel z) = Some z.
Proof.
  revert z; induction fuel as [|fuel IH]; intros z Hz Hf; [cbn in Hf; cbn; f_equal; lia|].
  cbn [print_decimal]. destruct (Z.ltb_spec z 10).
  - cbn [parse_decimal]. rewrite b2z_digit by lia.
    rewrite (proj2 (checked_mul_Some max 0 10 0)) by lia. cbn [mbind option_bind].
    rewrite (proj2 (checked_add_Some max 0 _ z)) by lia. done.
  - pose proof (Z.mod_pos_bound z 10). pose proof (Z.div_mod z 10 ltac:(lia)).
    rewrite Nat2Z.inj_succ, Z.pow_succ_r in Hf by lia.
    rewrite print_decimal_snoc_parse, IH by lia.
    cbn [mbind option_bind]. rewrite b2z_digit by lia.
    rewrite (proj2 (checked_mul_Some max (z / 10) 10 (z / 10 * 10))) by (split; [done|lia]).
    cbn [mbind option_bind]. apply checked_add_Some. lia.
Qed.

Lemma print_decimal_digits fuel z : 0 <= z -> forallb is_ascii_digit (print_decimal fuel z) = true.
Proof.
  revert z; induction fuel as [|fuel IH]; intros z Hz; [done|]. cbn [print_decimal].
  assert (forall d, 0 <= d < 10 -> is_ascii_digit (z2b (48 + d)) = true) as Hd.
  { intros d Hd. unfold is_ascii_digit, between. rewrite b2z_digit by done.
    apply andb_true_iff; split; apply Z.leb_le; lia. }
  destruct (Z.ltb_spec z 10); cbn.
  - by rewrite Hd by lia.
  - rewrite forallb_app, IH by (apply Z.div_pos; lia). cbn.
    rewrite Hd by (apply Z.mod_pos_bound; lia). done.
Qed.
Lemma print_decimal_nonempty fuel z : print_decimal (S fuel) z <> [].
Proof. cbn [print_decimal]. destruct (z <? 10); [done|]. by intros []%app_eq_nil. Qed.

(** ** Byte class facts, by evaluation over all bytes *)
Lemma digit_not_special c :
  implb (is_ascii_digit c)
    (is_ascii_graphic c && negb (is_boundary c) && negb (bool_decide (c = ":"%byte))
     && negb (bool_decide (c = "."%byte))) = true.
Proof. revert c. by_all_bytes. Qed.
Definition is_host_byte (c : byte) : bool :=
  is_ascii_alphanumeric c || bool_decide (c = "-"%byte) || bool_decide (c = "."%byte).
Lemma host_byte_not_special c :
  implb (is_host_byte c)
    (is_ascii_graphic c && negb (is_boundary c) && negb (bool_decide (c = ":"%byte))
     && negb (bool_decide (c = "@"%byte))) = true.
Proof. revert c. by_all_bytes. Qed.
Lemma lower_facts c :
  Bool.eqb (is_ascii_alphanumeric (to_ascii_lowercase c)) (is_ascii_alphanumeric c)
  && Bool.eqb (is_ascii_digit (to_ascii_lowercase c)) (is_ascii_digit c)
  && Bool.eqb (is_ascii_hexdigit (to_ascii_lowercase c)) (is_ascii_hexdigit c)
  && Bool.eqb (bool_decide (to_ascii_lowercase c = "-"%byte)) (bool_decide (c = "-"%byte))
  && Bool.eqb (bool_decide (to_ascii_lowercase c = "."%byte)) (bool_decide (c = "."%byte))
  && Bool.eqb (bool_decide (to_ascii_lowercase c = "0"%byte)) (bool_decide (c = "0"%byte))
  && bool_decide (to_ascii_lowercase (to_ascii_lowercase c) = to_ascii_lowercase c) = true.
Proof. revert c. by_all_bytes. Qed.

Lemma eqb_bool_decide P Q `{Decision P, Decision Q} :
  Bool.eqb (bool_decide P) (bool_decide Q) = true -> P <-> Q.
Proof. intros Heq%Bool.eqb_prop. rewrite <- (bool_decide_eq_true P), Heq. apply bool_decide_eq_true. Qed.
Lemma lower_alnum c : is_ascii_alphanumeric (to_ascii_lowercase c) = is_ascii_alphanumeric c.
Proof. pose proof (lower_facts c). bool_simpl. by apply Bool.eqb_prop. Qed.
Lemma lower_digit c : is_ascii_digit (to_ascii_lowercase c) = is_ascii_digit c.
Proof. pose proof (lower_facts c). bool_simpl. by apply Bool.eqb_prop. Qed.
Lemma lower_hexdigit c : is_ascii_hexdigit (to_ascii_lowercase c) = is_ascii_hexdigit c.
Proof. pose proof (lower_facts c). bool_simpl. by apply Bool.eqb_prop. Qed.
Lemma lower_hyphen c : to_ascii_lowercase c = "-"%byte <-> c = "-"%byte.
Proof. pose proof (lower_facts c). bool_simpl. refine (eqb_bool_decide _ _ _); done. Qed.
Lemma lower_dot c : to_ascii_lowercase c = "."%byte <-> c = "."%byte.
Proof. pose proof (lower_facts c). bool_simpl. refine (eqb_bool_decide _ _ _); done. Qed.
Lemma lower_idem c : to_ascii_lowercase (to_ascii_lowercase c) = to_ascii_lowercase c.
Proof. pose proof (lower_facts c). by bool_simpl. Qed.

Lemma forallb_fmap {A B} (f : A -> B) (p : B -> bool) (q : A -> bool) (l : list A) :
  (forall a, p (f a) = q a) -> forallb p (f <$> l) = forallb q l.
Proof. intros Hpq. induction l as [|a l IH]; cbn; [done|]. by rewrite Hpq, IH. Qed.

Lemma split_on_nonempty sep s : split_on sep s <> [].
Proof. destruct s as [|c s]; cbn; [done|]. case_bool_decide; [done|]. by destruct (split_on sep s). Qed.

Lemma split_on_lower (s : str) :
  split_on "."%byte (to_ascii_lowercase <$> s) = fmap (M := list) to_ascii_lowercase <$> split_on "."%byte s.
Proof.
  induction s as [|c s IH]; cbn [fmap list_fmap split_on]; [done|].
  rewrite (bool_decide_ext _ _ (lower_dot c)). case_bool_decide.
  - cbn. f_equal. exact IH.
  - change (list_fmap _ _ to_ascii_lowercase s) with (to_ascii_lowercase <$> s). rewrite IH.
    pose proof (split_on_nonempty "."%byte s). by destruct (split_on "."%byte s).
Qed.

(** The bytes of the text are the separator and the bytes of the pieces. *)
Lemma split_on_bytes p sep s :
  forallb (forallb p) (split_on sep s) = true ->
  forallb (fun c => p c || bool_decide (c = sep)) s = true.
Proof.
  induction s as [|c s IH]; cbn [split_on forallb]; [done|].
  case_bool_decide as Hc.
  - cbn [forallb]. intros Hs. rewrite IH by done. by rewrite orb_true_r.
  - pose proof (split_on_nonempty sep s). destruct (split_on sep s) as [|l ls]; [done|].
    cbn [forallb]. intros [[Hpc Hl]%andb_true_iff Hls]%andb_true_iff.
    rewrite Hpc, IH; [done|]. cbn. by rewrite Hl.
Qed.

Lemma split_on_app sep a s :
  Forall (fun c => c <> sep) a -> split_on sep (a ++ sep :: s) = a :: split_on sep s.
Proof.
  induction 1 as [|c a Hc Ha IH]; cbn [app split_on].
  - by rewrite bool_decide_eq_true_2.
  - rewrite bool_decide_eq_false_2 by done. by rewrite IH.
Qed.
Lemma split_on_single sep a : Forall (fun c => c <> sep) a -> split_on sep a = [a].
Proof.
  induction 1 as [|c a Hc Ha IH]; cbn [split_on]; [done|].
  rewrite bool_decide_eq_false_2 by done. by rewrite IH.
Qed.

(** ** Hosts print as they parse *)

Lemma strip_prefix_lower_0x (l : str) :
  (match strip_prefix (lit "0x") (to_ascii_lowercase <$> l) with
   | Some d => Some d
   | None => strip_prefix (lit "0X") (to_ascii_lowercase <$> l) end) =
  fmap (M := list) to_ascii_lowercase <$>
  (match strip_prefix (lit "0x") l with Some d => Some d | None => strip_prefix (lit "0X") l end).
Proof.
  assert (forall c, Bool.eqb (bool_decide ("0"%byte = to_ascii_lowercase c)) (bool_decide ("0"%byte = c))
    && Bool.eqb (bool_decide ("x"%byte = to_ascii_lowercase c) || bool_decide ("X"%byte = to_ascii_lowercase c))
                (bool_decide ("x"%byte = c) || bool_decide ("X"%byte = c)) = true) as Hb by by_all_bytes.
  destruct l as [|a [|b l]]; [done| |].
  - cbn. destruct (bool_decide ("0"%byte = to_ascii_lowercase a)), (bool_decide ("0"%byte = a)); done.
  - pose proof (Hb a) as Ha. specialize (Hb b). bool_simpl.
    repeat match goal with H : Bool.eqb _ _ = true |- _ => apply Bool.eqb_prop in H end.
    cbn. rewrite H. destruct (bool_decide ("0"%byte = a)); [|done].
    destruct (bool_decide ("x"%byte = to_ascii_lowercase b)), (bool_decide ("X"%byte = to_ascii_lowercase b)),
      (bool_decide ("x"%byte = b)), (bool_decide ("X"%byte = b)); done.
Qed.

Lemma ends_in_number_lower (l : str) : ends_in_number (to_ascii_lowercase <$> l) = ends_in_number l.
Proof.
  unfold ends_in_number. rewrite strip_prefix_lower_0x.
  rewrite (forallb_fmap _ _ is_ascii_digit) by apply lower_digit. f_equal.
  - f_equal. f_equal. apply bool_decide_ext. by destruct l.
  - destruct (match strip_prefix (lit "0x") l with Some _ => _ | None => _ end); cbn; [|done].
    apply (forallb_fmap _ _ is_ascii_hexdigit), lower_hexdigit.
Qed.

Lemma is_ldh_label_lower (l : str) : is_ldh_label (to_ascii_lowercase <$> l) = is_ldh_label l.
Proof.
  unfold is_ldh_label, starts_with, ends_with. rewrite length_fmap.
  rewrite (forallb_fmap _ _ (fun b => is_ascii_alphanumeric b || bool_decide (b = "-"%byte))).
  2: { intros c. by rewrite lower_alnum, (bool_decide_ext _ _ (lower_hyphen c)). }
  f_equal; [f_equal; [f_equal; f_equal|]|].
  - f_equal. apply bool_decide_ext. by destruct l.
  - f_equal. apply bool_decide_ext. destruct l; cbn; [done|]. pose proof (lower_hyphen b). naive_solver.
  - f_equal. apply bool_decide_ext. rewrite fmap_last. destruct (last l) as [b|]; cbn; [|done].
    pose proof (lower_hyphen b). naive_solver.
Qed.

Lemma parse_decimal_range max acc s z :
  forallb is_ascii_digit s = true -> 0 <= acc <= max -> parse_decimal max acc s = Some z -> 0 <= z <= max.
Proof.
  revert acc. induction s as [|c s IH]; intros acc; cbn.
  - intros _ ? [= <-]; lia.
  - intros [Hc Hs]%andb_true_iff Hacc.
    destruct (checked_mul max acc 10) as [m|] eqn:Em; cbn; [|done].
    destruct (checked_add max m _) as [a|] eqn:Ea; cbn; [|done].
    apply checked_mul_Some in Em. apply checked_add_Some in Ea.
    unfold is_ascii_digit, between in Hc. bool_simpl. apply IH; [done|lia].
Qed.

Lemma octet_range {V} l z : octet (V := V) l = Ok z -> 0 <= z <= 255.
Proof.
  unfold octet. intros H. inv_ok. bool_simpl.
  eapply parse_decimal_range; [eassumption| |eassumption]. unfold u8_max; lia.
Qed.

Lemma octet_display {V} z : 0 <= z <= 255 -> octet (V := V) (display_uint z) = Ok z.
Proof.
  intros Hz. unfold octet.
  pose proof (parse_print_decimal u8_max 5 z ltac:(unfold u8_max; lia) ltac:(cbn; lia)) as Hp.
  change (print_decimal 5 z) with (display_uint z) in Hp. rewrite Hp.
  enough (negb (bool_decide (display_uint z = [])) && (length (display_uint z) <=? 3)%nat
    && forallb is_ascii_digit (display_uint z)
    && (bool_decide (display_uint z = lit "0") || negb (starts_with "0"%byte (display_uint z))) = true)
    as -> by done.
  replace z with (Z.of_nat (Z.to_nat z)) by lia.
  assert (Z.to_nat z < 256)%nat as Hn by lia. revert Hn. generalize (Z.to_nat z). clear.
  intros n Hn. assert (forallb (fun n => let z := Z.of_nat n in
    negb (bool_decide (display_uint z = [])) && (length (display_uint z) <=? 3)%nat
    && forallb is_ascii_digit (display_uint z)
    && (bool_decide (display_uint z = lit "0") || negb (starts_with "0"%byte (display_uint z))))
    (seq 0 256) = true) as Hall by (vm_compute; reflexivity).
  rewrite forallb_forall in Hall. apply Hall, in_seq. lia.
Qed.

Lemma display_uint_no_dot z : 0 <= z -> Forall (fun c => c <> "."%byte) (display_uint z).
Proof.
  intros Hz. pose proof (print_decimal_digits 5 z Hz) as Hd. rewrite forallb_forall in Hd.
  apply Forall_forall. intros c Hc%list_elem_of_In ->. specialize (Hd _ Hc).
  pose proof (digit_not_special "."%byte) as Hs. rewrite Hd in Hs. discriminate.
Qed.

Lemma digits_host_bytes s : forallb is_ascii_digit s = true -> forallb is_host_byte s = true.
Proof.
  rewrite !forallb_forall. intros H c Hc. specialize (H c Hc). unfold is_host_byte, is_ascii_alphanumeric.
  rewrite H. by rewrite orb_true_r.
Qed.

Lemma ends_in_number_display z : 0 <= z -> ends_in_number (display_uint z) = true.
Proof.
  intros Hz. unfold ends_in_number. apply orb_true_iff; left. apply andb_true_iff; split.
  - apply negb_true_iff, bool_decide_eq_false. apply print_decimal_nonempty.
  - by apply print_decimal_digits.
Qed.

Lemma display_uint_length z : (length (display_uint z) <= 5)%nat.
Proof.
  assert (forall f z, length (print_decimal f z) <= f)%nat as Hf; [|apply Hf].
  clear. induction f as [|f IH]; intros z; cbn [print_decimal length]; [lia|].
  destruct (z <? 10); cbn [length]; [lia|]. rewrite length_app. specialize (IH (z / 10)). cbn; lia.
Qed.

Lemma parse_host_ipv4 {V} p q r s :
  0 <= p <= 255 -> 0 <= q <= 255 -> 0 <= r <= 255 -> 0 <= s <= 255 ->
  parse_host (V := V) (host_display (Host.Ipv4 p q r s)) = Ok (Host.Ipv4 p q r s).
Proof.
  intros. unfold parse_host. cbn [host_display]. change (lit ".") with ["."%byte]. cbn [app].
  rewrite bool_decide_eq_false_2 by (intros []%app_eq_nil; by apply (print_decimal_nonempty 4 p)).
  rewrite (proj2 (Nat.leb_le _ _)).
  2: { repeat (rewrite ?length_app; cbn [length]). unfold MAX_HOST_LEN.
       pose proof (display_uint_length p); pose proof (display_uint_length q);
       pose proof (display_uint_length r); pose proof (display_uint_length s). lia. }
  cbn [negb andb ensure mbind result_bind].
  rewrite !split_on_app, split_on_single by (apply display_uint_no_dot; lia).
  change (default [] (last [display_uint p; display_uint q; display_uint r; display_uint s]))
    with (display_uint s).
  rewrite ends_in_number_display by lia. unfold parse_ipv4. by rewrite !octet_display by lia.
Qed.

Lemma parse_host_lower {V} (text : str) :
  text <> [] -> (length text <=? MAX_HOST_LEN)%nat = true ->
  ends_in_number (default [] (last (split_on "."%byte text))) = false ->
  forallb is_ldh_label (split_on "."%byte text) = true ->
  parse_host (V := V) (to_ascii_lowercase <$> text) = Ok (Host.Domain (to_ascii_lowercase <$> text)).
Proof.
  intros Hne Hlen Hnum Hldh. unfold parse_host.
  rewrite length_fmap, bool_decide_eq_false_2, Hlen by (by destruct text).
  cbn [negb andb ensure mbind result_bind]. rewrite split_on_lower, fmap_last.
  assert (default [] (fmap (M := list) to_ascii_lowercase <$> last (split_on "."%byte text))
    = to_ascii_lowercase <$> default [] (last (split_on "."%byte text))) as ->
    by (by destruct (last (split_on "."%byte text))).
  rewrite ends_in_number_lower, Hnum.
  rewrite (forallb_fmap _ _ is_ldh_label) by apply is_ldh_label_lower.
  rewrite Hldh. cbn [ensure mbind result_bind]. do 2 f_equal.
  rewrite <- list_fmap_compose. apply list_fmap_ext. intros _ c _. apply lower_idem.
Qed.

Lemma ldh_host_bytes (text : str) :
  forallb is_ldh_label (split_on "."%byte text) = true -> forallb is_host_byte text = true.
Proof.
  intros Hl. apply split_on_bytes. revert Hl. apply forallb_impl.
  intros l Hl. unfold is_ldh_label in Hl. bool_simpl. done.
Qed.

(** A host that parsed prints to a text that parses to the same host, and
    the printed text holds only letters, digits, hyphens and dots. *)
Lemma parse_host_display {V} text h :
  parse_host (V := V) text = Ok h ->
  parse_host (V := V) (host_display h) = Ok h /\ forallb is_host_byte (host_display h) = true.
Proof.
  unfold parse_host at 1. intros H. inv_ok. bool_simpl.
  destruct (ends_in_number _) eqn:Hnum.
  - unfold parse_ipv4 in H.
    destruct (split_on "."%byte text) as [|l1 [|l2 [|l3 [|l4 [|]]]]]; try discriminate H.
    inv_ok. repeat match goal with H : octet _ = Ok _ |- _ => apply octet_range in H end.
    split; [by apply parse_host_ipv4|]. cbn [host_display].
    repeat (rewrite ?forallb_app; apply andb_true_iff; split); try reflexivity;
      apply digits_host_bytes, print_decimal_digits; lia.
  - inv_ok. cbn [host_display]. split; [by apply parse_host_lower|].
    rewrite (forallb_fmap _ _ is_host_byte); [by apply ldh_host_bytes|].
    intros c. unfold is_host_byte. rewrite lower_alnum.
    by rewrite (bool_decide_ext _ _ (lower_hyphen c)), (bool_decide_ext _ _ (lower_dot c)).
Qed.

(** ** Subdomains *)

Lemma is_proper_subdomain_spec name domain :
  is_proper_subdomain name domain = true <->
  exists front, front <> [] /\ name = front ++ lit "." ++ domain.
Proof.
  unfold is_proper_subdomain. split.
  - destruct (strip_suffix domain name) as [n|] eqn:E1; cbn [mbind option_bind]; [|done].
    destruct (strip_suffix (lit ".") n) as [f|] eqn:E2; [|done]. intros H. bool_simpl.
    apply strip_suffix_Some in E1 as ->. apply strip_suffix_Some in E2 as ->.
    exists f. split; [done|]. by rewrite <- app_assoc.
  - intros (f & Hf & ->). rewrite app_assoc.
    rewrite (proj2 (strip_suffix_Some domain _ (f ++ lit ".")) eq_refl). cbn [mbind option_bind].
    rewrite (proj2 (strip_suffix_Some (lit ".") _ f) eq_refl).
    by rewrite bool_decide_eq_false_2.
Qed.
Lemma is_proper_subdomain_trans a b c :
  is_proper_subdomain a b = true -> is_proper_subdomain b c = true -> is_proper_subdomain a c = true.
Proof.
  rewrite !is_proper_subdomain_spec. intros (f & Hf & ->) (g & Hg & ->).
  exists (f ++ lit "." ++ g). split; [by destruct f|]. by rewrite <- !app_assoc.
Qed.

(** Covering one pattern by another is sound for matching. *)
Lemma pattern_covers_sound p q o :
  pattern_covers p q = true -> pattern_matches q o = true -> pattern_matches p o = true.
Proof.
  unfold pattern_covers, pattern_matches. intros [Hs Hh]%andb_true_iff Hm.
  apply andb_true_iff in Hm as [[Hq Hport]%andb_true_iff Hhost].
  rewrite forallb_forall in Hs. specialize (Hs (Origin.scheme o)).
  assert (In (Origin.scheme o) (filter (fun s => admits_scheme q s = true) SCHEME_ALL)) as Hin.
  { apply list_elem_of_In, list_elem_of_filter. split; [done|].
    apply list_elem_of_In. destruct (Origin.scheme o); cbn; auto. }
  apply Hs in Hin as [Ha Hp]%andb_true_iff. rewrite Ha. bool_simpl. rewrite Hp, Hport, Z.eqb_refl. cbn.
  destruct (OriginPattern.host p) as [|hp|dp], (OriginPattern.host q) as [|hq|dq]; try done;
    bool_simpl; subst.
  - by apply bool_decide_eq_true.
  - destruct (Origin.host o); done.
  - destruct (Origin.host o) as [n|]; [|done].
    apply orb_true_iff in Hh as [Hh|Hh]; bool_simpl; [by subst|].
    by eapply is_proper_subdomain_trans.
Qed.

(** ** Properties *)

Lemma scope_covers_sound_aux parent child o :
  scope_covers parent child = true -> scope_matches child o = true -> scope_matches parent o = true.
Proof.
  unfold scope_covers, scope_matches. rewrite forallb_forall, !existsb_exists.
  intros Hc (p & Hp & Hm). specialize (Hc p Hp). apply existsb_exists in Hc as (q & Hq & Hcov).
  exists q. split; [done|]. by eapply pattern_covers_sound.
Qed.


(** The pieces of a target that parses. *)
Lemma origin_parse_inv {V} target o :
  origin_parse (V := V) target = Ok o ->
  exists scheme rest authority host port,
    forallb is_ascii_graphic target = true /\
    split_once (lit "://") target = Some (scheme, rest) /\
    scheme_parse (V := V) scheme = Ok (Origin.scheme o) /\
    authority = take (default (length rest) (find_byte is_boundary rest)) rest /\
    split_port (V := V) authority = Ok (host, port) /\
    parse_host (V := V) host = Ok (Origin.host o) /\
    Origin.port o = default (default_port (Origin.scheme o)) port.
Proof.
  unfold origin_parse. intros H. apply bind_Ok in H as (u & Hg & H). apply ensure_Ok in Hg.
  apply bind_Ok in H as ([scheme rest] & Hs%ok_or_Ok & H).
  apply bind_Ok in H as (sch & Hsch & H).
  apply bind_Ok in H as ([authority tl] & Ha%ok_or_Ok & H).
  apply bind_Ok in H as ([host port] & Hp & H).
  apply bind_Ok in H as (h & Hh & H). apply Ok_inj in H as <-.
  unfold split_at_checked in Ha. case_match; [|done]. injection Ha as <- <-.
  exists scheme, rest, (take (default (length rest) (find_byte is_boundary rest)) rest), host, port.
  repeat split; assumption.
Qed.

Lemma split_port_inv {V} authority host port :
  split_port (V := V) authority = Ok (host, port) ->
  (port = None /\ host = authority) \/
  exists p digits, port = Some p /\ 1 <= p <= u16_max /\ authority = host ++ lit ":" ++ digits /\
    forallb is_ascii_digit digits = true /\ parse_decimal u16_max 0 digits = Some p.
Proof.
  unfold split_port. destruct (split_once (lit ":") authority) as [[h p]|] eqn:E.
  - apply split_once_Some in E. intros H. inv_ok. injection H as <- <-. bool_simpl. right.
    match goal with H : parse_decimal _ _ _ = Some ?x |- _ => exists x, p; pose proof H as Hr end.
    apply parse_decimal_range in Hr; [|done|unfold u16_max; lia].
    repeat split; auto; lia.
  - intros H. inv_ok. injection H as <- <-. auto.
Qed.

Lemma split_port_display {V} host p :
  forallb is_host_byte host = true -> 1 <= p <= u16_max ->
  split_port (V := V) (host ++ lit ":" ++ display_uint p) = Ok (host, Some p).
Proof.
  intros Hh Hp. unfold u16_max in Hp. unfold split_port. change (lit ":") with [":"%byte].
  rewrite split_once_first.
  2: { apply Forall_forall. intros c Hc%list_elem_of_In ->. rewrite forallb_forall in Hh.
       specialize (Hh _ Hc). discriminate. }
  rewrite bool_decide_eq_false_2 by apply print_decimal_nonempty.
  unfold display_uint. rewrite print_decimal_digits by lia. cbn [negb andb ensure mbind result_bind].
  rewrite parse_print_decimal by (unfold u16_max; cbn; lia). cbn [ok_or mbind result_bind].
  by rewrite (proj2 (Z.eqb_neq p 0)) by lia.
Qed.

Lemma scheme_parse_display {V} s : scheme_parse (V := V) (scheme_display s) = Ok s.
Proof. by destruct s. Qed.

Lemma authority_bytes host p q :
  (forall c, implb (is_host_byte c) (q c) = true) -> (forall c, implb (is_ascii_digit c) (q c) = true) ->
  q ":"%byte = true -> forallb is_host_byte host = true -> 0 <= p ->
  forallb q (host ++ lit ":" ++ display_uint p) = true.
Proof.
  intros Hq1 Hq2 Hq3 Hh Hp. rewrite !forallb_app. apply andb_true_iff; split; [|apply andb_true_iff; split].
  - revert Hh. apply forallb_impl. intros c Hc. specialize (Hq1 c). by rewrite Hc in Hq1.
  - cbn. by rewrite Hq3.
  - pose proof (print_decimal_digits 5 p Hp) as Hd. revert Hd. apply forallb_impl.
    intros c Hc. specialize (Hq2 c). by rewrite Hc in Hq2.
Qed.

(** Printing an origin whose host prints as it parses and parsing the text. *)
Lemma origin_display_parse {V} o :
  parse_host (V := V) (host_display (Origin.host o)) = Ok (Origin.host o) ->
  forallb is_host_byte (host_display (Origin.host o)) = true -> 1 <= Origin.port o <= u16_max ->
  origin_parse (V := V) (origin_display o) = Ok o.
Proof.
  destruct o as [s h p]; cbn [Origin.host Origin.port]. intros Hh Hb Hp.
  unfold origin_parse, origin_display. cbn [Origin.scheme Origin.host Origin.port].
  rewrite forallb_app, forallb_app.
  rewrite (authority_bytes _ _ is_ascii_graphic) by (by_all_bytes || done || lia).
  replace (forallb is_ascii_graphic (scheme_display s)) with true by (by destruct s).
  change (lit "://") with (":"%byte :: lit "//"). rewrite split_once_first by (destruct s; by repeat constructor).
  cbn [forallb lit String.list_byte_of_string]. cbn [andb ensure ok_or mbind result_bind].
  rewrite scheme_parse_display. cbn [mbind result_bind].
  rewrite find_byte_None.
  2: { apply authority_bytes; [by_all_bytes..|done|done|lia]. }
  cbn [default id]. unfold split_at_checked. rewrite Nat.leb_refl, firstn_all. cbn [ok_or mbind result_bind].
  rewrite split_port_display by done. cbn [mbind result_bind]. rewrite Hh. done.
Qed.

(** Origin text round trip: an origin parsed from any target prints to a
    text that parses to the same origin. *)
Theorem origin_roundtrip {V} (target : str) (o : Origin) :
  origin_parse (V := V) target = Ok o -> origin_parse (V := V) (origin_display o) = Ok o.
Proof.
  intros (s & rest & a & h & p & _ & _ & _ & _ & Hp & Hh & Hport)%origin_parse_inv.
  apply parse_host_display in Hh as [Hh Hb]. apply origin_display_parse; [done|done|].
  apply split_port_inv in Hp as [[-> _]|(q & d & -> & Hq & _)]; rewrite Hport; cbn; [|done].
  unfold u16_max. destruct (Origin.scheme o); cbn; lia.
Qed.

(** ** What a parsed target says *)

Definition all_digits : str := lit "0123456789".
Lemma all_digits_complete c : is_ascii_digit c = true -> In c all_digits.
Proof.
  intros Hc. assert (implb (is_ascii_digit c) (existsb (fun d => bool_decide (c = d)) all_digits) = true) as H.
  { revert c Hc. intros c _. revert c. by_all_bytes. }
  rewrite Hc in H. apply existsb_exists in H as (d & Hd & H). by bool_simpl; subst.
Qed.

Definition octet_canonical_check (l : str) : bool :=
  match octet (V := unit) l with Ok z => bool_decide (display_uint z = l) | Err _ => true end.
Lemma octet_canonical_checked :
  forallb (fun a => octet_canonical_check [a] &&
    forallb (fun b => octet_canonical_check [a; b] &&
      forallb (fun c => octet_canonical_check [a; b; c]) all_digits) all_digits) all_digits = true.
Proof. vm_compute. reflexivity. Qed.

Lemma octet_canonical {V} l z : octet (V := V) l = Ok z -> display_uint z = l.
Proof.
  intros Ho. assert (octet_canonical_check l = true) as Hc.
  { unfold octet in Ho. inv_ok. bool_simpl.
    match goal with H : (length l <=? 3)%nat = true |- _ => apply Nat.leb_le in H as Hl end.
    match goal with H : forallb is_ascii_digit l = true |- _ => rewrite forallb_forall in H; rename H into Hd end.
    assert (forall c, In c l -> In c all_digits) as Hin by (intros; apply all_digits_complete, Hd; done).
    pose proof octet_canonical_checked as Hall. rewrite forallb_forall in Hall.
    destruct l as [|a l]; [done|]. specialize (Hall a (Hin a (in_eq _ _))).
    apply andb_true_iff in Hall as [Ha Hall]. rewrite forallb_forall in Hall.
    destruct l as [|b l]; [done|]. specialize (Hall b (Hin b (in_cons _ _ _ (in_eq _ _)))).
    apply andb_true_iff in Hall as [Hb Hall]. rewrite forallb_forall in Hall.
    destruct l as [|c l]; [done|]. destruct l; [|cbn in Hl; lia]. apply Hall, Hin. cbn; auto. }
  unfold octet in Ho. inv_ok. unfold octet_canonical_check, octet in Hc.
  match goal with H : _ && _ = true |- _ => rewrite H in Hc end. cbn [ensure mbind result_bind] in Hc.
  rewrite Ho in Hc. cbn [ok_or] in Hc. by bool_simpl.
Qed.

Lemma split_on_join4 sep s a b c d :
  split_on sep s = [a; b; c; d] -> s = a ++ [sep] ++ b ++ [sep] ++ c ++ [sep] ++ d.
Proof.
  assert (forall s, foldr (fun l acc => match acc with None => Some l | Some t => Some (l ++ sep :: t) end)
    None (split_on sep s) = Some s) as Hj.
  { clear. induction s as [|c s IH]; cbn [split_on]; [done|]. case_bool_decide as Hc; subst.
    - cbn [foldr]. by rewrite IH.
    - destruct (split_on sep s) as [|l ls] eqn:E; [by destruct (split_on_nonempty sep s)|].
      revert IH. cbn [foldr]. destruct (foldr _ _ ls); intros [= <-]; done. }
  intros Hs. specialize (Hj s). rewrite Hs in Hj. cbn in Hj. by injection Hj as <-.
Qed.

Lemma lower_digit_id c : is_ascii_digit c = true -> to_ascii_lowercase c = c.
Proof.
  intros Hc. assert (implb (is_ascii_digit c) (bool_decide (to_ascii_lowercase c = c)) = true) as H
    by (revert c Hc; intros c _; revert c; by_all_bytes).
  rewrite Hc in H. cbn [implb] in H. by bool_simpl.
Qed.
Lemma lower_display_uint z : 0 <= z -> to_ascii_lowercase <$> display_uint z = display_uint z.
Proof.
  intros Hz. pose proof (print_decimal_digits 5 z Hz) as Hd. rewrite forallb_forall in Hd.
  rewrite <- (list_fmap_id (display_uint z)) at 2. apply list_fmap_ext.
  intros i c Hc. apply lower_digit_id, Hd, list_elem_of_In, list_elem_of_lookup. eauto.
Qed.

(** The text of a host is the printed host up to letter case. *)
Lemma parse_host_text {V} text h :
  parse_host (V := V) text = Ok h ->
  to_ascii_lowercase <$> text = host_display h /\ forallb is_host_byte text = true.
Proof.
  unfold parse_host. intros H. inv_ok. bool_simpl. destruct (ends_in_number _) eqn:Hnum.
  - unfold parse_ipv4 in H.
    destruct (split_on "."%byte text) as [|l1 [|l2 [|l3 [|l4 [|]]]]] eqn:Hs; try discriminate H.
    apply split_on_join4 in Hs. inv_ok. cbn [host_display].
    repeat match goal with H : octet ?l = Ok _ |- _ =>
      pose proof (octet_range _ _ H); apply octet_canonical in H; subst l end.
    rewrite !fmap_app, !lower_display_uint by lia. split; [done|].
    repeat (rewrite ?forallb_app; apply andb_true_iff; split); try reflexivity;
      apply digits_host_bytes, print_decimal_digits; lia.
  - inv_ok. split; [done|]. by apply ldh_host_bytes.
Qed.

Lemma find_byte_take p s :
  match find_byte p s with
  | Some n => exists c t, drop n s = c :: t /\ p c = true
  | None => True
  end.
Proof.
  induction s as [|c s IH]; cbn; [done|]. destruct (p c) eqn:Hc; [eauto|].
  destruct (find_byte p s); cbn; eauto.
Qed.

(** The authorized origin is the one the target spells: a target that
    parses is a scheme, [://], a host, an optional port and a tail, where the
    host text holds only letters, digits, hyphens and dots (so no userinfo,
    no percent-encoding, no IPv6 literal) and equals the parsed host up to
    letter case, the port is the explicit decimal one or the scheme's
    default, and the tail is empty or starts at a path, query or fragment. *)
Theorem origin_parse_sound {V} (target : str) (o : Origin) :
  origin_parse (V := V) target = Ok o ->
  exists scheme host port tail,
    target = scheme ++ lit "://" ++ host ++ port ++ tail /\
    to_ascii_lowercase <$> scheme = scheme_display (Origin.scheme o) /\
    to_ascii_lowercase <$> host = host_display (Origin.host o) /\
    forallb is_host_byte host = true /\
    ((port = [] /\ Origin.port o = default_port (Origin.scheme o)) \/
     exists digits, port = lit ":" ++ digits /\ forallb is_ascii_digit digits = true /\
       parse_decimal u16_max 0 digits = Some (Origin.port o)) /\
    (tail = [] \/ exists c t, tail = c :: t /\ is_boundary c = true).
Proof.
  intros (s & rest & a & h & p & _ & Hs & Hsch & -> & Hp & Hh & Hport)%origin_parse_inv.
  apply split_once_Some in Hs as ->. apply parse_host_text in Hh as [Hh Hb].
  set (n := default (length rest) (find_byte is_boundary rest)) in *.
  assert (to_ascii_lowercase <$> s = scheme_display (Origin.scheme o)) as Hs.
  { unfold scheme_parse, eq_ignore_ascii_case in Hsch. repeat case_bool_decide; inv_ok;
      match goal with H : _ <$> s = _ |- _ => rewrite H end;
      match goal with H : _ = Origin.scheme o |- _ => rewrite <- H end; reflexivity. }
  assert (drop n rest = [] \/ exists c t, drop n rest = c :: t /\ is_boundary c = true) as Ht.
  { subst n. pose proof (find_byte_take is_boundary rest) as Hf.
    destruct (find_byte is_boundary rest); [by right|]. left. apply drop_all. }
  apply split_port_inv in Hp as [[-> ->]|(q & d & -> & _ & Ha & Hd & Hq)].
  - exists s, (take n rest), [], (drop n rest). cbn [app]. rewrite take_drop. repeat split; auto.
  - exists s, h, (lit ":" ++ d), (drop n rest). cbn in Hport. subst q.
    rewrite (app_assoc h), <- Ha, take_drop. repeat split; eauto.
Qed.

(** Target scope narrowing is sound: when a parent scope covers a child
    scope, every origin the child scope admits is admitted by the parent. *)
Theorem scope_covers_sound (parent child : TargetScope) (o : Origin) :
  scope_covers parent child = true -> scope_matches child o = true -> scope_matches parent o = true.
Proof. apply scope_covers_sound_aux. Qed.
