(* ===== verification/View.v ===== *)
(** * Grants and the read-only views ([epitrope::grant] data, [epitrope::view],
    [epitrope::clock])

    The decisions read grants, revocations, sessions, tenants and ledgers
    only through these two classes, which have no write operation. The store
    provides their instance. [W] is the implementing type, [V] its error. *)
From S2P Require Import Prelude Vocab Ids Payload Epitrope Origin.
Local Open Scope Z_scope.

(** [Grant]: a standing permission. [depth] and [max_depth] are [u8]. *)
Module Grant.
Record Grant : Type := mk {
  id : GrantId;
  issuer : TenantId;
  holder : TenantId;
  capabilities : gset Capability;
  session_scope : SessionScope;
  target_scope : TargetScope;
  audit_scope : AuditScope;
  ceilings : Ceilings;
  not_before : Timestamp;
  expires_at : Timestamp;
  parent : option GrantId;
  depth : Z;
  max_depth : Z;
}.
#[global] Instance Grant_eq_dec : EqDecision Grant.
Proof. solve_decision. Defined.
End Grant.
Abbreviation Grant := Grant.Grant.

(** [Revocation]. *)
Module Revocation.
Record Revocation : Set := mk { grant : GrantId; at_seq : AuditSeq; at_time : Timestamp }.
#[global] Instance Revocation_eq_dec : EqDecision Revocation.
Proof. solve_decision. Defined.
End Revocation.
Abbreviation Revocation := Revocation.Revocation.

(** [LedgerId]. *)
Module LedgerId.
Inductive LedgerId : Set :=
| Grant (grant : GrantId)
| Session (session : SessionId)
| Tenant (tenant : TenantId).
#[global] Instance LedgerId_eq_dec : EqDecision LedgerId.
Proof. solve_decision. Defined.
End LedgerId.
Abbreviation LedgerId := LedgerId.LedgerId.

(** The [GrantView] trait. *)
Class GrantView (W V : Type) := {
  view_grant : W -> GrantId -> result V (option Grant);
  view_revocation : W -> GrantId -> result V (option Revocation);
  view_session_owner : W -> SessionId -> result V (option TenantId);
  view_tenant_parent : W -> TenantId -> result V (option TenantId);
}.
(** The [LedgerView] trait. *)
Class LedgerView (W V : Type) := {
  view_used : W -> LedgerId -> result V Cost;
  view_session_ceilings : W -> SessionId -> result V Ceilings;
  view_tenant_ceilings : W -> TenantId -> result V Ceilings;
}.
#[global] Hint Mode GrantView ! - : typeclass_instances.
#[global] Hint Mode LedgerView ! - : typeclass_instances.

(** [.context(ViewSnafu)]. *)
Abbreviation view_context := (map_err Error.View) (only parsing).

(** Every grant the view answers with has [u8] depths, as its type says. *)
Definition view_u8 {W V} `{GrantView W V} (view : W) : Prop :=
  forall i g, view_grant view i = Ok (Some g) ->
    in_range u8_max (Grant.depth g) /\ in_range u8_max (Grant.max_depth g).

(** ** A view over finite maps, total and never failing

    Used by the witnesses to evaluate the decisions on concrete records. *)
Record MapView : Type := MapView_mk {
  mv_grants : gmap GrantId Grant;
  mv_revocations : gmap GrantId Revocation;
  mv_sessions : gmap SessionId (TenantId * Ceilings);
  mv_tenants : gmap TenantId (option TenantId * Ceilings);
  mv_used : list (LedgerId * Cost);
}.
Definition mv_lookup_used (l : list (LedgerId * Cost)) (i : LedgerId) : Cost :=
  match List.find (fun p => bool_decide (p.1 = i)) l with
  | Some (_, c) => c
  | None => cost_default
  end.
#[global] Instance MapView_grants : GrantView MapView unit := {|
  view_grant v i := Ok (mv_grants v !! i);
  view_revocation v i := Ok (mv_revocations v !! i);
  view_session_owner v i := Ok (fst <$> mv_sessions v !! i);
  view_tenant_parent v i := Ok (mv_tenants v !! i ≫= fst);
|}.
#[global] Instance MapView_ledgers : LedgerView MapView unit := {|
  view_used v i := Ok (mv_lookup_used (mv_used v) i);
  view_session_ceilings v i := Ok (default ceilings_default (snd <$> mv_sessions v !! i));
  view_tenant_ceilings v i := Ok (default ceilings_default (snd <$> mv_tenants v !! i));
|}.
