(* ===== verification/Chain.v ===== *)
(** * Chain validity and audit scopes ([epitrope::chain], [epitrope::audit]) *)
From S2P Require Import Prelude Vocab Ids Payload Epitrope Origin View.
Local Open Scope Z_scope.

(** [ChainStatus]. *)
Module ChainStatus.
Inductive ChainStatus : Type :=
| Valid (chain : list Grant)
| Invalid (code : DenyCode) (failing_link : GrantId).
End ChainStatus.
Abbreviation ChainStatus := ChainStatus.ChainStatus.

Section chain.
Context {W V : Type} `{GrantView W V}.

(** The structural check of one link against its parent. *)
Definition link_ok (parent_id : GrantId) (parent current : Grant) : bool :=
  bool_decide (Grant.id parent = parent_id)
  && bool_decide (checked_add u8_max (Grant.depth parent) 1 = Some (Grant.depth current))
  && (Grant.depth current <? Grant.max_depth parent)
  && (Grant.max_depth current <=? Grant.max_depth parent)
  && bool_decide (Grant.issuer current = Grant.holder parent).

(** The [while] loop of [load_chain]; [None] when [fuel] runs out. *)
Fixpoint load_loop (fuel : nat) (view : W) (current : Grant)
    : option (result (Error V) (list Grant)) :=
  match fuel with
  | O => None
  | S fuel =>
      match Grant.parent current with
      | None =>
          Some (_ ← ensure (Grant.depth current =? 0) (Error.ChainMalformed (Grant.id current));
                Ok [current])
      | Some parent_id =>
          match (parent ← view_context (view_grant view parent_id);
                 parent ← ok_or parent (Error.ChainBroken parent_id);
                 _ ← ensure (link_ok parent_id parent current)
                       (Error.ChainMalformed (Grant.id current));
                 Ok parent) with
          | Err e => Some (Err e)
          | Ok parent => fmap (M := result (Error V)) (cons current) <$> load_loop fuel view parent
          end
      end
  end.

(** [load_chain]. Each parent's depth is one less, so [depth + 1] rounds are
    enough ([load_loop_total]). *)
Definition load_chain (view : W) (leaf : Grant) : result (Error V) (list Grant) :=
  default (Err (Error.ChainMalformed (Grant.id leaf)))
    (load_loop (S (Z.to_nat (Grant.depth leaf))) view leaf).

(** The verdict on one link: revocation first, then expiry, then
    not-yet-valid. *)
Definition link_code (revoked : bool) (now : Timestamp) (link : Grant) : option DenyCode :=
  if revoked then Some DenyCode.GrantRevoked
  else if now >=? Grant.expires_at link then Some DenyCode.GrantExpired
  else if now <? Grant.not_before link then Some DenyCode.GrantNotYetValid
  else None.

(** The [for] loop of [check_chain]: the first unusable link, if any. *)
Fixpoint check_links (view : W) (now : Timestamp) (links : list Grant)
    : result (Error V) (option (DenyCode * GrantId)) :=
  match links with
  | [] => Ok None
  | link :: links =>
      revocation ← view_context (view_revocation view (Grant.id link));
      match link_code (bool_decide (is_Some revocation)) now link with
      | Some code => Ok (Some (code, Grant.id link))
      | None => check_links view now links
      end
  end.

Definition check_chain (view : W) (leaf : Grant) (now : Timestamp)
    : result (Error V) ChainStatus :=
  chain ← load_chain view leaf;
  failing ← check_links view now chain;
  Ok (match failing with
      | Some (code, failing_link) => ChainStatus.Invalid code failing_link
      | None => ChainStatus.Valid chain
      end).

(** ** Specification *)

(** [Linked view leaf chain]: [chain] is the list of grants from [leaf] to
    its root, every link consistent with its parent as the view holds it. *)
Inductive Linked (view : W) : Grant -> list Grant -> Prop :=
| Linked_root leaf :
    Grant.parent leaf = None -> Grant.depth leaf = 0 -> Linked view leaf [leaf]
| Linked_link leaf parent_id parent rest :
    Grant.parent leaf = Some parent_id ->
    view_grant view parent_id = Ok (Some parent) ->
    link_ok parent_id parent leaf = true ->
    Linked view parent rest ->
    Linked view leaf (leaf :: rest).

(** A link usable at [now]. *)
Definition usable (view : W) (now : Timestamp) (link : Grant) : Prop :=
  view_revocation view (Grant.id link) = Ok None /\
  Grant.not_before link <= now < Grant.expires_at link.

Lemma link_ok_depth i p c :
  link_ok i p c = true -> Grant.depth c = Grant.depth p + 1.
Proof using Type.
  unfold link_ok. intros Hl. bool_simpl.
  match goal with H : checked_add _ _ _ = Some _ |- _ => apply checked_add_Some in H; lia end.
Qed.

(** More than [depth] rounds never run out, and the result does not depend
    on how many more: the loop of the source ends. *)
Lemma load_loop_total view leaf fuel :
  view_u8 view -> 0 <= Grant.depth leaf -> (Z.to_nat (Grant.depth leaf) < fuel)%nat ->
  load_loop fuel view leaf = Some (load_chain view leaf).
Proof using Type.
  intros Hu. unfold load_chain.
  enough (forall n m leaf, 0 <= Grant.depth leaf -> (Z.to_nat (Grant.depth leaf) < n)%nat ->
    (Z.to_nat (Grant.depth leaf) < m)%nat ->
    exists r, load_loop n view leaf = Some r /\ load_loop m view leaf = Some r) as Hgen.
  { intros Hd Hf. destruct (Hgen fuel (S (Z.to_nat (Grant.depth leaf))) leaf) as (r & -> & ->); auto; lia. }
  induction n as [|n IH]; intros m l Hd Hn Hm; [lia|]. destruct m as [|m]; [lia|].
  cbn [load_loop]. destruct (Grant.parent l) as [pid|]; [|eauto].
  destruct (view_grant view pid) as [[p|]|e] eqn:Hg; cbn; [|eauto..].
  destruct (link_ok pid p l) eqn:Hl; cbn; [|eauto].
  apply link_ok_depth in Hl. destruct (Hu _ _ Hg) as [[? _] _].
  destruct (IH m p) as (r & -> & ->); [lia..|]. eauto.
Qed.

Lemma load_loop_Linked fuel view leaf chain :
  load_loop fuel view leaf = Some (Ok chain) -> Linked view leaf chain.
Proof using Type.
  revert leaf chain; induction fuel as [|fuel IH]; intros leaf chain; cbn [load_loop]; [done|].
  destruct (Grant.parent leaf) as [pid|] eqn:Hp.
  - destruct (view_grant view pid) as [[p|]|] eqn:Hg; cbn; try done.
    destruct (link_ok pid p leaf) eqn:Hl; cbn; [|done].
    destruct (load_loop fuel view p) as [[rest|]|] eqn:Hr; cbn; try done.
    intros [= <-]. econstructor; eauto.
  - destruct (Z.eqb_spec (Grant.depth leaf) 0); cbn; [|done]. intros [= <-]. by constructor.
Qed.

(** [load_chain] returns exactly the chain from the leaf to its root. *)
Lemma load_chain_Linked view leaf chain :
  view_u8 view -> 0 <= Grant.depth leaf ->
  load_chain view leaf = Ok chain <-> Linked view leaf chain.
Proof using Type.
  intros Hu Hd. split.
  - intros Hl. eapply (load_loop_Linked (S (Z.to_nat (Grant.depth leaf)))).
    rewrite load_loop_total by (done || lia). by rewrite Hl.
  - intros HL. enough (load_loop (S (Z.to_nat (Grant.depth leaf))) view leaf = Some (Ok chain)) as Hx
      by (unfold load_chain; by rewrite Hx).
    induction HL as [leaf Hp H0|leaf pid p rest Hp Hg Hl HL IH]; cbn [load_loop]; rewrite Hp.
    + by rewrite (proj2 (Z.eqb_eq _ _) H0).
    + rewrite Hg; cbn. rewrite Hl; cbn. apply link_ok_depth in Hl.
      destruct (Hu _ _ Hg) as [[Hd' _] _].
      replace (Z.to_nat (Grant.depth leaf)) with (S (Z.to_nat (Grant.depth p))) by lia.
      by rewrite IH.
Qed.

(** A chain has one link per depth, so a [u8] depth bounds it by 256. *)
Lemma Linked_length view leaf chain :
  Linked view leaf chain -> Z.of_nat (length chain) = Grant.depth leaf + 1.
Proof using Type.
  induction 1 as [leaf _ H0|leaf pid p rest _ _ Hl _ IH]; cbn [length]; [lia|].
  apply link_ok_depth in Hl. lia.
Qed.

Lemma Linked_head view leaf chain : Linked view leaf chain -> exists rest, chain = leaf :: rest.
Proof using Type. inversion 1; eauto. Qed.

Lemma check_links_None view now links :
  check_links view now links = Ok None <-> Forall (usable view now) links.
Proof using Type.
  induction links as [|l ls IH]; cbn [check_links]; [by split; constructor|].
  rewrite Forall_cons. unfold usable at 1.
  destruct (view_revocation view (Grant.id l)) as [[r|]|e] eqn:Hr; cbn; [naive_solver..| |naive_solver].
  unfold link_code. rewrite Z.geb_leb.
  destruct (Z.leb_spec (Grant.expires_at l) now); [naive_solver lia|].
  destruct (Z.ltb_spec now (Grant.not_before l)); [naive_solver lia|].
  rewrite IH. naive_solver lia.
Qed.

Lemma check_chain_valid view leaf now chain :
  view_u8 view -> 0 <= Grant.depth leaf ->
  check_chain view leaf now = Ok (ChainStatus.Valid chain) <->
  Linked view leaf chain /\ Forall (usable view now) chain.
Proof using Type.
  intros Hu Hd. rewrite <- load_chain_Linked, <- check_links_None by done.
  unfold check_chain. split.
  - intros Hc. apply bind_Ok in Hc as (c & Hl & Hc). apply bind_Ok in Hc as (f & Hf & Hc).
    apply Ok_inj in Hc. destruct f as [[]|]; [done|]. injection Hc as <-. done.
  - intros [Hl Hc]. rewrite Hl; cbn. by rewrite Hc.
Qed.
End chain.
Arguments Linked {W V H} view _ _.

(** ** Properties *)
Section properties.
Context {W V : Type} `{GrantView W V}.

(** A chain is valid at an instant exactly when it is the chain of
    parent links from the leaf to a root of depth zero, every link
    consistent with its parent, and every link is unrevoked and inside its
    validity window at that instant. *)
Theorem check_chain_valid_iff (view : W) (leaf : Grant) (now : Timestamp) (chain : list Grant) :
  view_u8 view -> 0 <= Grant.depth leaf ->
  check_chain view leaf now = Ok (ChainStatus.Valid chain) <->
  Linked view leaf chain /\ Forall (usable view now) chain.
Proof using Type.
  intros Hu Hd. by apply check_chain_valid.
Qed.

(** Revocation reaches every descendant with no write to them: when any
    link of a grant's chain has a revocation record, the walk from that grant
    reports the chain invalid, whatever the instant. *)
Theorem check_chain_revoked_ancestor (view : W) (leaf link : Grant) (chain : list Grant)
    (now : Timestamp) (r : Revocation) :
  view_u8 view -> 0 <= Grant.depth leaf -> Linked view leaf chain -> In link chain ->
  view_revocation view (Grant.id link) = Ok (Some r) ->
  (forall l, In l chain -> exists o, view_revocation view (Grant.id l) = Ok o) ->
  exists code failing, check_chain view leaf now = Ok (ChainStatus.Invalid code failing).
Proof using Type.
  intros Hu Hd HL Hin Hr Hreads. unfold check_chain.
  rewrite (proj2 (load_chain_Linked _ _ _ Hu Hd) HL). cbn [mbind result_bind]. clear HL.
  enough (exists p, check_links view now chain = Ok (Some p)) as [[code f] ->] by eauto.
  induction chain as [|l ls IH]; [done|]. cbn [check_links].
  destruct (Hreads l (in_eq _ _)) as [o Ho]. rewrite Ho; cbn [map_err mbind result_bind].
  destruct (link_code _ now l) as [code|] eqn:Hc; [eauto|].
  apply IH; [|intros; apply Hreads; by right]. destruct Hin as [->|Hin]; [|done].
  rewrite Hr in Ho. injection Ho as <-. discriminate Hc.
Qed.

(** The walk ends: whatever a view with [u8] depths answers, cycles
    included, the loop stops within one round per depth, at most 256, and a
    chain it returns has exactly one link per depth. *)
Theorem load_chain_terminates (view : W) (leaf : Grant) :
  view_u8 view -> in_range u8_max (Grant.depth leaf) ->
  (exists r, load_loop 256 view leaf = Some r /\ load_chain view leaf = r) /\
  forall chain, load_chain view leaf = Ok chain ->
    Z.of_nat (length chain) = Grant.depth leaf + 1 /\ (length chain <= 256)%nat.
Proof using Type.
  unfold in_range, u8_max. intros Hu [Hd Hm]. split.
  - exists (load_chain view leaf). split; [|done]. apply load_loop_total; [done|done|lia].
  - intros chain Hl%load_chain_Linked; [|done..]. apply Linked_length in Hl. lia.
Qed.
End properties.

(** ** Audit scopes and the rule evaluator's view ([epitrope::audit]) *)

Definition default_audit_scope (class : TenantClass) : AuditScope :=
  match class with
  | TenantClass.Operator => AuditScope.All
  | _ => AuditScope.OwnAndOwnedSessions
  end.

Definition audit_scope_within (inner outer : AuditScope) : bool :=
  bool_decide (inner = outer)
  || (bool_decide (inner = AuditScope.OwnAndOwnedSessions) && bool_decide (outer = AuditScope.All)).

Definition applied_audit_scope (requested granted : AuditScope) : AuditScope :=
  if audit_scope_within requested granted then requested else granted.

(** [RuleView]: the facts of one call, with no audit accessor. *)
Module RuleView.
Record RuleView : Set := mk {
  tenant : TenantId; class : TenantClass; capability : Capability;
  session : option SessionId; target : option str; grant_chain : list GrantId }.
End RuleView.
Abbreviation RuleView := RuleView.RuleView.

(** The scope an audit query is answered with never exceeds the grant's. *)
Lemma applied_within requested granted :
  audit_scope_within (applied_audit_scope requested granted) granted = true.
Proof. by destruct requested, granted. Qed.
