(* ===== verification/Issue.v ===== *)
(** * Delegation ([epitrope::grant]): lineage, narrowing, issue decisions *)
From S2P Require Import Prelude Vocab Ids Payload Epitrope Origin View Chain.
Local Open Scope Z_scope.

Definition MAX_TENANT_LINEAGE : nat := 255.

(** [IssueContext]. *)
Module IssueContext.
Record IssueContext : Set := mk { issuer : TenantId; designated : GrantId; child : GrantId }.
End IssueContext.
Abbreviation IssueContext := IssueContext.IssueContext.

(** [IssueDecision]. *)
Module IssueDecision.
Inductive IssueDecision : Type :=
| Issued (grant : Grant)
| NotFoundOrDenied
| Denied (code : DenyCode)
| Narrowing (axis : NarrowingAxis).
End IssueDecision.
Abbreviation IssueDecision := IssueDecision.IssueDecision.

(** [IssueDecision::refusal]. *)
Definition issue_refusal (d : IssueDecision) : option Failure :=
  match d with
  | IssueDecision.Issued _ => None
  | IssueDecision.NotFoundOrDenied => Some Failure.NotFoundOrDenied
  | IssueDecision.Denied code => Some (failure_denied code)
  | IssueDecision.Narrowing axis => Some (failure_narrowing axis)
  end.

(** [ceilings_within]. *)
Definition ceilings_within (parent : Ceilings) (parent_used : Cost) (child : Ceilings) : bool :=
  forallb (fun d => match ceilings_get parent d, ceilings_get child d with
                    | None, _ => true
                    | Some _, None => false
                    | Some ceiling, Some amount =>
                        amount <=? saturating_sub ceiling (cost_get parent_used d)
                    end) enum_all.

Section issue.
Context {W V : Type} `{GrantView W V}.

(** The loop of [in_lineage]: [rounds] more iterations. *)
Fixpoint lineage_loop (rounds : nat) (view : W) (tenant ancestor current : TenantId)
    : result (Error V) bool :=
  match rounds with
  | O => Err (Error.TenantLineage tenant)
  | S rounds =>
      if bool_decide (current = ancestor) then Ok true
      else
        parent ← view_context (view_tenant_parent view current);
        match parent with
        | Some parent => lineage_loop rounds view tenant ancestor parent
        | None => Ok false
        end
  end.
Definition in_lineage (view : W) (tenant ancestor : TenantId) : result (Error V) bool :=
  lineage_loop (S MAX_TENANT_LINEAGE) view tenant ancestor tenant.

(** The [for] loop of [session_scope_within] under an [Own] parent. *)
Fixpoint sessions_owned (view : W) (holder : TenantId) (sessions : list SessionId)
    : result (Error V) bool :=
  match sessions with
  | [] => Ok true
  | session :: sessions =>
      owner ← view_context (view_session_owner view session);
      admitted ← match owner with
                 | Some owner => in_lineage view owner holder
                 | None => Ok false
                 end;
      if negb admitted then Ok false else sessions_owned view holder sessions
  end.

Definition session_scope_within (view : W) (parent child : Grant) : result (Error V) bool :=
  match Grant.session_scope parent, Grant.session_scope child with
  | SessionScope.Own, SessionScope.Own =>
      in_lineage view (Grant.holder child) (Grant.holder parent)
  | SessionScope.Own, SessionScope.Sessions sessions =>
      sessions_owned view (Grant.holder parent) sessions
  | SessionScope.Sessions allowed, SessionScope.Sessions sessions =>
      Ok (forallb (fun s => bool_decide (s ∈ allowed)) sessions)
  | _, _ => Ok false
  end.

(** [narrowing_violation]: the first failing axis in the source's order. *)
Definition narrowing_violation (view : W) (parent : Grant) (parent_used : Cost) (child : Grant)
    : result (Error V) (option NarrowingAxis) :=
  session_ok ← session_scope_within view parent child;
  let checks := [
    (NarrowingAxis.Capabilities,
      bool_decide (Grant.capabilities child ⊆ Grant.capabilities parent));
    (NarrowingAxis.AuditScope,
      audit_scope_within (Grant.audit_scope child) (Grant.audit_scope parent));
    (NarrowingAxis.SessionScope, session_ok);
    (NarrowingAxis.TargetScope,
      scope_covers (Grant.target_scope parent) (Grant.target_scope child));
    (NarrowingAxis.Ceilings,
      ceilings_within (Grant.ceilings parent) parent_used (Grant.ceilings child));
    (NarrowingAxis.Expiry,
      (Grant.not_before parent <=? Grant.not_before child)
      && (Grant.not_before child <? Grant.expires_at child)
      && (Grant.expires_at child <=? Grant.expires_at parent));
    (NarrowingAxis.Depth,
      bool_decide (checked_add u8_max (Grant.depth parent) 1 = Some (Grant.depth child))
      && (Grant.depth child <? Grant.max_depth parent)
      && (Grant.max_depth child <=? Grant.max_depth parent));
    (NarrowingAxis.IssuerAuthority,
      bool_decide (Grant.parent child = Some (Grant.id parent))
      && bool_decide (Grant.issuer child = Grant.holder parent))] in
  Ok (fst <$> List.find (fun c => negb c.2) checks).

Context `{LedgerView W V}.

(** [check_issue]. *)
Definition check_issue (view : W) (context : IssueContext) (request : GrantIssueRequest)
    (now : Timestamp) : result (Error V) IssueDecision :=
  let '(IssueContext.mk issuer designated child) := context in
  found ← view_context (view_grant view designated);
  match found with
  | Some parent =>
      if negb (bool_decide (Grant.id parent = designated) && bool_decide (Grant.holder parent = issuer))
      then Ok IssueDecision.NotFoundOrDenied
      else
        status ← check_chain view parent now;
        match status with
        | ChainStatus.Invalid code _ => Ok (IssueDecision.Denied code)
        | ChainStatus.Valid chain =>
            if negb (forallb (fun link => bool_decide (Capability.GrantIssue ∈ Grant.capabilities link)) chain)
            then Ok (IssueDecision.Narrowing NarrowingAxis.IssuerAuthority)
            else match chain with
            | [] => Ok IssueDecision.NotFoundOrDenied
            | parent :: _ =>
                match scope_parse (V := V) (GrantIssueRequest.target_scope request) with
                | Err _ => Ok (IssueDecision.Narrowing NarrowingAxis.TargetScope)
                | Ok target_scope =>
                    match checked_add u8_max (Grant.depth parent) 1 with
                    | None => Ok (IssueDecision.Narrowing NarrowingAxis.Depth)
                    | Some depth =>
                        let candidate := {|
                          Grant.id := child;
                          Grant.issuer := issuer;
                          Grant.holder := GrantIssueRequest.holder request;
                          Grant.capabilities :=
                            list_to_set (GrantIssueRequest.capabilities request);
                          Grant.session_scope := GrantIssueRequest.session_scope request;
                          Grant.target_scope := target_scope;
                          Grant.audit_scope := AuditScope.OwnAndOwnedSessions;
                          Grant.ceilings := GrantIssueRequest.ceilings request;
                          Grant.not_before := GrantIssueRequest.not_before request;
                          Grant.expires_at := GrantIssueRequest.expires_at request;
                          Grant.parent := Some (Grant.id parent);
                          Grant.depth := depth;
                          Grant.max_depth :=
                            default (Grant.max_depth parent) (GrantIssueRequest.max_depth request);
                        |} in
                        parent_used ← view_context (view_used view (LedgerId.Grant (Grant.id parent)));
                        violation ← narrowing_violation view parent parent_used candidate;
                        Ok (match violation with
                            | Some axis => IssueDecision.Narrowing axis
                            | None => IssueDecision.Issued candidate
                            end)
                    end
                end
            end
        end
  | None => Ok IssueDecision.NotFoundOrDenied
  end.
End issue.

(** ** Specification *)
Section spec.
Context {W V : Type} `{GrantView W V}.

(** [TenantPath view n t a]: [n] parent links lead from [t] to [a]. *)
Inductive TenantPath (view : W) : nat -> TenantId -> TenantId -> Prop :=
| TenantPath_refl t : TenantPath view 0 t t
| TenantPath_step n t p a :
    view_tenant_parent view t = Ok (Some p) -> TenantPath view n p a -> TenantPath view (S n) t a.
Definition Descends (view : W) (t a : TenantId) : Prop := exists n, TenantPath view n t a.

Lemma TenantPath_trans view n m a b c :
  TenantPath view n a b -> TenantPath view m b c -> TenantPath view (n + m) a c.
Proof using Type. induction 1; intros; cbn; [done|]. econstructor; eauto. Qed.
Lemma Descends_trans view a b c : Descends view a b -> Descends view b c -> Descends view a c.
Proof using Type. intros [n Hn] [m Hm]. eexists. by eapply TenantPath_trans. Qed.

Lemma lineage_loop_true view k t a c :
  lineage_loop k view t a c = Ok true <-> exists n, (n < k)%nat /\ TenantPath view n c a.
Proof using Type.
  revert c; induction k as [|k IH]; intros c; cbn [lineage_loop]; [naive_solver lia|].
  case_bool_decide as Hc; subst.
  { split; [|done]. intros _. exists 0%nat. split; [lia|constructor]. }
  destruct (view_tenant_parent view c) as [[p|]|] eqn:Hp; cbn.
  - rewrite IH. split.
    + intros (n & Hn & Hpath). exists (S n). split; [lia|]. by econstructor.
    + intros (n & Hn & Hpath). destruct Hpath as [|n ? p' ? Hp' Hpath]; [done|].
      rewrite Hp in Hp'. injection Hp' as <-. exists n. split; [lia|done].
  - split; [done|]. intros (n & _ & Hpath). by inversion Hpath; congruence.
  - split; [done|]. intros (n & _ & Hpath). by inversion Hpath; congruence.
Qed.

(** Lineage membership is reachability through at most 255 parent links. *)
Lemma in_lineage_true view t a :
  in_lineage view t a = Ok true <-> exists n, (n <= 255)%nat /\ TenantPath view n t a.
Proof using Type.
  unfold in_lineage, MAX_TENANT_LINEAGE. rewrite lineage_loop_true.
  split; intros (n & ? & ?); exists n; split; (done || lia).
Qed.
Lemma in_lineage_Descends view t a : in_lineage view t a = Ok true -> Descends view t a.
Proof using Type. rewrite in_lineage_true. intros (n & _ & Hn). by exists n. Qed.

(** The sessions a grant's scope admits: [Own] is the sessions of its
    holder's lineage. *)
Definition ScopeAdmits (view : W) (g : Grant) (s : SessionId) (owner : TenantId) : Prop :=
  match Grant.session_scope g with
  | SessionScope.Own => Descends view owner (Grant.holder g)
  | SessionScope.Sessions sessions => s ∈ sessions
  end.

(** [Attenuates view parent used child]: [child] confers nothing that
    [parent], whose ledger holds [used], does not. *)
Record Attenuates (view : W) (parent : Grant) (used : Cost) (child : Grant) : Prop := {
  att_capabilities : Grant.capabilities child ⊆ Grant.capabilities parent;
  att_audit : Grant.audit_scope child = AuditScope.All -> Grant.audit_scope parent = AuditScope.All;
  att_sessions : forall s owner, view_session_owner view s = Ok (Some owner) ->
    ScopeAdmits view child s owner -> ScopeAdmits view parent s owner;
  att_targets : forall o, scope_matches (Grant.target_scope child) o = true ->
    scope_matches (Grant.target_scope parent) o = true;
  att_ceilings : forall d ceiling, ceilings_get (Grant.ceilings parent) d = Some ceiling ->
    exists amount, ceilings_get (Grant.ceilings child) d = Some amount /\
      amount <= Z.max 0 (ceiling - cost_get used d);
  att_window : forall now, Grant.not_before child <= now < Grant.expires_at child ->
    Grant.not_before parent <= now < Grant.expires_at parent;
  att_nonempty : Grant.not_before child < Grant.expires_at child;
  att_link : link_ok (Grant.id parent) parent child = true;
  att_parent : Grant.parent child = Some (Grant.id parent);
}.

Lemma sessions_owned_true view holder sessions :
  sessions_owned view holder sessions = Ok true ->
  forall s, s ∈ sessions ->
    exists owner, view_session_owner view s = Ok (Some owner) /\ Descends view owner holder.
Proof using Type.
  induction sessions as [|s' ss IH]; cbn [sessions_owned]; [by intros _ s ?%elem_of_nil|].
  intros Ho s Hs. apply bind_Ok in Ho as (o & Hv%map_err_Ok & Ho). apply bind_Ok in Ho as (b & Hb & Ho).
  destruct b; cbn in Ho; [|done]. destruct o as [owner|]; [|done].
  apply elem_of_cons in Hs as [->|Hs]; [|by apply IH].
  exists owner. split; [done|]. by apply in_lineage_Descends.
Qed.

(** Session narrowing: what the child's scope admits, the parent's does. *)
Lemma session_scope_within_sound view parent child s owner :
  session_scope_within view parent child = Ok true ->
  view_session_owner view s = Ok (Some owner) ->
  ScopeAdmits view child s owner -> ScopeAdmits view parent s owner.
Proof using Type.
  unfold session_scope_within, ScopeAdmits.
  destruct (Grant.session_scope parent) as [|allowed], (Grant.session_scope child) as [|sessions].
  - intros Hl%in_lineage_Descends _ Hd. by eapply Descends_trans.
  - intros Ho Hs Hin. destruct (sessions_owned_true _ _ _ Ho _ Hin) as (o & Ho' & Hd). congruence.
  - done.
  - intros [= Hf] _ Hin. rewrite forallb_forall in Hf.
    specialize (Hf s (proj1 (list_elem_of_In _ _) Hin)). by bool_simpl.
Qed.

Lemma narrowing_None view parent used child :
  narrowing_violation view parent used child = Ok None -> Attenuates view parent used child.
Proof using Type.
  unfold narrowing_violation. intros Hn. apply bind_Ok in Hn as (sok & Hs & Hn). apply Ok_inj in Hn.
  cbn [List.find fmap option_fmap option_map] in Hn. cbn [snd] in Hn.
  repeat match type of Hn with
  | context [if negb ?b then _ else _] => destruct b eqn:?; cbn [negb] in Hn; [|discriminate Hn]
  end. clear Hn.
  repeat match goal with H : _ && _ = true |- _ => apply andb_true_iff in H as [? ?] end.
  constructor.
  - by bool_simpl.
  - unfold audit_scope_within in *. intros Ha. rewrite Ha in *. by destruct (Grant.audit_scope parent).
  - intros s owner. by apply session_scope_within_sound.
  - intros o. by apply scope_covers_sound_aux.
  - intros d c Hd. unfold ceilings_within in *.
    match goal with H : forallb _ _ = true |- _ => rewrite forallb_dimensions in H; specialize (H d) end.
    rewrite Hd in *. destruct (ceilings_get (Grant.ceilings child) d) as [a|]; [|done].
    bool_simpl. unfold saturating_sub in *. eauto.
  - bool_simpl. lia.
  - by bool_simpl.
  - unfold link_ok. rewrite !andb_true_iff. rewrite bool_decide_eq_true_2 by done. auto.
  - by bool_simpl.
Qed.
End spec.

(** ** Issued grants *)
Section issued.
Context {W V : Type} `{GrantView W V} `{LedgerView W V}.

(** What an issued grant is made of. *)
Lemma check_issue_Issued (view : W) (ctx : IssueContext) (request : GrantIssueRequest)
    (now : Timestamp) (child : Grant) :
  view_u8 view ->
  check_issue view ctx request now = Ok (IssueDecision.Issued child) ->
  exists parent chain used,
    view_grant view (IssueContext.designated ctx) = Ok (Some parent) /\
    Grant.id parent = IssueContext.designated ctx /\
    Grant.holder parent = IssueContext.issuer ctx /\
    Linked view parent chain /\
    Forall (usable view now) chain /\
    Forall (fun link => Capability.GrantIssue ∈ Grant.capabilities link) chain /\
    view_used view (LedgerId.Grant (Grant.id parent)) = Ok used /\
    Attenuates view parent used child /\
    Linked view child (child :: chain) /\
    Grant.id child = IssueContext.child ctx /\
    Grant.audit_scope child = AuditScope.OwnAndOwnedSessions /\
    Grant.max_depth child = default (Grant.max_depth parent) (GrantIssueRequest.max_depth request) /\
    scope_parse (V := V) (GrantIssueRequest.target_scope request) = Ok (Grant.target_scope child).
Proof using Type.
  intros Hu. destruct ctx as [issuer designated cid]. unfold check_issue. intros Hc.
  apply bind_Ok in Hc as (found & Hf%map_err_Ok & Hc). destruct found as [parent|]; [|done].
  case_in Hc; [done|]. bool_simpl.
  apply bind_Ok in Hc as (status & Hst & Hc). destruct status as [chain|]; [|done].
  case_in Hc; [done|]. bool_simpl.
  apply check_chain_valid in Hst as [HL Hus]; [|done|by destruct (Hu _ _ Hf) as [[? _] _]].
  destruct (Linked_head _ _ _ HL) as [rest ->].
  case_in Hc; [|done]. case_in Hc; [|done].
  apply bind_Ok in Hc as (used & Hused%map_err_Ok & Hc). apply bind_Ok in Hc as (v & Hv & Hc).
  destruct v; [done|]. apply Ok_inj in Hc. injection Hc as Hc. rewrite Hc in Hv.
  apply narrowing_None in Hv as Hatt.
  exists parent, (parent :: rest), used. cbn [IssueContext.designated IssueContext.issuer].
  repeat match goal with |- _ /\ _ => split end; try done.
  - match goal with H : forallb _ _ = true |- _ => rewrite forallb_forall in H; rename H into Hall end.
    apply Forall_forall. intros l Hl%list_elem_of_In%Hall. by bool_simpl.
  - apply (Linked_link view child (Grant.id parent) parent); [by apply Hatt| |by apply Hatt|done].
    match goal with H : Grant.id parent = _ |- _ => by rewrite H end.
  - by rewrite <- Hc.
  - by rewrite <- Hc.
  - by rewrite <- Hc.
  - by rewrite <- Hc.
Qed.
End issued.

(** ** Properties *)
Section properties.
Context {W V : Type} `{GrantView W V} `{LedgerView W V}.

(** C19. An issued grant attenuates its parent: if [check_issue] issues, the
    issuer holds the designated grant, that grant's whole chain is usable now
    and every link confers [GrantIssue], the new grant narrows the parent on
    every axis (capabilities, audit, sessions, targets, ceilings against what
    the parent has left, validity window, depth, issuer), and it extends the
    parent's chain by one well-formed link. *)
Theorem check_issue_sound (view : W) (ctx : IssueContext) (request : GrantIssueRequest)
    (now : Timestamp) (child : Grant) :
  view_u8 view ->
  check_issue view ctx request now = Ok (IssueDecision.Issued child) ->
  exists parent chain used,
    view_grant view (IssueContext.designated ctx) = Ok (Some parent) /\
    Grant.id parent = IssueContext.designated ctx /\
    Grant.holder parent = IssueContext.issuer ctx /\
    Linked view parent chain /\
    Forall (usable view now) chain /\
    Forall (fun link => Capability.GrantIssue ∈ Grant.capabilities link) chain /\
    view_used view (LedgerId.Grant (Grant.id parent)) = Ok used /\
    Attenuates view parent used child /\
    Linked view child (child :: chain) /\
    Grant.id child = IssueContext.child ctx /\
    Grant.audit_scope child = AuditScope.OwnAndOwnedSessions.
Proof using Type.
  intros Hu (parent & chain & used & Hi)%check_issue_Issued; [|done].
  exists parent, chain, used. by destruct_and!.
Qed.
End properties.
