(* ===== verification/Budget.v ===== *)
(** * Budget arithmetic ([epitrope::budget]) *)
From S2P Require Import Prelude Vocab Ids Payload Epitrope Origin View.
Local Open Scope Z_scope.

(** [LedgerState]. *)
Module LedgerState.
Record LedgerState : Set := mk { id : LedgerId; ceilings : Ceilings; used : Cost; own : bool }.
End LedgerState.
Abbreviation LedgerState := LedgerState.LedgerState.

(** [ReservationPlan]. *)
Module ReservationPlan.
Record ReservationPlan : Set := mk { cost : Cost; ledgers : list LedgerId }.
#[global] Instance ReservationPlan_eq_dec : EqDecision ReservationPlan.
Proof. solve_decision. Defined.
End ReservationPlan.
Abbreviation ReservationPlan := ReservationPlan.ReservationPlan.
(** [ReservationPlan::debits]. *)
Definition debits (r : ReservationPlan) : list (LedgerId * Cost) :=
  (fun l => (l, ReservationPlan.cost r)) <$> ReservationPlan.ledgers r.

(** [BudgetRefusal]. *)
Module BudgetRefusal.
Inductive BudgetRefusal : Set := Own (ledger : LedgerId) (dimension : Dimension) | Upstream.
End BudgetRefusal.
Abbreviation BudgetRefusal := BudgetRefusal.BudgetRefusal.
(** [BudgetRefusal::failure]. *)
Definition refusal_failure (r : BudgetRefusal) : Failure :=
  match r with
  | BudgetRefusal.Own _ dimension => Failure.BudgetExceeded dimension
  | BudgetRefusal.Upstream => failure_denied DenyCode.BudgetUnavailable
  end.

(** [BudgetCheck]. *)
Module BudgetCheck.
Inductive BudgetCheck : Set := Fits (plan : ReservationPlan) | Exceeded (refusal : BudgetRefusal).
End BudgetCheck.
Abbreviation BudgetCheck := BudgetCheck.BudgetCheck.

(** [cost_from] and [try_cost_from]. *)
Definition cost_from (amount : Dimension -> Z) : Cost :=
  Cost.mk (amount Dimension.WallTimeMs) (amount Dimension.Fetches)
    (amount Dimension.BytesTransferred) (amount Dimension.OutputBytes)
    (amount Dimension.Tokens) (amount Dimension.OpsBand).
Definition try_cost_from {E} (amount : Dimension -> result E Z) : result E Cost :=
  w ← amount Dimension.WallTimeMs;
  f ← amount Dimension.Fetches;
  b ← amount Dimension.BytesTransferred;
  o ← amount Dimension.OutputBytes;
  t ← amount Dimension.Tokens;
  p ← amount Dimension.OpsBand;
  Ok (Cost.mk w f b o t p).

Section budget.
Context {V : Type}.

(** The body of the inner loop of [plan_reservation] on one ledger and
    dimension; the state is [(own_refusal, upstream)]. *)
Definition check_dimension (declared : Cost) (ledger : LedgerState)
    (st : option BudgetRefusal * bool) (d : Dimension)
    : result (Error V) (option BudgetRefusal * bool) :=
  let total := checked_add u64_max (cost_get (LedgerState.used ledger) d) (cost_get declared d) in
  covers ← match ceilings_get (LedgerState.ceilings ledger) d, total with
           | None, Some _ => Ok true
           | None, None => Err (Error.LedgerOverflow d)
           | Some ceiling, Some total => Ok (total <=? ceiling)
           | Some _, None => Ok false
           end;
  if covers : bool then Ok st
  else if LedgerState.own ledger then
    Ok (Some (default (BudgetRefusal.Own (LedgerState.id ledger) d) st.1), st.2)
  else Ok (st.1, true).

Definition plan_reservation (ledgers : list LedgerState) (declared : Cost)
    : result (Error V) BudgetCheck :=
  '(own_refusal, upstream) ←
    mfold (fun st ledger => mfold (check_dimension declared ledger) st enum_all)
      (None, false) ledgers;
  Ok (match own_refusal, upstream with
      | Some refusal, _ => BudgetCheck.Exceeded refusal
      | None, true => BudgetCheck.Exceeded BudgetRefusal.Upstream
      | None, false =>
          BudgetCheck.Fits (ReservationPlan.mk declared (LedgerState.id <$> ledgers))
      end).

(** [own_remaining]: [Iterator::min] over the own ledgers with a ceiling. *)
Definition min_list (l : list Z) : option Z :=
  match l with [] => None | z :: l => Some (foldl Z.min z l) end.
Definition own_left (ledgers : list LedgerState) (d : Dimension) : option Z :=
  min_list (omap (fun l : LedgerState =>
    if LedgerState.own l then
      (fun ceiling => saturating_sub ceiling (cost_get (LedgerState.used l) d))
        <$> ceilings_get (LedgerState.ceilings l) d
    else None) ledgers).
Definition own_remaining (ledgers : list LedgerState) : Ceilings :=
  let left := own_left ledgers in
  Ceilings.mk (left Dimension.WallTimeMs) (left Dimension.Fetches)
    (left Dimension.BytesTransferred) (left Dimension.OutputBytes)
    (left Dimension.Tokens) (left Dimension.OpsBand).

Definition settle (reserved actual : Cost) : result (Error V) Settlement :=
  let debit := cost_from (fun d => Z.min (cost_get reserved d) (cost_get actual d)) in
  let release := cost_from (fun d => saturating_sub (cost_get reserved d) (cost_get debit d)) in
  let settlement := Settlement.mk debit release in
  match List.find (fun d => cost_get actual d >? cost_get reserved d) enum_all with
  | Some d =>
      Err (Error.SettleOverrun d (cost_get reserved d) (cost_get actual d) settlement)
  | None => Ok settlement
  end.

Definition unknown_effect_settlement (reserved : Cost) : Settlement :=
  Settlement.mk reserved cost_default.

Definition reserve (used amount : Cost) : result (Error V) Cost :=
  try_cost_from (fun d =>
    ok_or (checked_add u64_max (cost_get used d) (cost_get amount d)) (Error.LedgerOverflow d)).

Definition release (used amount : Cost) : result (Error V) Cost :=
  try_cost_from (fun d =>
    ok_or (checked_sub (cost_get used d) (cost_get amount d)) (Error.LedgerUnderflow d)).

(** ** Per-dimension characterizations *)

Lemma cost_get_from f d : cost_get (cost_from f) d = f d.
Proof using Type. by destruct d. Qed.

Lemma try_cost_from_Ok {E} (f : Dimension -> result E Z) c :
  try_cost_from f = Ok c <-> forall d, f d = Ok (cost_get c d).
Proof using Type.
  unfold try_cost_from. split.
  - intros Hc. inv_ok. intros []; assumption.
  - intros Hf. rewrite !Hf. cbn. by destruct c.
Qed.

Lemma reserve_Ok used amount c :
  reserve used amount = Ok c <->
  forall d, cost_get c d = cost_get used d + cost_get amount d /\ cost_get c d <= u64_max.
Proof using Type.
  unfold reserve. rewrite try_cost_from_Ok. split; intros Hc d; specialize (Hc d).
  - rewrite ok_or_Ok, checked_add_Some in Hc. lia.
  - rewrite ok_or_Ok, checked_add_Some. lia.
Qed.
Lemma release_Ok used amount c :
  release used amount = Ok c <->
  forall d, cost_get c d = cost_get used d - cost_get amount d /\ cost_get amount d <= cost_get used d.
Proof using Type.
  unfold release. rewrite try_cost_from_Ok. split; intros Hc d; specialize (Hc d).
  - rewrite ok_or_Ok, checked_sub_Some in Hc. lia.
  - rewrite ok_or_Ok, checked_sub_Some. lia.
Qed.

(** The settlement [settle] computes, on its success and on its overrun
    path alike. *)
Definition settlement_of (reserved actual : Cost) : Settlement :=
  let debit := cost_from (fun d => Z.min (cost_get reserved d) (cost_get actual d)) in
  Settlement.mk debit (cost_from (fun d => saturating_sub (cost_get reserved d) (cost_get debit d))).

Lemma settlement_of_spec reserved actual d :
  0 <= cost_get actual d -> 0 <= cost_get reserved d ->
  let s := settlement_of reserved actual in
  cost_get (Settlement.debit s) d = Z.min (cost_get reserved d) (cost_get actual d) /\
  cost_get (Settlement.debit s) d + cost_get (Settlement.release s) d = cost_get reserved d /\
  0 <= cost_get (Settlement.debit s) d /\ 0 <= cost_get (Settlement.release s) d.
Proof using Type.
  intros Ha Hr. cbn [settlement_of Settlement.debit Settlement.release].
  rewrite !cost_get_from. unfold saturating_sub. lia.
Qed.

Lemma settle_cases reserved actual :
  (settle reserved actual = Ok (settlement_of reserved actual) /\
   forall d, cost_get actual d <= cost_get reserved d) \/
  (exists d, cost_get reserved d < cost_get actual d /\
   settle reserved actual =
     Err (Error.SettleOverrun d (cost_get reserved d) (cost_get actual d)
            (settlement_of reserved actual))).
Proof using Type.
  unfold settle. fold (settlement_of reserved actual).
  destruct (List.find _ _) as [d|] eqn:E.
  - right. exists d. apply find_some in E as [_ E]. rewrite Z.gtb_ltb in E. bool_simpl. done.
  - left. split; [done|]. intros d. pose proof (find_none _ _ E d (enum_complete d)) as Hd.
    cbn in Hd. rewrite Z.gtb_ltb in Hd. bool_simpl. done.
Qed.

(** ** The reservation check *)

(** What [used + declared] does on a ledger and dimension. *)
Definition overflows (declared : Cost) (p : LedgerState * Dimension) : bool :=
  bool_decide (ceilings_get (LedgerState.ceilings p.1) p.2 = None)
  && (u64_max <? cost_get (LedgerState.used p.1) p.2 + cost_get declared p.2).
Definition covers (declared : Cost) (p : LedgerState * Dimension) : bool :=
  let total := cost_get (LedgerState.used p.1) p.2 + cost_get declared p.2 in
  (total <=? u64_max)
  && match ceilings_get (LedgerState.ceilings p.1) p.2 with
     | None => true
     | Some ceiling => total <=? ceiling
     end.

Definition cells (ledgers : list LedgerState) : list (LedgerState * Dimension) :=
  flat_map (fun l => (fun d => (l, d)) <$> enum_all) ledgers.
Definition own_failing (declared : Cost) (p : LedgerState * Dimension) : bool :=
  LedgerState.own p.1 && negb (covers declared p).
Definition upstream_failing (declared : Cost) (p : LedgerState * Dimension) : bool :=
  negb (LedgerState.own p.1) && negb (covers declared p).

Lemma cells_spec ledgers l d : In (l, d) (cells ledgers) <-> In l ledgers.
Proof using Type.
  unfold cells. rewrite in_flat_map. split.
  - intros (l' & Hl & Hd). apply in_map_iff in Hd as (d' & [= <- <-] & _). done.
  - intros Hl. exists l. split; [done|]. apply in_map_iff. exists d. split; [done|]. apply enum_complete.
Qed.

Lemma check_dimension_spec declared l st d :
  check_dimension declared l st d =
  if overflows declared (l, d) then Err (Error.LedgerOverflow d)
  else Ok (match st.1 with
           | Some r => Some r
           | None => if own_failing declared (l, d)
                     then Some (BudgetRefusal.Own (LedgerState.id l) d) else None
           end, st.2 || upstream_failing declared (l, d)).
Proof using Type.
  unfold check_dimension, overflows, own_failing, upstream_failing, covers, checked_add; cbn [fst snd].
  destruct st as [r u]; cbn [fst snd].
  rewrite Z.ltb_antisym.
  destruct (_ <=? u64_max) eqn:E1; destruct (ceilings_get _ _) as [c|]; cbn;
    try destruct (_ <=? c); cbn; destruct (LedgerState.own l); cbn;
    rewrite ?orb_false_r, ?orb_true_r; destruct r; done.
Qed.

Lemma plan_loop_spec declared ps st :
  mfold (fun st p => check_dimension declared (fst p) st (snd p)) st ps =
  match List.find (overflows declared) ps with
  | Some p => Err (Error.LedgerOverflow p.2)
  | None => Ok (match st.1 with
                | Some r => Some r
                | None => (fun p => BudgetRefusal.Own (LedgerState.id p.1) p.2)
                            <$> List.find (own_failing declared) ps
                end, st.2 || existsb (upstream_failing declared) ps)
  end.
Proof using Type.
  revert st; induction ps as [|[l d] ps IH]; intros [r u]; cbn [mfold List.find existsb fst snd].
  - by rewrite orb_false_r; destruct r.
  - rewrite check_dimension_spec. destruct (overflows declared (l, d)); [done|].
    cbn [mbind result_bind]. rewrite IH. cbn [fst snd].
    destruct (List.find (overflows declared) ps); [done|].
    rewrite orb_assoc. destruct r; [done|]. by destruct (own_failing declared (l, d)).
Qed.

Lemma mfold_app {E A S} (f : S -> A -> result E S) s l1 l2 :
  mfold f s (l1 ++ l2) = (s' ← mfold f s l1; mfold f s' l2).
Proof using Type.
  revert s; induction l1 as [|a l1 IH]; intros s; cbn; [done|]. destruct (f s a); cbn; [apply IH|done].
Qed.

Lemma plan_nested declared ledgers st :
  mfold (fun st ledger => mfold (check_dimension declared ledger) st enum_all) st ledgers =
  mfold (fun st p => check_dimension declared (fst p) st (snd p)) st (cells ledgers).
Proof using Type.
  revert st; induction ledgers as [|l ls IH]; intros st; cbn [mfold cells flat_map]; [done|].
  rewrite mfold_app. fold (cells ls).
  assert (forall ds st, mfold (check_dimension declared l) st ds =
    mfold (fun st p => check_dimension declared (fst p) st (snd p)) st ((fun d => (l, d)) <$> ds)) as ->.
  { clear. induction ds as [|d ds IH]; intros st; cbn [mfold fmap list_fmap fst snd]; [done|].
    destruct (check_dimension declared l st d); cbn [mbind result_bind]; [apply IH|done]. }
  destruct (mfold _ st _); cbn [mbind result_bind]; [apply IH|done].
Qed.

Lemma find_None_iff {A} (p : A -> bool) l : List.find p l = None <-> forall x, In x l -> p x = false.
Proof using Type.
  split; [apply find_none|]. intros Hx. destruct (List.find p l) eqn:E; [|done].
  apply find_some in E as [E1 E2]. by rewrite Hx in E2.
Qed.
Lemma existsb_false_iff {A} (p : A -> bool) l : existsb p l = false <-> forall x, In x l -> p x = false.
Proof using Type.
  rewrite <- not_true_iff_false, existsb_exists. split.
  - intros Hn x Hx. apply not_true_iff_false. intros Hp. apply Hn. eauto.
  - intros Hx (x & Hin & Hp). by rewrite Hx in Hp.
Qed.

Definition Covered (declared : Cost) (l : LedgerState) : Prop :=
  forall d, let total := cost_get (LedgerState.used l) d + cost_get declared d in
    total <= u64_max /\
    forall ceiling, ceilings_get (LedgerState.ceilings l) d = Some ceiling -> total <= ceiling.

Lemma Covered_covers declared l : Covered declared l <-> forall d, covers declared (l, d) = true.
Proof using Type.
  unfold Covered, covers; cbn [fst snd]. split; intros Hc d; specialize (Hc d).
  - apply andb_true_iff. destruct Hc as [H1 H2]. split; [by apply Z.leb_le|].
    destruct (ceilings_get _ _); [|done]. by apply Z.leb_le, H2.
  - apply andb_true_iff in Hc as [H1 H2]. bool_simpl. split; [done|]. intros c Hc. rewrite Hc in H2.
    by apply Z.leb_le.
Qed.
Lemma overflows_covers declared p : overflows declared p = true -> covers declared p = false.
Proof using Type.
  unfold overflows, covers. intros Ho. bool_simpl. apply andb_false_iff. left. by apply Z.leb_gt.
Qed.

Lemma plan_reservation_Fits ledgers declared plan :
  plan_reservation ledgers declared = Ok (BudgetCheck.Fits plan) <->
  plan = ReservationPlan.mk declared (LedgerState.id <$> ledgers) /\
  forall l, In l ledgers -> Covered declared l.
Proof using Type.
  unfold plan_reservation. rewrite plan_nested, plan_loop_spec. cbn [fst snd orb].
  destruct (List.find (overflows declared) (cells ledgers)) as [[l d]|] eqn:Eo; cbn [mbind result_bind].
  - split; [done|]. intros [_ Hc]. apply find_some in Eo as [Hin Ho].
    apply cells_spec in Hin. apply overflows_covers in Ho.
    pose proof (proj1 (Covered_covers declared l) (Hc l Hin) d). congruence.
  - destruct (List.find (own_failing declared) (cells ledgers)) as [[l d]|] eqn:Ef; cbn.
    { split; [done|]. intros [_ Hc]. apply find_some in Ef as [Hin Ho]. apply cells_spec in Hin.
      unfold own_failing in Ho. bool_simpl.
      pose proof (proj1 (Covered_covers declared l) (Hc l Hin) d). congruence. }
    destruct (existsb (upstream_failing declared) (cells ledgers)) eqn:Eu; cbn.
    { split; [done|]. intros [_ Hc]. apply existsb_exists in Eu as ([l d] & Hin & Ho).
      apply cells_spec in Hin. unfold upstream_failing in Ho. bool_simpl.
      pose proof (proj1 (Covered_covers declared l) (Hc l Hin) d). congruence. }
    rewrite find_None_iff in Ef. rewrite existsb_false_iff in Eu. split.
    + intros [= <-]. split; [done|]. intros l Hl. apply Covered_covers. intros d.
      specialize (Ef (l, d) (proj2 (cells_spec _ _ _) Hl)).
      specialize (Eu (l, d) (proj2 (cells_spec _ _ _) Hl)).
      unfold own_failing, upstream_failing in *; cbn [fst] in *.
      destruct (LedgerState.own l); cbn in *; by bool_simpl.
    + intros [-> _]. done.
Qed.
End budget.

(** ** Remaining budget *)

Lemma foldl_min_le l z x : x = z \/ In x l -> foldl Z.min z l <= x.
Proof.
  revert z x; induction l as [|y l IH]; intros z x; cbn; [naive_solver lia|].
  intros [->|[->|Hx]].
  - transitivity (Z.min z y); [apply IH; by left|lia].
  - transitivity (Z.min z x); [apply IH; by left|lia].
  - apply IH; by right.
Qed.
Lemma min_list_le l m x : min_list l = Some m -> In x l -> m <= x.
Proof. destruct l as [|z l]; [done|]. intros [= <-] [->|Hx]; apply foldl_min_le; auto. Qed.

Lemma own_remaining_get ledgers d : ceilings_get (own_remaining ledgers) d = own_left ledgers d.
Proof. by destruct d. Qed.

Lemma own_left_le ledgers d l ceiling :
  In l ledgers -> LedgerState.own l = true ->
  ceilings_get (LedgerState.ceilings l) d = Some ceiling ->
  exists left, own_left ledgers d = Some left /\
    left <= Z.max 0 (ceiling - cost_get (LedgerState.used l) d).
Proof.
  intros Hin Hown Hc. unfold own_left.
  match goal with |- context [min_list ?xs] => set (ls := xs) end.
  assert (In (saturating_sub ceiling (cost_get (LedgerState.used l) d)) ls) as Hl.
  { apply list_elem_of_In, list_elem_of_omap. exists l. split; [by apply list_elem_of_In|].
    by rewrite Hown, Hc. }
  destruct (min_list ls) as [m|] eqn:Em.
  - exists m. split; [done|]. by apply (min_list_le _ _ _ Em).
  - by destruct ls.
Qed.

(** ** Properties *)

(** The reservation check is exact: a reservation fits precisely when
    debiting the declared cost from every ledger succeeds without overflow
    and leaves every ledger within each of its ceilings; the plan then debits
    the declared cost from those ledgers in order. *)
Theorem plan_reservation_exact {V} (ledgers : list LedgerState) (declared : Cost) :
  plan_reservation (V := V) ledgers declared =
    Ok (BudgetCheck.Fits (ReservationPlan.mk declared (LedgerState.id <$> ledgers))) <->
  forall l, In l ledgers ->
    exists used', reserve (V := V) (LedgerState.used l) declared = Ok used' /\
      forall d ceiling, ceilings_get (LedgerState.ceilings l) d = Some ceiling ->
        cost_get used' d <= ceiling.
Proof.
  rewrite plan_reservation_Fits. split.
  - intros [_ Hc] l Hl. specialize (Hc l Hl).
    exists (cost_from (fun d => cost_get (LedgerState.used l) d + cost_get declared d)). split.
    + apply reserve_Ok. intros d. rewrite cost_get_from. destruct (Hc d). auto.
    + intros d c Hd. rewrite cost_get_from. by apply Hc.
  - intros Hr. split; [done|]. intros l Hl d.
    destruct (Hr l Hl) as (u & Hu & Hceil). rewrite reserve_Ok in Hu. destruct (Hu d) as [Hd Hm].
    cbn zeta. rewrite <- Hd. split; [done|]. apply Hceil.
Qed.

(** A budget refusal discloses only the caller's own ledgers: a refusal
    that names a dimension names one that an own ledger cannot cover, and a
    refusal for an upstream ledger (which names no dimension) means that
    every own ledger covers the cost and some other ledger does not. *)
Theorem budget_refusal_disclosure {V} (ledgers : list LedgerState) (declared : Cost)
    (refusal : BudgetRefusal) :
  plan_reservation (V := V) ledgers declared = Ok (BudgetCheck.Exceeded refusal) ->
  match refusal with
  | BudgetRefusal.Own ledger d =>
      exists l, In l ledgers /\ LedgerState.own l = true /\ LedgerState.id l = ledger /\
        covers declared (l, d) = false
  | BudgetRefusal.Upstream =>
      (forall l, In l ledgers -> LedgerState.own l = true -> Covered declared l) /\
      exists l, In l ledgers /\ LedgerState.own l = false /\ ~ Covered declared l
  end.
Proof.
  unfold plan_reservation. rewrite plan_nested, plan_loop_spec. cbn [fst snd orb].
  destruct (List.find (overflows declared) (cells ledgers)); cbn [mbind result_bind]; [done|].
  destruct (List.find (own_failing declared) (cells ledgers)) as [[l d]|] eqn:Ef; cbn.
  - intros [= <-]. apply find_some in Ef as [Hin%cells_spec Ho]. unfold own_failing in Ho. bool_simpl. eauto.
  - destruct (existsb (upstream_failing declared) (cells ledgers)) eqn:Eu; intros [= <-].
    rewrite find_None_iff in Ef. split.
    + intros l Hl Hown. apply Covered_covers. intros d.
      specialize (Ef (l, d) (proj2 (cells_spec _ _ _) Hl)). unfold own_failing in Ef.
      cbn in Ef. rewrite Hown in Ef. cbn in Ef. by bool_simpl.
    + apply existsb_exists in Eu as ([l d] & Hin%cells_spec & Ho). unfold upstream_failing in Ho. bool_simpl.
      exists l. repeat split; [done|done|]. intros Hc. rewrite Covered_covers in Hc. specialize (Hc d). congruence.
Qed.

(** Settlement conserves the reservation: whether consumption stays
    within the reservation or overruns it (reported as an error that carries
    the clamped settlement), the settlement debits the smaller of the two,
    and debit plus release is exactly the reservation on every dimension; an
    error is reported exactly when some dimension overruns. *)
Theorem settle_conserves {V} (reserved actual : Cost) :
  cost_wf reserved -> cost_wf actual ->
  exists s,
    (forall d, cost_get (Settlement.debit s) d = Z.min (cost_get reserved d) (cost_get actual d) /\
       cost_get (Settlement.debit s) d + cost_get (Settlement.release s) d = cost_get reserved d /\
       0 <= cost_get (Settlement.release s) d) /\
    ((settle (V := V) reserved actual = Ok s /\ forall d, cost_get actual d <= cost_get reserved d) \/
     exists d, cost_get reserved d < cost_get actual d /\
       settle (V := V) reserved actual =
         Err (Error.SettleOverrun d (cost_get reserved d) (cost_get actual d) s)).
Proof.
  intros Hr Ha. exists (settlement_of reserved actual). split; [|apply settle_cases].
  intros d. destruct (settlement_of_spec reserved actual d) as (? & ? & ? & ?).
  { apply Ha. } { apply Hr. } auto.
Qed.

(** Reserve, then settle: releasing what a settlement returns from a
    ledger that took the reservation always succeeds and leaves the ledger at
    its earlier amount plus the debit, so a finished call charges exactly its
    debit. *)
Theorem reserve_settle_release {V} (used reserved actual used' : Cost) :
  cost_wf used -> cost_wf reserved -> cost_wf actual ->
  reserve (V := V) used reserved = Ok used' ->
  exists used'', release (V := V) used' (Settlement.release (settlement_of reserved actual)) = Ok used'' /\
    forall d, cost_get used'' d =
      cost_get used d + cost_get (Settlement.debit (settlement_of reserved actual)) d.
Proof.
  intros Hu Hr Ha Hres. rewrite reserve_Ok in Hres.
  exists (cost_from (fun d => cost_get used d + cost_get (Settlement.debit (settlement_of reserved actual)) d)).
  split; [|intros d; apply cost_get_from].
  apply release_Ok. intros d. rewrite cost_get_from. destruct (Hres d) as [Hd _].
  destruct (settlement_of_spec reserved actual d) as (_ & ? & ? & ?); [apply Ha|apply Hr|].
  destruct (Hu d). lia.
Qed.

(** A limit the caller omits defaults to what its own ledgers have left:
    declaring at most that on every dimension is never refused on one of the
    caller's own ledgers, provided those ledgers are within their ceilings. *)
Theorem own_remaining_never_own_refusal {V} (ledgers : list LedgerState) (declared : Cost)
    (ledger : LedgerId) (dim : Dimension) :
  (forall l, In l ledgers -> LedgerState.own l = true -> ceilings_wf (LedgerState.ceilings l) /\
     forall d c, ceilings_get (LedgerState.ceilings l) d = Some c -> cost_get (LedgerState.used l) d <= c) ->
  (forall d left, ceilings_get (own_remaining ledgers) d = Some left -> cost_get declared d <= left) ->
  plan_reservation (V := V) ledgers declared <>
    Ok (BudgetCheck.Exceeded (BudgetRefusal.Own ledger dim)).
Proof.
  intros Hwf Hdecl. unfold plan_reservation. rewrite plan_nested, plan_loop_spec. cbn [fst snd orb].
  destruct (List.find (overflows declared) (cells ledgers)) eqn:Eo; cbn [mbind result_bind]; [done|].
  destruct (List.find (own_failing declared) (cells ledgers)) as [[l d]|] eqn:Ef; cbn; [|by destruct (existsb _ _)].
  apply find_some in Ef as [Hin Ho]. rewrite find_None_iff in Eo. specialize (Eo _ Hin).
  apply cells_spec in Hin. unfold own_failing, covers, overflows in *; cbn [fst snd] in *. bool_simpl.
  destruct (Hwf l Hin) as [Hcw Hused]; [done|].
  destruct (ceilings_get (LedgerState.ceilings l) d) as [c|] eqn:Ec.
  - destruct (own_left_le ledgers d l c) as (m & Hm & Hle); [done..|].
    specialize (Hdecl d m). rewrite own_remaining_get in Hdecl. specialize (Hdecl Hm).
    specialize (Hused d c Ec). destruct (Hcw d c Ec). intros _. apply andb_false_iff in Ho as [Ho|Ho]; bool_simpl; lia.
  - rewrite bool_decide_eq_true_2 in Eo by done. cbn in Eo. rewrite andb_true_r in Ho.
    intros _. bool_simpl. lia.
Qed.
