(* ===== verification/Decision.v ===== *)
(** * Designated-grant authorization ([epitrope::decision], [epitrope::session])

    [authorize] decides one call against the designated grant's chain;
    [plan] is the dry-run. *)
From S2P Require Import Prelude Vocab Ids Payload Epitrope Origin View Chain Issue.
From S2P Require Import Budget.
Local Open Scope Z_scope.

(** [SessionRequirement] and [session_requirement]. *)
Module SessionRequirement.
Inductive SessionRequirement : Set := Required | Optional | Forbidden.
#[global] Instance SessionRequirement_eq_dec : EqDecision SessionRequirement.
Proof. solve_decision. Defined.
End SessionRequirement.
Abbreviation SessionRequirement := SessionRequirement.SessionRequirement.
Definition session_requirement (c : Capability) : SessionRequirement :=
  match c with
  | Capability.AuditQuery => SessionRequirement.Optional
  | Capability.SessionCreate | Capability.GrantIssue | Capability.GrantRevoke =>
      SessionRequirement.Forbidden
  | _ => SessionRequirement.Required
  end.

(** [AuthzRequest]. *)
Module AuthzRequest.
Record AuthzRequest : Set := mk {
  tenant : TenantId; grant : GrantId; capability : Capability;
  target : option str; session : option SessionId; declared : Cost }.
End AuthzRequest.
Abbreviation AuthzRequest := AuthzRequest.AuthzRequest.

(** [Decision]. *)
Module Decision.
Inductive Decision : Set :=
| Allowed (chain : list GrantId) (reservation : ReservationPlan)
| Denied (code : DenyCode)
| BudgetExceeded (dimension : Dimension)
| NotFoundOrDenied.
End Decision.
Abbreviation AuthzDecision := Decision.Decision.

(** [Decision::refusal] and [Decision::next_state]. *)
Definition decision_refusal (d : AuthzDecision) : option Failure :=
  match d with
  | Decision.Allowed _ _ => None
  | Decision.Denied code => Some (failure_denied code)
  | Decision.BudgetExceeded dimension => Some (Failure.BudgetExceeded dimension)
  | Decision.NotFoundOrDenied => Some Failure.NotFoundOrDenied
  end.
Definition decision_next_state (d : AuthzDecision) (mode : Mode) : option InvocationState :=
  match mode, d with
  | Mode.Execute, Decision.Allowed _ _ => Some InvocationState.IntentPersisted
  | Mode.Execute, _ => Some InvocationState.Denied
  | Mode.DryRun, Decision.Allowed _ _ => Some InvocationState.Planned
  | _, _ => None
  end.

Definition is_served (c : Capability) : bool :=
  match c with Capability.Ingest => false | _ => true end.

(** Whether the target (required for [Capture]) is inside every link's
    target scope. *)
Definition target_admitted (chain : list Grant) (capability : Capability) (target : option str) : bool :=
  match target with
  | None => negb (bool_decide (capability = Capability.Capture))
  | Some target =>
      match origin_parse (V := unit) target with
      | Ok origin => forallb (fun link => scope_matches (Grant.target_scope link) origin) chain
      | Err _ => false
      end
  end.

Section decision.
Context {W V : Type} `{GrantView W V} `{LedgerView W V}.

(** [designated_chain]: the inner result is the chain or the refusal. *)
Definition designated_chain (view : W) (tenant : TenantId) (grant : GrantId)
    (capability : Capability) (now : Timestamp)
    : result (Error V) (result AuthzDecision (list Grant)) :=
  found ← view_context (view_grant view grant);
  match found with
  | Some found =>
      if negb (bool_decide (Grant.id found = grant) && bool_decide (Grant.holder found = tenant))
      then Ok (Err Decision.NotFoundOrDenied)
      else
        status ← check_chain view found now;
        match status with
        | ChainStatus.Invalid code _ => Ok (Err (Decision.Denied code))
        | ChainStatus.Valid chain =>
            if negb (forallb (fun link => bool_decide (capability ∈ Grant.capabilities link)) chain)
            then Ok (Err (Decision.Denied DenyCode.CapabilityNotGranted))
            else Ok (Ok chain)
        end
  | None => Ok (Err Decision.NotFoundOrDenied)
  end.

(** The loop of [check_session]: whether every link admits the session,
    stopping at the first that does not. *)
Fixpoint links_admit (view : W) (owner : TenantId) (session : SessionId) (links : list Grant)
    : result (Error V) bool :=
  match links with
  | [] => Ok true
  | link :: links =>
      admitted ← match Grant.session_scope link with
                 | SessionScope.Own => in_lineage view owner (Grant.holder link)
                 | SessionScope.Sessions sessions => Ok (bool_decide (session ∈ sessions))
                 end;
      if negb admitted then Ok false else links_admit view owner session links
  end.
Definition check_session (view : W) (tenant : TenantId) (chain : list Grant) (session : SessionId)
    : result (Error V) (result AuthzDecision TenantId) :=
  owner ← view_context (view_session_owner view session);
  match owner with
  | None => Ok (Err Decision.NotFoundOrDenied)
  | Some owner =>
      admitted ← links_admit view owner session chain;
      Ok (if admitted : bool then Ok owner
          else if bool_decide (owner = tenant) then Err (Decision.Denied DenyCode.ScopeViolation)
          else Err Decision.NotFoundOrDenied)
  end.

(** [ledger_states]: each chain grant, the session, the tenant. *)
Definition grant_ledger (view : W) (tenant : TenantId) (link : Grant) : result (Error V) LedgerState :=
  let id := LedgerId.Grant (Grant.id link) in
  used ← view_context (view_used view id);
  Ok (LedgerState.mk id (Grant.ceilings link) used (bool_decide (Grant.holder link = tenant))).
Definition session_ledger (view : W) (tenant : TenantId) (session : option (SessionId * TenantId))
    : result (Error V) (list LedgerState) :=
  match session with
  | Some (session, owner) =>
      let id := LedgerId.Session session in
      ceilings ← view_context (view_session_ceilings view session);
      used ← view_context (view_used view id);
      Ok [LedgerState.mk id ceilings used (bool_decide (owner = tenant))]
  | None => Ok []
  end.
Definition ledger_states (view : W) (tenant : TenantId) (chain : list Grant)
    (session : option (SessionId * TenantId)) : result (Error V) (list LedgerState) :=
  grants ← collect (grant_ledger view tenant) chain;
  sessions ← session_ledger view tenant session;
  let id := LedgerId.Tenant tenant in
  ceilings ← view_context (view_tenant_ceilings view tenant);
  used ← view_context (view_used view id);
  Ok (grants ++ sessions ++ [LedgerState.mk id ceilings used true]).

Definition reserve_for (view : W) (tenant : TenantId) (chain : list Grant)
    (session : option (SessionId * TenantId)) (declared : Cost) : result (Error V) AuthzDecision :=
  ledgers ← ledger_states view tenant chain session;
  check ← plan_reservation ledgers declared;
  Ok (match check with
      | BudgetCheck.Fits reservation => Decision.Allowed (Grant.id <$> chain) reservation
      | BudgetCheck.Exceeded (BudgetRefusal.Own _ dimension) => Decision.BudgetExceeded dimension
      | BudgetCheck.Exceeded _ => Decision.Denied DenyCode.BudgetUnavailable
      end).

Definition caller_remaining (view : W) (tenant : TenantId) (chain : list Grant)
    (session : option SessionId) : result (Error V) Ceilings :=
  owned ← match session with
          | Some session =>
              owner ← view_context (view_session_owner view session);
              Ok (match owner with
                  | Some owner => if bool_decide (owner = tenant) then Some (session, owner) else None
                  | None => None
                  end)
          | None => Ok None
          end;
  ledgers ← ledger_states view tenant chain owned;
  Ok (own_remaining ledgers).

(** [authorize]. *)
Definition authorize (view : W) (request : AuthzRequest) (now : Timestamp)
    : result (Error V) AuthzDecision :=
  let '(AuthzRequest.mk tenant grant capability target session declared) := request in
  let requirement := session_requirement capability in
  if bool_decide (is_Some session) && bool_decide (requirement = SessionRequirement.Forbidden)
  then Err (Error.SessionNotApplicable capability)
  else
    designated ← designated_chain view tenant grant capability now;
    match designated with
    | Err refusal => Ok refusal
    | Ok chain =>
        if negb (is_served capability) then Ok (Decision.Denied DenyCode.NotSupported)
        else
          session_owner ← match session with
            | Some session =>
                checked ← check_session view tenant chain session;
                Ok (match checked with
                    | Ok owner => Ok (Some (session, owner))
                    | Err refusal => Err refusal
                    end)
            | None =>
                Ok (if bool_decide (requirement = SessionRequirement.Required)
                    then Err (Decision.Denied DenyCode.SessionRequired)
                    else Ok None)
            end;
          match session_owner with
          | Err refusal => Ok refusal
          | Ok session_owner =>
              if negb (target_admitted chain capability target)
              then Ok (Decision.Denied DenyCode.ScopeViolation)
              else reserve_for view tenant chain session_owner declared
          end
    end.

(** [plan]: the dry-run. *)
Definition plan (view : W) (request : AuthzRequest) (now : Timestamp) : result (Error V) Plan :=
  decision ← authorize view request now;
  let grant_chain := match decision with Decision.Allowed chain _ => chain | _ => [] end in
  Ok (Plan.mk (AuthzRequest.capability request) (AuthzRequest.declared request) grant_chain []
        (decision_refusal decision)).
End decision.

(** ** Specification *)
Section spec.
Context {W V : Type} `{GrantView W V} `{LedgerView W V}.

(** A link's session scope admits a session of [owner]. *)
Definition LinkAdmits (view : W) (owner : TenantId) (session : SessionId) (link : Grant) : Prop :=
  match Grant.session_scope link with
  | SessionScope.Own => in_lineage view owner (Grant.holder link) = Ok true
  | SessionScope.Sessions sessions => session ∈ sessions
  end.

(** The session part of an allowed call: the session and owner whose ledger
    is debited, if any. *)
Definition SessionOk (view : W) (request : AuthzRequest) (chain : list Grant)
    (debited : option (SessionId * TenantId)) : Prop :=
  match AuthzRequest.session request with
  | Some s =>
      session_requirement (AuthzRequest.capability request) <> SessionRequirement.Forbidden /\
      exists owner, view_session_owner view s = Ok (Some owner) /\
        Forall (LinkAdmits view owner s) chain /\ debited = Some (s, owner)
  | None =>
      session_requirement (AuthzRequest.capability request) <> SessionRequirement.Required /\
      debited = None
  end.

Definition TargetOk (request : AuthzRequest) (chain : list Grant) : Prop :=
  match AuthzRequest.target request with
  | None => AuthzRequest.capability request <> Capability.Capture
  | Some t => exists o, origin_parse (V := unit) t = Ok o /\
      Forall (fun link => scope_matches (Grant.target_scope link) o = true) chain
  end.

(** The seven conditions under which a call is allowed. *)
Record Authorized (view : W) (request : AuthzRequest) (now : Timestamp)
    (leaf : Grant) (chain : list Grant) (debited : option (SessionId * TenantId))
    (ledgers : list LedgerState) : Prop := {
  az_found : view_grant view (AuthzRequest.grant request) = Ok (Some leaf);
  az_held : Grant.id leaf = AuthzRequest.grant request /\ Grant.holder leaf = AuthzRequest.tenant request;
  az_chain : Linked view leaf chain;
  az_usable : Forall (usable view now) chain;
  az_capability : Forall (fun link => AuthzRequest.capability request ∈ Grant.capabilities link) chain;
  az_served : AuthzRequest.capability request <> Capability.Ingest;
  az_session : SessionOk view request chain debited;
  az_target : TargetOk request chain;
  az_ledgers : ledger_states view (AuthzRequest.tenant request) chain debited = Ok ledgers;
  az_covered : forall l, In l ledgers -> Covered (AuthzRequest.declared request) l;
}.

Lemma links_admit_true (view : W) owner s links :
  links_admit view owner s links = Ok true <-> Forall (LinkAdmits view owner s) links.
Proof using Type.
  induction links as [|l ls IH]; cbn [links_admit]; [by split; constructor|].
  rewrite Forall_cons, <- IH. unfold LinkAdmits at 1. destruct (Grant.session_scope l) as [|ss].
  - destruct (in_lineage view owner (Grant.holder l)) as [[]|]; cbn; naive_solver.
  - cbn. case_bool_decide; cbn; naive_solver.
Qed.

Lemma check_links_code (view : W) now links code i :
  check_links view now links = Ok (Some (code, i)) -> code <> DenyCode.NarrowingViolation.
Proof using Type.
  induction links as [|l ls IH]; cbn [check_links]; [done|]. intros Hc.
  apply bind_Ok in Hc as (r & _ & Hc). unfold link_code in Hc.
  repeat (case_bool_decide || destruct (_ >=? _) || destruct (_ <? _)); inv_ok; try done; auto.
  all: by injection Hc as <- <-.
Qed.

Lemma forallb_bool_decide {A} (P : A -> Prop) `{forall a, Decision (P a)} l :
  forallb (fun a => bool_decide (P a)) l = true <-> Forall P l.
Proof using Type.
  rewrite forallb_forall, Forall_forall. split; intros Hl a Ha.
  - apply list_elem_of_In, Hl in Ha. by bool_simpl.
  - apply bool_decide_eq_true, Hl. by apply list_elem_of_In.
Qed.

Lemma designated_chain_Ok (view : W) tenant grant capability now chain :
  view_u8 view ->
  designated_chain view tenant grant capability now = Ok (Ok chain) <->
  exists leaf, view_grant view grant = Ok (Some leaf) /\ Grant.id leaf = grant /\
    Grant.holder leaf = tenant /\ Linked view leaf chain /\ Forall (usable view now) chain /\
    Forall (fun link => capability ∈ Grant.capabilities link) chain.
Proof using Type.
  intros Hu. unfold designated_chain. split.
  - intros Hd. apply bind_Ok in Hd as (found & Hf%map_err_Ok & Hd).
    destruct found as [leaf|]; [|done]. case_in Hd; [done|]. bool_simpl.
    apply bind_Ok in Hd as (st & Hst & Hd). destruct st as [c|]; [|done].
    case_in Hd; [done|]. bool_simpl. do 2 apply Ok_inj in Hd. subst c.
    apply check_chain_valid in Hst as [HL Hus]; [|done|by destruct (Hu _ _ Hf) as [[? _] _]].
    exists leaf. repeat split; try done.
    by apply (forallb_bool_decide (fun link => capability ∈ Grant.capabilities link)).
  - intros (leaf & Hf & Hid & Hh & HL & Hus & Hcap). rewrite Hf. cbn [map_err mbind result_bind].
    rewrite !bool_decide_eq_true_2 by done. cbn [negb andb].
    rewrite (proj2 (check_chain_valid view leaf now chain Hu ltac:(by destruct (Hu _ _ Hf) as [[? _] _])))
      by done. cbn [mbind result_bind].
    by rewrite (proj2 (forallb_bool_decide (fun link => capability ∈ Grant.capabilities link) chain) Hcap).
Qed.

Lemma target_admitted_true request chain :
  target_admitted chain (AuthzRequest.capability request) (AuthzRequest.target request) = true <->
  TargetOk request chain.
Proof using Type.
  unfold target_admitted, TargetOk. destruct (AuthzRequest.target request) as [t|].
  - destruct (origin_parse t) as [o|]; [|naive_solver].
    rewrite forallb_forall. setoid_rewrite Forall_forall.
    split; [intros Hf; exists o; split; [done|]; intros l Hl; by apply Hf, list_elem_of_In|].
    intros (o' & [= <-] & Hf) l Hl. by apply Hf, list_elem_of_In.
  - rewrite negb_true_iff. apply bool_decide_eq_false.
Qed.

Lemma session_step_Ok (view : W) request chain debited :
  (match AuthzRequest.session request with
   | Some session =>
       checked ← check_session view (AuthzRequest.tenant request) chain session;
       Ok (match checked with
           | Ok owner => Ok (Some (session, owner))
           | Err refusal => Err refusal
           end)
   | None =>
       Ok (if bool_decide (session_requirement (AuthzRequest.capability request) = SessionRequirement.Required)
           then Err (Decision.Denied DenyCode.SessionRequired) else Ok None)
   end = Ok (Ok debited) :> result (Error V) (result AuthzDecision _)) /\
  (is_Some (AuthzRequest.session request) ->
   session_requirement (AuthzRequest.capability request) <> SessionRequirement.Forbidden) <->
  SessionOk view request chain debited.
Proof using Type.
  unfold SessionOk. destruct (AuthzRequest.session request) as [s|].
  - unfold check_session. split.
    + intros [Hs Hf]. split; [by apply Hf|]. apply bind_Ok in Hs as (ch & Hs & Hd).
      apply bind_Ok in Hs as (o & Ho%map_err_Ok & Hs). destruct o as [owner|]; [|by inv_ok].
      apply bind_Ok in Hs as (b & Hb & Hs). apply Ok_inj in Hs. exists owner.
      destruct b; [|by subst ch; case_bool_decide; inv_ok]. subst ch. inv_ok.
      split; [done|]. split; [|done]. by apply links_admit_true.
    + intros (Hf & owner & Ho & Hl & ->). split; [|done]. rewrite Ho. cbn [map_err mbind result_bind].
      by rewrite (proj2 (links_admit_true _ _ _ _) Hl).
  - split.
    + intros [Hs _]. apply Ok_inj in Hs. case_bool_decide; [done|]. by inv_ok.
    + intros [Hr ->]. split; [|by intros [? ?]]. by rewrite bool_decide_eq_false_2.
Qed.

(** A refusal of either early step is a denial or the hidden answer, never
    an allowance and never a budget refusal. *)
Definition EarlyRefusal (d : AuthzDecision) : Prop :=
  (exists code, d = Decision.Denied code) \/ d = Decision.NotFoundOrDenied.

Lemma EarlyRefusal_Allowed ids res : ~ EarlyRefusal (Decision.Allowed ids res).
Proof using Type. by intros [[]|]. Qed.

Lemma designated_chain_refusal (view : W) tenant grant capability now d :
  designated_chain view tenant grant capability now = Ok (Err d) -> EarlyRefusal d.
Proof using Type.
  unfold designated_chain, EarlyRefusal. intros Hd. apply bind_Ok in Hd as ([found|] & _ & Hd); [|by inv_ok; auto].
  case_in Hd; [by inv_ok; auto|]. apply bind_Ok in Hd as (st & _ & Hd).
  destruct st; [case_in Hd|]; inv_ok; eauto.
Qed.

Lemma session_step_refusal (view : W) tenant chain session required d :
  (match session with
   | Some session =>
       checked ← check_session view tenant chain session;
       Ok (match checked with
           | Ok owner => Ok (Some (session, owner))
           | Err refusal => Err refusal
           end)
   | None => Ok (if required : bool then Err (Decision.Denied DenyCode.SessionRequired) else Ok None)
   end = Ok (Err d) :> result (Error V) (result AuthzDecision _)) -> EarlyRefusal d.
Proof using Type.
  unfold EarlyRefusal. destruct session as [s|]; intros Hs.
  - unfold check_session in Hs. apply bind_Ok in Hs as (ch & Hs & Hd). destruct ch as [|e]; [done|].
    apply Ok_inj, Err_inj in Hd. subst e. apply bind_Ok in Hs as ([owner|] & _ & Hs); [|by inv_ok; auto].
    apply bind_Ok in Hs as (b & _ & Hs). apply Ok_inj in Hs.
    destruct b; [done|]. case_bool_decide; inv_ok; eauto.
  - destruct required; inv_ok; eauto.
Qed.

(** A denial never carries the issuance-only code. *)
Lemma authorize_code (view : W) request now code :
  authorize view request now = Ok (Decision.Denied code) -> code <> DenyCode.NarrowingViolation.
Proof using Type.
  destruct request as [tenant grant cap target session declared]. unfold authorize.
  intros Ha. case_in Ha; [done|]. apply bind_Ok in Ha as (des & Hd & Ha). destruct des as [chain|].
  2: { apply Ok_inj in Ha. subst. unfold designated_chain, check_chain in Hd.
       apply bind_Ok in Hd as ([found|] & _ & Hd); [|done]. case_in Hd; [done|].
       apply bind_Ok in Hd as (st & Hst & Hd). apply bind_Ok in Hst as (ch & _ & Hst).
       apply bind_Ok in Hst as (fl & Hfl & Hst). apply Ok_inj in Hst. subst st.
       destruct fl as [[c g]|]; [apply Ok_inj, Err_inj in Hd; injection Hd as <-
         |case_in Hd; congruence].
       by apply check_links_code in Hfl. }
  case_in Ha; [congruence|]. apply bind_Ok in Ha as (so & Hs & Ha). destruct so as [debited|].
  2: { apply Ok_inj in Ha. subst. destruct session as [s|]; [|case_in Hs; congruence].
       apply bind_Ok in Hs as (ch & Hs & Hd'). destruct ch as [|e]; [done|].
       apply Ok_inj, Err_inj in Hd'. subst e. unfold check_session in Hs.
       apply bind_Ok in Hs as ([owner|] & _ & Hs); [|done]. apply bind_Ok in Hs as (b & _ & Hs).
       apply Ok_inj in Hs. destruct b; [done|]. case_bool_decide; congruence. }
  case_in Ha; [congruence|]. unfold reserve_for in Ha. inv_ok.
  match goal with H : match ?c with _ => _ end = _ |- _ => destruct c as [|[]] end; congruence.
Qed.

(** The steps of an allowed decision, and back. *)
Lemma authorize_inv (view : W) request now ids res :
  authorize view request now = Ok (Decision.Allowed ids res) ->
  (is_Some (AuthzRequest.session request) ->
     session_requirement (AuthzRequest.capability request) <> SessionRequirement.Forbidden) /\
  exists chain debited ledgers,
    designated_chain view (AuthzRequest.tenant request) (AuthzRequest.grant request)
      (AuthzRequest.capability request) now = Ok (Ok chain) /\
    is_served (AuthzRequest.capability request) = true /\
    SessionOk view request chain debited /\
    target_admitted chain (AuthzRequest.capability request) (AuthzRequest.target request) = true /\
    ledger_states view (AuthzRequest.tenant request) chain debited = Ok ledgers /\
    plan_reservation (V := V) ledgers (AuthzRequest.declared request) = Ok (BudgetCheck.Fits res) /\
    ids = Grant.id <$> chain.
Proof using Type.
  destruct request as [tenant grant cap target session declared]. unfold authorize.
  cbn [AuthzRequest.session AuthzRequest.capability AuthzRequest.tenant AuthzRequest.grant
       AuthzRequest.target AuthzRequest.declared]. intros Ha.
  destruct (bool_decide (is_Some session) && _) eqn:Hforb; [done|].
  assert (is_Some session -> session_requirement cap <> SessionRequirement.Forbidden) as Hf.
  { intros Hs Hr. by rewrite !bool_decide_eq_true_2 in Hforb. }
  split; [done|].
  apply bind_Ok in Ha as (des & Hd & Ha). destruct des as [chain|d].
  2: { apply Ok_inj in Ha. subst d. by apply designated_chain_refusal, EarlyRefusal_Allowed in Hd. }
  destruct (is_served cap); cbn [negb] in Ha; [|done].
  apply bind_Ok in Ha as (so & Hs & Ha). destruct so as [debited|d].
  2: { apply Ok_inj in Ha. subst d. by apply session_step_refusal, EarlyRefusal_Allowed in Hs. }
  destruct (target_admitted chain cap target) eqn:Ht; cbn [negb] in Ha; [|done].
  unfold reserve_for in Ha. apply bind_Ok in Ha as (ledgers & Hl & Ha).
  apply bind_Ok in Ha as (chk & Hp & Ha). apply Ok_inj in Ha.
  destruct chk as [r|[]]; try done. injection Ha as <- <-.
  exists chain, debited, ledgers. repeat split; try done.
  by apply (session_step_Ok view (AuthzRequest.mk tenant grant cap target session declared)).
Qed.

Lemma authorize_intro (view : W) request now chain debited ledgers res :
  designated_chain view (AuthzRequest.tenant request) (AuthzRequest.grant request)
    (AuthzRequest.capability request) now = Ok (Ok chain) ->
  is_served (AuthzRequest.capability request) = true ->
  SessionOk view request chain debited ->
  target_admitted chain (AuthzRequest.capability request) (AuthzRequest.target request) = true ->
  ledger_states view (AuthzRequest.tenant request) chain debited = Ok ledgers ->
  plan_reservation (V := V) ledgers (AuthzRequest.declared request) = Ok (BudgetCheck.Fits res) ->
  authorize view request now = Ok (Decision.Allowed (Grant.id <$> chain) res).
Proof using Type.
  intros Hd Hsv Hs%session_step_Ok Ht Hl Hp. destruct Hs as [Hs Hf]. revert Hd Hsv Hs Hf Ht Hl Hp.
  destruct request as [tenant grant cap target session declared]. unfold authorize.
  cbn [AuthzRequest.session AuthzRequest.capability AuthzRequest.tenant AuthzRequest.grant
       AuthzRequest.target AuthzRequest.declared]. intros Hd Hsv Hs Hf Ht Hl Hp.
  assert (bool_decide (is_Some session) &&
    bool_decide (session_requirement cap = SessionRequirement.Forbidden) = false) as ->.
  { apply andb_false_iff. destruct session; [right|by left].
    apply bool_decide_eq_false, Hf; eauto. }
  rewrite Hd. cbn [mbind result_bind]. rewrite Hsv. cbn [negb]. rewrite Hs. cbn [mbind result_bind].
  rewrite Ht. cbn [negb]. unfold reserve_for. rewrite Hl. cbn [mbind result_bind]. by rewrite Hp.
Qed.
End spec.

(** ** Properties *)
Section properties.
Context {W V : Type} `{GrantView W V} `{LedgerView W V}.

(** C3. [authorize] allows exactly the authorized calls: a call is allowed
    with a chain and a reservation if and only if the caller holds the
    designated grant, its whole chain to a root is well formed and usable
    now, every link confers the capability, the capability is served, the
    session requirement holds and every link admits the session, every link's
    target scope admits the parsed target, and every ledger (each chain
    grant, the session, the tenant) covers the declared cost. *)
Theorem authorize_allowed_iff (view : W) (request : AuthzRequest) (now : Timestamp)
    (ids : list GrantId) (reservation : ReservationPlan) :
  view_u8 view ->
  authorize view request now = Ok (Decision.Allowed ids reservation) <->
  exists leaf chain debited ledgers,
    Authorized view request now leaf chain debited ledgers /\
    ids = Grant.id <$> chain /\
    reservation = ReservationPlan.mk (AuthzRequest.declared request) (LedgerState.id <$> ledgers).
Proof using Type.
  intros Hu. split.
  - intros Ha. apply authorize_inv in Ha as (_ & chain & debited & ledgers & Hd & Hserved & Hs & Ht & Hl & Hp & ->).
    apply designated_chain_Ok in Hd as (leaf & Hf & Hid & Hh & HL & Hus & Hcap); [|done].
    apply plan_reservation_Fits in Hp as [-> Hcov].
    exists leaf, chain, debited, ledgers. split; [|done]. constructor; auto.
    + intros Hi. by rewrite Hi in Hserved.
    + by apply target_admitted_true.
  - intros (leaf & chain & debited & ledgers & Haz & -> & ->).
    destruct Haz as [Hf [Hid Hh] HL Hus Hcap Hserved Hs Ht Hl Hcov].
    apply authorize_intro with (debited := debited) (ledgers := ledgers); auto.
    + apply designated_chain_Ok; eauto 10.
    + by destruct (AuthzRequest.capability request).
    + by apply target_admitted_true.
    + by apply plan_reservation_Fits.
Qed.

(** No existence leak: a designated grant that is missing, that the view
    answers under another id, or that another tenant holds gives the very
    same decision, and so does a session that is missing or that is another
    tenant's and outside some link's scope (one broken by the first link that
    does not admit it), whatever target and cost the call declares. *)
Theorem authorize_hides_foreign (view : W) (request : AuthzRequest) (now : Timestamp)
    (found : option Grant) :
  (is_Some (AuthzRequest.session request) ->
     session_requirement (AuthzRequest.capability request) <> SessionRequirement.Forbidden) ->
  view_grant view (AuthzRequest.grant request) = Ok found ->
  ((forall leaf, found = Some leaf -> Grant.id leaf = AuthzRequest.grant request ->
      Grant.holder leaf <> AuthzRequest.tenant request) ->
   authorize view request now = Ok Decision.NotFoundOrDenied) /\
  (forall chain s owner,
     designated_chain view (AuthzRequest.tenant request) (AuthzRequest.grant request)
       (AuthzRequest.capability request) now = Ok (Ok chain) ->
     AuthzRequest.capability request <> Capability.Ingest ->
     AuthzRequest.session request = Some s ->
     view_session_owner view s = Ok owner ->
     (forall t, owner = Some t ->
        t <> AuthzRequest.tenant request /\ links_admit view t s chain = Ok false) ->
     authorize view request now = Ok Decision.NotFoundOrDenied).
Proof using Type.
  destruct request as [tenant grant cap target session declared]. unfold authorize.
  cbn [AuthzRequest.session AuthzRequest.capability AuthzRequest.tenant AuthzRequest.grant].
  intros Hf Hg.
  assert (bool_decide (is_Some session) &&
    bool_decide (session_requirement cap = SessionRequirement.Forbidden) = false) as ->.
  { apply andb_false_iff. destruct session; [right|by left].
    apply bool_decide_eq_false, Hf; eauto. }
  split.
  - intros Hh. unfold designated_chain. rewrite Hg. cbn [map_err mbind result_bind].
    destruct found as [leaf|]; [|done]. destruct (decide (Grant.id leaf = grant)).
    + by rewrite (bool_decide_eq_false_2 (Grant.holder leaf = tenant)), andb_false_r by auto.
    + by rewrite (bool_decide_eq_false_2 (Grant.id leaf = grant)).
  - intros chain s owner -> Hi -> Ho Hn. cbn [mbind result_bind].
    assert (is_served cap = true) as -> by (by destruct cap). cbn [negb].
    unfold check_session. rewrite Ho. cbn [map_err mbind result_bind].
    destruct owner as [t|]; [|done]. destruct (Hn t eq_refl) as [Ht ->]. cbn [mbind result_bind].
    by rewrite bool_decide_eq_false_2.
Qed.

(** A refused call carries a well-formed failure, and the store's next
    state agrees with the decision: [Denied] for a refused execution,
    nothing for a refused dry-run, and a plan reports exactly the refusal and
    the chain the execution would get. *)
Theorem authorize_refusal_honest (view : W) (request : AuthzRequest) (now : Timestamp)
    (d : AuthzDecision) :
  authorize view request now = Ok d ->
  (forall f, decision_refusal d = Some f -> is_well_formed f = true) /\
  (decision_next_state d Mode.Execute = Some InvocationState.IntentPersisted <->
     decision_refusal d = None) /\
  (decision_next_state d Mode.DryRun = None <-> is_Some (decision_refusal d)) /\
  exists p, plan view request now = Ok p /\ Plan.refusal p = decision_refusal d /\
    (Plan.refusal p = None ->
     exists reservation, d = Decision.Allowed (Plan.grant_chain p) reservation /\
       ReservationPlan.cost reservation = Plan.cost p).
Proof using Type.
  intros Ha. repeat split.
  - intros f Hr. destruct d as [|code| |]; cbn in Hr; try done; injection Hr as <-; try done.
    pose proof (authorize_code _ _ _ _ Ha). by destruct code.
  - by destruct d.
  - intros Hd. by destruct d.
  - by destruct d.
  - intros [? ?]. by destruct d.
  - unfold plan. rewrite Ha. eexists. split; [reflexivity|]. split; [done|].
    cbn [Plan.refusal Plan.grant_chain Plan.cost]. destruct d as [ids res| | |]; try done. intros _.
    exists res. split; [done|].
    by apply authorize_inv in Ha as (_ & ch & db & ls & _ & _ & _ & _ & _ & [-> _]%plan_reservation_Fits & _).
Qed.
End properties.
