(* ===== verification/Revoke.v ===== *)
(** * Revocation authorization ([epitrope::revoke]) *)
From S2P Require Import Prelude Vocab Ids Payload Epitrope Origin View Chain Decision.
Local Open Scope Z_scope.

(** A chain holds at most 256 grants. *)
Definition SUBTREE_WALK_LIMIT : nat := 256.

(** [RevokeDecision]. *)
Module RevokeDecision.
Inductive RevokeDecision : Set :=
| Revoke (target : GrantId)
| AlreadyRevoked (record : Revocation)
| Denied (code : DenyCode)
| NotFoundOrDenied.
End RevokeDecision.
Abbreviation RevokeDecision := RevokeDecision.RevokeDecision.

(** [RevokeDecision::refusal]. *)
Definition revoke_refusal (d : RevokeDecision) : option Failure :=
  match d with
  | RevokeDecision.Revoke _ | RevokeDecision.AlreadyRevoked _ => None
  | RevokeDecision.Denied code => Some (failure_denied code)
  | RevokeDecision.NotFoundOrDenied => Some Failure.NotFoundOrDenied
  end.

Section revoke.
Context {W V : Type} `{GrantView W V}.

(** The [for] loop of [in_subtree], [rounds] rounds left. *)
Fixpoint subtree_loop (rounds : nat) (view : W) (root current : GrantId) : result (Error V) bool :=
  match rounds with
  | O => Ok false
  | S rounds =>
      if bool_decide (current = root) then Ok true
      else
        found ← view_context (view_grant view current);
        match found with
        | Some grant =>
            if bool_decide (Grant.id grant = current) then
              match Grant.parent grant with
              | Some parent => subtree_loop rounds view root parent
              | None => Ok false
              end
            else Ok false
        | None => Ok false
        end
  end.
Definition in_subtree (view : W) (root target : GrantId) : result (Error V) bool :=
  subtree_loop SUBTREE_WALK_LIMIT view root target.

Definition check_revoke (view : W) (tenant : TenantId) (designated target : GrantId)
    (now : Timestamp) : result (Error V) RevokeDecision :=
  checked ← designated_chain view tenant designated Capability.GrantRevoke now;
  match checked with
  | Err (Decision.Denied code) => Ok (RevokeDecision.Denied code)
  | Err _ => Ok RevokeDecision.NotFoundOrDenied
  | Ok _ =>
      inside ← in_subtree view designated target;
      if negb inside then Ok RevokeDecision.NotFoundOrDenied
      else
        record ← view_context (view_revocation view target);
        Ok (match record with
            | Some record => RevokeDecision.AlreadyRevoked record
            | None => RevokeDecision.Revoke target
            end)
  end.

(** ** Specification *)

(** [Below view root n target]: [target] reaches [root] through [n] parent
    links as the view holds them, none of whose lower ends is [root]. *)
Inductive Below (view : W) (root : GrantId) : nat -> GrantId -> Prop :=
| Below_here : Below view root 0 root
| Below_parent n target grant parent :
    target <> root -> view_grant view target = Ok (Some grant) -> Grant.id grant = target ->
    Grant.parent grant = Some parent -> Below view root n parent -> Below view root (S n) target.

Lemma subtree_loop_true (view : W) root rounds target :
  subtree_loop rounds view root target = Ok true <->
  exists n, (n < rounds)%nat /\ Below view root n target.
Proof using Type.
  revert target; induction rounds as [|rounds IH]; intros target; cbn [subtree_loop].
  { split; [done|]. intros (n & Hn & _). lia. }
  case_bool_decide as Hr.
  { subst. split; [|done]. intros _. exists 0%nat. split; [lia|constructor]. }
  split.
  - intros Hs. apply bind_Ok in Hs as ([g|] & Hg%map_err_Ok & Hs); [|done].
    case_bool_decide; [|done]. destruct (Grant.parent g) as [p|] eqn:Hp; [|done].
    apply IH in Hs as (n & Hn & Hb). exists (S n). split; [lia|]. by econstructor.
  - intros (n & Hn & Hb). inversion Hb as [|m t g p Hne Hg Hid Hp Hb']; subst; [done|].
    rewrite Hg. cbn [map_err mbind result_bind]. rewrite bool_decide_eq_true_2, Hp by done.
    apply IH. exists m. split; [lia|done].
Qed.

(** The walk fails only where the view does. *)
Lemma subtree_loop_total (view : W) root rounds target :
  (forall i, exists g, view_grant view i = Ok g) ->
  exists b, subtree_loop rounds view root target = Ok b.
Proof using Type.
  intros Htot. revert target; induction rounds as [|rounds IH]; intros target; cbn [subtree_loop]; [eauto|].
  case_bool_decide; [eauto|]. destruct (Htot target) as [[g|] ->]; cbn [map_err mbind result_bind]; [|eauto].
  case_bool_decide; [|eauto]. destruct (Grant.parent g); eauto.
Qed.

End revoke.

(** ** Properties *)
Section properties.
Context {W V : Type} `{GrantView W V}.

(** Revocation authority: [check_revoke] grants a revocation (or reports
    the existing one) exactly when the caller holds the designated grant with
    a usable chain that confers [GrantRevoke] on every link, and the target is
    the designated grant or descends from it through fewer than 256 parent
    links; the answer is [AlreadyRevoked] with the stored record when there is
    one, and [Revoke target] otherwise. *)
Theorem check_revoke_iff (view : W) (tenant : TenantId) (designated target : GrantId)
    (now : Timestamp) (record : option Revocation) :
  view_u8 view ->
  view_revocation view target = Ok record ->
  check_revoke view tenant designated target now =
    Ok (match record with
        | Some record => RevokeDecision.AlreadyRevoked record
        | None => RevokeDecision.Revoke target
        end) <->
  (exists leaf chain,
     view_grant view designated = Ok (Some leaf) /\ Grant.id leaf = designated /\
     Grant.holder leaf = tenant /\ Linked view leaf chain /\ Forall (usable view now) chain /\
     Forall (fun link => Capability.GrantRevoke ∈ Grant.capabilities link) chain) /\
  (exists n, (n < 256)%nat /\ Below view designated n target).
Proof using Type.
  intros Hu Hrec. unfold check_revoke. split.
  - intros Hc. apply bind_Ok in Hc as (des & Hd & Hc). destruct des as [chain|d].
    + apply designated_chain_Ok in Hd as (leaf & Hd); [|done].
      apply bind_Ok in Hc as (b & Hin & Hc). destruct b; cbn [negb] in Hc.
      * split; [eauto|]. by apply subtree_loop_true in Hin.
      * apply Ok_inj in Hc. by destruct record.
    + by destruct d, record.
  - intros [(leaf & chain & Hd) Hb]. rewrite (proj2 (designated_chain_Ok view tenant designated
      Capability.GrantRevoke now chain Hu)) by eauto.
    cbn [mbind result_bind]. unfold in_subtree. rewrite (proj2 (subtree_loop_true view designated SUBTREE_WALK_LIMIT target) Hb).
    cbn [mbind result_bind negb]. by rewrite Hrec.
Qed.

(** A missing target and one outside the designated grant's subtree (an
    ancestor, a sibling, a stranger's grant) are answered identically, and
    the answer is the one a missing or foreign designated grant gets. *)
Theorem check_revoke_hides_foreign (view : W) (tenant : TenantId) (designated target : GrantId)
    (now : Timestamp) (chain : list Grant) :
  designated_chain view tenant designated Capability.GrantRevoke now = Ok (Ok chain) ->
  (forall i, exists g, view_grant view i = Ok g) ->
  (forall n, (n < 256)%nat -> ~ Below view designated n target) ->
  check_revoke view tenant designated target now = Ok RevokeDecision.NotFoundOrDenied.
Proof using Type.
  intros Hd Htot Hout. unfold check_revoke. rewrite Hd. cbn [mbind result_bind]. unfold in_subtree.
  destruct (subtree_loop_total view designated SUBTREE_WALK_LIMIT target Htot) as [b Hb].
  rewrite Hb. destruct b; [|done].
  apply subtree_loop_true in Hb as (n & Hn & Hb). by destruct (Hout n Hn).
Qed.
End properties.
