(* ===== verification/Lifecycle.v ===== *)
(** * The invocation transition table and restart recovery
    ([epitrope::lifecycle]) *)
From S2P Require Import Prelude Vocab Ids Epitrope.
Local Open Scope Z_scope.

(** [next_state]: the state a step leads to, or the illegal transition. *)
Definition next_state {V} (from : InvocationState) (step : Step) : result (Error V) InvocationState :=
  let to :=
    match from, step with
    | InvocationState.Planned, Step.Deny => Some InvocationState.Denied
    | InvocationState.Planned, Step.PersistIntent => Some InvocationState.IntentPersisted
    | InvocationState.IntentPersisted, Step.Dispatch => Some InvocationState.Dispatched
    | InvocationState.IntentPersisted, Step.Release
        (ReleaseReason.Abandoned | ReleaseReason.Revoked | ReleaseReason.Expired
         | ReleaseReason.Cancelled | ReleaseReason.DeadlineExceeded)
    | InvocationState.Dispatched, Step.Release
        (ReleaseReason.Revoked | ReleaseReason.Expired | ReleaseReason.Cancelled
         | ReleaseReason.DeadlineExceeded | ReleaseReason.ProducerUnavailable) =>
        Some InvocationState.Released
    | InvocationState.Dispatched, Step.CompleteTransfer => Some InvocationState.TransferComplete
    | (InvocationState.Dispatched | InvocationState.Published), Step.Settle => Some InvocationState.Settled
    | InvocationState.Dispatched, Step.MarkUnknownEffect => Some InvocationState.UnknownEffect
    | InvocationState.TransferComplete, Step.Publish => Some InvocationState.Published
    | _, _ => None
    end in
  ok_or to (Error.IllegalTransition from step).

(** [RecoveryAction], its first step, and [recovery_action]. *)
Module RecoveryAction.
Inductive RecoveryAction : Set :=
| ReleaseAbandoned
| MarkUnknownEffect
| RollForwardPublish
| RollForwardSettle.
End RecoveryAction.
Abbreviation RecoveryAction := RecoveryAction.RecoveryAction.
Definition recovery_step (a : RecoveryAction) : Step :=
  match a with
  | RecoveryAction.ReleaseAbandoned => Step.Release ReleaseReason.Abandoned
  | RecoveryAction.MarkUnknownEffect => Step.MarkUnknownEffect
  | RecoveryAction.RollForwardPublish => Step.Publish
  | RecoveryAction.RollForwardSettle => Step.Settle
  end.
Definition recovery_action (state : InvocationState) : option RecoveryAction :=
  match state with
  | InvocationState.IntentPersisted => Some RecoveryAction.ReleaseAbandoned
  | InvocationState.Dispatched => Some RecoveryAction.MarkUnknownEffect
  | InvocationState.TransferComplete => Some RecoveryAction.RollForwardPublish
  | InvocationState.Published => Some RecoveryAction.RollForwardSettle
  | _ => None
  end.

(** ** The step relation and its runs *)

Definition steps_to (from : InvocationState) (step : Step) (to : InvocationState) : Prop :=
  next_state (V := unit) from step = Ok to.

(** [Run from trace to]: the steps of [trace], in order, lead from [from] to
    [to]. *)
Inductive Run : InvocationState -> list Step -> InvocationState -> Prop :=
| Run_nil s : Run s [] s
| Run_cons s step s' trace s'' : steps_to s step s' -> Run s' trace s'' -> Run s (step :: trace) s''.

Lemma next_state_steps {V} from step to :
  next_state (V := V) from step = Ok to <-> steps_to from step to.
Proof. unfold steps_to, next_state. by rewrite !ok_or_Ok. Qed.

(** Decreases on every step: the number of durable boundaries left. *)
Definition rank (s : InvocationState) : nat :=
  match s with
  | InvocationState.Planned => 5
  | InvocationState.IntentPersisted => 4
  | InvocationState.Dispatched => 3
  | InvocationState.TransferComplete => 2
  | InvocationState.Published => 1
  | _ => 0
  end.

(** Case analysis on every legal step out of a state. *)
Ltac inv_step H :=
  unfold steps_to, next_state in H; apply ok_or_Ok in H;
  repeat match type of H with
  | context [match ?x with _ => _ end] => destruct x; try discriminate H
  end; injection H as <-.

(** The states each step leads from and to. *)
Lemma step_Dispatch s s' : steps_to s Step.Dispatch s' ->
  s = InvocationState.IntentPersisted /\ s' = InvocationState.Dispatched.
Proof. intros H. by inv_step H. Qed.
Lemma step_CompleteTransfer s s' : steps_to s Step.CompleteTransfer s' ->
  s = InvocationState.Dispatched /\ s' = InvocationState.TransferComplete.
Proof. intros H. by inv_step H. Qed.
Lemma step_Publish s s' : steps_to s Step.Publish s' ->
  s = InvocationState.TransferComplete /\ s' = InvocationState.Published.
Proof. intros H. by inv_step H. Qed.
Lemma step_Settle s s' : steps_to s Step.Settle s' ->
  (s = InvocationState.Dispatched \/ s = InvocationState.Published) /\ s' = InvocationState.Settled.
Proof. intros H. inv_step H; auto. Qed.
Lemma step_Release s reason s' : steps_to s (Step.Release reason) s' ->
  (s = InvocationState.IntentPersisted \/ s = InvocationState.Dispatched) /\ s' = InvocationState.Released.
Proof. intros H. inv_step H; auto. Qed.
Lemma step_MarkUnknownEffect s s' : steps_to s Step.MarkUnknownEffect s' ->
  s = InvocationState.Dispatched /\ s' = InvocationState.UnknownEffect.
Proof. intros H. by inv_step H. Qed.

Lemma steps_to_rank s step s' : steps_to s step s' -> (rank s' < rank s)%nat.
Proof. intros H. inv_step H; cbn; lia. Qed.

Lemma terminal_no_step s step s' : is_terminal s = true -> ~ steps_to s step s'.
Proof. intros Ht H. by inv_step H. Qed.

Lemma Run_rank s trace s' : Run s trace s' -> (length trace + rank s' <= rank s)%nat.
Proof. induction 1 as [|s st s' t s'' Hs%steps_to_rank _ IH]; cbn; lia. Qed.

(** Once the transfer is complete the only way is forward to settlement. *)
Lemma Run_forward s trace s' :
  Run s trace s' ->
  (s = InvocationState.TransferComplete -> s' ∈ [InvocationState.TransferComplete;
     InvocationState.Published; InvocationState.Settled]) /\
  (s = InvocationState.Published -> s' ∈ [InvocationState.Published; InvocationState.Settled]) /\
  (is_terminal s = true -> trace = [] /\ s' = s).
Proof.
  induction 1 as [s|s st s' t s'' Hs Hr (IH1 & IH2 & IH3)].
  { split; [intros ->; set_solver|]. split; [intros ->; set_solver|done]. }
  assert (is_terminal s = true -> False) as Hn by (intros Ht; by apply (terminal_no_step _ _ _ Ht) in Hs).
  split; [|split; [|by intros Ht; destruct (Hn Ht)]]; intros ->; inv_step Hs.
  - specialize (IH2 eq_refl). set_solver.
  - destruct (IH3 eq_refl) as [_ ->]. set_solver.
Qed.

(** Decides the facts about one concrete run. *)
Ltac by_run :=
  split_and!;
  [ reflexivity
  | repeat (econstructor; [reflexivity|]); constructor
  | cbn; lia | reflexivity | set_solver | try (by left) ].

(** ** Properties *)

(** Every run of the transition table ends: along any run the number of
    durable boundaries left strictly decreases, so an invocation takes at most
    five steps in all, a terminal state is final, and every other state has a
    step that is legal. *)
Theorem lifecycle_runs_end (s s' : InvocationState) (trace : list Step) :
  Run s trace s' ->
  (length trace <= 5)%nat /\
  (is_terminal s = true -> trace = [] /\ s' = s) /\
  ((exists step s'', steps_to s' step s'') <-> is_terminal s' = false).
Proof.
  intros Hr. pose proof (Run_rank _ _ _ Hr) as Hk. split; [destruct s; cbn in *; lia|].
  split; [by apply (Run_forward _ _ _ Hr)|]. split.
  - intros (st & s'' & Hs). destruct (is_terminal s') eqn:Ht; [|done].
    by apply (terminal_no_step _ _ _ Ht) in Hs.
  - unfold steps_to. destruct s'; try done; intros _.
    + by exists Step.Deny; eauto.
    + by exists Step.Dispatch; eauto.
    + by exists Step.Settle; eauto.
    + by exists Step.Publish; eauto.
    + by exists Step.Settle; eauto.
Qed.

(** No refund after the effect is durable: no run that passes through
    [TransferComplete] (B3) or [Published] (B4) ever releases the reservation,
    denies the call or marks it of unknown effect; it can only roll forward to
    [Settled]. *)
Theorem durable_effect_rolls_forward (mid s' : InvocationState) (after : list Step) :
  Run mid after s' ->
  mid = InvocationState.TransferComplete \/ mid = InvocationState.Published ->
  (forall reason, ~ (Step.Release reason ∈ after)) /\ ~ (Step.MarkUnknownEffect ∈ after) /\
  ~ (Step.Deny ∈ after) /\
  (is_terminal s' = true -> s' = InvocationState.Settled).
Proof.
  intros Hr Hm. assert (forall step, step ∈ after -> step = Step.Publish \/ step = Step.Settle) as Hst.
  { revert Hm. induction Hr as [|m st m' t s'' Hs Hr IH]; intros Hm step; [set_solver|].
    rewrite elem_of_cons. destruct Hm as [->| ->]; inv_step Hs; intros [->|Hin]; auto.
    destruct (Run_forward _ _ _ Hr) as (_ & _ & Hnil). destruct (Hnil eq_refl) as [-> _]. set_solver. }
  repeat split; try (intros; by intros []%Hst).
  destruct (Run_forward _ _ _ Hr) as (H3 & H4 & _). intros Ht.
  destruct Hm as [Hm|Hm]; [apply H3 in Hm|apply H4 in Hm]; set_solver.
Qed.

(** Restart recovery is complete and legal: a state has a recovery action
    exactly when it is a persisted, non-terminal one; the action's step is
    legal there; taking recovery steps reaches a terminal state in at most two
    steps, [Released] from B1, [UnknownEffect] from B2, [Settled] from B3 and
    B4, and a dispatched call is never dispatched again or released. *)
Theorem recovery_reaches_terminal (s : InvocationState) :
  ((exists a, recovery_action s = Some a) <-> is_durable s = true /\ is_terminal s = false) /\
  (forall a, recovery_action s = Some a ->
     exists s' trace s'', steps_to s (recovery_step a) s' /\
       Run s (recovery_step a :: trace) s'' /\ (length trace <= 1)%nat /\
       is_terminal s'' = true /\ ~ (Step.Dispatch ∈ recovery_step a :: trace) /\
       (trace = [] \/ exists a', recovery_action s' = Some a' /\ trace = [recovery_step a'])).
Proof.
  split.
  - destruct s; cbn; split; try (intros [? ?]; done); eauto; intros; by destruct_and?.
  - intros a Ha. destruct s; try done; injection Ha as <-; cbn [recovery_step].
    + exists InvocationState.Released, [], InvocationState.Released. by_run.
    + exists InvocationState.UnknownEffect, [], InvocationState.UnknownEffect. by_run.
    + exists InvocationState.Published, [Step.Settle], InvocationState.Settled. by_run.
      right. by exists RecoveryAction.RollForwardSettle.
    + exists InvocationState.Settled, [], InvocationState.Settled. by_run.
Qed.
