(* ===== verification/Records.v ===== *)
(** * Stored record types ([phylake::store::records])

    The records of the custody store and their conversions to and from the
    authorization types. *)
From S2P Require Import Prelude Vocab Ids Payload Epitrope Origin View.
Local Open Scope Z_scope.

(** [Terminal]: how an invocation ended. *)
Module Terminal.
Inductive Terminal : Set :=
| Settled (failure : option Failure)
| Released (reason : ReleaseReason)
| UnknownEffect.
#[global] Instance Terminal_eq_dec : EqDecision Terminal.
Proof. solve_decision. Defined.
End Terminal.
Abbreviation Terminal := Terminal.Terminal.

Definition terminal_state (t : Terminal) : InvocationState :=
  match t with
  | Terminal.Settled _ => InvocationState.Settled
  | Terminal.Released _ => InvocationState.Released
  | Terminal.UnknownEffect => InvocationState.UnknownEffect
  end.
Definition terminal_release_reason (t : Terminal) : option ReleaseReason :=
  match t with
  | Terminal.Released reason => Some reason
  | Terminal.Settled _ | Terminal.UnknownEffect => None
  end.
Definition terminal_reply_failure (t : Terminal) : option Failure :=
  match t with
  | Terminal.Settled failure => failure
  | Terminal.UnknownEffect => Some Failure.UnknownEffect
  | Terminal.Released reason => Some
      match reason with
      | ReleaseReason.Revoked => failure_denied DenyCode.GrantRevoked
      | ReleaseReason.Expired => failure_denied DenyCode.GrantExpired
      | ReleaseReason.ProducerUnavailable => Failure.ProducerUnavailable
      | ReleaseReason.DeadlineExceeded => Failure.DeadlineExceeded
      | _ => Failure.Cancelled
      end
  end.
Definition terminal_outcome (t : Terminal) : OutcomeKind :=
  match terminal_reply_failure t with
  | Some failure => failure_kind failure
  | None => OutcomeKind.Success
  end.

(** [TenantRecord]; [data_key_id] is a [u32]. *)
Module TenantRecord.
Record TenantRecord : Set := mk {
  id : TenantId;
  class : TenantClass;
  verifying_key : bytes;
  bound_uids : list Z;
  parent : option TenantId;
  ceilings : Ceilings;
  data_key_id : Z;
  registered_at : Timestamp;
}.
End TenantRecord.
Abbreviation TenantRecord := TenantRecord.TenantRecord.

(** [GrantRecord]: target patterns are kept as their text. *)
Module GrantRecord.
Record GrantRecord : Set := mk {
  id : GrantId;
  issuer : TenantId;
  holder : TenantId;
  capabilities : list Capability;
  session_scope : SessionScope;
  target_patterns : list str;
  audit_scope : AuditScope;
  ceilings : Ceilings;
  not_before : Timestamp;
  expires_at : Timestamp;
  parent : option GrantId;
  depth : Z;
  max_depth : Z;
}.
#[global] Instance GrantRecord_eq_dec : EqDecision GrantRecord.
Proof. solve_decision. Defined.
End GrantRecord.
Abbreviation GrantRecord := GrantRecord.GrantRecord.

(** [GrantRecord::from_grant]. A set's elements are listed in the set's own
    order, as the source's [BTreeSet] iterates in its own. *)
Definition from_grant (grant : Grant) (target_patterns : list str) : GrantRecord :=
  GrantRecord.mk (Grant.id grant) (Grant.issuer grant) (Grant.holder grant)
    (elements (Grant.capabilities grant)) (Grant.session_scope grant) target_patterns
    (Grant.audit_scope grant) (Grant.ceilings grant) (Grant.not_before grant)
    (Grant.expires_at grant) (Grant.parent grant) (Grant.depth grant) (Grant.max_depth grant).

(** [GrantRecord::to_grant], before its error is wrapped. *)
Definition to_grant {V} (r : GrantRecord) : result (Error V) Grant :=
  target_scope ← scope_parse (GrantRecord.target_patterns r);
  Ok (Grant.mk (GrantRecord.id r) (GrantRecord.issuer r) (GrantRecord.holder r)
    (list_to_set (GrantRecord.capabilities r)) (GrantRecord.session_scope r) target_scope
    (GrantRecord.audit_scope r) (GrantRecord.ceilings r) (GrantRecord.not_before r)
    (GrantRecord.expires_at r) (GrantRecord.parent r) (GrantRecord.depth r) (GrantRecord.max_depth r)).

(** [RevocationRecord] and [to_revocation]. *)
Module RevocationRecord.
Record RevocationRecord : Set := mk {
  grant : GrantId; at_seq : AuditSeq; at_time : Timestamp; by_tenant : TenantId }.
End RevocationRecord.
Abbreviation RevocationRecord := RevocationRecord.RevocationRecord.
Definition to_revocation (r : RevocationRecord) : Revocation :=
  Revocation.mk (RevocationRecord.grant r) (RevocationRecord.at_seq r) (RevocationRecord.at_time r).

(** [SessionRecord]. *)
Module SessionRecord.
Record SessionRecord : Set := mk {
  id : SessionId;
  owner : TenantId;
  parent : option SessionId;
  ceilings : Ceilings;
  created_at : Timestamp;
}.
End SessionRecord.
Abbreviation SessionRecord := SessionRecord.SessionRecord.

(** [LedgerRef] and [LedgerRef::from_ledger_id]. *)
Module LedgerRef.
Inductive LedgerRef : Set :=
| Grant (grant : GrantId)
| Session (session : SessionId)
| Tenant (tenant : TenantId).
#[global] Instance LedgerRef_eq_dec : EqDecision LedgerRef.
Proof. solve_decision. Defined.
#[global] Instance LedgerRef_countable : Countable LedgerRef.
Proof.
  refine (inj_countable'
    (fun l => match l with Grant g => inl g | Session s => inr (inl s) | Tenant t => inr (inr t) end)
    (fun x => match x with inl g => Grant g | inr (inl s) => Session s | inr (inr t) => Tenant t end) _).
  by intros [].
Defined.
End LedgerRef.
Abbreviation LedgerRef := LedgerRef.LedgerRef.
Definition from_ledger_id (id : LedgerId) : option LedgerRef :=
  match id with
  | LedgerId.Grant grant => Some (LedgerRef.Grant grant)
  | LedgerId.Session session => Some (LedgerRef.Session session)
  | LedgerId.Tenant tenant => Some (LedgerRef.Tenant tenant)
  end.

(** [LedgerRecord]: settled consumption plus unsettled reservations. *)
Module LedgerRecord.
Record LedgerRecord : Set := mk { used : Cost }.
End LedgerRecord.
Abbreviation LedgerRecord := LedgerRecord.LedgerRecord.

(** [InvocationRecord]. *)
Module InvocationRecord.
Record InvocationRecord : Set := mk {
  id : InvocationId;
  tenant : TenantId;
  capability : Capability;
  session : option SessionId;
  grant_chain : list GrantId;
  ledgers : list LedgerRef;
  reserved : Cost;
  state : InvocationState;
  terminal : option Terminal;
  actual : option Cost;
  debited : option Cost;
  artifact : option ArtifactRef;
  revoked_after_effect : bool;
  created_at : Timestamp;
  updated_at : Timestamp;
}.
End InvocationRecord.
Abbreviation InvocationRecord := InvocationRecord.InvocationRecord.

(** [IdemRecord]. *)
Module IdemRecord.
Record IdemRecord : Set := mk { invocation : InvocationId; request_binding : bytes }.
End IdemRecord.
Abbreviation IdemRecord := IdemRecord.IdemRecord.

(** [ArtifactRecord]. *)
Module ArtifactRecord.
Record ArtifactRecord : Set := mk {
  artifact : ArtifactRef;
  invocation : InvocationId;
  tenant : TenantId;
  session : option SessionId;
  grant_chain : list GrantId;
  reservation : InvocationId;
  classification : option str;
  lineage : option ArtifactRef;
  provenance_digest : bytes;
  blob_address : bytes;
  blob_len : Z;
  source : SourceRef;
  text_view : option str;
  truncated : bool;
  output_bytes : Z;
  revoked_after_effect : bool;
  published_at : option Timestamp;
}.
End ArtifactRecord.
Abbreviation ArtifactRecord := ArtifactRecord.ArtifactRecord.

(** [LocatorRecord]. *)
Module LocatorRecord.
Record LocatorRecord : Set := mk { artifact : ArtifactRef; owner : TenantId; session : option SessionId }.
End LocatorRecord.
Abbreviation LocatorRecord := LocatorRecord.LocatorRecord.

(** [SessionIndexRecord]. *)
Module SessionIndexRecord.
Record SessionIndexRecord : Set := mk {
  artifact : ArtifactRef; captured_by : TenantId; published_at : Timestamp }.
End SessionIndexRecord.
Abbreviation SessionIndexRecord := SessionIndexRecord.SessionIndexRecord.

(** [AuditEntryRecord]. *)
Module AuditEntryRecord.
Record AuditEntryRecord : Set := mk {
  seq : AuditSeq;
  time : Timestamp;
  tenant : TenantId;
  session : option SessionId;
  invocation : InvocationId;
  capability : Capability;
  state : InvocationState;
  outcome : OutcomeKind;
  release_reason : option ReleaseReason;
  grant : option GrantId;
  audit_scope : option AuditScope;
}.
End AuditEntryRecord.
Abbreviation AuditEntryRecord := AuditEntryRecord.AuditEntryRecord.

(** [AuditStubRecord]: carries no tenant. *)
Module AuditStubRecord.
Record AuditStubRecord : Set := mk {
  seq : AuditSeq; invocation : InvocationId; capability : Capability;
  outcome : OutcomeKind; time : Timestamp }.
End AuditStubRecord.
Abbreviation AuditStubRecord := AuditStubRecord.AuditStubRecord.

(** [RekeyRecord]. *)
Module RekeyRecord.
Record RekeyRecord : Set := mk {
  tenant : TenantId;
  from_key_id : Z;
  to_key_id : Z;
  keyspace : Z;
  cursor : option bytes;
  visited : Z;
  resealed : Z;
  total : Z;
  is_done : bool;
  started_at : Timestamp;
  finished_at : option Timestamp;
}.
End RekeyRecord.
Abbreviation RekeyRecord := RekeyRecord.RekeyRecord.

(** [TombstoneRecord]. *)
Module TombstoneRecord.
Record TombstoneRecord : Set := mk { tenant : TenantId; shredded_at : Timestamp }.
End TombstoneRecord.
Abbreviation TombstoneRecord := TombstoneRecord.TombstoneRecord.

(** ** Properties *)

(** Grant storage round trip: a grant stored with the target patterns its
    scope parses from is read back as the same grant, and a record that does
    not parse back is refused with the parser's error. *)
Theorem grant_record_roundtrip {V} (grant : Grant) (patterns : list str) :
  scope_parse (V := V) patterns = Ok (Grant.target_scope grant) ->
  to_grant (V := V) (from_grant grant patterns) = Ok grant.
Proof.
  intros Hp. unfold to_grant, from_grant. cbn [GrantRecord.target_patterns]. rewrite Hp.
  cbn -[elements list_to_set]. rewrite list_to_set_elements_L. by destruct grant.
Qed.

(** The ending an invocation records and the reply a replay of it
    reports agree: the recorded state is terminal, the release reason is
    present exactly for a release, the reply is a success exactly when the
    call settled without a failure, and every failure reported for a release
    or an unknown effect is well formed. *)
Theorem terminal_reply_consistent (t : Terminal) :
  is_terminal (terminal_state t) = true /\
  (is_Some (terminal_release_reason t) <-> terminal_state t = InvocationState.Released) /\
  (terminal_outcome t = OutcomeKind.Success <-> t = Terminal.Settled None) /\
  (forall f, terminal_reply_failure t = Some f ->
     terminal_state t <> InvocationState.Settled -> is_well_formed f = true) /\
  (forall reason, t = Terminal.Released reason ->
     terminal_outcome t <> OutcomeKind.Success /\ terminal_outcome t <> OutcomeKind.UnknownEffect).
Proof.
  destruct t as [[f|]|reason|]; cbn; repeat split; try done; try naive_solver.
  all: try (by destruct f). all: try (by destruct reason).
  intros f [= <-] _. by destruct reason.
Qed.
