(* ===== verification/Store.v ===== *)
(** * The custody store: state, transactions, views and keyrings
    ([phylake::store], [store::failpoint], [store::view], [store::keyring])

    [Db] holds one finite map per record slot, keyed by the logical
    components of the physical key. The physical key of a record is a keyed
    hash of exactly these components ([RecordKey] shows that distinct slots
    give distinct hash inputs), and its value is the sealed record ([Seal]
    models the format and shows that it opens only where it was sealed). A store-sealed record opens under the store's own key, which
    is always at hand; a tenant-sealed record carries the id of the tenant
    data key it was sealed under and opens only when that id is among the
    openers offered. The database's own I/O failures are not modelled. *)
From S2P Require Import Prelude Vocab Ids Payload Epitrope Origin View Lifecycle Records.
Local Open Scope Z_scope.

(** ** Boundaries and failpoints *)

Module Boundary.
Inductive Boundary : Set :=
| PersistIntent | Dispatch | CompleteTransfer | Publish | Terminal
| RekeyBegin | RekeyBatch | RekeyRetire | RootRotation.
End Boundary.
Abbreviation Boundary := Boundary.Boundary.
Module Phase.
Inductive Phase : Set := BeforeCommit | AfterCommit.
End Phase.
Abbreviation Phase := Phase.Phase.

(** The [Failpoint] trait: whether the hook crashes at a boundary. *)
Module Failpoint.
Record Failpoint : Set := mk { before_commit : Boundary -> bool; after_commit : Boundary -> bool }.
End Failpoint.
Abbreviation Failpoint := Failpoint.Failpoint.
Definition NoFailpoints : Failpoint := Failpoint.mk (fun _ => false) (fun _ => false).

(** ** Errors ([phylake::error], the variants store operations raise) *)
Module StoreError.
Inductive StoreError : Type :=
| Entropy
| KeyMaterial (purpose : string)
| PlaintextTooLarge (len : Z)
| AadComponentTooLong (component : string) (len : Z)
| Malformed (what : string) (len : Z)
| UnsupportedRecordVersion (found : Z)
| UnknownKeyId (found : Z)
| Open (keyspace : str)
| TenantKeyUnwrap
| Inconsistent (what : string)
| Authz (source : Error StoreError)
| SettleMismatch (state : InvocationState)
| InvocationMissing (invocation : InvocationId)
| TenantMissing (tenant : TenantId)
| TenantShredded (tenant : TenantId)
| TenantBusy (tenant : TenantId)
| RekeyInProgress (tenant : TenantId)
| RekeyNotInProgress (tenant : TenantId)
| Conflict (what : string)
| InjectedCrash (boundary : Boundary) (phase : Phase)
(* raised when a store is created, opened, rotated or compacted; the paths
   the source reports are left out *)
| StoreLocked
| Database
| StoreIo
| StoreExists
| StoreMissing (missing : str)
| MetaMalformed (field : str)
| SchemaTooNew (found supported : Z)
| MigrationRequired (found supported : Z)
| Encode
| Decode (keyspace : str)
| StorePathUnnamed
| StoreInUse
| ExchangeUnsupported
(* raised for the root key's file *)
| RootKeyMissing
| RootKeyIo
| RootKeySymlink
| RootKeyOwner (owner euid : Z)
| RootKeyNotFile
| RootKeyPermissions (mode : Z)
| RootKeyLength (found : Z)
| RootKeyExists.
End StoreError.
Abbreviation StoreError := StoreError.StoreError.
(** [.context(AuthzSnafu)]. *)
Abbreviation authz_context := (map_err StoreError.Authz) (only parsing).

(** ** State *)

(** A value sealed under the tenant data key [key_id]. *)
Module Sealed.
Record Sealed (A : Type) : Type := mk { key_id : Z; plain : A }.
Arguments mk {A}. Arguments key_id {A}. Arguments plain {A}.
End Sealed.
Abbreviation Sealed := Sealed.Sealed.

(** [open]: picks the key the header names among [keys]. *)
Definition open_sealed {A} (keys : list Z) (s : Sealed A) : result StoreError A :=
  if bool_decide (Sealed.key_id s ∈ keys) then Ok (Sealed.plain s)
  else Err (StoreError.UnknownKeyId (Sealed.key_id s)).
(** [Store::get] of a tenant-sealed record. *)
Definition get_sealed {A} (keys : list Z) (s : option (Sealed A)) : result StoreError (option A) :=
  match s with
  | None => Ok None
  | Some s => a ← open_sealed keys s; Ok (Some a)
  end.

Module Db.
Record Db : Type := mk {
  tenants : gmap TenantId TenantRecord;
  tombstones : gmap TenantId TombstoneRecord;
  data_keys : gset (TenantId * Z);
  address_keys : gset TenantId;
  grants : gmap GrantId GrantRecord;
  revocations : gmap GrantId RevocationRecord;
  sessions : gmap SessionId SessionRecord;
  invocations : gmap InvocationId InvocationRecord;
  idem : gmap (TenantId * Capability * IdempotencyKey) (Sealed IdemRecord);
  ledgers : gmap LedgerRef LedgerRecord;
  artifacts : gmap (TenantId * ArtifactRef) (Sealed ArtifactRecord);
  pending : gmap (TenantId * InvocationId) (Sealed ArtifactRecord);
  locators : gmap ArtifactRef LocatorRecord;
  blobs : gmap (TenantId * bytes) (Sealed bytes);
  session_index : gmap (TenantId * SessionId * ArtifactRef) (Sealed SessionIndexRecord);
  audit : gmap (TenantId * AuditSeq) (Sealed AuditEntryRecord);
  audit_stub : gmap AuditSeq AuditStubRecord;
  rekey : gmap TenantId RekeyRecord;
}.
End Db.
Abbreviation Db := Db.Db.

(** The keyspaces of a store just created. *)
Definition empty_db : Db := Db.mk ∅ ∅ ∅ ∅ ∅ ∅ ∅ ∅ ∅ ∅ ∅ ∅ ∅ ∅ ∅ ∅ ∅ ∅.

(** Functional update of one keyspace. *)
Definition set_tenants f (db : Db) : Db :=
  Db.mk (f (Db.tenants db)) (Db.tombstones db) (Db.data_keys db) (Db.address_keys db) (Db.grants db)
    (Db.revocations db) (Db.sessions db) (Db.invocations db) (Db.idem db) (Db.ledgers db) (Db.artifacts db)
    (Db.pending db) (Db.locators db) (Db.blobs db) (Db.session_index db) (Db.audit db) (Db.audit_stub db)
    (Db.rekey db).
Definition set_tombstones f (db : Db) : Db :=
  Db.mk (Db.tenants db) (f (Db.tombstones db)) (Db.data_keys db) (Db.address_keys db) (Db.grants db)
    (Db.revocations db) (Db.sessions db) (Db.invocations db) (Db.idem db) (Db.ledgers db) (Db.artifacts db)
    (Db.pending db) (Db.locators db) (Db.blobs db) (Db.session_index db) (Db.audit db) (Db.audit_stub db)
    (Db.rekey db).
Definition set_data_keys f (db : Db) : Db :=
  Db.mk (Db.tenants db) (Db.tombstones db) (f (Db.data_keys db)) (Db.address_keys db) (Db.grants db)
    (Db.revocations db) (Db.sessions db) (Db.invocations db) (Db.idem db) (Db.ledgers db) (Db.artifacts db)
    (Db.pending db) (Db.locators db) (Db.blobs db) (Db.session_index db) (Db.audit db) (Db.audit_stub db)
    (Db.rekey db).
Definition set_address_keys f (db : Db) : Db :=
  Db.mk (Db.tenants db) (Db.tombstones db) (Db.data_keys db) (f (Db.address_keys db)) (Db.grants db)
    (Db.revocations db) (Db.sessions db) (Db.invocations db) (Db.idem db) (Db.ledgers db) (Db.artifacts db)
    (Db.pending db) (Db.locators db) (Db.blobs db) (Db.session_index db) (Db.audit db) (Db.audit_stub db)
    (Db.rekey db).
Definition set_grants f (db : Db) : Db :=
  Db.mk (Db.tenants db) (Db.tombstones db) (Db.data_keys db) (Db.address_keys db) (f (Db.grants db))
    (Db.revocations db) (Db.sessions db) (Db.invocations db) (Db.idem db) (Db.ledgers db) (Db.artifacts db)
    (Db.pending db) (Db.locators db) (Db.blobs db) (Db.session_index db) (Db.audit db) (Db.audit_stub db)
    (Db.rekey db).
Definition set_revocations f (db : Db) : Db :=
  Db.mk (Db.tenants db) (Db.tombstones db) (Db.data_keys db) (Db.address_keys db) (Db.grants db) (f
    (Db.revocations db)) (Db.sessions db) (Db.invocations db) (Db.idem db) (Db.ledgers db) (Db.artifacts db)
    (Db.pending db) (Db.locators db) (Db.blobs db) (Db.session_index db) (Db.audit db) (Db.audit_stub db)
    (Db.rekey db).
Definition set_sessions f (db : Db) : Db :=
  Db.mk (Db.tenants db) (Db.tombstones db) (Db.data_keys db) (Db.address_keys db) (Db.grants db)
    (Db.revocations db) (f (Db.sessions db)) (Db.invocations db) (Db.idem db) (Db.ledgers db) (Db.artifacts
    db) (Db.pending db) (Db.locators db) (Db.blobs db) (Db.session_index db) (Db.audit db) (Db.audit_stub
    db) (Db.rekey db).
Definition set_invocations f (db : Db) : Db :=
  Db.mk (Db.tenants db) (Db.tombstones db) (Db.data_keys db) (Db.address_keys db) (Db.grants db)
    (Db.revocations db) (Db.sessions db) (f (Db.invocations db)) (Db.idem db) (Db.ledgers db) (Db.artifacts
    db) (Db.pending db) (Db.locators db) (Db.blobs db) (Db.session_index db) (Db.audit db) (Db.audit_stub
    db) (Db.rekey db).
Definition set_idem f (db : Db) : Db :=
  Db.mk (Db.tenants db) (Db.tombstones db) (Db.data_keys db) (Db.address_keys db) (Db.grants db)
    (Db.revocations db) (Db.sessions db) (Db.invocations db) (f (Db.idem db)) (Db.ledgers db) (Db.artifacts
    db) (Db.pending db) (Db.locators db) (Db.blobs db) (Db.session_index db) (Db.audit db) (Db.audit_stub
    db) (Db.rekey db).
Definition set_ledgers f (db : Db) : Db :=
  Db.mk (Db.tenants db) (Db.tombstones db) (Db.data_keys db) (Db.address_keys db) (Db.grants db)
    (Db.revocations db) (Db.sessions db) (Db.invocations db) (Db.idem db) (f (Db.ledgers db)) (Db.artifacts
    db) (Db.pending db) (Db.locators db) (Db.blobs db) (Db.session_index db) (Db.audit db) (Db.audit_stub
    db) (Db.rekey db).
Definition set_artifacts f (db : Db) : Db :=
  Db.mk (Db.tenants db) (Db.tombstones db) (Db.data_keys db) (Db.address_keys db) (Db.grants db)
    (Db.revocations db) (Db.sessions db) (Db.invocations db) (Db.idem db) (Db.ledgers db) (f (Db.artifacts
    db)) (Db.pending db) (Db.locators db) (Db.blobs db) (Db.session_index db) (Db.audit db) (Db.audit_stub
    db) (Db.rekey db).
Definition set_pending f (db : Db) : Db :=
  Db.mk (Db.tenants db) (Db.tombstones db) (Db.data_keys db) (Db.address_keys db) (Db.grants db)
    (Db.revocations db) (Db.sessions db) (Db.invocations db) (Db.idem db) (Db.ledgers db) (Db.artifacts db)
    (f (Db.pending db)) (Db.locators db) (Db.blobs db) (Db.session_index db) (Db.audit db) (Db.audit_stub
    db) (Db.rekey db).
Definition set_locators f (db : Db) : Db :=
  Db.mk (Db.tenants db) (Db.tombstones db) (Db.data_keys db) (Db.address_keys db) (Db.grants db)
    (Db.revocations db) (Db.sessions db) (Db.invocations db) (Db.idem db) (Db.ledgers db) (Db.artifacts db)
    (Db.pending db) (f (Db.locators db)) (Db.blobs db) (Db.session_index db) (Db.audit db) (Db.audit_stub
    db) (Db.rekey db).
Definition set_blobs f (db : Db) : Db :=
  Db.mk (Db.tenants db) (Db.tombstones db) (Db.data_keys db) (Db.address_keys db) (Db.grants db)
    (Db.revocations db) (Db.sessions db) (Db.invocations db) (Db.idem db) (Db.ledgers db) (Db.artifacts db)
    (Db.pending db) (Db.locators db) (f (Db.blobs db)) (Db.session_index db) (Db.audit db) (Db.audit_stub
    db) (Db.rekey db).
Definition set_session_index f (db : Db) : Db :=
  Db.mk (Db.tenants db) (Db.tombstones db) (Db.data_keys db) (Db.address_keys db) (Db.grants db)
    (Db.revocations db) (Db.sessions db) (Db.invocations db) (Db.idem db) (Db.ledgers db) (Db.artifacts db)
    (Db.pending db) (Db.locators db) (Db.blobs db) (f (Db.session_index db)) (Db.audit db) (Db.audit_stub
    db) (Db.rekey db).
Definition set_audit f (db : Db) : Db :=
  Db.mk (Db.tenants db) (Db.tombstones db) (Db.data_keys db) (Db.address_keys db) (Db.grants db)
    (Db.revocations db) (Db.sessions db) (Db.invocations db) (Db.idem db) (Db.ledgers db) (Db.artifacts db)
    (Db.pending db) (Db.locators db) (Db.blobs db) (Db.session_index db) (f (Db.audit db)) (Db.audit_stub
    db) (Db.rekey db).
Definition set_audit_stub f (db : Db) : Db :=
  Db.mk (Db.tenants db) (Db.tombstones db) (Db.data_keys db) (Db.address_keys db) (Db.grants db)
    (Db.revocations db) (Db.sessions db) (Db.invocations db) (Db.idem db) (Db.ledgers db) (Db.artifacts db)
    (Db.pending db) (Db.locators db) (Db.blobs db) (Db.session_index db) (Db.audit db) (f (Db.audit_stub
    db)) (Db.rekey db).
Definition set_rekey f (db : Db) : Db :=
  Db.mk (Db.tenants db) (Db.tombstones db) (Db.data_keys db) (Db.address_keys db) (Db.grants db)
    (Db.revocations db) (Db.sessions db) (Db.invocations db) (Db.idem db) (Db.ledgers db) (Db.artifacts db)
    (Db.pending db) (Db.locators db) (Db.blobs db) (Db.session_index db) (Db.audit db) (Db.audit_stub db) (f
    (Db.rekey db)).

(** ** The tenant-sealed keyspaces *)

(** A record of one of the keyspaces a data-key rotation walks; the locators
    share the artifacts' keyspace and are sealed under the store's key. *)
Module WalkKey.
Inductive WalkKey : Set :=
| Idem (slot : TenantId * Capability * IdempotencyKey)
| Artifact (slot : TenantId * ArtifactRef)
| Pending (slot : TenantId * InvocationId)
| Locator (slot : ArtifactRef)
| Blob (slot : TenantId * bytes)
| SessionIndex (slot : TenantId * SessionId * ArtifactRef)
| Audit (slot : TenantId * AuditSeq).
End WalkKey.
Abbreviation WalkKey := WalkKey.WalkKey.
(** The tenant whose data key seals the record. *)
Definition walk_owner (k : WalkKey) : option TenantId :=
  match k with
  | WalkKey.Idem (t, _, _) | WalkKey.Artifact (t, _) | WalkKey.Pending (t, _) | WalkKey.Blob (t, _)
  | WalkKey.SessionIndex (t, _, _) | WalkKey.Audit (t, _) => Some t
  | WalkKey.Locator _ => None
  end.
(** The position of the record's keyspace in the walk. *)
Definition walk_step (k : WalkKey) : Z :=
  match k with
  | WalkKey.Idem _ => 0
  | WalkKey.Artifact _ | WalkKey.Pending _ | WalkKey.Locator _ => 1
  | WalkKey.Blob _ => 2
  | WalkKey.SessionIndex _ => 3
  | WalkKey.Audit _ => 4
  end.

(** ** Transactions *)

(** How an operation leaves its write transaction: dropped, or committed at
    a boundary. *)
Inductive Finish (A : Type) : Type :=
| Dropped (a : A)
| Committed (boundary : option Boundary) (a : A) (db : Db).
Arguments Dropped {A}. Arguments Committed {A}.

(** [Store::commit]: the store after it, and the caller's result. *)
Definition commit {S A} (fp : Failpoint) (old new : S) (boundary : option Boundary) (a : A)
    : result StoreError A * S :=
  match boundary with
  | Some boundary =>
      if Failpoint.before_commit fp boundary
      then (Err (StoreError.InjectedCrash boundary Phase.BeforeCommit), old)
      else if Failpoint.after_commit fp boundary
      then (Err (StoreError.InjectedCrash boundary Phase.AfterCommit), new)
      else (Ok a, new)
  | None => (Ok a, new)
  end.

(** One operation: an error or a dropped transaction writes nothing. *)
Definition with_tx {A} (fp : Failpoint) (db : Db) (body : result StoreError (Finish A))
    : result StoreError A * Db :=
  match body with
  | Err e => (Err e, db)
  | Ok (Dropped a) => (Ok a, db)
  | Ok (Committed boundary a db') => commit fp db db' boundary a
  end.

(** ** The view *)

Definition view_ledger (db : Db) (id : LedgerRef) : Cost :=
  match Db.ledgers db !! id with Some record => LedgerRecord.used record | None => cost_default end.

Definition grant_of_record (record : option GrantRecord) : result StoreError (option Grant) :=
  match record with
  | Some record => grant ← authz_context (to_grant record); Ok (Some grant)
  | None => Ok None
  end.
#[global] Instance Db_GrantView : GrantView Db StoreError := {|
  view_grant db id := grant_of_record (Db.grants db !! id);
  view_revocation db id := Ok (to_revocation <$> Db.revocations db !! id);
  view_session_owner db id := Ok (SessionRecord.owner <$> Db.sessions db !! id);
  view_tenant_parent db id := Ok (Db.tenants db !! id ≫= TenantRecord.parent);
|}.
#[global] Instance Db_LedgerView : LedgerView Db StoreError := {|
  view_used db id :=
    ledger ← ok_or (from_ledger_id id) (StoreError.Inconsistent "ledger kind has no stored form");
    Ok (view_ledger db ledger);
  view_session_ceilings db id :=
    Ok (match Db.sessions db !! id with
        | Some record => SessionRecord.ceilings record | None => ceilings_default end);
  view_tenant_ceilings db id :=
    Ok (match Db.tenants db !! id with
        | Some record => TenantRecord.ceilings record | None => ceilings_default end);
|}.

(** [TenantEntry] and the [TenantDirectory] lookup of the handshake. *)
Module TenantEntry.
Record TenantEntry : Set := mk {
  id : TenantId; class : TenantClass; verifying_key : bytes; bound_uids : list Z;
  parent : option TenantId }.
End TenantEntry.
Abbreviation TenantEntry := TenantEntry.TenantEntry.
Definition directory_tenant (db : Db) (id : TenantId) : option TenantEntry :=
  (fun r => TenantEntry.mk (TenantRecord.id r) (TenantRecord.class r) (TenantRecord.verifying_key r)
              (TenantRecord.bound_uids r) (TenantRecord.parent r)) <$> Db.tenants db !! id.

(** ** Keyrings *)

Definition INITIAL_DATA_KEY_ID : Z := 1.

(** [TenantKeyring]: the active data key's id and, mid-rotation, the
    retiring one's. *)
Module TenantKeyring.
Record TenantKeyring : Set := mk { key_id : Z; retiring_id : option Z }.
End TenantKeyring.
Abbreviation TenantKeyring := TenantKeyring.TenantKeyring.
(** [openers]: the active key and the retiring one, or the active key twice. *)
Definition openers (k : TenantKeyring) : list Z :=
  [TenantKeyring.key_id k; default (TenantKeyring.key_id k) (TenantKeyring.retiring_id k)].
(** [Store::put] of a tenant-sealed record: under the active key only. *)
Definition seal_active {A} (k : TenantKeyring) (a : A) : Sealed A :=
  Sealed.mk (TenantKeyring.key_id k) a.

Definition rekey_retiring (db : Db) (tenant : TenantId) : option Z :=
  match Db.rekey db !! tenant with
  | Some rekey => if RekeyRecord.is_done rekey then None else Some (RekeyRecord.from_key_id rekey)
  | None => None
  end.
Definition key_ids (db : Db) (tenant : TenantId) : option (Z * option Z) :=
  match Db.tenants db !! tenant with
  | Some record => Some (TenantRecord.data_key_id record, rekey_retiring db tenant)
  | None => None
  end.
Definition absent_tenant (db : Db) (tenant : TenantId) : StoreError :=
  match Db.tombstones db !! tenant with
  | Some _ => StoreError.TenantShredded tenant
  | None => StoreError.TenantMissing tenant
  end.
(** [load_keyring]: the wrapped keys it needs must be stored. *)
Definition load_keyring (db : Db) (tenant : TenantId) (active : Z) (retiring : option Z)
    : result StoreError TenantKeyring :=
  _ ← ensure (bool_decide ((tenant, active) ∈ Db.data_keys db))
        (StoreError.Inconsistent "tenant data key is missing");
  _ ← ensure (bool_decide (tenant ∈ Db.address_keys db) || (active =? INITIAL_DATA_KEY_ID))
        (StoreError.Inconsistent "rotated tenant has no addressing subkeys");
  _ ← match retiring with
      | Some id => ensure (bool_decide ((tenant, id) ∈ Db.data_keys db))
                     (StoreError.Inconsistent "retiring tenant data key is missing")
      | None => Ok tt
      end;
  Ok (TenantKeyring.mk active retiring).
(** [tenant_keys]. The in-memory cache is consulted only when its ids match
    what the reader sees, so it returns what loading returns. *)
Definition tenant_keys (db : Db) (tenant : TenantId) : result StoreError TenantKeyring :=
  match key_ids db tenant with
  | None => Err (absent_tenant db tenant)
  | Some (active, retiring) => load_keyring db tenant active retiring
  end.
Definition live_tenant_keys (db : Db) (tenant : TenantId) : result StoreError (option TenantKeyring) :=
  match tenant_keys db tenant with
  | Ok keys => Ok (Some keys)
  | Err (StoreError.TenantShredded _) => Ok None
  | Err e => Err e
  end.

(** [session_owner_shredded] (shred.rs). *)
Definition session_owner_shredded (db : Db) (session : option SessionId) : bool :=
  match session with
  | None => false
  | Some session =>
      match Db.sessions db !! session with
      | Some record => bool_decide (is_Some (Db.tombstones db !! SessionRecord.owner record))
      | None => false
      end
  end.
