(* ===== verification/Seal.v ===== *)
(** * Sealed values and wrapped keys ([phylake::crypto::seal], [crypto::wrap])

    The cipher is a parameter: [Aead] is what the code calls of the
    XChaCha20-Poly1305 crate, [AeadLaws] what the crate documents. Random
    nonces are an argument, drawn by the caller. *)
From S2P Require Import Prelude Vocab Ids Epitrope Store.
Local Open Scope Z_scope.

(** ** The keyspaces ([crypto::Keyspace]) *)
Module Keyspace.
Inductive Keyspace : Set :=
| Meta | Keys | Tenants | Grants | Revocations | Sessions | Invocations | Idem | Ledgers
| Artifacts | Blobs | SessionIndex | Audit | AuditStub | Rekey.
#[global] Instance Keyspace_eq_dec : EqDecision Keyspace.
Proof. solve_decision. Defined.
Definition name (k : Keyspace) : str :=
  lit match k with
      | Meta => "meta" | Keys => "keys" | Tenants => "tenants" | Grants => "grants"
      | Revocations => "revocations" | Sessions => "sessions" | Invocations => "invocations"
      | Idem => "idem" | Ledgers => "ledgers" | Artifacts => "artifacts" | Blobs => "blobs"
      | SessionIndex => "session_index" | Audit => "audit" | AuditStub => "audit_stub"
      | Rekey => "rekey"
      end.
End Keyspace.
Abbreviation Keyspace := Keyspace.Keyspace.

(** ** The cipher *)
Class Aead : Type := {
  aead_encrypt : bytes -> bytes -> bytes -> bytes -> option bytes;
  aead_decrypt : bytes -> bytes -> bytes -> bytes -> option bytes;
}.

Definition KEY_LEN : nat := 32.
Definition TENANT_ID_LEN : nat := 16.
Definition NONCE_LEN : nat := 24.
Definition TAG_LEN : nat := 16.

(** Correctness: a ciphertext is one tag longer than its message and decrypts
    to it under the same key, nonce and additional data. *)
Class AeadLaws `{Aead} : Prop := {
  aead_correct k n a m c : aead_encrypt k n a m = Some c ->
    aead_decrypt k n a c = Some m /\ length c = (length m + TAG_LEN)%nat;
}.

(** A ciphertext made under additional data [a] that the cipher also accepts
    under other additional data [a']: what authentication makes infeasible. *)
Definition accepted_elsewhere `{Aead} (k n a a' m m' : bytes) : Prop :=
  a' <> a /\ exists c, aead_encrypt k n a m = Some c /\ aead_decrypt k n a' c = Some m'.

(** ** [SealingKey] and [SealContext] *)
Module SealingKey.
Record SealingKey : Set := mk { id : Z; key : bytes }.
End SealingKey.
Abbreviation SealingKey := SealingKey.SealingKey.
Module SealContext.
Record SealContext : Set := mk {
  schema_version : Z; keyspace : Keyspace; kind : Z; record_key : bytes }.
End SealContext.
Abbreviation SealContext := SealContext.SealContext.

Definition SEALED_RECORD_VERSION : Z := 1.
Definition SEALED_HEADER_LEN : nat := 2 + 4 + NONCE_LEN.
Definition MIN_SEALED_LEN : nat := SEALED_HEADER_LEN + TAG_LEN.
Definition MAX_PLAINTEXT_LEN : Z := 64 * 1024 * 1024.
Definition AAD_LABEL : bytes := lit "dioptron/v1".

(** [push_prefixed]. *)
Definition push_prefixed (out : bytes) (component : string) (b : bytes) : result StoreError bytes :=
  _ ← ensure (Z.of_nat (length b) <=? u16_max)
        (StoreError.AadComponentTooLong component (Z.of_nat (length b)));
  Ok (out ++ to_le_bytes 2 (Z.of_nat (length b)) ++ b).

(** [SealContext::aad]. *)
Definition aad (ctx : SealContext) (key_id : Z) : result StoreError bytes :=
  let out := AAD_LABEL ++ to_le_bytes 4 (SealContext.schema_version ctx)
             ++ [z2b (SealContext.kind ctx)] ++ to_le_bytes 4 key_id in
  out ← push_prefixed out "keyspace name" (Keyspace.name (SealContext.keyspace ctx));
  push_prefixed out "record key" (SealContext.record_key ctx).

(** [split_first_chunk]. *)
Definition split_first_chunk (n : nat) (b : bytes) : option (bytes * bytes) :=
  if Nat.leb n (length b) then Some (take n b, drop n b) else None.

Definition check_plaintext_len (len : nat) : result StoreError unit :=
  ensure (Z.of_nat len <=? MAX_PLAINTEXT_LEN) (StoreError.PlaintextTooLarge (Z.of_nat len)).

Section seal.
Context `{Aead}.

(** [encrypt]: the cipher rejects its input only when it is too long. *)
Definition encrypt (key nonce a plaintext : bytes) : result StoreError bytes :=
  ok_or (aead_encrypt key nonce a plaintext) (StoreError.KeyMaterial "xchacha20poly1305 encrypt").

(** [seal_with], the entropy drawn being [nonce] ([None] when it fails). *)
Definition seal_with (key : SealingKey) (ctx : SealContext) (plaintext : bytes) (nonce : option bytes)
    : result StoreError bytes :=
  _ ← check_plaintext_len (length plaintext);
  a ← aad ctx (SealingKey.id key);
  nonce ← ok_or nonce StoreError.Entropy;
  ct ← encrypt (SealingKey.key key) nonce a plaintext;
  Ok (to_le_bytes 2 SEALED_RECORD_VERSION ++ to_le_bytes 4 (SealingKey.id key) ++ nonce ++ ct).

(** [open]. *)
Definition open (keys : list SealingKey) (ctx : SealContext) (sealed : bytes) : result StoreError bytes :=
  let malformed := StoreError.Malformed "sealed value" (Z.of_nat (length sealed)) in
  _ ← ensure (Nat.leb MIN_SEALED_LEN (length sealed)) malformed;
  '(version, rest) ← ok_or (split_first_chunk 2 sealed) malformed;
  '(key_id, rest) ← ok_or (split_first_chunk 4 rest) malformed;
  '(nonce, ct) ← ok_or (split_first_chunk NONCE_LEN rest) malformed;
  let version := from_le_bytes version in
  _ ← ensure (version =? SEALED_RECORD_VERSION) (StoreError.UnsupportedRecordVersion version);
  let key_id := from_le_bytes key_id in
  key ← ok_or (List.find (fun k => SealingKey.id k =? key_id) keys) (StoreError.UnknownKeyId key_id);
  a ← aad ctx key_id;
  ok_or (aead_decrypt (SealingKey.key key) nonce a ct)
    (StoreError.Open (Keyspace.name (SealContext.keyspace ctx))).

(** [sealed_key_id]. *)
Definition sealed_key_id (sealed : bytes) : option Z :=
  '(_, rest) ← split_first_chunk 2 sealed;
  '(key_id, _) ← split_first_chunk 4 rest;
  Some (from_le_bytes key_id).
End seal.

(** ** Wrapped keys ([crypto::wrap]) *)

Definition WRAPPED_KEY_VERSION : Z := 1.
Definition WRAPPED_KEY_LEN : nat := 2 + 4 + 4 + NONCE_LEN + KEY_LEN + TAG_LEN.
Definition WRAP_LABEL : bytes := lit "dioptron/v1/wrap".
Definition WRAPPED_ADDRESS_VERSION : Z := 1.
Definition WRAPPED_ADDRESS_LEN : nat := 2 + 4 + NONCE_LEN + 2 * KEY_LEN + TAG_LEN.
Definition ADDRESS_WRAP_LABEL : bytes := lit "dioptron/v1/wrap-address".

Definition address_aad (kek_id : Z) (tenant_id : bytes) : bytes :=
  ADDRESS_WRAP_LABEL ++ to_le_bytes 4 kek_id ++ tenant_id.
Definition wrap_aad (kek_id data_key_id : Z) (tenant_id : bytes) : bytes :=
  WRAP_LABEL ++ to_le_bytes 4 kek_id ++ to_le_bytes 4 data_key_id ++ tenant_id.

(** The parts of [StoreKeys] that wrapping uses, [TenantDataKey] and
    [AddressKeys]. *)
Module StoreKek.
Record StoreKek : Set := mk { root_key_id : Z; kek : bytes }.
End StoreKek.
Abbreviation StoreKek := StoreKek.StoreKek.
Module TenantDataKey.
Record TenantDataKey : Set := mk { id : Z; bytes_ : bytes }.
End TenantDataKey.
Abbreviation TenantDataKey := TenantDataKey.TenantDataKey.
Module AddressKeys.
Record AddressKeys : Set := mk { index : bytes; blob_addr : bytes }.
End AddressKeys.
Abbreviation AddressKeys := AddressKeys.AddressKeys.

Section wrap.
Context `{Aead}.

(** [wrap_tenant_key_with]. *)
Definition wrap_tenant_key_with (store : StoreKek) (tenant_id : bytes) (key : TenantDataKey)
    (nonce : option bytes) : result StoreError bytes :=
  let kek_id := StoreKek.root_key_id store in
  nonce ← ok_or nonce StoreError.Entropy;
  let a := wrap_aad kek_id (TenantDataKey.id key) tenant_id in
  ct ← encrypt (StoreKek.kek store) nonce a (TenantDataKey.bytes_ key);
  Ok (to_le_bytes 2 WRAPPED_KEY_VERSION ++ to_le_bytes 4 kek_id
      ++ to_le_bytes 4 (TenantDataKey.id key) ++ nonce ++ ct).

(** [unwrap_tenant_key]. *)
Definition unwrap_tenant_key (store : StoreKek) (tenant_id wrapped : bytes)
    : result StoreError TenantDataKey :=
  let malformed := StoreError.Malformed "wrapped tenant key" (Z.of_nat (length wrapped)) in
  _ ← ensure (Nat.eqb (length wrapped) WRAPPED_KEY_LEN) malformed;
  '(version, rest) ← ok_or (split_first_chunk 2 wrapped) malformed;
  '(kek_id, rest) ← ok_or (split_first_chunk 4 rest) malformed;
  '(data_key_id, rest) ← ok_or (split_first_chunk 4 rest) malformed;
  '(nonce, ct) ← ok_or (split_first_chunk NONCE_LEN rest) malformed;
  let version := from_le_bytes version in
  _ ← ensure (version =? WRAPPED_KEY_VERSION) (StoreError.UnsupportedRecordVersion version);
  let kek_id := from_le_bytes kek_id in
  _ ← ensure (kek_id =? StoreKek.root_key_id store) (StoreError.UnknownKeyId kek_id);
  let data_key_id := from_le_bytes data_key_id in
  let a := wrap_aad kek_id data_key_id tenant_id in
  plain ← ok_or (aead_decrypt (StoreKek.kek store) nonce a ct) StoreError.TenantKeyUnwrap;
  _ ← ensure (Nat.eqb (length plain) KEY_LEN)
        (StoreError.Malformed "unwrapped tenant key" (Z.of_nat (length plain)));
  Ok (TenantDataKey.mk data_key_id plain).

(** [wrap_address_keys_with]. *)
Definition wrap_address_keys_with (store : StoreKek) (tenant_id : bytes) (keys : AddressKeys)
    (nonce : option bytes) : result StoreError bytes :=
  let kek_id := StoreKek.root_key_id store in
  nonce ← ok_or nonce StoreError.Entropy;
  let plain := AddressKeys.index keys ++ AddressKeys.blob_addr keys in
  ct ← encrypt (StoreKek.kek store) nonce (address_aad kek_id tenant_id) plain;
  Ok (to_le_bytes 2 WRAPPED_ADDRESS_VERSION ++ to_le_bytes 4 kek_id ++ nonce ++ ct).

(** [unwrap_address_keys]. *)
Definition unwrap_address_keys (store : StoreKek) (tenant_id wrapped : bytes)
    : result StoreError AddressKeys :=
  let malformed := StoreError.Malformed "wrapped addressing subkeys" (Z.of_nat (length wrapped)) in
  _ ← ensure (Nat.eqb (length wrapped) WRAPPED_ADDRESS_LEN) malformed;
  '(version, rest) ← ok_or (split_first_chunk 2 wrapped) malformed;
  '(kek_id, rest) ← ok_or (split_first_chunk 4 rest) malformed;
  '(nonce, ct) ← ok_or (split_first_chunk NONCE_LEN rest) malformed;
  let version := from_le_bytes version in
  _ ← ensure (version =? WRAPPED_ADDRESS_VERSION) (StoreError.UnsupportedRecordVersion version);
  let kek_id := from_le_bytes kek_id in
  _ ← ensure (kek_id =? StoreKek.root_key_id store) (StoreError.UnknownKeyId kek_id);
  plain ← ok_or (aead_decrypt (StoreKek.kek store) nonce (address_aad kek_id tenant_id) ct)
            StoreError.TenantKeyUnwrap;
  let short := StoreError.Malformed "unwrapped addressing subkeys" (Z.of_nat (length plain)) in
  '(index, blob_addr) ← ok_or (split_first_chunk KEY_LEN plain) short;
  _ ← ensure (Nat.eqb (length blob_addr) KEY_LEN) short;
  Ok (AddressKeys.mk index blob_addr).
End wrap.

(** ** Lemmas *)

Lemma split_first_chunk_app n (a b : bytes) :
  length a = n -> split_first_chunk n (a ++ b) = Some (a, b).
Proof.
  intros <-. unfold split_first_chunk. rewrite length_app, take_app_length, drop_app_length.
  by rewrite (proj2 (Nat.leb_le _ _)) by lia.
Qed.
Lemma from_to_le_u16 z : in_range u16_max z -> from_le_bytes (to_le_bytes 2 z) = z.
Proof. unfold in_range, u16_max. intros. rewrite from_to_le_bytes. apply Z.mod_small. lia. Qed.
Lemma from_to_le_u32 z : in_range u32_max z -> from_le_bytes (to_le_bytes 4 z) = z.
Proof. unfold in_range, u32_max. intros. rewrite from_to_le_bytes. apply Z.mod_small. lia. Qed.
Lemma le_u32_inj x y :
  in_range u32_max x -> in_range u32_max y -> to_le_bytes 4 x = to_le_bytes 4 y -> x = y.
Proof. intros Hx Hy He. by rewrite <- (from_to_le_u32 x), He, from_to_le_u32. Qed.

Lemma push_prefixed_Ok out component b r :
  push_prefixed out component b = Ok r ->
  Z.of_nat (length b) < 256 ^ Z.of_nat 2 /\ r = out ++ to_le_bytes 2 (Z.of_nat (length b)) ++ b.
Proof.
  unfold push_prefixed. intros Hp. apply bind_Ok in Hp as ([] & Hl%ensure_Ok & Hp). apply Ok_inj in Hp.
  unfold u16_max in Hl. bool_simpl. split; [lia|done].
Qed.

(** The fields' widths. *)
Definition ctx_wf (ctx : SealContext) : Prop :=
  in_range u32_max (SealContext.schema_version ctx) /\ in_range u8_max (SealContext.kind ctx).

Lemma keyspace_name_inj k1 k2 : Keyspace.name k1 = Keyspace.name k2 -> k1 = k2.
Proof. destruct k1, k2; done. Qed.

(** The additional data is injective. *)
Lemma aad_inj c1 c2 k1 k2 a :
  ctx_wf c1 -> ctx_wf c2 -> in_range u32_max k1 -> in_range u32_max k2 ->
  aad c1 k1 = Ok a -> aad c2 k2 = Ok a -> c1 = c2 /\ k1 = k2.
Proof.
  intros [Hs1 Hd1] [Hs2 Hd2] Hk1 Hk2 H1 H2. unfold aad in H1, H2.
  apply bind_Ok in H1 as (o1 & [Hn1 ->]%push_prefixed_Ok & [Hr1 ->]%push_prefixed_Ok).
  apply bind_Ok in H2 as (o2 & [Hn2 ->]%push_prefixed_Ok & [Hr2 He]%push_prefixed_Ok).
  rewrite <- !app_assoc in He. apply app_inj_1 in He as [_ He]; [|done].
  apply app_inj_1 in He as [Hs He]; [|done]. apply le_u32_inj in Hs; [|done..].
  apply app_inj_1 in He as [Hd He]; [|done]. injection Hd as Hd.
  apply (f_equal b2z) in Hd. rewrite !b2z_z2b, !Z.mod_small in Hd by (unfold in_range, u8_max in *; lia).
  apply app_inj_1 in He as [Hk He]; [|done]. apply le_u32_inj in Hk; [|done..].
  apply prefixed_inj in He as [Hn He]; [|done..].
  destruct c1, c2; cbn in *. apply keyspace_name_inj in Hn. subst.
  split; [|done]. f_equal.
  apply (prefixed_inj 2 _ _ [] []); [done..|]. by rewrite !app_nil_r.
Qed.

Section lemmas.
Context `{Aead}.

Lemma seal_with_Ok key ctx plaintext nonce sealed :
  seal_with key ctx plaintext (Some nonce) = Ok sealed ->
  exists a ct, aad ctx (SealingKey.id key) = Ok a /\
    aead_encrypt (SealingKey.key key) nonce a plaintext = Some ct /\
    sealed = to_le_bytes 2 SEALED_RECORD_VERSION ++ to_le_bytes 4 (SealingKey.id key) ++ nonce ++ ct.
Proof using Type.
  unfold seal_with, encrypt. intros Hs. apply bind_Ok in Hs as ([] & _ & Hs).
  apply bind_Ok in Hs as (a & Ha & Hs). apply bind_Ok in Hs as (n & [= <-]%ok_or_Ok & Hs).
  apply bind_Ok in Hs as (ct & Hc%ok_or_Ok & Hs). apply Ok_inj in Hs. eauto.
Qed.

(** What [open] does with a value of the written format. *)
Lemma open_parsed keys ctx id nonce ct :
  in_range u32_max id -> length nonce = NONCE_LEN -> (TAG_LEN <= length ct)%nat ->
  open keys ctx (to_le_bytes 2 SEALED_RECORD_VERSION ++ to_le_bytes 4 id ++ nonce ++ ct) =
  (key ← ok_or (List.find (fun k => SealingKey.id k =? id) keys) (StoreError.UnknownKeyId id);
   a ← aad ctx id;
   ok_or (aead_decrypt (SealingKey.key key) nonce a ct)
     (StoreError.Open (Keyspace.name (SealContext.keyspace ctx)))).
Proof using Type.
  intros Hid Hn Hc. unfold open. rewrite (proj2 (Nat.leb_le _ _)).
  2: { rewrite !length_app, !length_to_le_bytes, Hn. unfold MIN_SEALED_LEN, SEALED_HEADER_LEN. lia. }
  cbn [ensure mbind result_bind].
  rewrite split_first_chunk_app by apply length_to_le_bytes. cbn [ok_or mbind result_bind].
  rewrite split_first_chunk_app by apply length_to_le_bytes. cbn [ok_or mbind result_bind].
  rewrite split_first_chunk_app by done. cbn [ok_or mbind result_bind].
  rewrite from_to_le_u16 by done. rewrite from_to_le_u32 by done. done.
Qed.
End lemmas.

(** ** Properties *)
Section properties.
Context `{AeadLaws}.

(** A sealed value opens exactly where it was sealed. With the sealing
    key first among those offered under its id, a value sealed for one
    location (schema version, keyspace, record kind, record key) opens at
    that location to the bytes that were sealed, and it opens at another
    location, whichever field differs, only if the cipher accepts the
    ciphertext under additional data it was not made with; its header names
    the key it needs. *)
Theorem sealed_opens_only_in_place (key : SealingKey) (keys : list SealingKey)
    (ctx ctx' : SealContext) (plaintext plaintext' nonce sealed : bytes) :
  ctx_wf ctx -> ctx_wf ctx' -> in_range u32_max (SealingKey.id key) -> length nonce = NONCE_LEN ->
  List.find (fun k => SealingKey.id k =? SealingKey.id key) keys = Some key ->
  seal_with key ctx plaintext (Some nonce) = Ok sealed ->
  sealed_key_id sealed = Some (SealingKey.id key) /\
  (open keys ctx' sealed = Ok plaintext' <->
   (ctx' = ctx /\ plaintext' = plaintext) \/
   (ctx' <> ctx /\ exists a a', aad ctx (SealingKey.id key) = Ok a /\ aad ctx' (SealingKey.id key) = Ok a' /\
      accepted_elsewhere (SealingKey.key key) nonce a a' plaintext plaintext')).
Proof using Type*.
  intros Hc Hc' Hid Hn Hk (a & ct & Ha & He & ->)%seal_with_Ok.
  destruct (aead_correct _ _ _ _ _ He) as [Hd Hl]. split.
  { unfold sealed_key_id. rewrite split_first_chunk_app by apply length_to_le_bytes. cbn [mbind option_bind].
    rewrite split_first_chunk_app by apply length_to_le_bytes. cbn. f_equal. by apply from_to_le_u32. }
  rewrite open_parsed by (done || lia). rewrite Hk. cbn [ok_or mbind result_bind]. split.
  - intros Ho. apply bind_Ok in Ho as (a' & Ha' & Ho%ok_or_Ok).
    destruct (decide (a' = a)) as [->|Hne].
    + left. destruct (aad_inj _ _ _ _ _ Hc' Hc Hid Hid Ha' Ha) as [-> _]. split; [done|congruence].
    + right. split; [congruence|]. exists a, a'. split; [done|]. split; [done|]. split; [done|]. by exists ct.
  - intros [[-> ->]|(_ & a1 & a' & Ha1 & Ha' & _ & c & He' & Hd')].
    + rewrite Ha. cbn [mbind result_bind]. by rewrite Hd.
    + rewrite Ha'. cbn [mbind result_bind]. assert (a1 = a) as -> by congruence.
      assert (c = ct) as -> by congruence. by rewrite Hd'.
Qed.

(** A wrapped tenant data key unwraps for its tenant to the key that was
    wrapped, for another tenant only if the cipher accepts it under additional
    data it was not made with, and it is never taken for wrapped addressing
    subkeys. *)
Theorem wrapped_key_unwraps_only_in_place (store : StoreKek) (tenant tenant' nonce wrapped : bytes)
    (key key' : TenantDataKey) :
  in_range u32_max (StoreKek.root_key_id store) -> in_range u32_max (TenantDataKey.id key) ->
  length (TenantDataKey.bytes_ key) = KEY_LEN -> length nonce = NONCE_LEN ->
  wrap_tenant_key_with store tenant key (Some nonce) = Ok wrapped ->
  let a t := wrap_aad (StoreKek.root_key_id store) (TenantDataKey.id key) t in
  unwrap_tenant_key store tenant wrapped = Ok key /\
  (unwrap_tenant_key store tenant' wrapped = Ok key' ->
   (tenant' = tenant /\ key' = key) \/
   (tenant' <> tenant /\ accepted_elsewhere (StoreKek.kek store) nonce (a tenant) (a tenant')
      (TenantDataKey.bytes_ key) (TenantDataKey.bytes_ key'))) /\
  unwrap_address_keys store tenant' wrapped =
    Err (StoreError.Malformed "wrapped addressing subkeys" (Z.of_nat WRAPPED_KEY_LEN)).
Proof using Type*.
  intros Hr Hid Hlen Hn Hw a. unfold wrap_tenant_key_with, encrypt in Hw.
  apply bind_Ok in Hw as (n & [= <-]%ok_or_Ok & Hw). apply bind_Ok in Hw as (ct & He%ok_or_Ok & Hw).
  apply Ok_inj in Hw. fold (a tenant) in He. destruct (aead_correct _ _ _ _ _ He) as [Hd Hl].
  assert (length wrapped = WRAPPED_KEY_LEN) as Hw'.
  { rewrite <- Hw, !length_app, !length_to_le_bytes, Hn, Hl, Hlen. done. }
  assert (forall t, unwrap_tenant_key store t wrapped =
    (plain ← ok_or (aead_decrypt (StoreKek.kek store) nonce (a t) ct) StoreError.TenantKeyUnwrap;
     _ ← ensure (Nat.eqb (length plain) KEY_LEN)
           (StoreError.Malformed "unwrapped tenant key" (Z.of_nat (length plain)));
     Ok (TenantDataKey.mk (TenantDataKey.id key) plain))) as Hun.
  { intros t. unfold unwrap_tenant_key. rewrite Hw', Nat.eqb_refl. cbn [ensure mbind result_bind]. rewrite <- Hw.
    do 3 (rewrite split_first_chunk_app by apply length_to_le_bytes; cbn [ok_or mbind result_bind]).
    rewrite split_first_chunk_app by done. cbn [ok_or mbind result_bind].
    rewrite from_to_le_u16 by done. rewrite !from_to_le_u32 by done. by rewrite Z.eqb_refl. }
  split_and!.
  - rewrite Hun, Hd. cbn [ok_or mbind result_bind]. rewrite Hlen. by destruct key.
  - rewrite Hun. intros Ho. apply bind_Ok in Ho as (p & Hp%ok_or_Ok & Ho). apply bind_Ok in Ho as (? & _ & Ho).
    apply Ok_inj in Ho. subst key'. destruct (decide (tenant' = tenant)) as [->|Hne].
    + left. rewrite Hd in Hp. injection Hp as <-. by destruct key.
    + right. split; [done|]. split; [|by exists ct]. intros Ha. apply Hne.
      unfold a, wrap_aad in Ha. by do 3 (apply app_inj_1 in Ha as [_ Ha]; [|done]).
  - unfold unwrap_address_keys. by rewrite Hw'.
Qed.
End properties.
