(* ===== verification/RecordKey.v ===== *)
(** * Physical record keys ([phylake::store::record_key])

    [Db] keys its maps by the components of a physical key; here is the
    physical key itself, a keyed hash of a domain label and length-prefixed
    parts. The hash (HMAC-SHA256) is a parameter. *)
From S2P Require Import Prelude Vocab Ids Epitrope View Lifecycle Records Store.
Local Open Scope Z_scope.

(** ** [keyed] *)
Definition push_part (part : bytes) : bytes :=
  to_le_bytes 4 (Z.min u32_max (Z.of_nat (length part))) ++ part.
Definition keyed_input (domain : bytes) (parts : list bytes) : bytes :=
  lit "dioptron/v1/key/" ++ domain ++ concat (map push_part parts).

(** ** The slots: the functions of the modules [store] and [tenant] *)
Module Slot.
Inductive Slot : Set :=
(* store *)
| Tenant (tenant : TenantId)
| DataKey (tenant : TenantId) (key_id : Z)
| AddressKeys (tenant : TenantId)
| Rekey (tenant : TenantId)
| Tombstone (tenant : TenantId)
| Grant (grant : GrantId)
| Revocation (grant : GrantId)
| Session (session : SessionId)
| Invocation (invocation : InvocationId)
| Ledger (ledger : LedgerRef)
| Locator (artifact : ArtifactRef)
(* tenant *)
| Idem (tenant : TenantId) (capability : Capability) (key : IdempotencyKey)
| Artifact (tenant : TenantId) (artifact : ArtifactRef)
| Pending (tenant : TenantId) (invocation : InvocationId)
| Blob (tenant : TenantId) (address : bytes)
| SessionIndex (owner : TenantId) (session : SessionId)
| Audit (tenant : TenantId).
End Slot.
Abbreviation Slot := Slot.Slot.

Definition domain (s : Slot) : bytes :=
  lit match s with
      | Slot.Tenant _ => "tenant"
      | Slot.DataKey _ _ => "data-key"
      | Slot.AddressKeys _ => "address-keys"
      | Slot.Rekey _ => "rekey"
      | Slot.Tombstone _ => "tombstone"
      | Slot.Grant _ => "grant"
      | Slot.Revocation _ => "revocation"
      | Slot.Session _ => "session"
      | Slot.Invocation _ => "invocation"
      | Slot.Ledger (LedgerRef.Grant _) => "ledger/grant"
      | Slot.Ledger (LedgerRef.Session _) => "ledger/session"
      | Slot.Ledger (LedgerRef.Tenant _) => "ledger/tenant"
      | Slot.Locator _ => "locator"
      | Slot.Idem _ _ _ => "idem"
      | Slot.Artifact _ _ => "artifact"
      | Slot.Pending _ _ => "pending"
      | Slot.Blob _ _ => "blob"
      | Slot.SessionIndex _ _ => "session-index"
      | Slot.Audit _ => "audit"
      end.
Definition parts (s : Slot) : list bytes :=
  match s with
  | Slot.Tenant t | Slot.AddressKeys t | Slot.Rekey t | Slot.Tombstone t | Slot.Audit t =>
      [TenantId_to_bytes t]
  | Slot.DataKey t key_id => [TenantId_to_bytes t; to_le_bytes 4 key_id]
  | Slot.Grant g | Slot.Revocation g => [GrantId_to_bytes g]
  | Slot.Session s => [SessionId_to_bytes s]
  | Slot.Invocation i => [InvocationId_to_bytes i]
  | Slot.Ledger (LedgerRef.Grant g) => [GrantId_to_bytes g]
  | Slot.Ledger (LedgerRef.Session s) => [SessionId_to_bytes s]
  | Slot.Ledger (LedgerRef.Tenant t) => [TenantId_to_bytes t]
  | Slot.Locator a => [ArtifactRef_to_bytes a]
  | Slot.Idem t c k => [TenantId_to_bytes t; enum_name c; IdempotencyKey_as_bytes k]
  | Slot.Artifact t a => [TenantId_to_bytes t; ArtifactRef_to_bytes a]
  | Slot.Pending t i => [TenantId_to_bytes t; InvocationId_to_bytes i]
  | Slot.Blob t address => [TenantId_to_bytes t; address]
  | Slot.SessionIndex owner s => [TenantId_to_bytes owner; SessionId_to_bytes s]
  end.

Section key.
(** HMAC-SHA256 under a subkey. *)
Variable keyed_hash : bytes -> bytes -> bytes.
Definition keyed (key dom : bytes) (ps : list bytes) : bytes := keyed_hash key (keyed_input dom ps).
Definition record_key (index : bytes) (s : Slot) : bytes := keyed index (domain s) (parts s).
(** [join]: the unhashed suffix of an audit or session index key. *)
Definition join (prefix suffix : bytes) : bytes := prefix ++ suffix.
End key.

(** The widths of a slot's components: every id has 16 bytes, an idempotency
    key at most 64, a blob address 32, a key id is a [u32]. *)
Definition slot_wf (s : Slot) : Prop :=
  match s with
  | Slot.DataKey t key_id => length (TenantId_to_bytes t) = 16%nat /\ in_range u32_max key_id
  | Slot.Idem t _ k =>
      length (TenantId_to_bytes t) = 16%nat /\ (length (IdempotencyKey_as_bytes k) <= 64)%nat
  | Slot.Blob t address => length (TenantId_to_bytes t) = 16%nat /\ length address = 32%nat
  | _ => Forall (fun p => length p = 16%nat) (parts s)
  end.

(** ** Lemmas *)

Lemma push_part_small p :
  Z.of_nat (length p) <= u32_max -> push_part p = to_le_bytes 4 (Z.of_nat (length p)) ++ p.
Proof. intros Hp. unfold push_part. by rewrite Z.min_r by lia. Qed.

(** Different part lists give different bytes. *)
Lemma parts_inj ps qs :
  Forall (fun p => Z.of_nat (length p) <= u32_max) ps ->
  Forall (fun p => Z.of_nat (length p) <= u32_max) qs ->
  concat (map push_part ps) = concat (map push_part qs) -> ps = qs.
Proof.
  intros Hp. revert qs. induction Hp as [|p ps Hp Hps IH]; intros qs Hq; destruct Hq as [|q qs Hq Hqs];
    cbn [map concat]; try done.
  rewrite !push_part_small, <- !app_assoc by done. intros He.
  apply prefixed_inj in He as [-> He]; [|unfold u32_max in *; lia..]. f_equal. by apply IH.
Qed.

(** Two byte strings that differ at some position both have. *)
Fixpoint differ (a b : bytes) : bool :=
  match a, b with
  | x :: a, y :: b => if bool_decide (x = y) then differ a b else true
  | _, _ => false
  end.
Lemma differ_app a b u v : differ a b = true -> a ++ u <> b ++ v.
Proof.
  revert b; induction a as [|x a IH]; intros [|y b]; cbn; try done.
  case_bool_decide; [|congruence]. intros Hd He. injection He. intros He' _. by apply (IH b).
Qed.

(** One slot of each kind, and the prefix of a 16-byte first part. *)
Definition domains : list bytes :=
  lit <$> ["tenant"; "data-key"; "address-keys"; "rekey"; "tombstone"; "grant"; "revocation"; "session";
           "invocation"; "ledger/grant"; "ledger/session"; "ledger/tenant"; "locator"; "idem"; "artifact";
           "pending"; "blob"; "session-index"; "audit"]%string.
Definition id_prefix : bytes := to_le_bytes 4 16.
Definition domains_apart : bool :=
  forallb (fun d => forallb (fun e => bool_decide (d = e) || differ (d ++ id_prefix) (e ++ id_prefix)) domains)
    domains.
Lemma domains_apart_true : domains_apart = true.
Proof. vm_compute. reflexivity. Qed.
Lemma domain_in s : In (domain s) domains.
Proof. destruct s as [| | | | | | | | |[]| | | | | | |]; cbn; tauto. Qed.
Lemma domain_cut d e u v :
  In d domains -> In e domains -> d ++ id_prefix ++ u = e ++ id_prefix ++ v -> d = e.
Proof.
  intros Hd He Heq. pose proof domains_apart_true as Ha. unfold domains_apart in Ha.
  rewrite forallb_forall in Ha. specialize (Ha d Hd). rewrite forallb_forall in Ha. specialize (Ha e He).
  apply orb_true_iff in Ha as [Ha%bool_decide_eq_true|Ha]; [done|].
  rewrite !app_assoc in Heq. by apply (differ_app _ _ u v) in Ha.
Qed.

Lemma parts_wf s : slot_wf s ->
  Forall (fun p => Z.of_nat (length p) <= u32_max) (parts s) /\
  exists p rest, parts s = p :: rest /\ length p = 16%nat.
Proof.
  assert (forall ps : list bytes, Forall (fun p => length p = 16%nat) ps ->
    Forall (fun p => Z.of_nat (length p) <= u32_max) ps) as H16.
  { intros ps Hps. eapply Forall_impl; [exact Hps|]. intros p ->. done. }
  assert (forall n, (n <= 64)%nat -> Z.of_nat n <= u32_max) as H64 by (unfold u32_max; lia).
  assert (forall c : Capability, (length (enum_name c) <= 64)%nat) as Hc by (intros []; cbn; lia).
  destruct s as [| | | | | | | | |[]| | | | | | |]; cbn -[u32_max Nat.le]; intros Hw;
    try (split; [by apply H16|]; apply Forall_cons in Hw as [Hw _]; by eexists _, _).
  - destruct Hw as [Ht Hk]. split; [|by eexists _, _].
    repeat constructor; apply H64; [lia|cbn; lia].
  - destruct Hw as [Ht Hk]. split; [|by eexists _, _].
    repeat constructor; apply H64; [lia|apply Hc|done].
  - destruct Hw as [Ht Hk]. split; [|by eexists _, _]. repeat constructor; apply H64; lia.
Qed.

(** The components are determined by the domain and the parts. *)
Lemma slot_inj s1 s2 :
  slot_wf s1 -> slot_wf s2 -> domain s1 = domain s2 -> parts s1 = parts s2 -> s1 = s2.
Proof.
  assert (forall x y, in_range u32_max x -> in_range u32_max y -> to_le_bytes 4 x = to_le_bytes 4 y -> x = y) as Hu32.
  { intros x y Hx Hy. apply to_le_bytes_inj; unfold in_range, u32_max in *; lia. }
  intros Hw1 Hw2 Hd Hp.
  destruct s1 as [[]|[] k1|[]|[]|[]|[]|[]|[]|[]|[[]|[]|[]]|[]|[] c1 []|[] []|[] []|[]|[] []|[]],
           s2 as [[]|[] k2|[]|[]|[]|[]|[]|[]|[]|[[]|[]|[]]|[]|[] c2 []|[] []|[] []|[]|[] []|[]];
    try discriminate Hd; cbn -[to_le_bytes enum_name] in Hp, Hw1, Hw2;
    pose proof (f_equal (fun l => nth 1 l []) Hp) as Hk; injection Hp; intros; subst; try reflexivity.
  - f_equal. destruct Hw1, Hw2. by apply Hu32.
  - f_equal. by apply enum_name_inj.
Qed.

(** ** Properties *)

(** A physical key names one record. The hash input of a record key
    determines the record's slot: its kind (tenant, grant, ledger, idempotency
    entry, blob, ...) and every component of it; so two slots share a physical
    key under one index subkey only if the hash itself collides on their two
    different inputs. *)
Theorem record_key_injective (keyed_hash : bytes -> bytes -> bytes) (index : bytes) (s1 s2 : Slot) :
  slot_wf s1 -> slot_wf s2 ->
  (keyed_input (domain s1) (parts s1) = keyed_input (domain s2) (parts s2) <-> s1 = s2) /\
  (record_key keyed_hash index s1 = record_key keyed_hash index s2 ->
   s1 = s2 \/
   let input s := keyed_input (domain s) (parts s) in
   input s1 <> input s2 /\ keyed_hash index (input s1) = keyed_hash index (input s2)).
Proof.
  intros Hw1 Hw2.
  assert (keyed_input (domain s1) (parts s1) = keyed_input (domain s2) (parts s2) -> s1 = s2) as Hinj.
  { destruct (parts_wf s1 Hw1) as (Hf1 & p & ps & Hp & Hlp), (parts_wf s2 Hw2) as (Hf2 & q & qs & Hq & Hlq).
    unfold keyed_input. intros He. apply app_inj_1 in He as [_ He]; [|done].
    assert (domain s1 = domain s2) as Hd.
    { rewrite Hp, Hq in He. cbn [map concat] in He.
      assert (forall p : bytes, length p = 16%nat -> push_part p = id_prefix ++ p) as H16
        by (intros x Hx; unfold push_part; by rewrite Hx).
      rewrite !H16, <- !app_assoc in He by done.
      by apply domain_cut in He; [|apply domain_in..]. }
    rewrite Hd in He. apply app_inv_head in He. apply slot_inj; auto. by apply parts_inj. }
  split; [split; [done|by intros ->]|]. unfold record_key, keyed. intros Hk.
  destruct (decide (keyed_input (domain s1) (parts s1) = keyed_input (domain s2) (parts s2))) as [He|Hne].
  - left. by apply Hinj.
  - by right.
Qed.
