(* ===== verification/StoreAudit.v ===== *)
(** * The audit log ([phylake::store::audit])

    A per-tenant sequenced entry plus a global stub, written in the same
    transaction as the state they record. *)
From stdpp Require Import sorting.
From S2P Require Import Prelude Vocab Ids Payload Epitrope View Lifecycle Records Store.
Local Open Scope Z_scope.

(** [AuditEntry] and its constructors. *)
Module AuditEntry.
Record AuditEntry : Set := mk {
  tenant : TenantId;
  session : option SessionId;
  invocation : InvocationId;
  capability : Capability;
  state : InvocationState;
  outcome : OutcomeKind;
  release_reason : option ReleaseReason;
  grant : option GrantId;
  audit_scope : option AuditScope;
}.
End AuditEntry.
Abbreviation AuditEntry := AuditEntry.AuditEntry.
Definition entry_new (tenant : TenantId) (invocation : InvocationId) (capability : Capability)
    (state : InvocationState) (outcome : OutcomeKind) : AuditEntry :=
  AuditEntry.mk tenant None invocation capability state outcome None None None.
Definition entry_terminal (tenant : TenantId) (invocation : InvocationId) (capability : Capability)
    (terminal : Terminal) : AuditEntry :=
  AuditEntry.mk tenant None invocation capability (terminal_state terminal)
    (terminal_outcome terminal) (terminal_release_reason terminal) None None.
Definition in_session (session : option SessionId) (e : AuditEntry) : AuditEntry :=
  AuditEntry.mk (AuditEntry.tenant e) session (AuditEntry.invocation e) (AuditEntry.capability e)
    (AuditEntry.state e) (AuditEntry.outcome e) (AuditEntry.release_reason e) (AuditEntry.grant e)
    (AuditEntry.audit_scope e).
Definition under_grant (grant : option GrantId) (e : AuditEntry) : AuditEntry :=
  AuditEntry.mk (AuditEntry.tenant e) (AuditEntry.session e) (AuditEntry.invocation e)
    (AuditEntry.capability e) (AuditEntry.state e) (AuditEntry.outcome e)
    (AuditEntry.release_reason e) grant (AuditEntry.audit_scope e).
Definition with_audit_scope (scope : option AuditScope) (e : AuditEntry) : AuditEntry :=
  AuditEntry.mk (AuditEntry.tenant e) (AuditEntry.session e) (AuditEntry.invocation e)
    (AuditEntry.capability e) (AuditEntry.state e) (AuditEntry.outcome e)
    (AuditEntry.release_reason e) (AuditEntry.grant e) scope.

(** [AuditEvent]. *)
Module AuditEvent.
Record AuditEvent : Set := mk {
  record : AuditRecord; release_reason : option ReleaseReason; grant : option GrantId;
  audit_scope : option AuditScope }.
End AuditEvent.
Abbreviation AuditEvent := AuditEvent.AuditEvent.

(** [AuditQuery], the store's. *)
Module AuditQuery.
Record AuditQuery : Set := mk {
  actor : TenantId; scope : AuditScope; session : option SessionId;
  after : option AuditSeq; limit : Z }.
End AuditQuery.
Abbreviation AuditQuery := AuditQuery.AuditQuery.

(** The last key of [audit_stub], 0 for an empty log: the keys are
    big-endian, so the last one is the greatest. *)
Definition last_seq (db : Db) : Z := map_fold (fun seq _ acc => Z.max seq acc) 0 (Db.audit_stub db).
Definition next_audit_seq (db : Db) : result StoreError AuditSeq :=
  ok_or (checked_add u64_max (last_seq db) 1) (StoreError.Inconsistent "audit sequence is exhausted").

(** [append_audit]: stages the entry and its stub. *)
Definition append_audit (now : Timestamp) (db : Db) (entry : AuditEntry)
    : result StoreError (AuditSeq * Db) :=
  seq ← next_audit_seq db;
  let db := set_audit_stub <[seq := AuditStubRecord.mk seq (AuditEntry.invocation entry)
                                      (AuditEntry.capability entry) (AuditEntry.outcome entry) now]> db in
  keys ← tenant_keys db (AuditEntry.tenant entry);
  let record := AuditEntryRecord.mk seq now (AuditEntry.tenant entry) (AuditEntry.session entry)
    (AuditEntry.invocation entry) (AuditEntry.capability entry) (AuditEntry.state entry)
    (AuditEntry.outcome entry) (AuditEntry.release_reason entry) (AuditEntry.grant entry)
    (AuditEntry.audit_scope entry) in
  Ok (seq, set_audit <[(AuditEntry.tenant entry, seq) := seal_active keys record]> db).

(** ** Reads *)

Definition to_event (entry : AuditEntryRecord) : AuditEvent :=
  AuditEvent.mk (AuditRecord.mk (AuditEntryRecord.seq entry) (AuditEntryRecord.time entry)
      (AuditEntryRecord.tenant entry) (AuditEntryRecord.session entry)
      (AuditEntryRecord.invocation entry) (AuditEntryRecord.capability entry)
      (AuditEntryRecord.state entry) (AuditEntryRecord.outcome entry))
    (AuditEntryRecord.release_reason entry) (AuditEntryRecord.grant entry)
    (AuditEntryRecord.audit_scope entry).

(** The range scan of one partition: the tenant's entries from [start] on,
    in key (hence sequence) order. *)
Definition by_seq (p q : Z * Sealed AuditEntryRecord) : Prop := p.1 <= q.1.
#[global] Instance by_seq_dec : RelDecision by_seq.
Proof. intros p q. unfold by_seq. apply _. Defined.
Definition partition_range (db : Db) (tenant : TenantId) (start : Z) : list (Z * Sealed AuditEntryRecord) :=
  merge_sort by_seq
    (omap (fun '((t, seq), sealed) =>
             if bool_decide (t = tenant) && (start <=? seq) && (seq <=? u64_max)
             then Some (seq, sealed) else None)
       (map_to_list (Db.audit db))).

(** The loop of [partition], with [events] collected so far in reverse. *)
Fixpoint partition_loop (keys : list Z) (limit : nat) (keep : AuditEntryRecord -> bool)
    (events : list AuditEvent) (entries : list (Z * Sealed AuditEntryRecord))
    : result StoreError (list AuditEvent) :=
  match entries with
  | [] => Ok (reverse events)
  | (_, sealed) :: entries =>
      if Nat.leb limit (length events) then Ok (reverse events)
      else
        entry ← open_sealed keys sealed;
        partition_loop keys limit keep
          (if keep entry then to_event entry :: events else events) entries
  end.
Definition partition (db : Db) (tenant : TenantId) (after : option AuditSeq) (limit : nat)
    (keep : AuditEntryRecord -> bool) : result StoreError (list AuditEvent) :=
  keys ← tenant_keys db tenant;
  match (match after with None => Some 0 | Some seq => checked_add u64_max seq 1 end) with
  | None => Ok []
  | Some start => partition_loop (openers keys) limit keep [] (partition_range db tenant start)
  end.
Definition audit_records (db : Db) (tenant : TenantId) (after : option AuditSeq) (limit : Z)
    : result StoreError (list AuditEvent) :=
  partition db tenant after (Z.to_nat limit) (fun _ => true).

(** The [selected] closure of [audit_query]. *)
Definition selected (db : Db) (query : AuditQuery) (entry : AuditEntryRecord) : bool :=
  if bool_decide (is_Some (AuditQuery.session query))
     && negb (bool_decide (AuditEntryRecord.session entry = AuditQuery.session query))
  then false
  else match AuditQuery.scope query with
  | AuditScope.All => true
  | AuditScope.OwnAndOwnedSessions =>
      if bool_decide (AuditEntryRecord.tenant entry = AuditQuery.actor query) then true
      else match AuditEntryRecord.session entry with
           | None => false
           | Some session =>
               bool_decide (SessionRecord.owner <$> Db.sessions db !! session
                            = Some (AuditQuery.actor query))
           end
  end.

Definition event_seq (e : AuditEvent) : Z := AuditRecord.seq (AuditEvent.record e).
Definition by_event_seq (p q : AuditEvent) : Prop := event_seq p <= event_seq q.
#[global] Instance by_event_seq_dec : RelDecision by_event_seq.
Proof. intros p q. unfold by_event_seq. apply _. Defined.

(** [tenant_ids] and [audit_query]. The tenants are visited in the order
    [ids]; the physical keys are keyed hashes, so the source visits them in
    an order of no meaning. *)
Definition audit_query (db : Db) (ids : list TenantId) (query : AuditQuery)
    : result StoreError (list AuditEvent) :=
  let limit := Z.to_nat (AuditQuery.limit query) in
  parts ← collect (fun tenant =>
    partition db tenant (AuditQuery.after query) limit (selected db query)) ids;
  Ok (take limit (merge_sort by_event_seq (concat parts))).

(** ** Sequence lemmas *)

(** The log is contiguous: its sequences are exactly [1 .. n]. *)
Definition contiguous (db : Db) : Prop :=
  forall seq, is_Some (Db.audit_stub db !! seq) <-> 1 <= seq <= last_seq db.
(** A well-formed log: contiguous, every entry filed under its tenant and
    sequence and with a stub, and at most one entry per sequence. *)
Record AuditLog (db : Db) : Prop := {
  al_contiguous : contiguous db;
  al_bound : last_seq db <= u64_max;
  al_entry : forall t seq x, Db.audit db !! (t, seq) = Some x ->
    AuditEntryRecord.seq (Sealed.plain x) = seq /\ AuditEntryRecord.tenant (Sealed.plain x) = t /\
    is_Some (Db.audit_stub db !! seq);
  al_one : forall t t' seq, is_Some (Db.audit db !! (t, seq)) -> is_Some (Db.audit db !! (t', seq)) -> t = t';
}.

Lemma last_seq_insert db seq stub :
  Db.audit_stub db !! seq = None ->
  last_seq (set_audit_stub <[seq := stub]> db) = Z.max seq (last_seq db).
Proof.
  intros Hn. unfold last_seq. cbn [Db.audit_stub set_audit_stub].
  rewrite map_fold_insert_L; [done| |done]. intros. lia.
Qed.

Lemma last_seq_nonneg db : 0 <= last_seq db.
Proof.
  unfold last_seq. apply (map_fold_weak_ind (fun r _ => 0 <= r)); [lia|]. intros. lia.
Qed.

Lemma append_audit_Ok now db entry seq db' :
  append_audit now db entry = Ok (seq, db') ->
  seq = last_seq db + 1 /\ seq <= u64_max /\
  exists keys stub record,
    tenant_keys db (AuditEntry.tenant entry) = Ok keys /\
    AuditStubRecord.seq stub = seq /\ AuditEntryRecord.seq record = seq /\
    AuditEntryRecord.tenant record = AuditEntry.tenant entry /\
    AuditEntryRecord.invocation record = AuditEntry.invocation entry /\
    AuditEntryRecord.state record = AuditEntry.state entry /\
    AuditEntryRecord.outcome record = AuditEntry.outcome entry /\
    db' = set_audit <[(AuditEntry.tenant entry, seq) := seal_active keys record]>
            (set_audit_stub <[seq := stub]> db).
Proof.
  unfold append_audit, next_audit_seq. intros Ha.
  apply bind_Ok in Ha as (s & Hs%ok_or_Ok%checked_add_Some & Ha).
  apply bind_Ok in Ha as (keys & Hk & Ha). apply Ok_inj in Ha. injection Ha as <- <-.
  destruct Hs as [-> Hmax]. split; [done|]. split; [done|].
  eexists keys, _, _. split_and!; [exact Hk| | | | | | |reflexivity]; reflexivity.
Qed.

Lemma append_audit_total now db entry keys :
  tenant_keys db (AuditEntry.tenant entry) = Ok keys -> last_seq db < u64_max ->
  exists seq db', append_audit now db entry = Ok (seq, db').
Proof.
  intros Hk Hl. unfold append_audit, next_audit_seq.
  rewrite (proj2 (checked_add_Some u64_max (last_seq db) 1 _)) by (split; [reflexivity|lia]).
  cbn [ok_or mbind result_bind].
  change (tenant_keys (set_audit_stub _ db) ?t) with (tenant_keys db t). rewrite Hk. eauto.
Qed.

Lemma append_audit_log now db entry seq db' :
  append_audit now db entry = Ok (seq, db') -> AuditLog db ->
  AuditLog db' /\ last_seq db' = last_seq db + 1 /\ Db.audit_stub db !! seq = None.
Proof.
  intros (-> & Hmax & keys & stub & record & _ & _ & Hseq & Hten & _ & _ & _ & ->)%append_audit_Ok [Hc Hb He Ho].
  assert (Db.audit_stub db !! (last_seq db + 1) = None) as Hn.
  { apply eq_None_not_Some. intros Hs%Hc. lia. }
  pose proof (last_seq_nonneg db).
  assert (forall f d, last_seq (set_audit f d) = last_seq d) as Hla by done.
  pose proof (last_seq_insert db (last_seq db + 1) stub Hn) as Hl.
  rewrite Z.max_l in Hl by lia. split; [|split; [by rewrite Hla|done]].
  assert (forall t, Db.audit db !! (t, last_seq db + 1) = None) as Hnew.
  { intros t. apply eq_None_not_Some. intros [x Hx]. destruct (He _ _ _ Hx) as (_ & _ & Hs).
    rewrite Hn in Hs. by destruct Hs. }
  split.
  - intros s. rewrite Hla, Hl. cbn [Db.audit_stub set_audit set_audit_stub].
    destruct (decide (s = last_seq db + 1)) as [->|Hne].
    + rewrite lookup_insert_eq. split; [lia|eauto].
    + rewrite lookup_insert_ne by done. rewrite (Hc s). lia.
  - rewrite Hla, Hl. lia.
  - intros t s x. cbn [Db.audit Db.audit_stub set_audit set_audit_stub].
    intros [[[= <- <-] <-]|[_ Hx]]%lookup_insert_Some.
    + rewrite lookup_insert_eq. cbn. eauto.
    + destruct (He _ _ _ Hx) as (? & ? & Hs). split_and!; try done.
      rewrite lookup_insert_ne; [done|]. intros <-. rewrite Hn in Hs. by destruct Hs.
  - intros t t' s. cbn [Db.audit set_audit set_audit_stub].
    intros [x Hx] [y Hy]. apply lookup_insert_Some in Hx as [[Ex _]|[_ Hx]], Hy as [[Ey _]|[_ Hy]].
    + congruence.
    + injection Ex as <- <-. by rewrite Hnew in Hy.
    + injection Ey as <- <-. by rewrite Hnew in Hx.
    + apply (Ho t t' s); eauto.
Qed.
