(* ===== verification/Invocation.v ===== *)
(** * Invocation intent, B1 ([phylake::store::invocation])

    [begin] authorizes an execution and commits its reservation, its intent
    and its idempotency entry in one transaction. *)
From S2P Require Import Prelude Vocab Ids Payload Epitrope Origin View Chain Issue Budget Decision.
From S2P Require Import Lifecycle Records Store StoreAudit.
Local Open Scope Z_scope.

(** The hash functions of the cryptography crates: SHA-256; a tenant's blob
    address, HMAC-SHA256 under its address key; and the physical key of a
    record of a walked keyspace, HMAC-SHA256 of its slot under an index subkey
    followed by the range suffix ([RecordKey] has its input and shows that
    distinct slots give distinct inputs; that the hash keeps the keys of a
    keyspace apart is the law [physical_inj]). *)
Class Hashes : Type := {
  sha256 : bytes -> bytes;
  blob_address : TenantId -> bytes -> bytes;
  physical : WalkKey -> bytes;
  physical_inj k k' : walk_step k = walk_step k' -> physical k = physical k' -> k = k';
}.

(** [Intent]. *)
Module Intent.
Record Intent : Set := mk {
  invocation : InvocationId;
  authz : AuthzRequest;
  idempotency_key : IdempotencyKey;
  request_digest : bytes;
}.
End Intent.
Abbreviation Intent := Intent.Intent.

(** [InvocationStatus] and its conversion from the record. *)
Module InvocationStatus.
Record InvocationStatus : Set := mk {
  id : InvocationId;
  tenant : TenantId;
  capability : Capability;
  session : option SessionId;
  state : InvocationState;
  terminal : option Terminal;
  artifact : option ArtifactRef;
  reserved : Cost;
  debited : option Cost;
  grant_chain : list GrantId;
  revoked_after_effect : bool;
}.
End InvocationStatus.
Abbreviation InvocationStatus := InvocationStatus.InvocationStatus.
Definition status_of (r : InvocationRecord) : InvocationStatus :=
  InvocationStatus.mk (InvocationRecord.id r) (InvocationRecord.tenant r)
    (InvocationRecord.capability r) (InvocationRecord.session r) (InvocationRecord.state r)
    (InvocationRecord.terminal r) (InvocationRecord.artifact r) (InvocationRecord.reserved r)
    (InvocationRecord.debited r) (InvocationRecord.grant_chain r)
    (InvocationRecord.revoked_after_effect r).
Definition status_release_reason (s : InvocationStatus) : option ReleaseReason :=
  InvocationStatus.terminal s ≫= terminal_release_reason.

(** [Begin]. *)
Module Begin.
Inductive Begin : Set :=
| Persisted (status : InvocationStatus)
| Replayed (status : InvocationStatus)
| Conflict
| Refused (failure : Failure) (audit_seq : AuditSeq).
End Begin.
Abbreviation Begin := Begin.Begin.

(** [artifact_ref]: a capture publishes under its invocation's bytes. *)
Definition artifact_ref (invocation : InvocationId) : ArtifactRef :=
  ArtifactRef_from_bytes (InvocationId_to_bytes invocation).

(** [length_prefixed]. *)
Definition length_prefixed (b : bytes) : bytes :=
  to_le_bytes 8 (Z.min u64_max (Z.of_nat (length b))) ++ b.

(** What [request_binding] feeds to the hash, in order. *)
Definition binding_input (intent : Intent) : bytes :=
  let authz := Intent.authz intent in
  lit "dioptron/v1/idem-binding" ++ Intent.request_digest intent
  ++ GrantId_to_bytes (AuthzRequest.grant authz)
  ++ length_prefixed (enum_name (AuthzRequest.capability authz))
  ++ match AuthzRequest.session authz with
     | Some session => z2b 1 :: SessionId_to_bytes session
     | None => [z2b 0]
     end
  ++ match AuthzRequest.target authz with
     | Some target => z2b 1 :: length_prefixed target
     | None => [z2b 0]
     end.

Section invocation.
Context `{Hashes}.

Definition request_binding (intent : Intent) : bytes := sha256 (binding_input intent).

(** [Store::invocation], [invocation_record], [existing_invocation],
    [put_invocation], [put_ledger]. *)
Definition invocation_record (db : Db) (id : InvocationId) : option InvocationRecord :=
  Db.invocations db !! id.
Definition invocation (db : Db) (id : InvocationId) : option InvocationStatus :=
  status_of <$> invocation_record db id.
Definition existing_invocation (db : Db) (id : InvocationId) : result StoreError InvocationRecord :=
  ok_or (invocation_record db id) (StoreError.InvocationMissing id).
Definition put_invocation (record : InvocationRecord) (db : Db) : Db :=
  set_invocations <[InvocationRecord.id record := record]> db.
Definition put_ledger (ledger : LedgerRef) (used : Cost) (db : Db) : Db :=
  set_ledgers <[ledger := LedgerRecord.mk used]> db.

(** [Store::plan]: a dry run over a snapshot. *)
Definition store_plan (now : Timestamp) (db : Db) (request : AuthzRequest) : result StoreError Plan :=
  authz_context (plan db request now).

(** [debit_reservation]: the loop over the plan's debits. *)
Definition debit_one (db : Db) (id : LedgerId) (amount : Cost) : result StoreError (LedgerRef * Db) :=
  ledger ← ok_or (from_ledger_id id) (StoreError.Inconsistent "ledger kind has no stored form");
  used ← authz_context (reserve (view_ledger db ledger) amount);
  Ok (ledger, put_ledger ledger used db).
Fixpoint debit_all (db : Db) (debits : list (LedgerId * Cost))
    : result StoreError (list LedgerRef * Db) :=
  match debits with
  | [] => Ok ([], db)
  | (id, amount) :: debits =>
      '(ledger, db) ← debit_one db id amount;
      '(ledgers, db) ← debit_all db debits;
      Ok (ledger :: ledgers, db)
  end.
Definition debit_reservation (db : Db) (reservation : ReservationPlan)
    : result StoreError (list LedgerRef * Db) :=
  debit_all db (debits reservation).

(** [intent_record]: debits the reservation and builds the B1 record. *)
Definition intent_record (now : Timestamp) (db : Db) (intent : Intent) (chain : list GrantId)
    (reservation : ReservationPlan) : result StoreError (InvocationRecord * Db) :=
  '(ledgers, db) ← debit_reservation db reservation;
  let authz := Intent.authz intent in
  Ok (InvocationRecord.mk (Intent.invocation intent) (AuthzRequest.tenant authz)
        (AuthzRequest.capability authz) (AuthzRequest.session authz) chain ledgers
        (ReservationPlan.cost reservation) InvocationState.IntentPersisted None None None None false
        now now, db).

(** [replay]: the answer to a request whose idempotency key is bound. *)
Definition replay (db : Db) (intent : Intent) (idem : IdemRecord) : result StoreError (Finish Begin) :=
  if negb (bool_decide (IdemRecord.request_binding idem = request_binding intent))
  then Ok (Dropped Begin.Conflict)
  else
    record ← ok_or (invocation_record db (IdemRecord.invocation idem))
      (StoreError.Inconsistent "idempotency entry names a missing invocation");
    Ok (Dropped (Begin.Replayed (status_of record))).

(** [refuse]: commits the audit entry of a refused call, and nothing else. *)
Definition refuse (now : Timestamp) (db : Db) (intent : Intent) (failure : Failure)
    : result StoreError (Finish Begin) :=
  let authz := Intent.authz intent in
  let entry := under_grant (Some (AuthzRequest.grant authz))
    (in_session (AuthzRequest.session authz)
      (entry_new (AuthzRequest.tenant authz) (Intent.invocation intent)
        (AuthzRequest.capability authz) InvocationState.Denied (failure_kind failure))) in
  '(audit_seq, db) ← append_audit now db entry;
  Ok (Committed None (Begin.Refused failure audit_seq) db).

(** The allowed branch of [begin]. *)
Definition persist (now : Timestamp) (db : Db) (keys : TenantKeyring) (intent : Intent)
    (chain : list GrantId) (reservation : ReservationPlan) : result StoreError (Finish Begin) :=
  let authz := Intent.authz intent in
  '(record, db) ← intent_record now db intent chain reservation;
  let db := put_invocation record db in
  let idem := IdemRecord.mk (Intent.invocation intent) (request_binding intent) in
  let db := set_idem <[(AuthzRequest.tenant authz, AuthzRequest.capability authz,
                        Intent.idempotency_key intent) := seal_active keys idem]> db in
  Ok (Committed (Some Boundary.PersistIntent) (Begin.Persisted (status_of record)) db).

Definition begin_tx (now : Timestamp) (db : Db) (intent : Intent) : result StoreError (Finish Begin) :=
  let authz := Intent.authz intent in
  let tenant := AuthzRequest.tenant authz in
  keys ← tenant_keys db tenant;
  idem ← get_sealed (openers keys)
    (Db.idem db !! (tenant, AuthzRequest.capability authz, Intent.idempotency_key intent));
  match idem with
  | Some idem => replay db intent idem
  | None =>
      _ ← ensure (bool_decide (invocation_record db (Intent.invocation intent) = None))
            (StoreError.Conflict "invocation");
      decision ← authz_context (authorize db authz now);
      match decision with
      | Decision.Allowed chain reservation =>
          if session_owner_shredded db (AuthzRequest.session authz)
          then refuse now db intent Failure.NotFoundOrDenied
          else persist now db keys intent chain reservation
      | _ =>
          refuse now db intent (default Failure.NotFoundOrDenied (decision_refusal decision))
      end
  end.
(** [Store::begin]. *)
Definition begin (fp : Failpoint) (now : Timestamp) (db : Db) (intent : Intent)
    : result StoreError Begin * Db :=
  with_tx fp db (begin_tx now db intent).
End invocation.
