(* ===== verification/Transition.v ===== *)
(** * Lifecycle transactions B2 to B5 ([phylake::store::transition])

    Each runs in one transaction that checks the step against the transition
    table before it writes. *)
From S2P Require Import Prelude Vocab Ids Payload Epitrope View Budget Lifecycle Records Store Seal.
From S2P Require Import StoreAudit Invocation.
Local Open Scope Z_scope.

(** Assignments to the record's mutable fields. *)
Definition with_state v (r : InvocationRecord) : InvocationRecord :=
  InvocationRecord.mk (InvocationRecord.id r) (InvocationRecord.tenant r) (InvocationRecord.capability r) (InvocationRecord.session r)
    (InvocationRecord.grant_chain r) (InvocationRecord.ledgers r) (InvocationRecord.reserved r) v
    (InvocationRecord.terminal r) (InvocationRecord.actual r) (InvocationRecord.debited r) (InvocationRecord.artifact r)
    (InvocationRecord.revoked_after_effect r) (InvocationRecord.created_at r) (InvocationRecord.updated_at r).
Definition with_terminal v (r : InvocationRecord) : InvocationRecord :=
  InvocationRecord.mk (InvocationRecord.id r) (InvocationRecord.tenant r) (InvocationRecord.capability r) (InvocationRecord.session r)
    (InvocationRecord.grant_chain r) (InvocationRecord.ledgers r) (InvocationRecord.reserved r) (InvocationRecord.state r)
    v (InvocationRecord.actual r) (InvocationRecord.debited r) (InvocationRecord.artifact r)
    (InvocationRecord.revoked_after_effect r) (InvocationRecord.created_at r) (InvocationRecord.updated_at r).
Definition with_actual v (r : InvocationRecord) : InvocationRecord :=
  InvocationRecord.mk (InvocationRecord.id r) (InvocationRecord.tenant r) (InvocationRecord.capability r) (InvocationRecord.session r)
    (InvocationRecord.grant_chain r) (InvocationRecord.ledgers r) (InvocationRecord.reserved r) (InvocationRecord.state r)
    (InvocationRecord.terminal r) v (InvocationRecord.debited r) (InvocationRecord.artifact r)
    (InvocationRecord.revoked_after_effect r) (InvocationRecord.created_at r) (InvocationRecord.updated_at r).
Definition with_debited v (r : InvocationRecord) : InvocationRecord :=
  InvocationRecord.mk (InvocationRecord.id r) (InvocationRecord.tenant r) (InvocationRecord.capability r) (InvocationRecord.session r)
    (InvocationRecord.grant_chain r) (InvocationRecord.ledgers r) (InvocationRecord.reserved r) (InvocationRecord.state r)
    (InvocationRecord.terminal r) (InvocationRecord.actual r) v (InvocationRecord.artifact r)
    (InvocationRecord.revoked_after_effect r) (InvocationRecord.created_at r) (InvocationRecord.updated_at r).
Definition with_artifact v (r : InvocationRecord) : InvocationRecord :=
  InvocationRecord.mk (InvocationRecord.id r) (InvocationRecord.tenant r) (InvocationRecord.capability r) (InvocationRecord.session r)
    (InvocationRecord.grant_chain r) (InvocationRecord.ledgers r) (InvocationRecord.reserved r) (InvocationRecord.state r)
    (InvocationRecord.terminal r) (InvocationRecord.actual r) (InvocationRecord.debited r) v
    (InvocationRecord.revoked_after_effect r) (InvocationRecord.created_at r) (InvocationRecord.updated_at r).
Definition with_revoked_after_effect v (r : InvocationRecord) : InvocationRecord :=
  InvocationRecord.mk (InvocationRecord.id r) (InvocationRecord.tenant r) (InvocationRecord.capability r) (InvocationRecord.session r)
    (InvocationRecord.grant_chain r) (InvocationRecord.ledgers r) (InvocationRecord.reserved r) (InvocationRecord.state r)
    (InvocationRecord.terminal r) (InvocationRecord.actual r) (InvocationRecord.debited r) (InvocationRecord.artifact r)
    v (InvocationRecord.created_at r) (InvocationRecord.updated_at r).
Definition with_updated_at v (r : InvocationRecord) : InvocationRecord :=
  InvocationRecord.mk (InvocationRecord.id r) (InvocationRecord.tenant r) (InvocationRecord.capability r) (InvocationRecord.session r)
    (InvocationRecord.grant_chain r) (InvocationRecord.ledgers r) (InvocationRecord.reserved r) (InvocationRecord.state r)
    (InvocationRecord.terminal r) (InvocationRecord.actual r) (InvocationRecord.debited r) (InvocationRecord.artifact r)
    (InvocationRecord.revoked_after_effect r) (InvocationRecord.created_at r) v.

(** [Transfer]: what the producer returned. *)
Module Transfer.
Record Transfer : Set := mk {
  envelope : bytes;
  source : SourceRef;
  text_view : option str;
  truncated : bool;
  output_bytes : Z;
  actual : Cost;
  revoked_after_effect : bool;
}.
End Transfer.
Abbreviation Transfer := Transfer.Transfer.

(** [SettleOutcome]. *)
Module SettleOutcome.
Inductive SettleOutcome : Set := Success | Failed (failure : Failure) (actual : Cost).
End SettleOutcome.
Abbreviation SettleOutcome := SettleOutcome.SettleOutcome.

(** [started_failure]: a failure a producer that started can report. *)
Definition started_failure (failure : Failure) : bool :=
  match failure with
  | Failure.TransferFailed _ | Failure.ExtractionFailed _ | Failure.DeadlineExceeded
  | Failure.Cancelled => true
  | _ => false
  end.


(** The audit entry of a terminal transition; [None] when the record holds no
    matching ending. *)
Definition terminal_entry (record : InvocationRecord) (next : InvocationState)
    : result StoreError AuditEntry :=
  terminal ← ok_or
    (match InvocationRecord.terminal record with
     | Some terminal => if bool_decide (terminal_state terminal = next) then Some terminal else None
     | None => None
     end)
    (StoreError.Inconsistent "terminal state without a matching terminal record");
  Ok (under_grant (head (InvocationRecord.grant_chain record))
       (in_session (InvocationRecord.session record)
         (entry_terminal (InvocationRecord.tenant record) (InvocationRecord.id record)
           (InvocationRecord.capability record) terminal))).

Section transition.
Context `{Hashes}.

(** What a step stages: it may change the record and the transaction. *)
Definition Apply : Type := Db -> InvocationRecord -> result StoreError (InvocationRecord * Db).

Definition transition_tx (now : Timestamp) (db : Db) (id : InvocationId) (step : Step)
    (boundary : Boundary) (apply : Apply) : result StoreError (Finish InvocationStatus) :=
  record ← existing_invocation db id;
  next ← authz_context (next_state (InvocationRecord.state record) step);
  '(record, db) ← apply db record;
  let record := with_updated_at now (with_state next record) in
  db ← (if is_terminal next then
          entry ← terminal_entry record next;
          '(_, db) ← append_audit now db entry;
          Ok db
        else Ok db);
  Ok (Committed (Some boundary) (status_of record) (put_invocation record db)).
Definition transition (fp : Failpoint) (now : Timestamp) (db : Db) (id : InvocationId) (step : Step)
    (boundary : Boundary) (apply : Apply) : result StoreError InvocationStatus * Db :=
  with_tx fp db (transition_tx now db id step boundary apply).

(** B2. *)
Definition dispatch (fp : Failpoint) (now : Timestamp) (db : Db) (id : InvocationId) :=
  transition fp now db id Step.Dispatch Boundary.Dispatch (fun db record => Ok (record, db)).

(** B3: the blob at its keyed address, skipped when present, and the pending
    side record. *)
Definition stage_transfer (transfer : Transfer) : Apply := fun db record =>
  let id := InvocationRecord.id record in
  let tenant := InvocationRecord.tenant record in
  let artifact := artifact_ref id in
  keys ← tenant_keys db tenant;
  let address := blob_address tenant (Transfer.envelope transfer) in
  let len := Z.of_nat (length (Transfer.envelope transfer)) in
  db ← match Db.blobs db !! (tenant, address) with
       | Some _ => Ok db
       | None =>
           _ ← check_plaintext_len (length (Transfer.envelope transfer));
           Ok (set_blobs <[(tenant, address) := seal_active keys (Transfer.envelope transfer)]> db)
       end;
  let pending := ArtifactRecord.mk artifact id tenant (InvocationRecord.session record)
    (InvocationRecord.grant_chain record) id None None (sha256 (Transfer.envelope transfer)) address
    (Z.min u64_max len) (Transfer.source transfer) (Transfer.text_view transfer)
    (Transfer.truncated transfer) (Transfer.output_bytes transfer)
    (Transfer.revoked_after_effect transfer) None in
  let db := set_pending <[(tenant, id) := seal_active keys pending]> db in
  Ok (with_revoked_after_effect (Transfer.revoked_after_effect transfer)
        (with_actual (Some (Transfer.actual transfer)) (with_artifact (Some artifact) record)), db).
Definition complete_transfer (fp : Failpoint) (now : Timestamp) (db : Db) (id : InvocationId)
    (transfer : Transfer) :=
  transition fp now db id Step.CompleteTransfer Boundary.CompleteTransfer (stage_transfer transfer).

(** The session index entry of B4. *)
Definition stage_index (now : Timestamp) (db : Db) (record : InvocationRecord) (artifact : ArtifactRef)
    : result StoreError Db :=
  match InvocationRecord.session record with
  | None => Ok db
  | Some session =>
      found ← ok_or (Db.sessions db !! session)
        (StoreError.Inconsistent "invocation names a missing session");
      let owner := SessionRecord.owner found in
      owner_keys ← tenant_keys db owner;
      let entry := SessionIndexRecord.mk artifact (InvocationRecord.tenant record) now in
      Ok (set_session_index <[(owner, session, artifact) := seal_active owner_keys entry]> db)
  end.
(** B4, the atomic publish point. *)
Definition published_record (now : Timestamp) (a : ArtifactRecord) : ArtifactRecord :=
  ArtifactRecord.mk (ArtifactRecord.artifact a) (ArtifactRecord.invocation a) (ArtifactRecord.tenant a)
    (ArtifactRecord.session a) (ArtifactRecord.grant_chain a) (ArtifactRecord.reservation a)
    (ArtifactRecord.classification a) (ArtifactRecord.lineage a) (ArtifactRecord.provenance_digest a)
    (ArtifactRecord.blob_address a) (ArtifactRecord.blob_len a) (ArtifactRecord.source a)
    (ArtifactRecord.text_view a) (ArtifactRecord.truncated a) (ArtifactRecord.output_bytes a)
    (ArtifactRecord.revoked_after_effect a) (Some now).
Definition stage_publish (now : Timestamp) : Apply := fun db record =>
  let tenant := InvocationRecord.tenant record in
  let id := InvocationRecord.id record in
  keys ← tenant_keys db tenant;
  pending ← get_sealed (openers keys) (Db.pending db !! (tenant, id));
  artifact ← ok_or pending
    (StoreError.Inconsistent "transfer-complete invocation has no pending record");
  let name := ArtifactRecord.artifact artifact in
  _ ← ensure (bool_decide (Db.locators db !! name = None))
        (StoreError.Inconsistent "artifact is already published");
  let artifact := published_record now artifact in
  let db := set_artifacts <[(tenant, name) := seal_active keys artifact]> db in
  let db := set_pending (delete (tenant, id)) db in
  let locator := LocatorRecord.mk name tenant (InvocationRecord.session record) in
  let db := set_locators <[name := locator]> db in
  db ← stage_index now db record name;
  Ok (record, db).
Definition publish (fp : Failpoint) (now : Timestamp) (db : Db) (id : InvocationId) :=
  transition fp now db id Step.Publish Boundary.Publish (stage_publish now).

(** [apply_settlement]: returns the release to every ledger the reservation
    debited and records the debit. *)
Fixpoint release_all (db : Db) (ledgers : list LedgerRef) (amount : Cost) : result StoreError Db :=
  match ledgers with
  | [] => Ok db
  | ledger :: ledgers =>
      used ← authz_context (Budget.release (view_ledger db ledger) amount);
      release_all (put_ledger ledger used db) ledgers amount
  end.
Definition apply_settlement (settlement : Settlement) : Apply := fun db record =>
  db ← release_all db (InvocationRecord.ledgers record) (Settlement.release settlement);
  Ok (with_debited (Some (Settlement.debit settlement)) record, db).

(** B5: [settle]. *)
Definition settle_input (record : InvocationRecord) (outcome : SettleOutcome)
    : result StoreError (Cost * option Failure) :=
  match InvocationRecord.state record, outcome with
  | InvocationState.Published, SettleOutcome.Success =>
      actual ← ok_or (InvocationRecord.actual record)
        (StoreError.Inconsistent "published invocation has no recorded consumption");
      Ok (actual, None)
  | InvocationState.Dispatched, SettleOutcome.Failed failure actual =>
      if started_failure failure then Ok (actual, Some failure)
      else Err (StoreError.SettleMismatch InvocationState.Dispatched)
  | state, _ => Err (StoreError.SettleMismatch state)
  end.
Definition stage_settle (outcome : SettleOutcome) : Apply := fun db record =>
  '(actual, failure) ← settle_input record outcome;
  settlement ← match Budget.settle (InvocationRecord.reserved record) actual with
               | Ok settlement | Err (Error.SettleOverrun _ _ _ settlement) => Ok settlement
               | Err e => Err (StoreError.Authz e)
               end;
  apply_settlement settlement db
    (with_terminal (Some (Terminal.Settled failure)) (with_actual (Some actual) record)).
Definition settle (fp : Failpoint) (now : Timestamp) (db : Db) (id : InvocationId)
    (outcome : SettleOutcome) :=
  transition fp now db id Step.Settle Boundary.Terminal (stage_settle outcome).

(** B5: [release]. *)
Definition stage_release (reason : ReleaseReason) : Apply := fun db record =>
  apply_settlement (Settlement.mk cost_default (InvocationRecord.reserved record)) db
    (with_terminal (Some (Terminal.Released reason)) record).
Definition release (fp : Failpoint) (now : Timestamp) (db : Db) (id : InvocationId)
    (reason : ReleaseReason) :=
  transition fp now db id (Step.Release reason) Boundary.Terminal (stage_release reason).

(** B5: [mark_unknown_effect]. *)
Definition stage_unknown_effect : Apply := fun db record =>
  apply_settlement (unknown_effect_settlement (InvocationRecord.reserved record)) db
    (with_terminal (Some Terminal.UnknownEffect) record).
Definition mark_unknown_effect (fp : Failpoint) (now : Timestamp) (db : Db) (id : InvocationId) :=
  transition fp now db id Step.MarkUnknownEffect Boundary.Terminal stage_unknown_effect.
End transition.
