(* ===== verification/Directory.v ===== *)
(** * Tenant, grant, revocation and session writes ([phylake::store::directory]) *)
From S2P Require Import Prelude Vocab Ids Payload Epitrope Origin View Chain Issue.
From S2P Require Import Budget Lifecycle Records Store StoreAudit.
Local Open Scope Z_scope.

(** [TenantRegistration]. *)
Module TenantRegistration.
Record TenantRegistration : Set := mk {
  id : TenantId;
  class : TenantClass;
  verifying_key : bytes;
  bound_uids : list Z;
  parent : option TenantId;
  ceilings : Ceilings;
}.
End TenantRegistration.
Abbreviation TenantRegistration := TenantRegistration.TenantRegistration.

(** [RootGrant] and [RootGrant::to_grant]. *)
Module RootGrant.
Record RootGrant : Type := mk {
  id : GrantId;
  holder : TenantId;
  capabilities : gset Capability;
  session_scope : SessionScope;
  target_scope : list str;
  audit_scope : AuditScope;
  ceilings : Ceilings;
  not_before : Timestamp;
  expires_at : Timestamp;
  max_depth : Z;
}.
End RootGrant.
Abbreviation RootGrant := RootGrant.RootGrant.
Definition root_to_grant (r : RootGrant) : result StoreError Grant :=
  target_scope ← authz_context (scope_parse (RootGrant.target_scope r));
  Ok (Grant.mk (RootGrant.id r) (RootGrant.holder r) (RootGrant.holder r) (RootGrant.capabilities r)
        (RootGrant.session_scope r) target_scope (RootGrant.audit_scope r) (RootGrant.ceilings r)
        (RootGrant.not_before r) (RootGrant.expires_at r) None 0 (RootGrant.max_depth r)).

(** [GrantIssue], [IssueOutcome], [RevokeGrant], [NewSession]. *)
Module GrantIssue.
Record GrantIssue : Type := mk {
  context : IssueContext; request : GrantIssueRequest; invocation : InvocationId }.
End GrantIssue.
Abbreviation GrantIssue := GrantIssue.GrantIssue.
Module IssueOutcome.
Inductive IssueOutcome : Set :=
| Issued (grant parent : GrantId)
| Refused (failure : Failure).
End IssueOutcome.
Abbreviation IssueOutcome := IssueOutcome.IssueOutcome.
Module RevokeGrant.
Record RevokeGrant : Set := mk { actor : TenantId; grant : GrantId; invocation : InvocationId }.
End RevokeGrant.
Abbreviation RevokeGrant := RevokeGrant.RevokeGrant.
Module NewSession.
Record NewSession : Set := mk {
  session : SessionId; owner : TenantId; ceilings : Ceilings; invocation : InvocationId }.
End NewSession.
Abbreviation NewSession := NewSession.NewSession.

(** [same_identity]. *)
Definition same_identity (existing : TenantRecord) (registration : TenantRegistration) : bool :=
  bool_decide (TenantRecord.class existing = TenantRegistration.class registration)
  && bool_decide (TenantRecord.verifying_key existing = TenantRegistration.verifying_key registration)
  && bool_decide (TenantRecord.bound_uids existing = TenantRegistration.bound_uids registration)
  && bool_decide (TenantRecord.parent existing = TenantRegistration.parent registration)
  && bool_decide (TenantRecord.ceilings existing = TenantRegistration.ceilings registration).

(** [register_tenant]. *)
Definition register_tenant_tx (now : Timestamp) (db : Db) (registration : TenantRegistration)
    : result StoreError (Finish unit) :=
  let id := TenantRegistration.id registration in
  match Db.tenants db !! id with
  | Some existing =>
      _ ← ensure (same_identity existing registration) (StoreError.Conflict "tenant");
      Ok (Dropped tt)
  | None =>
      _ ← ensure (bool_decide (Db.tombstones db !! id = None)) (StoreError.TenantShredded id);
      _ ← match TenantRegistration.parent registration with
          | Some parent =>
              ensure (bool_decide (is_Some (Db.tenants db !! parent))) (StoreError.TenantMissing parent)
          | None => Ok tt
          end;
      let db := set_data_keys (union {[(id, INITIAL_DATA_KEY_ID)]}) db in
      let record := TenantRecord.mk id (TenantRegistration.class registration)
        (TenantRegistration.verifying_key registration) (TenantRegistration.bound_uids registration)
        (TenantRegistration.parent registration) (TenantRegistration.ceilings registration)
        INITIAL_DATA_KEY_ID now in
      Ok (Committed None tt (set_tenants <[id := record]> db))
  end.
Definition register_tenant (fp : Failpoint) (now : Timestamp) (db : Db)
    (registration : TenantRegistration) : result StoreError unit * Db :=
  with_tx fp db (register_tenant_tx now db registration).

(** [put_new_grant]: whether it staged a write. *)
Definition put_new_grant (db : Db) (record : GrantRecord) : result StoreError (bool * Db) :=
  match Db.grants db !! GrantRecord.id record with
  | Some existing =>
      _ ← ensure (bool_decide (existing = record)) (StoreError.Conflict "grant");
      Ok (false, db)
  | None => Ok (true, set_grants <[GrantRecord.id record := record]> db)
  end.

(** [install_root_grant]. *)
Definition install_root_grant_tx (db : Db) (root : RootGrant) : result StoreError (Finish unit) :=
  grant ← root_to_grant root;
  _ ← ensure (bool_decide (is_Some (Db.tenants db !! RootGrant.holder root)))
        (StoreError.TenantMissing (RootGrant.holder root));
  let record := from_grant grant (RootGrant.target_scope root) in
  '(staged, db) ← put_new_grant db record;
  Ok (if staged : bool then Committed None tt db else Dropped tt).
Definition install_root_grant (fp : Failpoint) (db : Db) (root : RootGrant)
    : result StoreError unit * Db :=
  with_tx fp db (install_root_grant_tx db root).

(** [issued_from]: whether a stored child is the one a request asks for. *)
Definition issued_from (db : Db) (existing : GrantRecord) (request : GrantIssueRequest) : bool :=
  let max_depth :=
    match GrantIssueRequest.max_depth request with
    | Some max_depth => Some max_depth
    | None =>
        match GrantRecord.parent existing with
        | Some parent => GrantRecord.max_depth <$> Db.grants db !! parent
        | None => None
        end
    end in
  bool_decide (GrantRecord.holder existing = GrantIssueRequest.holder request)
  && bool_decide (list_to_set (GrantRecord.capabilities existing)
                  =@{gset Capability} list_to_set (GrantIssueRequest.capabilities request))
  && bool_decide (GrantRecord.session_scope existing = GrantIssueRequest.session_scope request)
  && bool_decide (GrantRecord.target_patterns existing = GrantIssueRequest.target_scope request)
  && bool_decide (GrantRecord.ceilings existing = GrantIssueRequest.ceilings request)
  && bool_decide (GrantRecord.not_before existing = GrantIssueRequest.not_before request)
  && bool_decide (GrantRecord.expires_at existing = GrantIssueRequest.expires_at request)
  && bool_decide (Some (GrantRecord.max_depth existing) = max_depth).

(** The audit entry and commit that end [issue_grant]. *)
Definition issue_finish (now : Timestamp) (db : Db) (issue : GrantIssue) (outcome : IssueOutcome)
    (state : InvocationState) : result StoreError (Finish IssueOutcome) :=
  let context := GrantIssue.context issue in
  let kind := match outcome with
              | IssueOutcome.Issued _ _ => OutcomeKind.Success
              | IssueOutcome.Refused failure => failure_kind failure
              end in
  let entry := under_grant (Some (IssueContext.designated context))
    (entry_new (IssueContext.issuer context) (GrantIssue.invocation issue) Capability.GrantIssue
       state kind) in
  '(_, db) ← append_audit now db entry;
  Ok (Committed None outcome db).

(** [issue_grant]. *)
Definition issue_grant_tx (now : Timestamp) (db : Db) (issue : GrantIssue)
    : result StoreError (Finish IssueOutcome) :=
  let context := GrantIssue.context issue in
  let designated := IssueContext.designated context in
  let request := GrantIssue.request issue in
  let decide_new :=
    decision ← authz_context (check_issue db context request now);
    match decision with
    | IssueDecision.Issued child =>
        let record := from_grant child (GrantIssueRequest.target_scope request) in
        let outcome := IssueOutcome.Issued (GrantRecord.id record) designated in
        '(staged, db) ← put_new_grant db record;
        if staged : bool then issue_finish now db issue outcome InvocationState.Settled
        else Ok (Dropped outcome)
    | refused =>
        let failure := default Failure.NotFoundOrDenied (issue_refusal refused) in
        issue_finish now db issue (IssueOutcome.Refused failure) InvocationState.Denied
    end in
  match Db.grants db !! IssueContext.child context with
  | Some existing =>
      if bool_decide (GrantRecord.issuer existing = IssueContext.issuer context)
         && bool_decide (GrantRecord.parent existing = Some designated)
      then
        _ ← ensure (issued_from db existing request) (StoreError.Conflict "grant");
        Ok (Dropped (IssueOutcome.Issued (GrantRecord.id existing) designated))
      else decide_new
  | None => decide_new
  end.
Definition issue_grant (fp : Failpoint) (now : Timestamp) (db : Db) (issue : GrantIssue)
    : result StoreError IssueOutcome * Db :=
  with_tx fp db (issue_grant_tx now db issue).

(** [revoke_grant]. *)
Definition revoke_grant_tx (now : Timestamp) (db : Db) (revoke : RevokeGrant)
    : result StoreError (Finish (option Revocation)) :=
  match Db.grants db !! RevokeGrant.grant revoke with
  | None => Ok (Dropped None)
  | Some _ =>
      match Db.revocations db !! RevokeGrant.grant revoke with
      | Some existing => Ok (Dropped (Some (to_revocation existing)))
      | None =>
          let entry := entry_new (RevokeGrant.actor revoke) (RevokeGrant.invocation revoke)
            Capability.GrantRevoke InvocationState.Settled OutcomeKind.Success in
          '(at_seq, db) ← append_audit now db entry;
          let record := RevocationRecord.mk (RevokeGrant.grant revoke) at_seq now (RevokeGrant.actor revoke) in
          Ok (Committed None (Some (to_revocation record))
                (set_revocations <[RevokeGrant.grant revoke := record]> db))
      end
  end.
Definition revoke_grant (fp : Failpoint) (now : Timestamp) (db : Db) (revoke : RevokeGrant)
    : result StoreError (option Revocation) * Db :=
  with_tx fp db (revoke_grant_tx now db revoke).

(** [session_opened], [open_session], [create_session], [fork_session]. *)
Definition session_opened (new : NewSession) (parent : option SessionId) : SessionOpened :=
  SessionOpened.mk (NewSession.session new) (NewSession.owner new) parent.
Definition open_session_tx (now : Timestamp) (db : Db) (new : NewSession) (parent : option SessionId)
    : result StoreError (Finish (option SessionOpened)) :=
  let opened := session_opened new parent in
  _ ← ensure (bool_decide (is_Some (Db.tenants db !! NewSession.owner new)))
        (StoreError.TenantMissing (NewSession.owner new));
  let parent_missing := match parent with
                        | Some parent => bool_decide (Db.sessions db !! parent = None)
                        | None => false
                        end in
  if parent_missing : bool then Ok (Dropped None)
  else match Db.sessions db !! NewSession.session new with
  | Some existing =>
      _ ← ensure (bool_decide (SessionRecord.owner existing = NewSession.owner new)
                  && bool_decide (SessionRecord.parent existing = parent)
                  && bool_decide (SessionRecord.ceilings existing = NewSession.ceilings new))
            (StoreError.Conflict "session");
      Ok (Dropped (Some opened))
  | None =>
      let record := SessionRecord.mk (NewSession.session new) (NewSession.owner new) parent
        (NewSession.ceilings new) now in
      let db := set_sessions <[NewSession.session new := record]> db in
      let capability := match parent with
                        | Some _ => Capability.SessionFork
                        | None => Capability.SessionCreate
                        end in
      let entry := in_session (Some (NewSession.session new))
        (entry_new (NewSession.owner new) (NewSession.invocation new) capability
           InvocationState.Settled OutcomeKind.Success) in
      '(_, db) ← append_audit now db entry;
      Ok (Committed None (Some opened) db)
  end.
Definition open_session (fp : Failpoint) (now : Timestamp) (db : Db) (new : NewSession)
    (parent : option SessionId) : result StoreError (option SessionOpened) * Db :=
  with_tx fp db (open_session_tx now db new parent).
Definition create_session (fp : Failpoint) (now : Timestamp) (db : Db) (new : NewSession)
    : result StoreError SessionOpened * Db :=
  let '(opened, db) := open_session fp now db new None in
  (default (session_opened new None) <$> opened, db).
Definition fork_session (fp : Failpoint) (now : Timestamp) (db : Db) (new : NewSession)
    (parent : SessionId) : result StoreError (option SessionOpened) * Db :=
  open_session fp now db new (Some parent).
