(* ===== verification/Claim.v ===== *)
(** * Idempotency claims and standalone audit entries ([phylake::store::claim]) *)
From S2P Require Import Prelude Vocab Ids Payload Epitrope View Lifecycle Records Store StoreAudit.
From S2P Require Import Invocation.
Local Open Scope Z_scope.

(** [IdemClaim]. *)
Module IdemClaim.
Record IdemClaim : Set := mk {
  tenant : TenantId;
  grant : GrantId;
  capability : Capability;
  key : IdempotencyKey;
  request_digest : bytes;
  invocation : InvocationId;
}.
End IdemClaim.
Abbreviation IdemClaim := IdemClaim.IdemClaim.

(** [Claimed]. *)
Module Claimed.
Inductive Claimed : Set :=
| Fresh (invocation : InvocationId)
| Replay (invocation : InvocationId)
| Conflict.
End Claimed.
Abbreviation Claimed := Claimed.Claimed.

(** [AuditOutcome] and [AuditNote]. *)
Module AuditOutcome.
Inductive AuditOutcome : Set := Refused (failure : Failure) | Completed (failure : option Failure).
End AuditOutcome.
Abbreviation AuditOutcome := AuditOutcome.AuditOutcome.
Module AuditNote.
Record AuditNote : Set := mk {
  tenant : TenantId;
  invocation : InvocationId;
  capability : Capability;
  session : option SessionId;
  outcome : AuditOutcome;
  grant : option GrantId;
  audit_scope : option AuditScope;
}.
End AuditNote.
Abbreviation AuditNote := AuditNote.AuditNote.

(** What [IdemClaim::binding] feeds to the hash. *)
Definition claim_input (claim : IdemClaim) : bytes :=
  let name := enum_name (IdemClaim.capability claim) in
  lit "dioptron/v1/idem-claim" ++ IdemClaim.request_digest claim
  ++ GrantId_to_bytes (IdemClaim.grant claim)
  ++ to_le_bytes 8 (Z.min u64_max (Z.of_nat (length name))) ++ name.

(** [compare]. *)
Definition compare (existing : IdemRecord) (binding : bytes) : Claimed :=
  if bool_decide (IdemRecord.request_binding existing = binding)
  then Claimed.Replay (IdemRecord.invocation existing)
  else Claimed.Conflict.

Section claim.
Context `{Hashes}.

Definition claim_binding (claim : IdemClaim) : bytes := sha256 (claim_input claim).
Definition claim_slot (claim : IdemClaim) : TenantId * Capability * IdempotencyKey :=
  (IdemClaim.tenant claim, IdemClaim.capability claim, IdemClaim.key claim).

(** [Store::claim]: opens an existing entry under the active key only. *)
Definition claim_tx (db : Db) (claim : IdemClaim) : result StoreError (Finish Claimed) :=
  keys ← tenant_keys db (IdemClaim.tenant claim);
  existing ← get_sealed [TenantKeyring.key_id keys] (Db.idem db !! claim_slot claim);
  match existing with
  | Some existing => Ok (Dropped (compare existing (claim_binding claim)))
  | None =>
      let record := IdemRecord.mk (IdemClaim.invocation claim) (claim_binding claim) in
      Ok (Committed None (Claimed.Fresh (IdemClaim.invocation claim))
            (set_idem <[claim_slot claim := seal_active keys record]> db))
  end.
Definition claim (fp : Failpoint) (db : Db) (c : IdemClaim) : result StoreError Claimed * Db :=
  with_tx fp db (claim_tx db c).

(** [Store::claimed]: the same lookup, without writing. *)
Definition claimed (db : Db) (c : IdemClaim) : result StoreError (option Claimed) :=
  keys ← tenant_keys db (IdemClaim.tenant c);
  existing ← get_sealed [TenantKeyring.key_id keys] (Db.idem db !! claim_slot c);
  Ok (match existing with Some existing => Some (compare existing (claim_binding c)) | None => None end).
End claim.

(** [Store::record_audit]. *)
Definition note_entry (note : AuditNote) : AuditEntry :=
  with_audit_scope (AuditNote.audit_scope note)
    (under_grant (AuditNote.grant note)
      (in_session (AuditNote.session note)
        match AuditNote.outcome note with
        | AuditOutcome.Refused failure =>
            entry_new (AuditNote.tenant note) (AuditNote.invocation note) (AuditNote.capability note)
              InvocationState.Denied (failure_kind failure)
        | AuditOutcome.Completed failure =>
            entry_terminal (AuditNote.tenant note) (AuditNote.invocation note)
              (AuditNote.capability note) (Terminal.Settled failure)
        end)).
Definition record_audit_tx (now : Timestamp) (db : Db) (note : AuditNote)
    : result StoreError (Finish AuditSeq) :=
  '(seq, db) ← append_audit now db (note_entry note);
  Ok (Committed None seq db).
Definition record_audit (fp : Failpoint) (now : Timestamp) (db : Db) (note : AuditNote)
    : result StoreError AuditSeq * Db :=
  with_tx fp db (record_audit_tx now db note).
