(* ===== verification/Shred.v ===== *)
(** * Crypto-shredding ([phylake::store::shred]) *)
From S2P Require Import Prelude Vocab Ids Payload Epitrope View Lifecycle Records Store.
Local Open Scope Z_scope.

(** [has_open_invocations]: whether an invocation of the tenant, or in a
    session it owns, is not terminal. *)
Definition owned_sessions (db : Db) (tenant : TenantId) : gset SessionId :=
  list_to_set (omap (fun '(_, session) =>
    if bool_decide (SessionRecord.owner session = tenant) then Some (SessionRecord.id session) else None)
    (map_to_list (Db.sessions db))).
Definition involved (owned : gset SessionId) (tenant : TenantId) (record : InvocationRecord) : bool :=
  bool_decide (InvocationRecord.tenant record = tenant)
  || match InvocationRecord.session record with
     | Some s => bool_decide (s ∈ owned)
     | None => false
     end.
Definition has_open_invocations (db : Db) (tenant : TenantId) : bool :=
  let owned := owned_sessions db tenant in
  existsb (fun '(_, record) =>
    involved owned tenant record && negb (is_terminal (InvocationRecord.state record)))
    (map_to_list (Db.invocations db)).

(** [shred_tenant]. *)
Definition shred_tenant_tx (now : Timestamp) (db : Db) (tenant : TenantId)
    : result StoreError (Finish unit) :=
  match Db.tombstones db !! tenant with
  | Some _ => Ok (Dropped tt)
  | None =>
      record ← ok_or (Db.tenants db !! tenant) (StoreError.TenantMissing tenant);
      _ ← ensure (negb (has_open_invocations db tenant)) (StoreError.TenantBusy tenant);
      let db := set_data_keys (fun k => k ∖ {[(tenant, TenantRecord.data_key_id record)]}) db in
      let db := match Db.rekey db !! tenant with
                | Some rekey =>
                    let db := if negb (RekeyRecord.is_done rekey)
                              then set_data_keys
                                     (fun k => k ∖ {[(tenant, RekeyRecord.from_key_id rekey)]}) db
                              else db in
                    set_rekey (delete tenant) db
                | None => db
                end in
      let db := set_address_keys (fun k => k ∖ {[tenant]}) db in
      let db := set_tenants (delete tenant) db in
      Ok (Committed None tt (set_tombstones <[tenant := TombstoneRecord.mk tenant now]> db))
  end.
Definition shred_tenant (fp : Failpoint) (now : Timestamp) (db : Db) (tenant : TenantId)
    : result StoreError unit * Db :=
  with_tx fp db (shred_tenant_tx now db tenant).
