(* ===== verification/Recovery.v ===== *)
(** * Restart recovery ([phylake::store::recovery]) *)
From S2P Require Import Prelude Vocab Ids Payload Epitrope View Budget Lifecycle Records Store.
From S2P Require Import StoreAudit Invocation Transition.
Local Open Scope Z_scope.

(** [RecoveryReport]: four [u32] counters. *)
Module RecoveryReport.
Record RecoveryReport : Set := mk {
  released : Z; unknown_effect : Z; published : Z; settled : Z }.
End RecoveryReport.
Abbreviation RecoveryReport := RecoveryReport.RecoveryReport.
Definition report_default : RecoveryReport := RecoveryReport.mk 0 0 0 0.
Definition report_is_empty (r : RecoveryReport) : bool :=
  (RecoveryReport.released r =? 0) && (RecoveryReport.unknown_effect r =? 0)
  && (RecoveryReport.published r =? 0) && (RecoveryReport.settled r =? 0).
Definition bump (z : Z) : Z := saturating_add u32_max z 1.

(** [open_invocations] over a scan of the keyspace. The scan is in the order
    of the physical keys, which are keyed hashes, so the order is a
    parameter of the model. *)
Definition open_invocations (scan : list InvocationRecord) : list (InvocationId * RecoveryAction) :=
  omap (fun record =>
    (fun action => (InvocationRecord.id record, action)) <$> recovery_action (InvocationRecord.state record))
    scan.

Section recovery.
Context `{Hashes}.

(** One iteration of the loop of [recover]. *)
Definition recover_one (fp : Failpoint) (now : Timestamp) (db : Db) (report : RecoveryReport)
    (id : InvocationId) (action : RecoveryAction) : result StoreError RecoveryReport * Db :=
  let '(RecoveryReport.mk released unknown published settled) := report in
  match action with
  | RecoveryAction.ReleaseAbandoned =>
      let '(r, db) := release fp now db id ReleaseReason.Abandoned in
      (_ ← r; Ok (RecoveryReport.mk (bump released) unknown published settled), db)
  | RecoveryAction.MarkUnknownEffect =>
      let '(r, db) := mark_unknown_effect fp now db id in
      (_ ← r; Ok (RecoveryReport.mk released (bump unknown) published settled), db)
  | RecoveryAction.RollForwardPublish =>
      let '(r, db) := publish fp now db id in
      match r with
      | Err e => (Err e, db)
      | Ok _ =>
          let '(r, db) := settle fp now db id SettleOutcome.Success in
          (_ ← r; Ok (RecoveryReport.mk released unknown (bump published) settled), db)
      end
  | RecoveryAction.RollForwardSettle =>
      let '(r, db) := settle fp now db id SettleOutcome.Success in
      (_ ← r; Ok (RecoveryReport.mk released unknown published (bump settled)), db)
  end.
(** The loop: stops at the first error, leaving the store as it then is. *)
Fixpoint recover_loop (fp : Failpoint) (now : Timestamp) (db : Db) (report : RecoveryReport)
    (work : list (InvocationId * RecoveryAction)) : result StoreError RecoveryReport * Db :=
  match work with
  | [] => (Ok report, db)
  | (id, action) :: work =>
      match recover_one fp now db report id action with
      | (Ok report, db) => recover_loop fp now db report work
      | (Err e, db) => (Err e, db)
      end
  end.
Definition recover (fp : Failpoint) (now : Timestamp) (db : Db) (scan : list InvocationRecord)
    : result StoreError RecoveryReport * Db :=
  recover_loop fp now db report_default (open_invocations scan).
End recovery.
