(* ===== verification/Read.v ===== *)
(** * Artifact reads ([phylake::store::read]) *)
From stdpp Require Import sorting.
From S2P Require Import Prelude Vocab Ids Payload Epitrope View Lifecycle Records Store.
Local Open Scope Z_scope.

(** [ArtifactInfo]. *)
Module ArtifactInfo.
Record ArtifactInfo : Set := mk {
  artifact : ArtifactRef;
  owner : TenantId;
  session : option SessionId;
  grant_chain : list GrantId;
  source : SourceRef;
  text_view : option str;
  truncated : bool;
  output_bytes : Z;
  envelope_len : Z;
  revoked_after_effect : bool;
  published_at : Timestamp;
}.
End ArtifactInfo.
Abbreviation ArtifactInfo := ArtifactInfo.ArtifactInfo.

(** [published]: the side record and its owner's keys, through the locator. *)
Definition published (db : Db) (artifact : ArtifactRef)
    : result StoreError (option (ArtifactRecord * TenantKeyring)) :=
  match Db.locators db !! artifact with
  | None => Ok None
  | Some locator =>
      let owner := LocatorRecord.owner locator in
      keys ← live_tenant_keys db owner;
      match keys with
      | None => Ok None
      | Some keys =>
          record ← get_sealed (openers keys) (Db.artifacts db !! (owner, artifact));
          record ← ok_or record (StoreError.Inconsistent "artifact locator has no side record");
          Ok (Some (record, keys))
      end
  end.

(** [Store::artifact]. *)
Definition artifact (db : Db) (a : ArtifactRef) : result StoreError (option ArtifactInfo) :=
  found ← published db a;
  match found with
  | None => Ok None
  | Some (record, _) =>
      published_at ← ok_or (ArtifactRecord.published_at record)
        (StoreError.Inconsistent "published side record has no publish time");
      Ok (Some (ArtifactInfo.mk (ArtifactRecord.artifact record) (ArtifactRecord.tenant record)
        (ArtifactRecord.session record) (ArtifactRecord.grant_chain record) (ArtifactRecord.source record)
        (ArtifactRecord.text_view record) (ArtifactRecord.truncated record)
        (ArtifactRecord.output_bytes record) (ArtifactRecord.blob_len record)
        (ArtifactRecord.revoked_after_effect record) published_at))
  end.

(** [Store::read_artifact]: a chunk of the verbatim envelope. *)
Definition envelope_chunk (envelope : bytes) (offset len : Z) : bytes :=
  let total := Z.of_nat (length envelope) in
  let start := Z.min offset total in
  let stop := Z.min (saturating_add u64_max start len) total in
  take (Z.to_nat (stop - start)) (drop (Z.to_nat start) envelope).
Definition read_artifact (db : Db) (a : ArtifactRef) (offset len : Z)
    : result StoreError (option ReadChunk) :=
  found ← published db a;
  match found with
  | None => Ok None
  | Some (record, keys) =>
      sealed ← ok_or (Db.blobs db !! (ArtifactRecord.tenant record, ArtifactRecord.blob_address record))
        (StoreError.Inconsistent "published artifact has no blob");
      envelope ← open_sealed (openers keys) sealed;
      Ok (Some (ReadChunk.mk offset (envelope_chunk envelope offset len)
                  (Z.min u64_max (Z.of_nat (length envelope)))))
  end.

(** [Store::session_artifacts]: the range scan of the session's index, in
    artifact id order. *)
Definition artifact_key (a : ArtifactRef) : Z := from_be_bytes (ArtifactRef_to_bytes a).
Definition by_artifact (p q : ArtifactRef * Sealed SessionIndexRecord) : Prop :=
  artifact_key p.1 <= artifact_key q.1.
#[global] Instance by_artifact_dec : RelDecision by_artifact.
Proof. intros p q. unfold by_artifact. apply _. Defined.
Definition index_range (db : Db) (owner : TenantId) (session : SessionId) (after : option ArtifactRef)
    : list (ArtifactRef * Sealed SessionIndexRecord) :=
  merge_sort by_artifact
    (omap (fun '((t, s, a), sealed) =>
             if bool_decide (t = owner) && bool_decide (s = session)
                && match after with None => true | Some b => artifact_key b <? artifact_key a end
             then Some (a, sealed) else None)
       (map_to_list (Db.session_index db))).
(** The loop, with the references collected so far in reverse. *)
Fixpoint index_loop (keys : list Z) (limit : nat) (refs : list ArtifactRef)
    (entries : list (ArtifactRef * Sealed SessionIndexRecord)) : result StoreError QueryPage :=
  match entries with
  | [] => Ok (QueryPage.mk (reverse refs) false)
  | (_, sealed) :: entries =>
      if Nat.leb limit (length refs) then Ok (QueryPage.mk (reverse refs) true)
      else
        entry ← open_sealed keys sealed;
        index_loop keys limit (SessionIndexRecord.artifact entry :: refs) entries
  end.
Definition session_artifacts (db : Db) (session : SessionId) (after : option ArtifactRef) (limit : Z)
    : result StoreError (option QueryPage) :=
  match Db.sessions db !! session with
  | None => Ok None
  | Some record =>
      keys ← live_tenant_keys db (SessionRecord.owner record);
      match keys with
      | None => Ok None
      | Some keys =>
          page ← index_loop (openers keys) (Z.to_nat limit) []
            (index_range db (SessionRecord.owner record) session after);
          Ok (Some page)
      end
  end.
