(* ===== verification/Rekey.v ===== *)
(** * Tenant data-key rotation ([phylake::store::rekey])

    A rotation stores a new data key and makes it active, walks every
    tenant-sealed keyspace in key order re-sealing the tenant's records in
    batches, and at the end deletes the old key. Each step is one
    transaction and the walk's position is stored, so a rotation resumes
    where a crash stopped it. *)
From stdpp Require Import sorting.
From S2P Require Import Prelude Vocab Ids Payload Epitrope View Lifecycle Records Store Seal.
From S2P Require Import StoreAudit Invocation.
Local Open Scope Z_scope.

(** ** The walk *)

(** The record kinds of the walked keyspaces ([records::kind]). *)
Definition walk_kind (k : WalkKey) : Z :=
  match k with
  | WalkKey.Idem _ => 7
  | WalkKey.Artifact _ => 9
  | WalkKey.Pending _ => 10
  | WalkKey.Locator _ => 11
  | WalkKey.Blob _ => 12
  | WalkKey.SessionIndex _ => 13
  | WalkKey.Audit _ => 14
  end.

Module WalkStep.
Record WalkStep : Set := mk { keyspace : Keyspace; slots : list Z }.
End WalkStep.
Abbreviation WalkStep := WalkStep.WalkStep.
Definition WALK : list WalkStep := [
  WalkStep.mk Keyspace.Idem [7];
  WalkStep.mk Keyspace.Artifacts [9; 10];
  WalkStep.mk Keyspace.Blobs [12];
  WalkStep.mk Keyspace.SessionIndex [13];
  WalkStep.mk Keyspace.Audit [14]].
(** [WALK.get(usize::from(keyspace))]. *)
Definition walk_get (keyspace : Z) : option WalkStep := WALK !! Z.to_nat keyspace.

(** The records of the keyspace at position [step] of the walk. *)
Definition walk_keys (db : Db) (step : Z) : list WalkKey :=
  match Z.to_nat step with
  | 0%nat => WalkKey.Idem <$> (map_to_list (Db.idem db)).*1
  | 1%nat => (WalkKey.Artifact <$> (map_to_list (Db.artifacts db)).*1)
             ++ (WalkKey.Pending <$> (map_to_list (Db.pending db)).*1)
             ++ (WalkKey.Locator <$> (map_to_list (Db.locators db)).*1)
  | 2%nat => WalkKey.Blob <$> (map_to_list (Db.blobs db)).*1
  | 3%nat => WalkKey.SessionIndex <$> (map_to_list (Db.session_index db)).*1
  | 4%nat => WalkKey.Audit <$> (map_to_list (Db.audit db)).*1
  | _ => []
  end.

(** The key id in the header of a tenant-sealed value ([sealed_key_id]); a
    locator is sealed under the store's key, which no tenant key opens. *)
Definition header (db : Db) (k : WalkKey) : option Z :=
  match k with
  | WalkKey.Idem slot => Sealed.key_id <$> Db.idem db !! slot
  | WalkKey.Artifact slot => Sealed.key_id <$> Db.artifacts db !! slot
  | WalkKey.Pending slot => Sealed.key_id <$> Db.pending db !! slot
  | WalkKey.Locator _ => None
  | WalkKey.Blob slot => Sealed.key_id <$> Db.blobs db !! slot
  | WalkKey.SessionIndex slot => Sealed.key_id <$> Db.session_index db !! slot
  | WalkKey.Audit slot => Sealed.key_id <$> Db.audit db !! slot
  end.
(** The value at [k], opened and sealed again under [id]. *)
Definition sealed_as {A} (id : Z) (s : Sealed A) : Sealed A := Sealed.mk id (Sealed.plain s).
Definition seal_as (id : Z) (k : WalkKey) (db : Db) : Db :=
  match k with
  | WalkKey.Idem slot => set_idem (alter (sealed_as id) slot) db
  | WalkKey.Artifact slot => set_artifacts (alter (sealed_as id) slot) db
  | WalkKey.Pending slot => set_pending (alter (sealed_as id) slot) db
  | WalkKey.Locator _ => db
  | WalkKey.Blob slot => set_blobs (alter (sealed_as id) slot) db
  | WalkKey.SessionIndex slot => set_session_index (alter (sealed_as id) slot) db
  | WalkKey.Audit slot => set_audit (alter (sealed_as id) slot) db
  end.

(** [RekeyStatus] and its conversion. *)
Module RekeyStatus.
Record RekeyStatus : Set := mk {
  tenant : TenantId;
  from_key_id : Z;
  to_key_id : Z;
  keyspace : option Keyspace;
  visited : Z;
  resealed : Z;
  total : Z;
  is_done : bool;
}.
End RekeyStatus.
Abbreviation RekeyStatus := RekeyStatus.RekeyStatus.
Definition rekey_status_of (r : RekeyRecord) : RekeyStatus :=
  RekeyStatus.mk (RekeyRecord.tenant r) (RekeyRecord.from_key_id r) (RekeyRecord.to_key_id r)
    (WalkStep.keyspace <$> walk_get (RekeyRecord.keyspace r)) (RekeyRecord.visited r)
    (RekeyRecord.resealed r) (RekeyRecord.total r) (RekeyRecord.is_done r).

(** [walk_total]: records in the walked keyspaces, saturating. *)
Definition walk_total (db : Db) : Z :=
  foldl (fun total step => saturating_add u64_max total (Z.of_nat (length (walk_keys db step)))) 0
    [0; 1; 2; 3; 4].

(** [put_rekey]. *)
Definition put_rekey (record : RekeyRecord) (db : Db) : Db :=
  set_rekey <[RekeyRecord.tenant record := record]> db.

(** [stage_new_key]: the wrapped data key and, at the first rotation, the
    wrapped addressing subkeys. *)
Definition stage_new_key (tenant : TenantId) (to : Z) (db : Db) : Db :=
  let first_rotation := negb (bool_decide (tenant ∈ Db.address_keys db)) in
  let db := set_data_keys (union {[(tenant, to)]}) db in
  if first_rotation then set_address_keys (union {[tenant]}) db else db.

Definition with_data_key_id (id : Z) (r : TenantRecord) : TenantRecord :=
  TenantRecord.mk (TenantRecord.id r) (TenantRecord.class r) (TenantRecord.verifying_key r)
    (TenantRecord.bound_uids r) (TenantRecord.parent r) (TenantRecord.ceilings r) id
    (TenantRecord.registered_at r).

(** [begin_rekey]. *)
Definition begin_rekey_tx (now : Timestamp) (db : Db) (tenant : TenantId)
    : result StoreError (Finish RekeyStatus) :=
  match Db.tenants db !! tenant with
  | None => Err (absent_tenant db tenant)
  | Some record =>
      _ ← match Db.rekey db !! tenant with
          | Some existing => ensure (RekeyRecord.is_done existing) (StoreError.RekeyInProgress tenant)
          | None => Ok tt
          end;
      current ← tenant_keys db tenant;
      let from := TenantKeyring.key_id current in
      to ← ok_or (checked_add u32_max from 1)
        (StoreError.Inconsistent "tenant data key ids are exhausted");
      let db1 := stage_new_key tenant to db in
      let db2 := set_tenants <[tenant := with_data_key_id to record]> db1 in
      let rekey := RekeyRecord.mk tenant from to 0 None 0 0 (walk_total db2) false now None in
      Ok (Committed (Some Boundary.RekeyBegin) (rekey_status_of rekey) (put_rekey rekey db2))
  end.
Definition begin_rekey (fp : Failpoint) (now : Timestamp) (db : Db) (tenant : TenantId)
    : result StoreError RekeyStatus * Db :=
  with_tx fp db (begin_rekey_tx now db tenant).

(** [retire]. *)
Definition retire_tx (now : Timestamp) (db : Db) (r : RekeyRecord) : Finish RekeyStatus :=
  let db := set_data_keys (fun k => k ∖ {[(RekeyRecord.tenant r, RekeyRecord.from_key_id r)]}) db in
  let r := RekeyRecord.mk (RekeyRecord.tenant r) (RekeyRecord.from_key_id r) (RekeyRecord.to_key_id r)
    (RekeyRecord.keyspace r) None (RekeyRecord.visited r) (RekeyRecord.resealed r) (RekeyRecord.total r)
    true (RekeyRecord.started_at r) (Some now) in
  Committed (Some Boundary.RekeyRetire) (rekey_status_of r) (put_rekey r db).

(** [reseal]: the store with the record at [k] sealed under [active] when it
    is one of [tenant]'s under [retiring]. Opening a record under the
    tenant's key succeeds exactly for the tenant's own records, read in the
    slot of their kind. *)
Definition reseal (step : WalkStep) (tenant : TenantId) (retiring active : Z) (db : Db) (k : WalkKey)
    : option Db :=
  if negb (bool_decide (header db k = Some retiring)) then None
  else if existsb (fun slot => bool_decide (walk_owner k = Some tenant) && (walk_kind k =? slot))
            (WalkStep.slots step)
  then Some (seal_as active k db)
  else None.
(** The loop over a batch, counting what it re-sealed. *)
Fixpoint reseal_all (step : WalkStep) (tenant : TenantId) (retiring active : Z) (db : Db) (resealed : Z)
    (entries : list WalkKey) : Db * Z :=
  match entries with
  | [] => (db, resealed)
  | k :: entries =>
      match reseal step tenant retiring active db k with
      | Some db => reseal_all step tenant retiring active db (saturating_add u64_max resealed 1) entries
      | None => reseal_all step tenant retiring active db resealed entries
      end
  end.

Section rekey.
Context `{Hashes}.

(** Key order in the database. *)
Definition by_physical (a b : WalkKey) : Prop := bytes_le (physical a) (physical b) = true.
#[global] Instance by_physical_dec : RelDecision by_physical.
Proof. intros a b. unfold by_physical. apply _. Defined.
Definition after (cursor : option bytes) (k : WalkKey) : bool :=
  match cursor with None => true | Some c => bytes_lt c (physical k) end.

(** [walk_entries]: at most [batch] entries of a keyspace after the cursor. *)
Definition walk_entries (db : Db) (step : Z) (cursor : option bytes) (batch : positive) : list WalkKey :=
  take (Pos.to_nat batch)
    (List.filter (after cursor) (merge_sort by_physical (walk_keys db step))).

(** [rekey_batch]. *)
Definition advance (r : RekeyRecord) (entries : list WalkKey) (batch : positive) (resealed : Z) : RekeyRecord :=
  let short := Nat.ltb (length entries) (Pos.to_nat batch) in
  RekeyRecord.mk (RekeyRecord.tenant r) (RekeyRecord.from_key_id r) (RekeyRecord.to_key_id r)
    (if short then saturating_add u8_max (RekeyRecord.keyspace r) 1 else RekeyRecord.keyspace r)
    (if short then None else physical <$> last entries)
    (saturating_add u64_max (RekeyRecord.visited r) (Z.of_nat (length entries)))
    resealed (RekeyRecord.total r) (RekeyRecord.is_done r) (RekeyRecord.started_at r)
    (RekeyRecord.finished_at r).
Definition rekey_batch_tx (now : Timestamp) (db : Db) (tenant : TenantId) (batch : positive)
    : result StoreError (Finish RekeyStatus) :=
  record ← ok_or
    (match Db.rekey db !! tenant with
     | Some r => if RekeyRecord.is_done r then None else Some r
     | None => None
     end) (StoreError.RekeyNotInProgress tenant);
  match walk_get (RekeyRecord.keyspace record) with
  | None => Ok (retire_tx now db record)
  | Some step =>
      keys ← tenant_keys db tenant;
      retiring ← ok_or (TenantKeyring.retiring_id keys)
        (StoreError.Inconsistent "rotation in progress without a retiring key");
      let entries := walk_entries db (RekeyRecord.keyspace record) (RekeyRecord.cursor record) batch in
      let '(db, resealed) := reseal_all step tenant retiring (TenantKeyring.key_id keys) db
        (RekeyRecord.resealed record) entries in
      let record := advance record entries batch resealed in
      Ok (Committed (Some Boundary.RekeyBatch) (rekey_status_of record) (put_rekey record db))
  end.
Definition rekey_batch (fp : Failpoint) (now : Timestamp) (db : Db) (tenant : TenantId) (batch : positive)
    : result StoreError RekeyStatus * Db :=
  with_tx fp db (rekey_batch_tx now db tenant batch).

(** [rekey_status] and [rekeys_in_progress]. *)
Definition rekey_status (db : Db) (tenant : TenantId) : option RekeyStatus :=
  rekey_status_of <$> Db.rekey db !! tenant.
Definition rekeys_in_progress (db : Db) : list RekeyStatus :=
  omap (fun '(_, r) => if RekeyRecord.is_done r then None else Some (rekey_status_of r))
    (map_to_list (Db.rekey db)).

(** [rekey_tenant]: the loop, with fuel; [None] when it runs out. *)
Fixpoint rekey_loop (fuel : nat) (fp : Failpoint) (now : Timestamp) (db : Db) (tenant : TenantId)
    (batch : positive) (status : RekeyStatus) : option (result StoreError RekeyStatus * Db) :=
  if RekeyStatus.is_done status then Some (Ok status, db)
  else match fuel with
  | O => None
  | S fuel =>
      match rekey_batch fp now db tenant batch with
      | (Ok status, db) => rekey_loop fuel fp now db tenant batch status
      | (Err e, db) => Some (Err e, db)
      end
  end.
Definition rekey_tenant (fuel : nat) (fp : Failpoint) (now : Timestamp) (db : Db) (tenant : TenantId)
    (batch : positive) : option (result StoreError RekeyStatus * Db) :=
  let start :=
    match rekey_status db tenant with
    | Some status => if negb (RekeyStatus.is_done status) then (Ok status, db) else begin_rekey fp now db tenant
    | None => begin_rekey fp now db tenant
    end in
  match start with
  | (Ok status, db) => rekey_loop fuel fp now db tenant batch status
  | (Err e, db) => Some (Err e, db)
  end.
End rekey.
