(* ===== verification/Invariant.v ===== *)
(** * The invariant of the custody store

    First the accounting: on every dimension, what a ledger has used is
    exactly what the invocations that debited it hold, the reservation while
    an invocation is open and the debit once it ended. Then what holds of the
    store between any two transactions: the accounting, the shape of every
    invocation record in its state, the keys needed to settle every open
    invocation, the artifacts' publication state, and the contiguity of the
    audit log. *)
From S2P Require Import Prelude Vocab Ids Payload Epitrope View Budget Lifecycle Records Store.
From S2P Require Import StoreAudit Invocation Transition.
Local Open Scope Z_scope.

(** What an invocation holds on each ledger it debited. *)
Definition held (r : InvocationRecord) (d : Dimension) : Z :=
  if is_terminal (InvocationRecord.state r)
  then cost_get (default cost_default (InvocationRecord.debited r)) d
  else cost_get (InvocationRecord.reserved r) d.

(** A ledger a reservation names twice is debited twice. *)
Definition share (l : LedgerRef) (d : Dimension) (r : InvocationRecord) : Z :=
  occ l (InvocationRecord.ledgers r) * held r d.

Definition Balanced (db : Db) : Prop := forall l d,
  cost_get (view_ledger db l) d = map_sum (share l d) (Db.invocations db).

(** Every amount an invocation holds is between zero and its reservation. *)
Definition HeldOk (db : Db) : Prop := forall i r,
  Db.invocations db !! i = Some r ->
  forall d, 0 <= held r d <= cost_get (InvocationRecord.reserved r) d.

(** No ledger exceeds the machine width. *)
Definition LedgersFit (db : Db) : Prop := forall l d, cost_get (view_ledger db l) d <= u64_max.

Lemma view_ledger_put db l used l' :
  view_ledger (put_ledger l used db) l' = if bool_decide (l' = l) then used else view_ledger db l'.
Proof.
  unfold view_ledger, put_ledger. cbn [Db.ledgers set_ledgers]. case_bool_decide as Hl.
  - subst. by rewrite lookup_insert_eq.
  - by rewrite lookup_insert_ne.
Qed.

(** The effect of the two ledger loops, dimension by dimension. *)
Definition LedgersMoved (db db' : Db) (ls : list LedgerRef) (amount : Dimension -> Z) : Prop :=
  db' = set_ledgers (fun _ => Db.ledgers db') db /\
  forall l d, cost_get (view_ledger db' l) d = cost_get (view_ledger db l) d + occ l ls * amount d.

Lemma set_ledgers_id db : set_ledgers (fun _ => Db.ledgers db) db = db.
Proof. by destruct db. Qed.

Lemma LedgersMoved_nil db amount : LedgersMoved db db [] amount.
Proof. split; [by rewrite set_ledgers_id|]. intros l d. cbn. lia. Qed.

Lemma LedgersMoved_cons db db' l used ls amount :
  (forall d, cost_get used d = cost_get (view_ledger db l) d + amount d) ->
  LedgersMoved (put_ledger l used db) db' ls amount ->
  LedgersMoved db db' (l :: ls) amount.
Proof.
  intros Hu [Hdb Hv]. split; [rewrite Hdb at 1; by destruct db|].
  intros l' d. rewrite Hv, view_ledger_put. cbn [occ]. case_bool_decide; subst; rewrite ?Hu; lia.
Qed.

Lemma debit_all_moved db ids amount ls db' :
  debit_all db ((fun l => (l, amount)) <$> ids) = Ok (ls, db') ->
  LedgersMoved db db' ls (cost_get amount) /\ (LedgersFit db -> LedgersFit db').
Proof.
  revert db ls db'; induction ids as [|i ids IH]; intros db ls db' Hd.
  - injection Hd as <- <-. split; [apply LedgersMoved_nil|done].
  - cbn [debit_all fmap list_fmap] in Hd. apply bind_Ok in Hd as ([l db1] & H1 & Hd).
    apply bind_Ok in Hd as ([ls' db2] & H2 & Hd). apply Ok_inj in Hd. injection Hd as <- <-.
    unfold debit_one in H1. apply bind_Ok in H1 as (l' & _ & H1).
    apply bind_Ok in H1 as (used & Hr%map_err_Ok & H1). apply Ok_inj in H1. injection H1 as <- <-.
    rewrite reserve_Ok in Hr. apply IH in H2 as [Hm Hf]. split.
    + eapply LedgersMoved_cons; [|exact Hm]. intros d. apply Hr.
    + intros Hfit. apply Hf. intros l d. rewrite view_ledger_put.
      case_bool_decide; [apply Hr|apply Hfit].
Qed.

Lemma release_all_moved db ls amount db' :
  release_all db ls amount = Ok db' -> LedgersMoved db db' ls (fun d => - cost_get amount d).
Proof.
  revert db; induction ls as [|l ls IH]; intros db Hd.
  - injection Hd as <-. apply LedgersMoved_nil.
  - cbn [release_all] in Hd. apply bind_Ok in Hd as (used & Hr%map_err_Ok & Hd).
    rewrite release_Ok in Hr. eapply LedgersMoved_cons; [|by apply IH]. intros d.
    destruct (Hr d). lia.
Qed.

(** A release within what every ledger holds cannot fail. *)
Lemma release_all_total db ls amount :
  (forall d, 0 <= cost_get amount d) ->
  (forall l d, occ l ls * cost_get amount d <= cost_get (view_ledger db l) d) ->
  exists db', release_all db ls amount = Ok db'.
Proof.
  intros Ha. revert db; induction ls as [|l ls IH]; intros db Hh; [by exists db|]. cbn [release_all].
  set (used := cost_from (fun d => cost_get (view_ledger db l) d - cost_get amount d)).
  assert (Budget.release (V := StoreError) (view_ledger db l) amount = Ok used) as ->.
  { apply release_Ok. intros d. subst used. rewrite cost_get_from. specialize (Hh l d).
    cbn [occ] in Hh. rewrite bool_decide_eq_true_2 in Hh by done.
    pose proof (occ_nonneg l ls). pose proof (Ha d). split; [done|nia]. }
  cbn [map_err mbind result_bind]. apply IH. intros l' d. specialize (Hh l' d). cbn [occ] in Hh.
  rewrite view_ledger_put. case_bool_decide; [|lia]. subst used. rewrite cost_get_from. subst. lia.
Qed.

(** ** The invariant under the two ways an invocation record is written *)

(** A new invocation, whose reservation the ledgers were debited. *)
Lemma Balanced_new db db' r :
  Db.invocations db !! InvocationRecord.id r = None ->
  LedgersMoved db db' (InvocationRecord.ledgers r) (held r) ->
  Balanced db -> Balanced (put_invocation r db').
Proof.
  intros Hn [Hdb Hv] Hb l d.
  change (view_ledger (put_invocation r db') l) with (view_ledger db' l).
  cbn [Db.invocations set_invocations put_invocation]. rewrite Hv, (Hb l d), Hdb.
  cbn [Db.invocations set_ledgers]. rewrite map_sum_insert_new by done. unfold share. lia.
Qed.

(** An existing one, the ledgers moved by what it now holds more or less. *)
Lemma Balanced_update db db' r r' :
  Db.invocations db !! InvocationRecord.id r' = Some r ->
  InvocationRecord.ledgers r' = InvocationRecord.ledgers r ->
  Db.invocations db' = Db.invocations db ->
  (forall l d, cost_get (view_ledger db' l) d =
     cost_get (view_ledger db l) d + occ l (InvocationRecord.ledgers r) * (held r' d - held r d)) ->
  Balanced db -> Balanced (put_invocation r' db').
Proof.
  intros Hr Hl Hi Hv Hb l d.
  change (view_ledger (put_invocation r' db') l) with (view_ledger db' l).
  cbn [Db.invocations set_invocations put_invocation]. rewrite Hi, Hv, (Hb l d), (map_sum_insert _ _ _ _ _ Hr).
  unfold share. rewrite Hl. lia.
Qed.

Lemma HeldOk_put db db' r :
  Db.invocations db' = Db.invocations db ->
  (forall d, 0 <= held r d <= cost_get (InvocationRecord.reserved r) d) ->
  HeldOk db -> HeldOk (put_invocation r db').
Proof.
  intros Hi Hr Hh i r'. cbn [Db.invocations set_invocations put_invocation]. rewrite Hi.
  intros [[_ <-]|[_ Hl]]%lookup_insert_Some; [done|by apply (Hh i)].
Qed.

(** An open invocation's reservation is held on every ledger it names. *)
Lemma Balanced_covers db i r l d :
  Balanced db -> HeldOk db -> Db.invocations db !! i = Some r ->
  occ l (InvocationRecord.ledgers r) * held r d <= cost_get (view_ledger db l) d.
Proof.
  intros Hb Hh Hi. rewrite (Hb l d). apply (map_sum_ge (share l d) _ i); [|done].
  intros k v Hk. unfold share. pose proof (occ_nonneg l (InvocationRecord.ledgers v)).
  destruct (Hh k v Hk d). nia.
Qed.

Lemma Balanced_nonneg db l d : Balanced db -> HeldOk db -> 0 <= cost_get (view_ledger db l) d.
Proof.
  intros Hb Hh. rewrite (Hb l d). apply map_sum_nonneg. intros k v Hk. unfold share.
  pose proof (occ_nonneg l (InvocationRecord.ledgers v)). destruct (Hh k v Hk d). nia.
Qed.

(** ** The invariant *)

(** ** Invocation records *)

(** The fields of a record that its state determines. *)
Definition StateOk (i : InvocationId) (r : InvocationRecord) : Prop :=
  let ended s :=
    exists t c, InvocationRecord.terminal r = Some t /\ terminal_state t = s /\
      InvocationRecord.debited r = Some c /\
      (forall d, 0 <= cost_get c d <= cost_get (InvocationRecord.reserved r) d) /\
      (s = InvocationState.Released -> c = cost_default) /\
      (s = InvocationState.UnknownEffect -> c = InvocationRecord.reserved r) in
  let still_open := InvocationRecord.terminal r = None /\ InvocationRecord.debited r = None in
  match InvocationRecord.state r with
  | InvocationState.Planned | InvocationState.Denied => False
  | InvocationState.IntentPersisted | InvocationState.Dispatched => still_open
  | InvocationState.TransferComplete | InvocationState.Published =>
      still_open /\ InvocationRecord.artifact r = Some (artifact_ref i) /\
      exists c, InvocationRecord.actual r = Some c /\ forall d, 0 <= cost_get c d
  | s => ended s
  end.

Record RecordOk (i : InvocationId) (r : InvocationRecord) : Prop := {
  ro_id : InvocationRecord.id r = i;
  ro_reserved : cost_wf (InvocationRecord.reserved r);
  ro_state : StateOk i r;
}.
Definition RecordsOk (db : Db) : Prop := forall i r, Db.invocations db !! i = Some r -> RecordOk i r.

(** ** Tenants, sessions and keys *)

Record TenantOk (db : Db) (t : TenantId) (rec : TenantRecord) : Prop := {
  to_id : TenantRecord.id rec = t;
  to_tomb : Db.tombstones db !! t = None;
  to_key : (t, TenantRecord.data_key_id rec) ∈ Db.data_keys db;
  to_address : t ∈ Db.address_keys db \/ TenantRecord.data_key_id rec = INITIAL_DATA_KEY_ID;
  to_retiring : forall id, rekey_retiring db t = Some id -> (t, id) ∈ Db.data_keys db;
  to_width : 1 <= TenantRecord.data_key_id rec <= u32_max;
}.
(** A rotation record: its key ids follow each other, and the new one is the
    tenant's active key. *)
Record RekeyOk (t : TenantId) (rec : TenantRecord) (rk : RekeyRecord) : Prop := {
  rk_tenant : RekeyRecord.tenant rk = t;
  rk_to : RekeyRecord.to_key_id rk = TenantRecord.data_key_id rec;
  rk_from : RekeyRecord.from_key_id rk + 1 = RekeyRecord.to_key_id rk;
  rk_keyspace : 0 <= RekeyRecord.keyspace rk <= 5;
}.
Record Registry (db : Db) : Prop := {
  reg_tenant : forall t rec, Db.tenants db !! t = Some rec -> TenantOk db t rec;
  reg_session : forall s rec, Db.sessions db !! s = Some rec -> SessionRecord.id rec = s /\
    (is_Some (Db.tenants db !! SessionRecord.owner rec) \/
     is_Some (Db.tombstones db !! SessionRecord.owner rec));
  reg_rekey : forall t rk, Db.rekey db !! t = Some rk ->
    exists rec, Db.tenants db !! t = Some rec /\ RekeyOk t rec rk;
  reg_keys : forall t id, (t, id) ∈ Db.data_keys db -> exists rec, Db.tenants db !! t = Some rec /\
    (id = TenantRecord.data_key_id rec \/ rekey_retiring db t = Some id);
}.

(** Everything an open invocation needs to be settled is at hand. *)
Definition Settleable (db : Db) (r : InvocationRecord) : Prop :=
  is_Some (Db.tenants db !! InvocationRecord.tenant r) /\
  forall s, InvocationRecord.session r = Some s ->
    exists rec, Db.sessions db !! s = Some rec /\
      is_Some (Db.tenants db !! SessionRecord.owner rec).
Definition OpenSettleable (db : Db) : Prop := forall i r,
  Db.invocations db !! i = Some r -> is_terminal (InvocationRecord.state r) = false -> Settleable db r.

(** Whether a rotation has passed a record: its keyspace is behind the walk,
    or its key is at or before the cursor. *)
Definition walked `{Hashes} (rk : RekeyRecord) (k : WalkKey) : Prop :=
  walk_step k < RekeyRecord.keyspace rk \/
  (walk_step k = RekeyRecord.keyspace rk /\
   exists c, RekeyRecord.cursor rk = Some c /\ bytes_le (physical k) c = true).

(** A key id the tenant-sealed record at [k] may carry: its tenant's active
    key, the retiring one where the rotation has not passed, or anything once
    the tenant is shredded. *)
Definition KeyOk `{Hashes} (db : Db) (t : TenantId) (k : WalkKey) (id : Z) : Prop :=
  is_Some (Db.tombstones db !! t) \/
  exists rec, Db.tenants db !! t = Some rec /\
    (id = TenantRecord.data_key_id rec \/
     exists rk, Db.rekey db !! t = Some rk /\ RekeyRecord.is_done rk = false /\
       id = RekeyRecord.from_key_id rk /\ ~ walked rk k).
Record SealsOk `{Hashes} (db : Db) : Prop := {
  so_idem : forall k s, Db.idem db !! k = Some s -> KeyOk db k.1.1 (WalkKey.Idem k) (Sealed.key_id s);
  so_artifacts : forall k s, Db.artifacts db !! k = Some s -> KeyOk db k.1 (WalkKey.Artifact k) (Sealed.key_id s);
  so_pending : forall k s, Db.pending db !! k = Some s -> KeyOk db k.1 (WalkKey.Pending k) (Sealed.key_id s);
  so_blobs : forall k s, Db.blobs db !! k = Some s -> KeyOk db k.1 (WalkKey.Blob k) (Sealed.key_id s);
  so_index : forall k s, Db.session_index db !! k = Some s ->
    KeyOk db k.1.1 (WalkKey.SessionIndex k) (Sealed.key_id s);
  so_audit : forall k s, Db.audit db !! k = Some s -> KeyOk db k.1 (WalkKey.Audit k) (Sealed.key_id s);
}.

(** ** Artifacts *)

Record ArtifactsOk (db : Db) : Prop := {
  ao_pending : forall i r, Db.invocations db !! i = Some r ->
    InvocationRecord.state r = InvocationState.TransferComplete ->
    exists s, Db.pending db !! (InvocationRecord.tenant r, i) = Some s /\
      ArtifactRecord.artifact (Sealed.plain s) = artifact_ref i;
  ao_locator : forall a loc, Db.locators db !! a = Some loc ->
    exists i r, a = artifact_ref i /\ Db.invocations db !! i = Some r /\
      (InvocationRecord.state r = InvocationState.Published \/
       InvocationRecord.state r = InvocationState.Settled);
  ao_filed : forall k s, Db.artifacts db !! k = Some s -> ArtifactRecord.tenant (Sealed.plain s) = k.1;
  ao_filed_pending : forall k s, Db.pending db !! k = Some s -> ArtifactRecord.tenant (Sealed.plain s) = k.1;
}.

(** ** Grants *)
Definition GrantsOk (db : Db) : Prop := forall i g,
  Db.grants db !! i = Some g -> GrantRecord.id g = i /\
    in_range u8_max (GrantRecord.depth g) /\ in_range u8_max (GrantRecord.max_depth g).

Record Inv `{Hashes} (db : Db) : Prop := {
  inv_records : RecordsOk db;
  inv_balanced : Balanced db;
  inv_fit : LedgersFit db;
  inv_registry : Registry db;
  inv_open : OpenSettleable db;
  inv_seals : SealsOk db;
  inv_artifacts : ArtifactsOk db;
  inv_audit : AuditLog db;
  inv_grants : GrantsOk db;
}.

(** ** Consequences *)

Lemma StateOk_open i r :
  StateOk i r -> is_terminal (InvocationRecord.state r) = false ->
  InvocationRecord.terminal r = None /\ InvocationRecord.debited r = None.
Proof. unfold StateOk. destruct (InvocationRecord.state r); naive_solver. Qed.

Lemma RecordOk_held i r d :
  RecordOk i r -> 0 <= held r d <= cost_get (InvocationRecord.reserved r) d.
Proof.
  intros [_ Hres Hst]. unfold held. destruct (is_terminal (InvocationRecord.state r)) eqn:Ht.
  - unfold StateOk in Hst.
    destruct (InvocationRecord.state r); try done; destruct Hst as (t & c & _ & _ & -> & Hc & _);
      apply Hc.
  - destruct (Hres d). lia.
Qed.

Lemma RecordsOk_HeldOk db : RecordsOk db -> HeldOk db.
Proof. intros Hr i r Hi d. by apply (RecordOk_held i), Hr. Qed.

Lemma Registry_keys db t rec :
  Registry db -> Db.tenants db !! t = Some rec ->
  tenant_keys db t = Ok (TenantKeyring.mk (TenantRecord.data_key_id rec) (rekey_retiring db t)).
Proof.
  intros Hr Ht. destruct (reg_tenant db Hr t rec Ht) as [_ _ Hk Ha Hret _].
  unfold tenant_keys, key_ids. rewrite Ht. unfold load_keyring.
  rewrite (bool_decide_eq_true_2 _ Hk). cbn [ensure mbind result_bind].
  assert (bool_decide (t ∈ Db.address_keys db) || (TenantRecord.data_key_id rec =? INITIAL_DATA_KEY_ID)
          = true) as ->.
  { apply orb_true_iff. destruct Ha as [Ha|Ha]; [left; by apply bool_decide_eq_true|right; by apply Z.eqb_eq]. }
  cbn [ensure mbind result_bind]. destruct (rekey_retiring db t) as [id|]; [|done].
  by rewrite (bool_decide_eq_true_2 _ (Hret id eq_refl)).
Qed.

Lemma tenant_keys_Some db t keys :
  tenant_keys db t = Ok keys ->
  exists rec, Db.tenants db !! t = Some rec /\
    keys = TenantKeyring.mk (TenantRecord.data_key_id rec) (rekey_retiring db t).
Proof.
  unfold tenant_keys, key_ids. destruct (Db.tenants db !! t) as [rec|]; [|done].
  unfold load_keyring. intros Hk. inv_ok. eauto.
Qed.

Lemma KeyOk_openers `{Hashes} db t k id keys :
  Registry db -> KeyOk db t k id -> tenant_keys db t = Ok keys -> id ∈ openers keys.
Proof.
  intros Hr Hk (rec & Ht & ->)%tenant_keys_Some. destruct Hk as [Hs|(rec' & Ht' & Hk)].
  - rewrite (to_tomb _ _ _ (reg_tenant db Hr t rec Ht)) in Hs. by destruct Hs.
  - simplify_eq. destruct Hk as [->|(rk & Hrk & Hd & -> & _)]; [left|].
    unfold openers, rekey_retiring. rewrite Hrk, Hd. right. left.
Qed.

(** A record sealed now carries an opener. *)
Lemma KeyOk_active `{Hashes} {A} db t k keys (a : A) :
  tenant_keys db t = Ok keys -> KeyOk db t k (Sealed.key_id (seal_active keys a)).
Proof. intros (rec & Ht & ->)%tenant_keys_Some. right. exists rec. split; [done|]. by left. Qed.

Lemma open_sealed_Ok {A} keys (s : Sealed A) :
  Sealed.key_id s ∈ keys -> open_sealed keys s = Ok (Sealed.plain s).
Proof. intros Hk. unfold open_sealed. by rewrite bool_decide_eq_true_2. Qed.

Lemma artifact_ref_inj i j : artifact_ref i = artifact_ref j -> i = j.
Proof. unfold artifact_ref. destruct i, j. cbn. by intros [= ->]. Qed.

(** A store with the invariant answers its views within the types. *)
Lemma Inv_view_u8 db : GrantsOk db -> view_u8 db.
Proof.
  intros Hg i g. cbn. destruct (Db.grants db !! i) as [rec|] eqn:Hi; [|done]. cbn.
  intros Hv. apply bind_Ok in Hv as (g' & Hg'%map_err_Ok & Hv). apply Ok_inj in Hv. injection Hv as <-.
  unfold to_grant in Hg'. apply bind_Ok in Hg' as (ts & _ & Hg'). apply Ok_inj in Hg'. subst. cbn.
  by destruct (Hg i rec Hi) as (_ & ? & ?).
Qed.

Lemma Inv_empty `{Hashes} : Inv empty_db.
Proof.
  assert (forall l, view_ledger empty_db l = cost_default) as Hl by done.
  split; try done.
  - intros l d. rewrite Hl. cbn [Db.invocations empty_db]. rewrite map_sum_empty. by destruct d.
  - intros l d. rewrite Hl. by destruct d.
  - split; [|by unfold last_seq; cbn [Db.audit_stub empty_db]; rewrite map_fold_empty|done|
      intros t t' s [x Hx]; cbn in Hx; by rewrite lookup_empty in Hx].
    intros s. unfold last_seq. cbn [Db.audit_stub empty_db]. rewrite lookup_empty, map_fold_empty.
    split; [by intros [? ?]|lia].
Qed.
