(* ===== verification/Steps.v ===== *)
(** * The lifecycle transactions preserve the store's invariant *)
From S2P Require Import Prelude Vocab Ids Payload Epitrope View Budget Lifecycle Records Store.
From S2P Require Import StoreAudit Invocation Transition Invariant.
Local Open Scope Z_scope.

(** ** Frames *)

Definition same_registry (db db' : Db) : Prop :=
  Db.tenants db' = Db.tenants db /\ Db.tombstones db' = Db.tombstones db /\
  Db.data_keys db' = Db.data_keys db /\ Db.address_keys db' = Db.address_keys db /\
  Db.rekey db' = Db.rekey db /\ Db.sessions db' = Db.sessions db.

Lemma rekey_retiring_same db db' t :
  Db.rekey db' = Db.rekey db -> rekey_retiring db' t = rekey_retiring db t.
Proof. unfold rekey_retiring. by intros ->. Qed.

Lemma TenantOk_same db db' t rec : same_registry db db' -> TenantOk db t rec -> TenantOk db' t rec.
Proof.
  intros (Ht & Hb & Hk & Ha & Hr & _) [H1 H2 H3 H4 H5 H6].
  split; rewrite ?Hb, ?Hk, ?Ha; try done. intros id. rewrite (rekey_retiring_same db db') by done. apply H5.
Qed.

Lemma Registry_same db db' : same_registry db db' -> Registry db -> Registry db'.
Proof.
  intros Hs [H1 H2 H3 H4]. pose proof Hs as (Ht & Hb & Hk & _ & Hr & Hss). split.
  - intros t rec. rewrite Ht. intros Hl. by apply (TenantOk_same db), H1.
  - intros s rec. rewrite Hss, Ht, Hb. apply H2.
  - intros t rk. rewrite Hr, Ht. apply H3.
  - intros t id. rewrite Hk, Ht, (rekey_retiring_same db db') by done. apply H4.
Qed.

Lemma KeyOk_same `{Hashes} db db' t k id : same_registry db db' -> KeyOk db t k id -> KeyOk db' t k id.
Proof. intros (Ht & Hb & _ & _ & Hr & _). unfold KeyOk. by rewrite Ht, Hb, Hr. Qed.

Lemma Settleable_same db db' r : same_registry db db' -> Settleable db r -> Settleable db' r.
Proof. intros (Ht & _ & _ & _ & _ & Hs). unfold Settleable. by rewrite Ht, Hs. Qed.

Lemma GrantsOk_same db db' : Db.grants db' = Db.grants db -> GrantsOk db -> GrantsOk db'.
Proof. unfold GrantsOk. by intros ->. Qed.

Lemma AuditLog_same db db' :
  Db.audit_stub db' = Db.audit_stub db /\ Db.audit db' = Db.audit db -> AuditLog db -> AuditLog db'.
Proof.
  intros [Hs Ha] [Hc Hb He Ho]. unfold contiguous, last_seq in *.
  by split; unfold contiguous, last_seq; rewrite ?Hs, ?Ha.
Qed.

Section seals.
Context `{Hashes}.

(** Inserting a record sealed under the active key of its tenant. *)
Ltac seals_insert :=
  let K := fresh "K" in
  intros K [H1 H2 H3 H4 H5 H6]; split; try assumption;
  let k := fresh "k" in let s := fresh "s" in
  intros k s; cbn; intros [[<- <-]|[_ ?]]%lookup_insert_Some;
  [exact (KeyOk_active _ _ _ _ tt K) | eauto].

Lemma SealsOk_idem db k keys v :
  tenant_keys db k.1.1 = Ok keys -> SealsOk db -> SealsOk (set_idem <[k := seal_active keys v]> db).
Proof using Type. seals_insert. Qed.
Lemma SealsOk_artifacts db k keys v :
  tenant_keys db k.1 = Ok keys -> SealsOk db -> SealsOk (set_artifacts <[k := seal_active keys v]> db).
Proof using Type. seals_insert. Qed.
Lemma SealsOk_pending db k keys v :
  tenant_keys db k.1 = Ok keys -> SealsOk db -> SealsOk (set_pending <[k := seal_active keys v]> db).
Proof using Type. seals_insert. Qed.
Lemma SealsOk_blobs db k keys v :
  tenant_keys db k.1 = Ok keys -> SealsOk db -> SealsOk (set_blobs <[k := seal_active keys v]> db).
Proof using Type. seals_insert. Qed.
Lemma SealsOk_index db k keys v :
  tenant_keys db k.1.1 = Ok keys -> SealsOk db -> SealsOk (set_session_index <[k := seal_active keys v]> db).
Proof using Type. seals_insert. Qed.
Lemma SealsOk_audit db k keys v :
  tenant_keys db k.1 = Ok keys -> SealsOk db -> SealsOk (set_audit <[k := seal_active keys v]> db).
Proof using Type. seals_insert. Qed.
Lemma SealsOk_unpend db k : SealsOk db -> SealsOk (set_pending (delete k) db).
Proof using Type.
  intros [H1 H2 H3 H4 H5 H6]. split; try assumption.
  intros k' s. cbn. intros [_ Hk]%lookup_delete_Some. by apply H3.
Qed.
(** Keyspaces that are not tenant-sealed do not matter. *)
Lemma SealsOk_same db db' :
  same_registry db db' -> Db.idem db' = Db.idem db -> Db.artifacts db' = Db.artifacts db ->
  Db.pending db' = Db.pending db -> Db.blobs db' = Db.blobs db ->
  Db.session_index db' = Db.session_index db -> Db.audit db' = Db.audit db ->
  SealsOk db -> SealsOk db'.
Proof using Type.
  intros Hs Ei Ea Ep Eb Ex Eu [H1 H2 H3 H4 H5 H6].
  split; intros k s; rewrite ?Ei, ?Ea, ?Ep, ?Eb, ?Ex, ?Eu; intros Hk; apply (KeyOk_same db); eauto.
Qed.

End seals.

(** ** Appending to the audit log *)

Lemma Inv_append_audit `{Hashes} now db entry seq db' :
  append_audit now db entry = Ok (seq, db') -> Inv db -> Inv db'.
Proof.
  intros Ha [Hrec Hbal Hfit Hreg Hopen Hseal Hart Haud Hgr].
  pose proof (append_audit_log _ _ _ _ _ Ha Haud) as (Hc & _ & _).
  apply append_audit_Ok in Ha as (_ & _ & keys & stub & record & Hk & _ & _ & _ & _ & _ & _ & ->).
  set (db1 := set_audit_stub <[seq := stub]> db) in *.
  assert (same_registry db (set_audit <[(AuditEntry.tenant entry, seq) := seal_active keys record]> db1))
    as Hs by done.
  split; try assumption.
  - by apply (Registry_same db).
  - apply SealsOk_audit; [done|]. by apply (SealsOk_same db).
  - by destruct Hart.
Qed.

(** The invocations are not read by it. *)
Lemma append_audit_put now db entry seq db' r :
  append_audit now db entry = Ok (seq, db') ->
  append_audit now (put_invocation r db) entry = Ok (seq, put_invocation r db').
Proof.
  unfold append_audit. intros Ha. apply bind_Ok in Ha as (s & Hs & Ha).
  apply bind_Ok in Ha as (keys & Hk & Ha). apply Ok_inj in Ha. injection Ha as <- <-.
  change (next_audit_seq (put_invocation r db)) with (next_audit_seq db). rewrite Hs.
  cbn [mbind result_bind].
  change (tenant_keys (set_audit_stub ?f (put_invocation r db)) ?t) with (tenant_keys (set_audit_stub f db) t).
  by rewrite Hk.
Qed.

(** ** One staged step *)

(** What a step of an open invocation leaves behind, before its record is
    stored. *)
Record Staged `{Hashes} (db : Db) (r r' : InvocationRecord) (db1 : Db) : Prop := {
  st_id : InvocationRecord.id r' = InvocationRecord.id r;
  st_tenant : InvocationRecord.tenant r' = InvocationRecord.tenant r;
  st_session : InvocationRecord.session r' = InvocationRecord.session r;
  st_ledgers : InvocationRecord.ledgers r' = InvocationRecord.ledgers r;
  st_reserved : InvocationRecord.reserved r' = InvocationRecord.reserved r;
  st_state : StateOk (InvocationRecord.id r) r';
  st_registry : same_registry db db1;
  st_invocations : Db.invocations db1 = Db.invocations db;
  st_grants : Db.grants db1 = Db.grants db;
  st_stub : Db.audit_stub db1 = Db.audit_stub db;
  st_audit : Db.audit db1 = Db.audit db;
  st_idem : Db.idem db1 = Db.idem db;
  st_moved : forall l d, cost_get (view_ledger db1 l) d =
    cost_get (view_ledger db l) d + occ l (InvocationRecord.ledgers r) * (held r' d - held r d);
  st_seals : SealsOk db1;
  st_artifacts : ArtifactsOk (put_invocation r' db1);
}.

Lemma Staged_Inv `{Hashes} db r r' db1 :
  Inv db -> Db.invocations db !! InvocationRecord.id r = Some r ->
  is_terminal (InvocationRecord.state r) = false ->
  Staged db r r' db1 -> Inv (put_invocation r' db1).
Proof.
  intros [Hrec Hbal Hfit Hreg Hopen Hseal Hart Haud Hgr] Hr Hnt [].
  assert (RecordOk (InvocationRecord.id r) r') as Hr'.
  { split; [done| |done]. rewrite st_reserved0. by destruct (Hrec _ _ Hr). }
  assert (same_registry db (put_invocation r' db1)) as Hs by done.
  split.
  - intros i x. cbn [Db.invocations set_invocations put_invocation]. rewrite st_invocations0, st_id0.
    intros [[<- <-]|[_ Hi]]%lookup_insert_Some; [done|by apply Hrec].
  - apply (Balanced_update db db1 r); rewrite ?st_id0; done.
  - intros l d. change (view_ledger (put_invocation r' db1) l) with (view_ledger db1 l).
    rewrite st_moved0. pose proof (Hfit l d). pose proof (occ_nonneg l (InvocationRecord.ledgers r)).
    pose proof (RecordOk_held _ _ d Hr') as Hh. rewrite st_reserved0 in Hh.
    assert (held r d = cost_get (InvocationRecord.reserved r) d) by (unfold held; by rewrite Hnt). nia.
  - by apply (Registry_same db).
  - intros i x. cbn [Db.invocations set_invocations put_invocation]. rewrite st_invocations0, st_id0.
    intros [[<- <-]|[_ Hi]]%lookup_insert_Some Hx; apply (Settleable_same db); auto.
    + unfold Settleable. rewrite st_tenant0, st_session0. by apply (Hopen _ _ Hr).
    + by apply (Hopen i).
  - by apply (SealsOk_same db1).
  - done.
  - by apply (AuditLog_same db).
  - by apply (GrantsOk_same db).
Qed.

(** The record a step stores. *)
Definition stored (now : Timestamp) (next : InvocationState) (r : InvocationRecord) : InvocationRecord :=
  with_updated_at now (with_state next r).

Section transactions.
Context `{Hashes}.

Lemma transition_tx_Ok now db id step b apply f :
  transition_tx now db id step b apply = Ok f ->
  exists r next r1 db1 db2,
    Db.invocations db !! id = Some r /\ steps_to (InvocationRecord.state r) step next /\
    apply db r = Ok (r1, db1) /\
    f = Committed (Some b) (status_of (stored now next r1)) (put_invocation (stored now next r1) db2) /\
    if is_terminal next then
      exists t seq entry, InvocationRecord.terminal r1 = Some t /\ terminal_state t = next /\
        entry = under_grant (head (InvocationRecord.grant_chain r1))
          (in_session (InvocationRecord.session r1)
            (entry_terminal (InvocationRecord.tenant r1) (InvocationRecord.id r1)
               (InvocationRecord.capability r1) t)) /\
        append_audit now db1 entry = Ok (seq, db2)
    else db2 = db1.
Proof using Type.
  unfold transition_tx, existing_invocation, invocation_record. intros Ht.
  apply bind_Ok in Ht as (r & Hr%ok_or_Ok & Ht). apply bind_Ok in Ht as (next & Hn%map_err_Ok & Ht).
  apply next_state_steps in Hn. apply bind_Ok in Ht as ([r1 db1] & Ha & Ht).
  apply bind_Ok in Ht as (db2 & Hd & Ht). apply Ok_inj in Ht. fold (stored now next r1) in Ht, Hd.
  exists r, next, r1, db1, db2. split_and!; [done|done|done|done|].
  destruct (is_terminal next); [|by apply Ok_inj in Hd].
  apply bind_Ok in Hd as (entry & He & Hd). apply bind_Ok in Hd as ([seq db3] & Hau & Hd).
  apply Ok_inj in Hd. subst db3. unfold terminal_entry in He.
  apply bind_Ok in He as (t & Hto%ok_or_Ok & He). apply Ok_inj in He.
  change (InvocationRecord.terminal (stored now next r1)) with (InvocationRecord.terminal r1) in Hto.
  destruct (InvocationRecord.terminal r1) as [t'|]; [|done]. case_bool_decide; [|done].
  injection Hto as <-. exists t', seq, entry. done.
Qed.

(** Every way a step can be staged is sound. *)
Definition StageSound (now : Timestamp) (db : Db) (id : InvocationId) (step : Step) (apply : Apply) : Prop :=
  forall r next r1 db1, Db.invocations db !! id = Some r -> InvocationRecord.id r = id ->
    steps_to (InvocationRecord.state r) step next -> apply db r = Ok (r1, db1) ->
    Staged db r (stored now next r1) db1.

(** How one committed transition changes the store. *)
Record Stepped (db db' : Db) (id : InvocationId) (r r' : InvocationRecord) (step : Step) : Prop := {
  sp_found : Db.invocations db !! id = Some r;
  sp_step : steps_to (InvocationRecord.state r) step (InvocationRecord.state r');
  sp_invocations : Db.invocations db' = <[id := r']> (Db.invocations db);
  sp_reserved : InvocationRecord.reserved r' = InvocationRecord.reserved r;
  sp_registry : same_registry db db';
  sp_grants : Db.grants db' = Db.grants db;
  sp_moved : forall l d, cost_get (view_ledger db' l) d =
    cost_get (view_ledger db l) d - occ l (InvocationRecord.ledgers r) * (held r d - held r' d);
  sp_held : forall d, 0 <= held r' d <= held r d;
}.

Lemma transition_Stepped now db id step b apply b' a db' :
  Inv db -> StageSound now db id step apply ->
  transition_tx now db id step b apply = Ok (Committed b' a db') ->
  Inv db' /\ exists r r', Stepped db db' id r r' step /\ a = status_of r' /\ b' = Some b.
Proof using Type.
  intros HI Hst (r & next & r1 & db1 & db2 & Hr & Hn & Ha & Hf & Hd)%transition_tx_Ok.
  injection Hf as Hb Has Hdb. subst a b' db'. pose proof (inv_records db HI id r Hr) as Hro.
  assert (is_terminal (InvocationRecord.state r) = false) as Ho.
  { destruct (is_terminal (InvocationRecord.state r)) eqn:E; [|done].
    by apply (terminal_no_step _ _ _ E) in Hn. }
  specialize (Hst r next r1 db1 Hr (ro_id _ _ Hro) Hn Ha). set (r' := stored now next r1) in *.
  assert (Inv (put_invocation r' db1)) as HI1.
  { apply (Staged_Inv db r); auto. by rewrite (ro_id _ _ Hro). }
  assert (exists f g, db2 = set_audit f (set_audit_stub g db1)) as (f & g & Hdb2).
  { destruct (is_terminal next).
    - destruct Hd as (t & seq & entry & _ & _ & _ & Hau).
      apply append_audit_Ok in Hau as (_ & _ & ks & stub & rec & _ & _ & _ & _ & _ & _ & _ & ->). eauto.
    - exists (fun x => x), (fun x => x). subst. by destruct db1. }
  split.
  - destruct (is_terminal next); [|by subst db2].
    destruct Hd as (t & seq & entry & _ & _ & _ & Hau).
    by apply (append_audit_put _ _ _ _ _ r'), Inv_append_audit in Hau.
  - exists r, r'. split; [|done]. destruct Hst. pose proof (ro_id _ _ Hro) as Hid. subst db2. split; try done.
    + cbn [Db.invocations set_invocations put_invocation set_audit set_audit_stub]. congruence.
    + intros l d. change (view_ledger (put_invocation r' _) l) with (view_ledger db1 l).
      rewrite st_moved0. lia.
    + intros d. assert (RecordOk id r') as Hr'.
      { apply HI1. cbn [Db.invocations set_invocations put_invocation]. rewrite st_id0, Hid. apply lookup_insert_eq. }
      pose proof (RecordOk_held _ _ d Hr') as Hh. rewrite st_reserved0 in Hh.
      assert (held r d = cost_get (InvocationRecord.reserved r) d) as -> by (unfold held; by rewrite Ho). done.
Qed.
End transactions.

(** ** The stage of each lifecycle step is sound *)

(** Writing a record that is not at B3 keeps the artifacts' state, when the
    keyspaces of artifacts are unchanged and a published capture stays so. *)
Lemma ArtifactsOk_put db db1 r r' :
  ArtifactsOk db -> Db.invocations db !! InvocationRecord.id r' = Some r ->
  Db.invocations db1 = Db.invocations db -> Db.pending db1 = Db.pending db ->
  Db.locators db1 = Db.locators db -> Db.artifacts db1 = Db.artifacts db ->
  InvocationRecord.state r' <> InvocationState.TransferComplete ->
  (InvocationRecord.state r = InvocationState.Published ->
   InvocationRecord.state r' = InvocationState.Settled) ->
  is_terminal (InvocationRecord.state r) = false ->
  ArtifactsOk (put_invocation r' db1).
Proof.
  intros [Hp Hl Hf Hfp] Hr Ei Ep El Ea Hn Hpub Hopen.
  split; cbn [Db.artifacts Db.pending set_invocations put_invocation]; rewrite ?Ea, ?Ep; try done.
  - intros i x. cbn [Db.invocations set_invocations put_invocation]. rewrite Ei.
    intros [[<- <-]|[_ Hi]]%lookup_insert_Some Hx; [done|by apply Hp].
  - intros a loc. cbn [Db.locators Db.invocations set_invocations put_invocation]. rewrite El, Ei.
    intros Ha. destruct (Hl a loc Ha) as (i & x & -> & Hi & Hx).
    destruct (decide (i = InvocationRecord.id r')) as [->|Hne].
    + exists (InvocationRecord.id r'), r'. rewrite lookup_insert_eq. split_and!; [done|done|].
      simplify_eq. destruct Hx as [Hx|Hx]; [auto|]. by rewrite Hx in Hopen.
    + exists i, x. by rewrite lookup_insert_ne.
Qed.

(** The common part of every stage that touches no ledger. *)
Lemma held_open r r' :
  InvocationRecord.reserved r' = InvocationRecord.reserved r ->
  is_terminal (InvocationRecord.state r) = false -> is_terminal (InvocationRecord.state r') = false ->
  forall d, held r' d = held r d.
Proof. intros Hr H1 H2 d. unfold held. by rewrite H1, H2, Hr. Qed.

Section steps.
Context `{Hashes}.

(** Reduces the projections of the updated records. *)
Ltac rec_cbn :=
  cbn [stored with_updated_at with_state with_terminal with_debited with_actual with_artifact
       with_revoked_after_effect InvocationRecord.id InvocationRecord.tenant InvocationRecord.session
       InvocationRecord.ledgers InvocationRecord.reserved InvocationRecord.state
       InvocationRecord.terminal InvocationRecord.debited InvocationRecord.actual
       InvocationRecord.artifact] in *.

Lemma dispatch_Staged now db id r next r1 db1 :
  Inv db -> Db.invocations db !! id = Some r -> InvocationRecord.id r = id ->
  steps_to (InvocationRecord.state r) Step.Dispatch next -> Ok (r, db) = Ok (r1, db1) :> result StoreError _ ->
  Staged db r (stored now next r1) db1.
Proof using Type.
  intros HI Hr Hid Hn Ha. apply Ok_inj in Ha. injection Ha as <- <-.
  pose proof (inv_records db HI id r Hr) as [_ _ Hst]. unfold StateOk in Hst.
  apply step_Dispatch in Hn as [Es ->]. rewrite Es in Hst.
  split; rec_cbn; try done.
  - intros l d. rewrite (held_open r); [lia|done|by rewrite Es|done].
  - apply HI.
  - apply (ArtifactsOk_put db db r); rec_cbn; rewrite ?Es, ?Hid; try done. apply HI.
Qed.

Lemma stage_transfer_Staged now db id r next r1 db1 transfer :
  Inv db -> (forall d, 0 <= cost_get (Transfer.actual transfer) d) ->
  Db.invocations db !! id = Some r -> InvocationRecord.id r = id ->
  steps_to (InvocationRecord.state r) Step.CompleteTransfer next ->
  stage_transfer transfer db r = Ok (r1, db1) ->
  Staged db r (stored now next r1) db1.
Proof using Type.
  intros HI Hact Hr Hid Hn Ha. unfold stage_transfer in Ha.
  apply bind_Ok in Ha as (keys & Hk & Ha). apply bind_Ok in Ha as (db0 & Hb & Ha).
  apply Ok_inj in Ha. injection Ha as <- <-.
  pose proof (inv_records db HI id r Hr) as [_ _ Hst]. unfold StateOk in Hst.
  apply step_CompleteTransfer in Hn as [Es ->]. rewrite Es in Hst.
  assert (SealsOk db0 /\ exists f, db0 = set_blobs f db) as (Hso & f & ->).
  { destruct (Db.blobs db !! _).
    - apply Ok_inj in Hb. subst. split; [apply HI|]. exists (fun x => x). by destruct db0.
    - apply bind_Ok in Hb as ([] & _ & Hb). apply Ok_inj in Hb. subst. split; [|eauto].
      apply SealsOk_blobs; [done|apply HI]. }
  split; rec_cbn; try done.
  - unfold StateOk. rec_cbn. split; [done|]. split; [by rewrite Hid|eauto].
  - intros l d. rewrite (held_open r); rec_cbn; [|done|by rewrite Es|done].
    change (view_ledger (set_pending _ (set_blobs f db)) l) with (view_ledger db l). lia.
  - by apply SealsOk_pending.
  - destruct (inv_artifacts db HI) as [Hp Hl Hf Hfp]. split; [| |done|].
    + intros i x. cbn [Db.invocations Db.pending set_invocations set_pending set_blobs put_invocation].
      rec_cbn. rewrite Hid. intros [[<- <-]|[Hne Hi]]%lookup_insert_Some Hx; rec_cbn.
      * rewrite lookup_insert_eq. eexists. split; [reflexivity|done].
      * rewrite lookup_insert_ne by congruence. by apply Hp.
    + intros a loc. cbn [Db.locators Db.invocations set_invocations set_pending set_blobs put_invocation].
      rec_cbn. rewrite Hid. intros Hloc. destruct (Hl a loc Hloc) as (i & x & -> & Hi & Hx).
      exists i, x. split; [done|]. split; [|done]. rewrite lookup_insert_ne; [done|].
      intros <-. simplify_eq. rewrite Es in Hx. by destruct Hx.
    + intros k x. cbn. intros [[<- <-]|[_ Hx]]%lookup_insert_Some; [done|by apply Hfp].
Qed.

Lemma stage_index_Ok now db r a db1 :
  stage_index now db r a = Ok db1 -> SealsOk db -> SealsOk db1 /\ exists f, db1 = set_session_index f db.
Proof using Type.
  unfold stage_index. destruct (InvocationRecord.session r) as [s|]; intros Hs Hso.
  - apply bind_Ok in Hs as (found & _ & Hs). apply bind_Ok in Hs as (keys & Hk & Hs).
    apply Ok_inj in Hs. subst. split; [by apply SealsOk_index|eauto].
  - apply Ok_inj in Hs. subst. split; [done|]. exists (fun x => x). by destruct db1.
Qed.

Lemma stage_publish_Staged now db id r next r1 db1 :
  Inv db -> Db.invocations db !! id = Some r -> InvocationRecord.id r = id ->
  steps_to (InvocationRecord.state r) Step.Publish next ->
  stage_publish now db r = Ok (r1, db1) ->
  Staged db r (stored now next r1) db1.
Proof using Type.
  intros HI Hr Hid Hn Ha. unfold stage_publish in Ha.
  apply bind_Ok in Ha as (keys & Hk & Ha). apply bind_Ok in Ha as (p & Hp & Ha).
  apply bind_Ok in Ha as (art & Hart%ok_or_Ok & Ha). subst p.
  apply bind_Ok in Ha as ([] & Hloc & Ha). apply bind_Ok in Ha as (db2 & Hx & Ha).
  apply Ok_inj in Ha. injection Ha as <- <-.
  pose proof (inv_records db HI id r Hr) as [_ _ Hst]. unfold StateOk in Hst.
  apply step_Publish in Hn as [Es ->]. rewrite Es in Hst.
  destruct (ao_pending _ (inv_artifacts db HI) id r Hr Es) as (s & Hs & Hname).
  rewrite Hid, Hs in Hp. cbn [get_sealed] in Hp. apply bind_Ok in Hp as (art' & Ho & Hp).
  apply Ok_inj in Hp. injection Hp as ->. unfold open_sealed in Ho.
  destruct (bool_decide (Sealed.key_id s ∈ openers keys)); [|done].
  apply Ok_inj in Ho. subst art. rewrite Hname, Hid in Hx.
  apply stage_index_Ok in Hx as [Hso [f ->]].
  2: { apply (SealsOk_same (set_pending (delete (InvocationRecord.tenant r, id)) (set_artifacts
         <[(InvocationRecord.tenant r, artifact_ref id) :=
             seal_active keys (published_record now (Sealed.plain s))]> db))); try done.
       apply SealsOk_unpend, SealsOk_artifacts; [done|apply HI]. }
  split; rec_cbn; try done.
  - unfold StateOk. rec_cbn. by rewrite Hid.
  - intros l d. rewrite (held_open r); rec_cbn; [|done|by rewrite Es|done].
    change (view_ledger (set_session_index _ _) l) with (view_ledger db l). lia.
  - destruct (inv_artifacts db HI) as [Hp' Hl Hf Hfp]. split.
    + intros i x. cbn [Db.invocations Db.pending set_invocations set_session_index set_locators
        set_pending set_artifacts put_invocation]. rec_cbn. rewrite Hid.
      intros [[<- <-]|[Hne Hi]]%lookup_insert_Some Hst'; rec_cbn; [done|].
      rewrite lookup_delete_ne by congruence. by apply Hp'.
    + intros a loc. cbn [Db.locators Db.invocations set_invocations set_session_index set_locators
        set_pending set_artifacts put_invocation]. rec_cbn. rewrite Hid.
      intros [[<- <-]|[Hne Ha]]%lookup_insert_Some.
      * eexists id, _. rewrite lookup_insert_eq. split_and!; [done|reflexivity|by left].
      * destruct (Hl a loc Ha) as (i & x & -> & Hi & Hx). exists i, x.
        rewrite lookup_insert_ne by congruence. done.
    + intros k x. cbn. intros [[<- <-]|[_ Hx]]%lookup_insert_Some; [|by apply Hf]. by apply Hfp in Hs.
    + intros k x. cbn. intros [_ Hx]%lookup_delete_Some. by apply Hfp.
Qed.

(** Settlement: what is debited and what is released make up the
    reservation. *)
Definition SettlementOk (reserved : Cost) (s : Settlement) : Prop := forall d,
  cost_get (Settlement.debit s) d + cost_get (Settlement.release s) d = cost_get reserved d /\
  0 <= cost_get (Settlement.debit s) d /\ 0 <= cost_get (Settlement.release s) d.

Lemma apply_settlement_Staged now db id r r0 t s r1 db1 :
  Inv db -> Db.invocations db !! id = Some r -> InvocationRecord.id r = id ->
  is_terminal (InvocationRecord.state r) = false ->
  (InvocationRecord.state r = InvocationState.Published -> terminal_state t = InvocationState.Settled) ->
  InvocationRecord.id r0 = id -> InvocationRecord.tenant r0 = InvocationRecord.tenant r ->
  InvocationRecord.session r0 = InvocationRecord.session r ->
  InvocationRecord.ledgers r0 = InvocationRecord.ledgers r ->
  InvocationRecord.reserved r0 = InvocationRecord.reserved r ->
  InvocationRecord.terminal r0 = Some t ->
  SettlementOk (InvocationRecord.reserved r) s ->
  (terminal_state t = InvocationState.Released -> Settlement.debit s = cost_default) ->
  (terminal_state t = InvocationState.UnknownEffect -> Settlement.debit s = InvocationRecord.reserved r) ->
  apply_settlement s db r0 = Ok (r1, db1) ->
  Staged db r (stored now (terminal_state t) r1) db1.
Proof using Type.
  intros HI Hr Hid Hop Hpub Hid0 Hten Hses Hled Hres Hterm Hs Hrel Hunk Ha.
  unfold apply_settlement in Ha. apply bind_Ok in Ha as (db2 & Hm & Ha).
  apply Ok_inj in Ha. injection Ha as <- <-. apply release_all_moved in Hm as [Hdb Hv].
  assert (exists f, db2 = set_ledgers f db) as [f ->] by eauto. clear Hdb.
  assert (is_terminal (terminal_state t) = true) as Ht by (by destruct t).
  assert (forall d, held (stored now (terminal_state t) (with_debited (Some (Settlement.debit s)) r0)) d
                    = cost_get (Settlement.debit s) d) as Hheld.
  { intros d. unfold held. rec_cbn. by rewrite Ht. }
  assert (forall d, held r d = cost_get (InvocationRecord.reserved r) d) as Hold
    by (intros d; unfold held; by rewrite Hop).
  split; rec_cbn; try done; try congruence.
  - unfold StateOk. rec_cbn.
    assert (forall s0, terminal_state t = s0 -> exists t0 c, InvocationRecord.terminal r0 = Some t0 /\
      terminal_state t0 = s0 /\ Some (Settlement.debit s) = Some c /\
      (forall d, 0 <= cost_get c d <= cost_get (InvocationRecord.reserved r0) d) /\
      (s0 = InvocationState.Released -> c = cost_default) /\
      (s0 = InvocationState.UnknownEffect -> c = InvocationRecord.reserved r0)) as Hend.
    { intros s0 <-. exists t, (Settlement.debit s). rewrite Hterm, Hres. split_and!; try done.
      intros d. destruct (Hs d) as (? & ? & ?). lia. }
    destruct t; cbn [terminal_state] in *; by apply Hend.
  - intros l d. rewrite Hv, Hheld, Hold, Hled. destruct (Hs d) as (? & _). nia.
  - apply (SealsOk_same db); try done. apply HI.
  - apply (ArtifactsOk_put db (set_ledgers f db) r); rec_cbn; try done; try congruence; [apply HI|].
    by destruct t.
Qed.
End steps.
