(* ===== verification/StoreRun.v ===== *)
(** * The operations of the store preserve its invariant

    The invocation and lifecycle transactions, recovery, then the directory,
    claim and shred transactions. *)
From S2P Require Import Prelude Vocab Ids Payload Epitrope Origin View Chain Issue Budget Decision.
From S2P Require Import Lifecycle Records Store StoreAudit Invocation Transition Directory Claim.
From S2P Require Import Shred Recovery Invariant Steps.
Local Open Scope Z_scope.

(** Either nothing was written, or what the transaction staged. *)
Lemma with_tx_cases {A} fp db (body : result StoreError (Finish A)) (P : Db -> Prop) :
  P db -> (forall b a db', body = Ok (Committed b a db') -> P db') -> P (snd (with_tx fp db body)).
Proof.
  intros Hdb Hc. unfold with_tx, commit. destruct body as [[a|b a db']|e]; try done.
  destruct b as [b|]; [|by apply (Hc None a)].
  destruct (Failpoint.before_commit fp b); [done|].
  destruct (Failpoint.after_commit fp b); by apply (Hc (Some b) a).
Qed.

Section ops.
Context `{Hashes}.

(** ** B1 *)

Lemma persist_Inv now db keys intent chain reservation b a db' :
  Inv db -> cost_wf (AuthzRequest.declared (Intent.authz intent)) ->
  tenant_keys db (AuthzRequest.tenant (Intent.authz intent)) = Ok keys ->
  Db.invocations db !! Intent.invocation intent = None ->
  authorize db (Intent.authz intent) now = Ok (Decision.Allowed chain reservation) ->
  session_owner_shredded db (AuthzRequest.session (Intent.authz intent)) = false ->
  persist now db keys intent chain reservation = Ok (Committed b a db') -> Inv db'.
Proof using Type.
  intros HI Hwf Hk Hnew Hauth Hshred Hp. unfold persist, intent_record, debit_reservation in Hp.
  apply bind_Ok in Hp as ([r db2] & Hi & Hp). apply Ok_inj in Hp. injection Hp as _ _ <-.
  apply bind_Ok in Hi as ([ls db1] & Hd & Hi). apply Ok_inj in Hi. injection Hi as <- <-.
  apply authorize_inv in Hauth as (_ & ch & deb & lds & _ & _ & Hsess & _ & _ & [-> _]%plan_reservation_Fits & _).
  cbn [ReservationPlan.cost] in *. apply debit_all_moved in Hd as [Hm Hfit].
  set (r := InvocationRecord.mk _ _ _ _ _ _ _ _ _ _ _ _ _ _ _) in *.
  pose proof Hm as [Hdb _]. assert (exists f, db1 = set_ledgers f db) as [f Hf] by eauto. clear Hdb.
  set (db3 := put_invocation r db1).
  assert (Inv db3) as [].
  { assert (same_registry db db3) as Hs by (subst db3; by rewrite Hf). split.
    - intros i x. subst db3. rewrite Hf. cbn [Db.invocations set_invocations put_invocation set_ledgers].
      intros [[<- <-]|[_ Hx]]%lookup_insert_Some; [by split|by apply HI].
    - apply (Balanced_new db); [done| |apply HI]. exact Hm.
    - apply Hfit, HI.
    - apply (Registry_same db); [done|apply HI].
    - intros i x. subst db3. rewrite Hf. cbn [Db.invocations set_invocations put_invocation set_ledgers].
      intros [[<- <-]|[_ Hx]]%lookup_insert_Some Ho; [|by apply (inv_open db HI i x)].
      split; [apply tenant_keys_Some in Hk as (rec & Hrec & _); exists rec; exact Hrec|]. intros s Hses. cbn in Hses.
      unfold SessionOk in Hsess. rewrite Hses in Hsess. destruct Hsess as (_ & owner & Ho' & _).
      unfold session_owner_shredded in Hshred. rewrite Hses in Hshred. cbn in Ho'.
      cbn [Db.sessions Db.tenants set_ledgers]. destruct (Db.sessions db !! s) as [rec|] eqn:Hrec; [|done].
      exists rec. split; [done|]. apply bool_decide_eq_false in Hshred.
      by destruct (reg_session db (inv_registry db HI) s rec Hrec) as (_ & [?|?]).
    - apply (SealsOk_same db); try done; try (subst db3; by rewrite Hf). apply HI.
    - destruct (inv_artifacts db HI) as [Hp Hl Hfa Hfp]. subst db3. rewrite Hf.
      split; [| |done|done]; cbn [Db.invocations Db.pending Db.locators set_invocations put_invocation set_ledgers].
      + intros i x [[<- <-]|[_ Hx]]%lookup_insert_Some Hst; [done|by apply Hp].
      + intros ar loc Ha. destruct (Hl ar loc Ha) as (i & x & -> & Hi & Hx). exists i, x.
        rewrite lookup_insert_ne; [done|]. intros <-. cbn in Hi. congruence.
    - apply (AuditLog_same db); [subst db3; by rewrite Hf|apply HI].
    - apply (GrantsOk_same db); [subst db3; by rewrite Hf|apply HI]. }
  split; try done.
  - by apply (Registry_same db3).
  - apply SealsOk_idem; [|done]. cbn [fst]. subst db3. rewrite Hf. exact Hk.
  - by destruct inv_artifacts.
  - by apply (AuditLog_same db3).
Qed.

Lemma refuse_Inv now db intent failure b a db' :
  Inv db -> refuse now db intent failure = Ok (Committed b a db') -> Inv db'.
Proof using Type.
  intros HI Hr. unfold refuse in Hr. apply bind_Ok in Hr as ([seq db1] & Ha & Hr).
  apply Ok_inj in Hr. injection Hr as _ _ <-. by apply Inv_append_audit in Ha.
Qed.

Lemma begin_Inv fp now db intent :
  Inv db -> cost_wf (AuthzRequest.declared (Intent.authz intent)) -> Inv (snd (begin fp now db intent)).
Proof using Type.
  intros HI Hwf. apply (with_tx_cases fp db _ Inv HI). intros b a db' Hb. unfold begin_tx in Hb.
  apply bind_Ok in Hb as (keys & Hk & Hb). apply bind_Ok in Hb as (idem & _ & Hb).
  destruct idem as [idem|].
  { unfold replay in Hb. case_in Hb; [done|]. by apply bind_Ok in Hb as (r & _ & Hb). }
  apply bind_Ok in Hb as ([] & Hn%ensure_Ok & Hb). apply bool_decide_eq_true in Hn.
  apply bind_Ok in Hb as (d & Hd%map_err_Ok & Hb).
  destruct d as [chain res|code|dim|]; try (by apply (refuse_Inv _ _ _ _ _ _ _ HI) in Hb).
  destruct (session_owner_shredded _ _) eqn:Hs; [by apply (refuse_Inv _ _ _ _ _ _ _ HI) in Hb|].
  by apply (persist_Inv _ _ _ _ _ _ _ _ _ HI Hwf Hk Hn Hd Hs) in Hb.
Qed.

(** ** B2 to B5 *)

Lemma dispatch_sound now db id :
  Inv db -> StageSound now db id Step.Dispatch (fun db record => Ok (record, db)).
Proof using Type. intros HI r next r1 db1. by apply dispatch_Staged. Qed.

Lemma complete_transfer_sound now db id transfer :
  Inv db -> cost_wf (Transfer.actual transfer) ->
  StageSound now db id Step.CompleteTransfer (stage_transfer transfer).
Proof using Type.
  intros HI Hwf r next r1 db1. apply stage_transfer_Staged; [done|]. intros d. by destruct (Hwf d).
Qed.

Lemma publish_sound now db id : Inv db -> StageSound now db id Step.Publish (stage_publish now).
Proof using Type. intros HI r next r1 db1. by apply stage_publish_Staged. Qed.

(** The settlement [settle] applies, whatever the consumption. *)
Lemma settle_settlement reserved actual settlement :
  (match Budget.settle (V := StoreError) reserved actual with
   | Ok settlement | Err (Error.SettleOverrun _ _ _ settlement) => Ok settlement
   | Err e => Err (StoreError.Authz e)
   end = Ok settlement) <-> settlement = settlement_of reserved actual.
Proof using Type.
  destruct (settle_cases (V := StoreError) reserved actual) as [[-> _]|(d & _ & ->)];
    split; intros; by simplify_eq.
Qed.

Lemma settlement_of_ok reserved actual :
  cost_wf reserved -> (forall d, 0 <= cost_get actual d) ->
  SettlementOk reserved (settlement_of reserved actual).
Proof using Type.
  intros Hr Ha d. destruct (Hr d). destruct (settlement_of_spec reserved actual d) as (_ & ? & ? & ?); auto.
Qed.

Lemma settle_input_Ok i r outcome actual failure :
  RecordOk i r -> (forall f c, outcome = SettleOutcome.Failed f c -> cost_wf c) ->
  settle_input r outcome = Ok (actual, failure) -> forall d, 0 <= cost_get actual d.
Proof using Type.
  intros [_ _ Hst] Hout. unfold settle_input, StateOk in *. intros Hs.
  destruct (InvocationRecord.state r), outcome as [|f c]; try done.
  - destruct (started_failure f); [|done]. apply Ok_inj in Hs. injection Hs as <- _.
    intros d. by destruct (Hout f c eq_refl d).
  - destruct Hst as (_ & _ & c & Hact & Hc). rewrite Hact in Hs. apply Ok_inj in Hs. by injection Hs as <- _.
Qed.

Lemma settle_sound now db id outcome :
  Inv db -> (forall f c, outcome = SettleOutcome.Failed f c -> cost_wf c) ->
  StageSound now db id Step.Settle (stage_settle outcome).
Proof using Type.
  intros HI Hout r next r1 db1 Hr Hid [Hst ->]%step_Settle Ha. unfold stage_settle in Ha.
  apply bind_Ok in Ha as ([actual failure] & Hi & Ha).
  apply bind_Ok in Ha as (s & Hs%settle_settlement & Ha). subst s.
  pose proof (inv_records db HI id r Hr) as Hro.
  apply (apply_settlement_Staged now db id r _ (Terminal.Settled failure)) in Ha; try done.
  - by destruct Hst as [-> | ->].
  - apply settlement_of_ok; [apply Hro|]. by apply (settle_input_Ok id r outcome _ failure).
Qed.

Lemma release_sound now db id reason :
  Inv db -> StageSound now db id (Step.Release reason) (stage_release reason).
Proof using Type.
  intros HI r next r1 db1 Hr Hid [Hst ->]%step_Release Ha. unfold stage_release in Ha.
  pose proof (inv_records db HI id r Hr) as Hro.
  apply (apply_settlement_Staged now db id r _ (Terminal.Released reason)) in Ha; try done.
  - by destruct Hst as [-> | ->].
  - by destruct Hst as [-> | ->].
  - intros d. pose proof (ro_reserved _ _ Hro d) as [? _].
    change (cost_get (Settlement.debit _) d) with (cost_get cost_default d).
    replace (cost_get cost_default d) with 0 by (by destruct d). cbn [Settlement.release]. lia.
Qed.

Lemma mark_unknown_effect_sound now db id :
  Inv db -> StageSound now db id Step.MarkUnknownEffect stage_unknown_effect.
Proof using Type.
  intros HI r next r1 db1 Hr Hid [Hst ->]%step_MarkUnknownEffect Ha. unfold stage_unknown_effect in Ha.
  pose proof (inv_records db HI id r Hr) as Hro.
  apply (apply_settlement_Staged now db id r _ Terminal.UnknownEffect) in Ha; try done.
  - by rewrite Hst.
  - by rewrite Hst.
  - intros d. pose proof (ro_reserved _ _ Hro d) as [? _].
    change (cost_get (Settlement.release _) d) with (cost_get cost_default d).
    replace (cost_get cost_default d) with 0 by (by destruct d).
    cbn [Settlement.debit unknown_effect_settlement]. lia.
Qed.

(** The store after a transition with a sound stage: unchanged, or one
    committed step further. *)
Lemma transition_cases fp now db id step b apply :
  Inv db -> StageSound now db id step apply ->
  let db' := snd (transition fp now db id step b apply) in
  Inv db' /\ (db' = db \/ exists r r', Stepped db db' id r r' step).
Proof using Type.
  intros HI Hst. unfold transition.
  apply (with_tx_cases fp db _ (fun db' => Inv db' /\ (db' = db \/ exists r r', Stepped db db' id r r' step))).
  { auto. }
  intros b' a db' (HI' & r & r' & Hs & _)%transition_Stepped; eauto.
Qed.

Lemma dispatch_Inv fp now db id : Inv db -> Inv (snd (dispatch fp now db id)).
Proof using Type. intros HI. by apply transition_cases, dispatch_sound. Qed.
Lemma complete_transfer_Inv fp now db id transfer :
  Inv db -> cost_wf (Transfer.actual transfer) -> Inv (snd (complete_transfer fp now db id transfer)).
Proof using Type. intros HI Hwf. by apply transition_cases, complete_transfer_sound. Qed.
Lemma publish_Inv fp now db id : Inv db -> Inv (snd (publish fp now db id)).
Proof using Type. intros HI. by apply transition_cases, publish_sound. Qed.
Lemma settle_Inv fp now db id outcome :
  Inv db -> (forall f c, outcome = SettleOutcome.Failed f c -> cost_wf c) ->
  Inv (snd (settle fp now db id outcome)).
Proof using Type. intros HI Hout. by apply transition_cases, settle_sound. Qed.
Lemma release_Inv fp now db id reason : Inv db -> Inv (snd (release fp now db id reason)).
Proof using Type. intros HI. by apply transition_cases, release_sound. Qed.
Lemma mark_unknown_effect_Inv fp now db id : Inv db -> Inv (snd (mark_unknown_effect fp now db id)).
Proof using Type. intros HI. by apply transition_cases, mark_unknown_effect_sound. Qed.
End ops.

(** ** Directory, claims and shredding *)

Section directory.
Context `{Hashes}.

(** ** Directory transactions *)

Lemma register_tenant_Inv fp now db registration :
  Inv db -> Inv (snd (register_tenant fp now db registration)).
Proof using Type.
  intros HI. apply (with_tx_cases fp db _ Inv HI). intros b a db' Hr. unfold register_tenant_tx in Hr.
  set (id := TenantRegistration.id registration) in *.
  destruct (Db.tenants db !! id) eqn:Hnew; [by apply bind_Ok in Hr as (_ & _ & Hr)|].
  apply bind_Ok in Hr as ([] & Ht%ensure_Ok & Hr). apply bool_decide_eq_true in Ht.
  apply bind_Ok in Hr as ([] & _ & Hr). apply Ok_inj in Hr. injection Hr as _ _ <-.
  set (rec := TenantRecord.mk _ _ _ _ _ _ _ _).
  set (db' := set_tenants _ _).
  assert (forall t, is_Some (Db.tenants db !! t) -> is_Some (Db.tenants db' !! t)) as Hmono.
  { intros t Hs. cbn. by apply lookup_insert_is_Some'; right. }
  assert (Db.rekey db !! id = None) as Hnr.
  { destruct (Db.rekey db !! id) as [rk|] eqn:Hrk; [|done].
    destruct (reg_rekey db (inv_registry db HI) id rk Hrk) as (? & ? & _). congruence. }
  assert (forall t k i, KeyOk db t k i -> KeyOk db' t k i) as Hkey.
  { intros t k i [Hs|(rec' & Hl & Hk)]; [by left|]. right. exists rec'. split; [|exact Hk].
    cbn. rewrite lookup_insert_ne; [done|]. congruence. }
  destruct HI as [Hrec Hbal Hfit [Hten Hses Hrk Hks] Hopen [] [] Haud Hgr]. split; try done; try (by eapply AuditLog_same; [|exact Haud]).
  - split.
    + intros t r. cbn [Db.tenants set_tenants set_data_keys db'].
      intros [[<- <-]|[Hne Hl]]%lookup_insert_Some.
      * split; cbn; [done|done|set_solver|by right| |done]. intros i. unfold rekey_retiring. cbn.
        by rewrite Hnr.
      * destruct (Hten t r Hl) as [H1 H2 H3 H4 H5 H6]. split; cbn; try done; [set_solver|].
        intros i Hi. apply elem_of_union. right. by apply H5.
    + intros s r Hs. destruct (Hses s r Hs) as (? & [?|?]); auto.
    + intros t rk Hs. destruct (Hrk t rk Hs) as (r & Hl & Hok). exists r. split; [|done].
      cbn. rewrite lookup_insert_ne; [done|]. congruence.
    + intros t i. cbn. intros [[= -> ->]%elem_of_singleton|Hin]%elem_of_union.
      * exists rec. rewrite lookup_insert_eq. auto.
      * destruct (Hks t i Hin) as (r & Hl & Hk). exists r. rewrite lookup_insert_ne by congruence. auto.
  - intros i r Hi Ho. destruct (Hopen i r Hi Ho) as [H1 H2]. split; [by apply Hmono|].
    intros s Hs. destruct (H2 s Hs) as (rs & ? & ?). exists rs. auto.
  - split; intros; apply Hkey; eauto.
Qed.

Lemma grants_Inv db i g :
  Inv db -> GrantRecord.id g = i -> in_range u8_max (GrantRecord.depth g) ->
  in_range u8_max (GrantRecord.max_depth g) -> Inv (set_grants <[i := g]> db).
Proof using Type.
  intros [Hrec Hbal Hfit Hreg Hopen Hseal Hart Haud Hgr] Hid Hd Hm. split; try done; try (by eapply AuditLog_same; [|exact Haud]).
  - by apply (Registry_same db).
  - by apply (SealsOk_same db).
  - by destruct Hart.
  - intros j x. cbn. intros [[<- <-]|[_ Hx]]%lookup_insert_Some; [done|by apply Hgr].
Qed.

Lemma put_new_grant_Inv db g staged db' :
  Inv db -> in_range u8_max (GrantRecord.depth g) -> in_range u8_max (GrantRecord.max_depth g) ->
  put_new_grant db g = Ok (staged, db') -> Inv db'.
Proof using Type.
  intros HI Hd Hm Hp. unfold put_new_grant in Hp. destruct (Db.grants db !! _).
  - apply bind_Ok in Hp as ([] & _ & Hp). apply Ok_inj in Hp. by injection Hp as _ <-.
  - apply Ok_inj in Hp. injection Hp as _ <-. by apply grants_Inv.
Qed.

Lemma install_root_grant_Inv fp db root :
  Inv db -> in_range u8_max (RootGrant.max_depth root) -> Inv (snd (install_root_grant fp db root)).
Proof using Type.
  intros HI Hm. apply (with_tx_cases fp db _ Inv HI). intros b a db' Hr.
  unfold install_root_grant_tx, root_to_grant in Hr.
  apply bind_Ok in Hr as (g & Hg & Hr). apply bind_Ok in Hg as (ts & _ & Hg). apply Ok_inj in Hg. subst g.
  apply bind_Ok in Hr as ([] & _ & Hr). apply bind_Ok in Hr as ([staged db1] & Hp & Hr).
  apply Ok_inj in Hr. destruct staged; [|done]. injection Hr as _ _ <-.
  by apply put_new_grant_Inv in Hp.
Qed.

Lemma issue_finish_Inv now db issue outcome state b a db' :
  Inv db -> issue_finish now db issue outcome state = Ok (Committed b a db') -> Inv db'.
Proof using Type.
  intros HI Hf. unfold issue_finish in Hf. apply bind_Ok in Hf as ([seq db1] & Ha & Hf).
  apply Ok_inj in Hf. injection Hf as _ _ <-. by apply Inv_append_audit in Ha.
Qed.

Lemma issued_depths db ctx request now child :
  GrantsOk db -> (forall m, GrantIssueRequest.max_depth request = Some m -> in_range u8_max m) ->
  check_issue db ctx request now = Ok (IssueDecision.Issued child) ->
  in_range u8_max (Grant.depth child) /\ in_range u8_max (Grant.max_depth child).
Proof using Type.
  intros Hg Hm (parent & chain & used & Hv & _ & _ & _ & _ & _ & _ & Hatt & HL & _ & _ & Hmd & _)%check_issue_Issued;
    [|by apply Inv_view_u8].
  destruct (Inv_view_u8 db Hg _ _ Hv) as [Hd Hmx].
  inversion HL as [leaf Hp0 Hd0|leaf pid p rest Hp0 Hvg Hok HL']; subst.
  - rewrite Hd0, Hmd. split; [unfold in_range, u8_max; lia|].
    destruct (GrantIssueRequest.max_depth request) eqn:E; cbn; [by apply Hm|done].
  - destruct (Inv_view_u8 db Hg _ _ Hvg) as [Hdp _]. split.
    + unfold link_ok in Hok. bool_simpl.
      match goal with H : checked_add _ _ _ = Some _ |- _ => apply checked_add_Some in H end.
      unfold in_range in *. lia.
    + rewrite Hmd. destruct (GrantIssueRequest.max_depth request) eqn:E; cbn; [by apply Hm|done].
Qed.

Lemma issue_grant_Inv fp now db issue :
  Inv db ->
  (forall m, GrantIssueRequest.max_depth (GrantIssue.request issue) = Some m -> in_range u8_max m) ->
  Inv (snd (issue_grant fp now db issue)).
Proof using Type.
  intros HI Hm. apply (with_tx_cases fp db _ Inv HI). intros b a db' Hr. unfold issue_grant_tx in Hr.
  set (new := mbind _ _) in Hr. assert (new = Ok (Committed b a db') -> Inv db') as Hnew.
  { subst new. intros Hn. apply bind_Ok in Hn as (d & Hd%map_err_Ok & Hn).
    destruct d as [child| | |]; try (by apply (issue_finish_Inv _ _ _ _ _ _ _ _ HI) in Hn).
    apply bind_Ok in Hn as ([staged db1] & Hp & Hn).
    apply issued_depths in Hd as [Hd Hmd]; [|apply HI|done].
    apply put_new_grant_Inv in Hp; try done.
    destruct staged; [|done]. by apply issue_finish_Inv in Hn. }
  destruct (Db.grants db !! _); [|by apply Hnew]. case_in Hr; [|by apply Hnew].
  by apply bind_Ok in Hr as (_ & _ & Hr).
Qed.

Lemma revoke_grant_Inv fp now db revoke : Inv db -> Inv (snd (revoke_grant fp now db revoke)).
Proof using Type.
  intros HI. apply (with_tx_cases fp db _ Inv HI). intros b a db' Hr. unfold revoke_grant_tx in Hr.
  destruct (Db.grants db !! _); [|done]. destruct (Db.revocations db !! _); [done|].
  apply bind_Ok in Hr as ([seq db1] & Ha & Hr). apply Ok_inj in Hr. injection Hr as _ _ <-.
  apply Inv_append_audit in Ha as [Hrec Hbal Hfit Hreg Hopen Hseal Hart Haud Hgr]; [|done].
  split; try done; try (by eapply AuditLog_same; [|exact Haud]);
    [by apply (Registry_same db1)|by apply (SealsOk_same db1)|by destruct Hart].
Qed.

Lemma open_session_Inv fp now db new parent : Inv db -> Inv (snd (open_session fp now db new parent)).
Proof using Type.
  intros HI. apply (with_tx_cases fp db _ Inv HI). intros b a db' Hr. unfold open_session_tx in Hr.
  apply bind_Ok in Hr as ([] & Hown%ensure_Ok & Hr). apply bool_decide_eq_true in Hown.
  case_in Hr; [done|]. destruct (Db.sessions db !! NewSession.session new) eqn:Hnew.
  { by apply bind_Ok in Hr as (_ & _ & Hr). }
  apply bind_Ok in Hr as ([seq db1] & Ha & Hr). apply Ok_inj in Hr. injection Hr as _ _ <-.
  apply Inv_append_audit in Ha; [done|].
  destruct HI as [Hrec Hbal Hfit [Hten Hses Hrk Hks] Hopen [] [] Haud Hgr]. split; try done; try (by eapply AuditLog_same; [|exact Haud]).
  - split; [|intros s r|done|done].
    + intros t r Ht. by destruct (Hten t r Ht).
    + cbn. intros [[<- <-]|[_ Hs]]%lookup_insert_Some; [cbn; auto|by apply Hses].
  - intros i r Hi Ho. destruct (Hopen i r Hi Ho) as [H1 H2]. split; [done|].
    intros s Hs. destruct (H2 s Hs) as (rs & Hrs & ?). exists rs. cbn.
    rewrite lookup_insert_ne by congruence. done.
Qed.

Lemma record_audit_Inv fp now db note : Inv db -> Inv (snd (record_audit fp now db note)).
Proof using Type.
  intros HI. apply (with_tx_cases fp db _ Inv HI). intros b a db' Hr. unfold record_audit_tx in Hr.
  apply bind_Ok in Hr as ([seq db1] & Ha & Hr). apply Ok_inj in Hr. injection Hr as _ _ <-.
  by apply Inv_append_audit in Ha.
Qed.

Lemma claim_Inv fp db c : Inv db -> Inv (snd (claim fp db c)).
Proof using Type.
  intros HI. apply (with_tx_cases fp db _ Inv HI). intros b a db' Hr. unfold claim_tx in Hr.
  apply bind_Ok in Hr as (keys & Hk & Hr). apply bind_Ok in Hr as (e & _ & Hr).
  destruct e; [done|]. apply Ok_inj in Hr. injection Hr as _ _ <-.
  destruct HI as [Hrec Hbal Hfit Hreg Hopen Hseal Hart Haud Hgr].
  split; try done; try (by eapply AuditLog_same; [|exact Haud]); [by apply (Registry_same db)|by apply SealsOk_idem|by destruct Hart].
Qed.

(** ** Shredding *)

(** What a shred leaves of the other tenants' keys. *)
Lemma shred_shape now db tenant b a db' :
  shred_tenant_tx now db tenant = Ok (Committed b a db') ->
  is_Some (Db.tenants db !! tenant) /\ Db.tombstones db !! tenant = None /\
  has_open_invocations db tenant = false /\
  exists dk rk,
    (forall t k, t <> tenant -> (t, k) ∈ Db.data_keys db -> (t, k) ∈ dk) /\
    (forall t k, (t, k) ∈ dk -> (t, k) ∈ Db.data_keys db /\
       (t = tenant -> key_ids db tenant <> Some (k, rekey_retiring db tenant) /\ rekey_retiring db tenant <> Some k)) /\
    rk !! tenant = None /\ (forall t, t <> tenant -> rk !! t = Db.rekey db !! t) /\
    db' = set_tombstones <[tenant := TombstoneRecord.mk tenant now]>
            (set_tenants (delete tenant) (set_address_keys (fun k => k ∖ {[tenant]})
              (set_rekey (fun _ => rk) (set_data_keys (fun _ => dk) db)))).
Proof using Type.
  unfold shred_tenant_tx. destruct (Db.tombstones db !! tenant) eqn:Htomb; [done|]. intros Hs.
  apply bind_Ok in Hs as (rec & Hrec%ok_or_Ok & Hs). apply bind_Ok in Hs as ([] & Hopen%ensure_Ok & Hs).
  apply negb_true_iff in Hopen. apply Ok_inj in Hs. injection Hs as _ _ <-.
  split; [eauto|]. split; [done|]. split; [done|]. cbn [Db.rekey set_data_keys].
  assert (forall t k, (t, k) ∈ Db.data_keys db -> t <> tenant \/ k <> TenantRecord.data_key_id rec ->
    (t, k) ∈ Db.data_keys db ∖ {[(tenant, TenantRecord.data_key_id rec)]}) as Hin.
  { intros t k Hk Hne. apply elem_of_difference. split; [done|]. rewrite elem_of_singleton. naive_solver. }
  unfold key_ids, rekey_retiring. rewrite Hrec.
  destruct (Db.rekey db !! tenant) as [rk|] eqn:Hrk.
  - exists (if RekeyRecord.is_done rk then Db.data_keys db ∖ {[(tenant, TenantRecord.data_key_id rec)]}
            else Db.data_keys db ∖ {[(tenant, TenantRecord.data_key_id rec)]}
                   ∖ {[(tenant, RekeyRecord.from_key_id rk)]}), (delete tenant (Db.rekey db)).
    destruct (RekeyRecord.is_done rk); cbn [negb];
      (split_and!; [| |apply lookup_delete_eq|intros t Hne; by apply lookup_delete_ne|reflexivity]).
    + intros t k Hne Hk. apply Hin; auto.
    + intros t k. set_solver.
    + intros t k Hne Hk. apply elem_of_difference. split; [apply Hin; auto|]. rewrite elem_of_singleton. congruence.
    + intros t k. set_solver.
  - exists (Db.data_keys db ∖ {[(tenant, TenantRecord.data_key_id rec)]}), (Db.rekey db).
    split_and!; [| |done|done|reflexivity]; [intros t k Hne Hk; apply Hin; auto|]. intros t k. set_solver.
Qed.

Lemma owned_sessions_spec db tenant s rec :
  Registry db -> Db.sessions db !! s = Some rec -> SessionRecord.owner rec = tenant ->
  s ∈ owned_sessions db tenant.
Proof using Type.
  intros Hreg Hs Ho. unfold owned_sessions. apply elem_of_list_to_set, list_elem_of_omap.
  exists (s, rec). split; [by apply elem_of_map_to_list|]. rewrite bool_decide_eq_true_2 by done.
  by rewrite (proj1 (reg_session db Hreg s rec Hs)).
Qed.

(** No open invocation involves a tenant that may be shredded. *)
Lemma not_open_not_involved db tenant i r :
  Registry db -> has_open_invocations db tenant = false ->
  Db.invocations db !! i = Some r -> is_terminal (InvocationRecord.state r) = false ->
  InvocationRecord.tenant r <> tenant /\
  forall s rec, InvocationRecord.session r = Some s -> Db.sessions db !! s = Some rec ->
    SessionRecord.owner rec <> tenant.
Proof using Type.
  intros Hreg Hno Hi Ht. unfold has_open_invocations in Hno.
  assert (involved (owned_sessions db tenant) tenant r = false) as Hinv.
  { destruct (involved _ _ r) eqn:E; [|done]. rewrite <- Hno. symmetry. apply existsb_exists.
    exists (i, r). split; [by apply list_elem_of_In, elem_of_map_to_list|]. by rewrite E, Ht. }
  unfold involved in Hinv. apply orb_false_iff in Hinv as [H1 H2]. bool_simpl. split; [done|].
  intros s rec Hs Hrec Ho. rewrite Hs in H2. apply bool_decide_eq_false in H2. apply H2.
  by apply (owned_sessions_spec db tenant s rec).
Qed.

Lemma shred_tenant_Inv fp now db tenant : Inv db -> Inv (snd (shred_tenant fp now db tenant)).
Proof using Type.
  intros HI. apply (with_tx_cases fp db _ Inv HI). intros b a db' Hs.
  apply shred_shape in Hs as (Hten & Htomb & Hno & dk & rk & Hdk & Hdk' & Hrk1 & Hrk2 & ->).
  set (db' := set_tombstones _ _).
  assert (forall t, t <> tenant -> rekey_retiring db' t = rekey_retiring db t) as Hret.
  { intros t Hne. unfold rekey_retiring. cbn. by rewrite Hrk2. }
  assert (forall t k i, KeyOk db t k i -> KeyOk db' t k i) as Hkey.
  { intros t k i Hk. destruct (decide (t = tenant)) as [->|Hne].
    { left. cbn. rewrite lookup_insert_eq. eauto. }
    destruct Hk as [Hk|(rec & Hl & Hk)].
    - left. cbn. by rewrite lookup_insert_ne by done.
    - right. exists rec. cbn. by rewrite lookup_delete_ne, Hrk2 by done. }
  pose proof (fun i r => not_open_not_involved db tenant i r (inv_registry db HI) Hno) as Hout.
  destruct HI as [Hrec Hbal Hfit [HT HS HR HK] Hopen [] [] Haud Hgr]. split; try done; try (by eapply AuditLog_same; [|exact Haud]).
  - split.
    + intros t r. cbn. intros [Hne Hl]%lookup_delete_Some.
      destruct (HT t r Hl) as [H1 H2 H3 H4 H5 H6]. split; cbn; [done|by rewrite lookup_insert_ne|by apply Hdk| | |done].
      * destruct H4; [left; set_solver|by right].
      * intros k. rewrite Hret by done. intros Hk. by apply Hdk, H5.
    + intros s r Hl. destruct (HS s r Hl) as [H1 H2]. split; [done|]. cbn.
      destruct (decide (SessionRecord.owner r = tenant)) as [->|Hne].
      * right. rewrite lookup_insert_eq. eauto.
      * by rewrite lookup_delete_ne, lookup_insert_ne by done.
    + intros t x. cbn. intros Hl. destruct (decide (t = tenant)) as [->|Hne]; [congruence|].
      rewrite lookup_delete_ne by done. apply HR. by rewrite <- Hrk2.
    + intros t i. cbn. intros [Hin Hn]%Hdk'. destruct (HK t i Hin) as (r & Hl & Hk). exists r.
      destruct (decide (t = tenant)) as [->|Hne].
      * exfalso. destruct (Hn eq_refl) as [N1 N2]. destruct Hk as [->|Hk]; [|done].
        apply N1. unfold key_ids. by rewrite Hl.
      * rewrite lookup_delete_ne, Hret by done. done.
  - intros i r Hi Ho. destruct (Hopen i r Hi Ho) as [H1 H2]. destruct (Hout i r Hi Ho) as [Hne Hses].
    split; [cbn; by rewrite lookup_delete_ne|]. intros s Hs.
    destruct (H2 s Hs) as (rs & Hrs & Hlive). exists rs. split; [done|]. cbn.
    rewrite lookup_delete_ne; [done|]. intros Heq. by apply (Hses s rs Hs Hrs).
  - split; intros; apply Hkey; eauto.
Qed.
End directory.
