(* ===== verification/RekeyInv.v ===== *)
(** * A rotation preserves the store's invariant, loses nothing and ends *)
From stdpp Require Import sorting.
From S2P Require Import Prelude Vocab Ids Payload Epitrope View Lifecycle Records Store Seal.
From S2P Require Import StoreAudit Invocation Transition Rekey Invariant Steps StoreRun.
Local Open Scope Z_scope.

(** ** Re-sealing changes seals only *)

#[global] Instance WalkKey_eq_dec : EqDecision WalkKey.
Proof. solve_decision. Defined.

(** [db'] has the plain contents of [db], and everything that is not
    tenant-sealed. *)
Record SamePlain (db db' : Db) : Prop := {
  sp_idem : Sealed.plain <$> Db.idem db' = Sealed.plain <$> Db.idem db;
  sp_artifacts : Sealed.plain <$> Db.artifacts db' = Sealed.plain <$> Db.artifacts db;
  sp_pending : Sealed.plain <$> Db.pending db' = Sealed.plain <$> Db.pending db;
  sp_blobs : Sealed.plain <$> Db.blobs db' = Sealed.plain <$> Db.blobs db;
  sp_index : Sealed.plain <$> Db.session_index db' = Sealed.plain <$> Db.session_index db;
  sp_audit : Sealed.plain <$> Db.audit db' = Sealed.plain <$> Db.audit db;
  sp_rest : Db.tombstones db' = Db.tombstones db /\ Db.grants db' = Db.grants db /\
    Db.revocations db' = Db.revocations db /\ Db.sessions db' = Db.sessions db /\
    Db.invocations db' = Db.invocations db /\ Db.ledgers db' = Db.ledgers db /\
    Db.locators db' = Db.locators db /\ Db.audit_stub db' = Db.audit_stub db;
}.
#[global] Instance SamePlain_preorder : PreOrder SamePlain.
Proof.
  split.
  - intros db. by split.
  - intros a b c [] []. split; try congruence. naive_solver congruence.
Qed.

Lemma plain_alter {K A} `{Countable K} (m : gmap K (Sealed A)) (k : K) id :
  Sealed.plain <$> alter (sealed_as id) k m = Sealed.plain <$> m.
Proof.
  apply map_eq. intros i. rewrite !lookup_fmap. destruct (decide (k = i)) as [->|Hne].
  - rewrite lookup_alter_eq. by destruct (m !! i).
  - by rewrite lookup_alter_ne.
Qed.
Lemma seal_as_plain id k db : SamePlain db (seal_as id k db).
Proof. destruct k; split; cbn; try done; apply plain_alter. Qed.

Lemma plain_lookup {K A} `{Countable K} (m m' : gmap K (Sealed A)) k s' :
  Sealed.plain <$> m' = Sealed.plain <$> m -> m' !! k = Some s' ->
  exists s, m !! k = Some s /\ Sealed.plain s = Sealed.plain s'.
Proof.
  intros He Hs'. assert ((Sealed.plain <$> m) !! k = Some (Sealed.plain s')) as Hl.
  { rewrite <- He, lookup_fmap, Hs'. done. }
  rewrite lookup_fmap in Hl. destruct (m !! k) as [s|] eqn:E; [|done]. cbn in Hl. exists s. split; congruence.
Qed.
Lemma plain_lookup_none {K A} `{Countable K} (m m' : gmap K (Sealed A)) k :
  Sealed.plain <$> m' = Sealed.plain <$> m -> m !! k = None -> m' !! k = None.
Proof.
  intros He Hn. destruct (m' !! k) as [s'|] eqn:E; [|done].
  destruct (plain_lookup m m' k s' He E) as (s & Hs & _). congruence.
Qed.

(** ** Headers *)

Lemma header_seal_as id k db k' :
  header (seal_as id k db) k' =
  if bool_decide (k = k') then (fun _ => id) <$> header db k else header db k'.
Proof.
  case_bool_decide as Hk.
  - subst k'. destruct k as [s|s|s|s|s|s|s]; cbn; try done; rewrite lookup_alter_eq; by destruct (_ !! s).
  - destruct k as [s|s|s|s|s|s|s], k' as [s'|s'|s'|s'|s'|s'|s']; cbn; try done;
      rewrite lookup_alter_ne; congruence.
Qed.

Lemma walk_slot_kind k t step :
  walk_owner k = Some t -> walk_get (walk_step k) = Some step -> In (walk_kind k) (WalkStep.slots step).
Proof. destruct k as [[[]]|[]|[]|?|[]|[[]]|[]]; cbn; try done; intros _ [= <-]; cbn; auto. Qed.

(** One record. *)
Lemma reseal_header step tenant retiring active db k db' k' :
  walk_get (walk_step k) = Some step ->
  db' = default db (reseal step tenant retiring active db k) ->
  header db' k' = if bool_decide (k = k' /\ walk_owner k = Some tenant /\ header db k = Some retiring)
                  then Some active else header db k'.
Proof.
  intros Hs ->. unfold reseal. destruct (decide (header db k = Some retiring)) as [Hh|Hh].
  2: { rewrite bool_decide_eq_false_2 by done. cbn. by rewrite bool_decide_eq_false_2 by naive_solver. }
  rewrite bool_decide_eq_true_2 by done. cbn [negb].
  destruct (decide (walk_owner k = Some tenant)) as [Ho|Ho].
  - assert (existsb (fun slot => bool_decide (walk_owner k = Some tenant) && (walk_kind k =? slot))
              (WalkStep.slots step) = true) as ->.
    { apply existsb_exists. exists (walk_kind k). rewrite bool_decide_eq_true_2, Z.eqb_refl by done.
      split; [by eapply walk_slot_kind|done]. }
    change (default db (Some (seal_as active k db))) with (seal_as active k db). rewrite header_seal_as. destruct (decide (k = k')) as [->|Hne].
    + rewrite !bool_decide_eq_true_2 by done. by rewrite Hh.
    + by rewrite !bool_decide_eq_false_2 by naive_solver.
  - assert (existsb (fun slot => bool_decide (walk_owner k = Some tenant) && (walk_kind k =? slot))
              (WalkStep.slots step) = false) as ->.
    { apply not_true_iff_false. intros (x & _ & Hx)%existsb_exists. by rewrite bool_decide_eq_false_2 in Hx. }
    cbn. by rewrite bool_decide_eq_false_2 by naive_solver.
Qed.

Lemma reseal_plain step tenant retiring active db k :
  SamePlain db (default db (reseal step tenant retiring active db k)).
Proof.
  unfold reseal. destruct (negb _); [cbn; reflexivity|]. destruct (existsb _ _); cbn; [|reflexivity].
  apply seal_as_plain.
Qed.

(** The registry keyspaces re-sealing leaves alone. *)
Definition SameKeys (db db' : Db) : Prop :=
  Db.tenants db' = Db.tenants db /\ Db.data_keys db' = Db.data_keys db /\
  Db.address_keys db' = Db.address_keys db /\ Db.rekey db' = Db.rekey db.

Lemma reseal_keys step tenant retiring active db k :
  SameKeys db (default db (reseal step tenant retiring active db k)).
Proof.
  unfold reseal. destruct (negb _); [done|]. destruct (existsb _ _); [|done]. by destruct k.
Qed.

(** A batch: exactly the tenant's records among the entries that carry the
    retiring id move to the active one. *)
Lemma reseal_all_spec step tenant retiring active entries : forall db n db' n',
  Forall (fun k => walk_get (walk_step k) = Some step) entries -> retiring <> active ->
  reseal_all step tenant retiring active db n entries = (db', n') ->
  SamePlain db db' /\ SameKeys db db' /\
  forall k', header db' k' =
    if bool_decide (k' ∈ entries /\ walk_owner k' = Some tenant /\ header db k' = Some retiring)
    then Some active else header db k'.
Proof.
  induction entries as [|k entries IH]; intros db n db' n' Hf Hne Hr.
  { injection Hr as <- <-. split; [reflexivity|]. split; [done|]. intros k'.
    rewrite bool_decide_eq_false_2; [done|]. by intros [?%elem_of_nil _]. }
  apply Forall_cons in Hf as [Hk Hf]. cbn [reseal_all] in Hr.
  set (db1 := default db (reseal step tenant retiring active db k)).
  assert (exists m, reseal_all step tenant retiring active db1 m entries = (db', n')) as [m Hm].
  { subst db1. destruct (reseal step tenant retiring active db k); cbn; eauto. }
  destruct (IH db1 m db' n' Hf Hne Hm) as (HP & HK & HH). split; [|split].
  - etransitivity; [apply reseal_plain|exact HP].
  - destruct (reseal_keys step tenant retiring active db k) as (E1 & E2 & E3 & E4).
    destruct HK as (F1 & F2 & F3 & F4). fold db1 in E1, E2, E3, E4.
    split_and!; congruence.
  - intros k'. rewrite HH. rewrite (reseal_header step tenant retiring active db k db1 k' Hk eq_refl).
    rewrite (bool_decide_ext (k' ∈ k :: entries /\ walk_owner k' = Some tenant /\ header db k' = Some retiring)
      ((k' = k \/ k' ∈ entries) /\ walk_owner k' = Some tenant /\ header db k' = Some retiring))
      by (by rewrite elem_of_cons).
    destruct (decide (k = k')) as [<-|Hkk].
    + destruct (decide (walk_owner k = Some tenant /\ header db k = Some retiring)) as [[Ho Hh]|Hn].
      * rewrite (bool_decide_eq_true_2 (k = k /\ _)) by done.
        rewrite (bool_decide_eq_false_2 (_ /\ _ /\ Some active = _)) by naive_solver.
        by rewrite bool_decide_eq_true_2 by naive_solver.
      * rewrite (bool_decide_eq_false_2 (k = k /\ _)) by naive_solver.
        by rewrite !bool_decide_eq_false_2 by naive_solver.
    + rewrite (bool_decide_eq_false_2 (k = k' /\ _)) by naive_solver.
      erewrite bool_decide_ext; [reflexivity|naive_solver].
Qed.

(** ** The keyspaces of the walk *)

Lemma walk_keys_step db step k : k ∈ walk_keys db step -> walk_step k = Z.of_nat (Z.to_nat step) /\ is_Some (walk_get step).
Proof.
  unfold walk_keys, walk_get. destruct (Z.to_nat step) as [|[|[|[|[|n]]]]]; cbn [lookup WALK list_lookup];
    rewrite ?elem_of_app, ?elem_of_nil, ?list_elem_of_fmap; try done; intros Hk; (split; [|by eauto]);
    naive_solver.
Qed.

Lemma walk_keys_header db k : is_Some (header db k) -> k ∈ walk_keys db (walk_step k).
Proof.
  assert (forall {K A} `{Countable K} (m : gmap K A) (s : K) (f : K -> WalkKey),
    is_Some (m !! s) -> f s ∈ f <$> (map_to_list m).*1) as Hin.
  { intros K A ? ? m s f [v Hv]. apply list_elem_of_fmap_2, list_elem_of_fmap. exists (s, v).
    split; [done|by apply elem_of_map_to_list]. }
  unfold walk_keys. destruct k; cbn [header walk_step Z.to_nat]; rewrite ?fmap_is_Some; try (by intros; apply Hin).
  - intros Hs. apply elem_of_app. left. by apply Hin.
  - intros Hs. apply elem_of_app. right. apply elem_of_app. left. by apply Hin.
  - by intros [? ?].
Qed.

(** The keys of a keyspace do not depend on the seals. *)
Lemma plain_keys {K A} `{Countable K} (m m' : gmap K (Sealed A)) :
  Sealed.plain <$> m' = Sealed.plain <$> m -> (map_to_list m').*1 ≡ₚ (map_to_list m).*1.
Proof.
  intros He. apply NoDup_Permutation; [apply NoDup_fst_map_to_list..|]. intros k.
  rewrite !list_elem_of_fmap. split; intros ([k' v] & -> & Hv%elem_of_map_to_list); cbn.
  - destruct (plain_lookup m m' k' v He Hv) as (s & Hs & _). exists (k', s). by rewrite elem_of_map_to_list.
  - destruct (plain_lookup m' m k' v (eq_sym He) Hv) as (s & Hs & _). exists (k', s). by rewrite elem_of_map_to_list.
Qed.
Lemma walk_keys_plain db db' step : SamePlain db db' -> walk_keys db' step ≡ₚ walk_keys db step.
Proof.
  intros [P1 P2 P3 P4 P5 P6 (_ & _ & _ & _ & _ & _ & E & _)]. unfold walk_keys. rewrite E.
  destruct (Z.to_nat step) as [|[|[|[|[|n]]]]]; [|repeat apply Permutation_app|..];
    try (by apply fmap_Permutation, plain_keys); done.
Qed.

Section walk.
Context `{Hashes}.

#[local] Instance by_physical_trans : Transitive by_physical.
Proof using Type. intros a b c. unfold by_physical. apply bytes_le_trans. Qed.
#[local] Instance by_physical_total : Total by_physical.
Proof using Type. intros a b. apply bytes_le_total. Qed.

Lemma StronglySorted_filter {A} (R : A -> A -> Prop) (p : A -> bool) l :
  StronglySorted R l -> StronglySorted R (List.filter p l).
Proof using Type.
  induction 1 as [|a l Hl IH Ha]; cbn; [constructor|]. destruct (p a); [|done]. constructor; [done|].
  rewrite Forall_forall in Ha |- *. intros b Hb. apply Ha. apply list_elem_of_In. apply list_elem_of_In in Hb.
  by apply List.filter_In in Hb as [? _].
Qed.

(** The entries of one keyspace still ahead of the cursor, in key order. *)
Definition ahead (db : Db) (step : Z) (cursor : option bytes) : list WalkKey :=
  List.filter (after cursor) (merge_sort by_physical (walk_keys db step)).

Lemma ahead_elem db step cursor k :
  k ∈ ahead db step cursor <-> k ∈ walk_keys db step /\ after cursor k = true.
Proof using Type.
  unfold ahead. rewrite list_elem_of_In, List.filter_In, <- list_elem_of_In.
  by rewrite (merge_sort_Permutation by_physical (walk_keys db step)).
Qed.
Lemma ahead_sorted db step cursor : StronglySorted by_physical (ahead db step cursor).
Proof using Type. apply StronglySorted_filter, (StronglySorted_merge_sort _). Qed.

(** What a batch visits: everything up to its last entry. *)
Lemma walk_entries_cover db step cursor batch k e :
  k ∈ walk_keys db step -> after cursor k = true ->
  last (walk_entries db step cursor batch) = Some e -> bytes_le (physical k) (physical e) = true ->
  k ∈ walk_entries db step cursor batch.
Proof using Type.
  intros Hk Ha He Hle. unfold walk_entries in *. fold (ahead db step cursor) in *.
  assert (k ∈ ahead db step cursor) as Hin by (by apply ahead_elem).
  set (n := Pos.to_nat batch) in *. pose proof (ahead_sorted db step cursor) as Hs.
  rewrite <- (take_drop n (ahead db step cursor)) in Hin, Hs. apply elem_of_app in Hin as [|Hd]; [done|].
  assert (e ∈ take n (ahead db step cursor)) as Het.
  { apply last_Some in He as [l' ->]. apply elem_of_app. right. left. }
  assert (by_physical e k) as Hek. { eapply StronglySorted_app_1_elem_of; [exact Hs|done|done]. }
  assert (k = e) as ->; [|done]. apply physical_inj.
  - apply walk_keys_step in Hk as [-> _]. assert (e ∈ ahead db step cursor) as Hea.
    { rewrite <- (take_drop n (ahead db step cursor)). apply elem_of_app. by left. }
    apply ahead_elem in Hea as [Hea _]. by apply walk_keys_step in Hea as [-> _].
  - by apply bytes_le_antisym.
Qed.
Lemma walk_entries_short db step cursor batch k :
  k ∈ walk_keys db step -> after cursor k = true ->
  (length (walk_entries db step cursor batch) < Pos.to_nat batch)%nat ->
  k ∈ walk_entries db step cursor batch.
Proof using Type.
  intros Hk Ha Hl. unfold walk_entries in *. fold (ahead db step cursor) in *. rewrite length_take in Hl.
  rewrite take_ge by lia. by apply ahead_elem.
Qed.
Lemma walk_entries_elem db step cursor batch k :
  k ∈ walk_entries db step cursor batch -> k ∈ walk_keys db step /\ after cursor k = true.
Proof using Type.
  intros Hk. unfold walk_entries in Hk. fold (ahead db step cursor) in Hk. apply ahead_elem.
  rewrite <- (take_drop (Pos.to_nat batch) (ahead db step cursor)). apply elem_of_app. by left.
Qed.

Lemma after_false cursor k : after cursor k = false -> exists c, cursor = Some c /\ bytes_le (physical k) c = true.
Proof using Type. destruct cursor as [c|]; [|done]. cbn. unfold bytes_lt. rewrite negb_false_iff. eauto. Qed.

(** The walk skips nothing. *)
Lemma advance_walked db r batch n k :
  0 <= RekeyRecord.keyspace r <= 4 -> is_Some (header db k) ->
  let entries := walk_entries db (RekeyRecord.keyspace r) (RekeyRecord.cursor r) batch in
  walked (advance r entries batch n) k -> walked r k \/ k ∈ entries.
Proof using Type.
  intros Hks Hh entries Hw. pose proof (walk_keys_header db k Hh) as Hk.
  destruct (decide (walk_step k < RekeyRecord.keyspace r)) as [|Hge]; [left; by left|].
  unfold walked, advance in Hw. cbn [RekeyRecord.keyspace RekeyRecord.cursor] in Hw.
  assert (after (RekeyRecord.cursor r) k = false -> walk_step k = RekeyRecord.keyspace r -> walked r k) as Hold.
  { intros Ha%after_false Heq. by right. }
  destruct (Nat.ltb_spec (length entries) (Pos.to_nat batch)) as [Hl|Hl].
  - destruct Hw as [Hw|(_ & c & Hc & _)]; [|done]. unfold saturating_add in Hw.
    assert (walk_step k = RekeyRecord.keyspace r) as Heq by lia. rewrite Heq in Hk.
    destruct (after (RekeyRecord.cursor r) k) eqn:Ha; [|left; by apply Hold].
    right. by apply walk_entries_short.
  - destruct Hw as [Hw|(Heq & c & Hc & Hle)]; [lia|]. rewrite Heq in Hk.
    destruct (after (RekeyRecord.cursor r) k) eqn:Ha; [|left; by apply Hold].
    right. destruct (last entries) as [e|] eqn:He; [|done]. injection Hc as <-. by eapply walk_entries_cover.
Qed.
End walk.

(** ** The invariant *)

Lemma SealsOk_headers `{Hashes} db :
  SealsOk db <-> forall k t id, walk_owner k = Some t -> header db k = Some id -> KeyOk db t k id.
Proof.
  split.
  - intros [S1 S2 S3 S4 S5 S6] k t id Ho Hh.
    destruct k as [s|s|s|s|s|s|s]; cbn in Hh; try done; apply fmap_Some in Hh as (v & Hv & ->).
    + destruct s as [[? ?] ?]. injection Ho as <-. exact (S1 _ _ Hv).
    + destruct s as [? ?]. injection Ho as <-. exact (S2 _ _ Hv).
    + destruct s as [? ?]. injection Ho as <-. exact (S3 _ _ Hv).
    + destruct s as [? ?]. injection Ho as <-. exact (S4 _ _ Hv).
    + destruct s as [[? ?] ?]. injection Ho as <-. exact (S5 _ _ Hv).
    + destruct s as [? ?]. injection Ho as <-. exact (S6 _ _ Hv).
  - intros Hk. split.
    + intros [[t c] key] s Hs. apply (Hk (WalkKey.Idem _)); [done|]. cbn. by rewrite Hs.
    + intros [t a] s Hs. apply (Hk (WalkKey.Artifact _)); [done|]. cbn. by rewrite Hs.
    + intros [t a] s Hs. apply (Hk (WalkKey.Pending _)); [done|]. cbn. by rewrite Hs.
    + intros [t a] s Hs. apply (Hk (WalkKey.Blob _)); [done|]. cbn. by rewrite Hs.
    + intros [[t c] key] s Hs. apply (Hk (WalkKey.SessionIndex _)); [done|]. cbn. by rewrite Hs.
    + intros [t a] s Hs. apply (Hk (WalkKey.Audit _)); [done|]. cbn. by rewrite Hs.
Qed.

Lemma AuditLog_plain db db' : SamePlain db db' -> AuditLog db -> AuditLog db'.
Proof.
  intros [_ _ _ _ _ Pa (_ & _ & _ & _ & _ & _ & _ & Es)] [Hc Hb He Ho].
  split; unfold contiguous, last_seq in *; rewrite ?Es; try done.
  - intros t seq x Hx. destruct (plain_lookup _ _ _ _ Pa Hx) as (s & Hs & Hp). rewrite <- Hp. by apply He.
  - intros t t' seq [x Hx] [x' Hx']. destruct (plain_lookup _ _ _ _ Pa Hx) as (s & Hs & _).
    destruct (plain_lookup _ _ _ _ Pa Hx') as (s' & Hs' & _). apply (Ho t t' seq); eauto.
Qed.
Lemma ArtifactsOk_plain db db' : SamePlain db db' -> ArtifactsOk db -> ArtifactsOk db'.
Proof.
  intros [_ Pa Pp _ _ _ (_ & _ & _ & _ & Ei & _ & El & _)] [Hp Hl Hf Hfp]. split.
  - intros i r. rewrite Ei. intros Hi Hst. destruct (Hp i r Hi Hst) as (s & Hs & Ha).
    destruct (plain_lookup _ _ _ _ (eq_sym Pp) Hs) as (s' & Hs' & He). exists s'. split; [done|congruence].
  - intros a loc. rewrite El, Ei. apply Hl.
  - intros k s Hs. destruct (plain_lookup _ _ _ _ Pa Hs) as (s0 & Hs0 & <-). by apply Hf.
  - intros k s Hs. destruct (plain_lookup _ _ _ _ Pp Hs) as (s0 & Hs0 & <-). by apply Hfp.
Qed.

Section invariant.
Context `{Hashes}.

(** A store with the same plain contents, a sound registry of the same
    tenants and sound seals. *)
Lemma Inv_plain db db' :
  SamePlain db db' -> Registry db' -> SealsOk db' ->
  (forall t, is_Some (Db.tenants db !! t) -> is_Some (Db.tenants db' !! t)) -> Inv db -> Inv db'.
Proof using Type.
  intros HP HR HS HT [Hrec Hbal Hfit _ Hopen _ Hart Haud Hgr].
  pose proof (sp_rest _ _ HP) as (_ & Eg & _ & Ess & Ei & El & _). split; try done.
  - intros i r. rewrite Ei. apply Hrec.
  - intros l d. unfold view_ledger. rewrite El, Ei. apply Hbal.
  - intros l d. unfold view_ledger. rewrite El. apply Hfit.
  - intros i r. rewrite Ei. intros Hi Ho. destruct (Hopen i r Hi Ho) as [H1 H2]. split; [by apply HT|].
    intros s Hs. rewrite Ess. destruct (H2 s Hs) as (rec & Hr & Hl). exists rec. auto.
  - by apply (ArtifactsOk_plain db).
  - by apply (AuditLog_plain db).
  - by apply (GrantsOk_same db).
Qed.

(** What a committed begin leaves. *)
Lemma begin_rekey_shape now db tenant b st db' :
  begin_rekey_tx now db tenant = Ok (Committed b st db') ->
  exists rec keys total, Db.tenants db !! tenant = Some rec /\ rekey_retiring db tenant = None /\
    tenant_keys db tenant = Ok keys /\ TenantKeyring.key_id keys = TenantRecord.data_key_id rec /\
    TenantRecord.data_key_id rec + 1 <= u32_max /\
    let from := TenantRecord.data_key_id rec in
    let rk := RekeyRecord.mk tenant from (from + 1) 0 None 0 0 total false now None in
    db' = put_rekey rk (set_tenants <[tenant := with_data_key_id (from + 1) rec]>
            (stage_new_key tenant (from + 1) db)) /\ st = rekey_status_of rk.
Proof using Type.
  unfold begin_rekey_tx. destruct (Db.tenants db !! tenant) as [rec|] eqn:Ht; [|done]. intros Hb.
  apply bind_Ok in Hb as ([] & Hd & Hb). apply bind_Ok in Hb as (keys & Hk & Hb).
  apply bind_Ok in Hb as (to & Hto%ok_or_Ok%checked_add_Some & Hb). apply Ok_inj in Hb. injection Hb as _ <- <-.
  pose proof (tenant_keys_Some db tenant keys Hk) as (rec' & Ht' & ->). assert (rec' = rec) as -> by congruence.
  cbn [TenantKeyring.key_id] in *. destruct Hto as [-> Hle]. eexists rec, _, _. split_and!; try done.
  unfold rekey_retiring. destruct (Db.rekey db !! tenant) as [rk|]; [|done].
  apply ensure_Ok in Hd. by rewrite Hd.
Qed.

Lemma stage_new_key_spec tenant to db :
  SamePlain db (stage_new_key tenant to db) /\
  Db.tenants (stage_new_key tenant to db) = Db.tenants db /\
  Db.rekey (stage_new_key tenant to db) = Db.rekey db /\
  Db.data_keys (stage_new_key tenant to db) = {[(tenant, to)]} ∪ Db.data_keys db /\
  tenant ∈ Db.address_keys (stage_new_key tenant to db) /\
  (forall t, t ∈ Db.address_keys db -> t ∈ Db.address_keys (stage_new_key tenant to db)).
Proof using Type.
  unfold stage_new_key. case_bool_decide; cbn [negb]; split_and!; try done; cbn; set_solver.
Qed.

Lemma begin_rekey_Inv fp now db tenant : Inv db -> Inv (snd (begin_rekey fp now db tenant)).
Proof using Type.
  intros HI. apply (with_tx_cases fp db _ Inv HI). intros b st db' Hb.
  apply begin_rekey_shape in Hb as (rec & keys & total & Ht & Hret & _ & _ & Hle & -> & _).
  set (from := TenantRecord.data_key_id rec) in *. set (rk := RekeyRecord.mk _ _ _ _ _ _ _ _ _ _ _).
  destruct (stage_new_key_spec tenant (from + 1) db) as (HP & Et & Er & Ed & Ha & Has).
  set (db1 := stage_new_key tenant (from + 1) db) in *. set (db' := put_rekey _ _).
  pose proof (inv_registry db HI) as [HT HS HR HK].
  assert (SamePlain db db') as HP'. { etransitivity; [exact HP|]. by split. }
  assert (forall t, t <> tenant -> Db.tenants db' !! t = Db.tenants db !! t) as Hten.
  { intros t Hne. cbn. by rewrite Et, lookup_insert_ne. }
  assert (Db.tenants db' !! tenant = Some (with_data_key_id (from + 1) rec)) as Hnew by (apply lookup_insert_eq).
  assert (forall t, t <> tenant -> Db.rekey db' !! t = Db.rekey db !! t) as Hrek.
  { intros t Hne. cbn. by rewrite Er, lookup_insert_ne. }
  assert (Db.rekey db' !! tenant = Some rk) as Hrk by (apply lookup_insert_eq).
  assert (forall t, t <> tenant -> rekey_retiring db' t = rekey_retiring db t) as Hrr.
  { intros t Hne. unfold rekey_retiring. by rewrite Hrek. }
  assert (rekey_retiring db' tenant = Some from) as Hrt. { unfold rekey_retiring. by rewrite Hrk. }
  assert (Db.data_keys db' = {[(tenant, from + 1)]} ∪ Db.data_keys db) as Hdk by exact Ed.
  destruct (HT tenant rec Ht) as [T1 T2 T3 T4 T5 T6].
  apply (Inv_plain db); [done| | | |done].
  - split.
    + intros t r Hr. destruct (decide (t = tenant)) as [->|Hne].
      * assert (r = with_data_key_id (from + 1) rec) as -> by congruence. split; cbn [with_data_key_id TenantRecord.id TenantRecord.data_key_id].
        -- done.
        -- by rewrite (proj1 (sp_rest _ _ HP')).
        -- rewrite Hdk. set_solver.
        -- left. exact Ha.
        -- intros i. rewrite Hrt. intros [= <-]. rewrite Hdk. set_solver.
        -- lia.
      * rewrite Hten in Hr by done. destruct (HT t r Hr) as [U1 U2 U3 U4 U5 U6]. split; try done.
        -- by rewrite (proj1 (sp_rest _ _ HP')).
        -- rewrite Hdk. set_solver.
        -- destruct U4; [left; by apply Has|by right].
        -- intros i. rewrite Hrr, Hdk by done. intros Hi%U5. set_solver.
    + intros s r. destruct (sp_rest _ _ HP') as (Etb & _ & _ & Ess & _). rewrite Ess, Etb. intros Hs.
      destruct (HS s r Hs) as (Hid & Hl). split; [done|].
      destruct (decide (SessionRecord.owner r = tenant)) as [->|Hne]; [left; rewrite Hnew; eauto|by rewrite Hten].
    + intros t r. destruct (decide (t = tenant)) as [->|Hne].
      * rewrite Hrk. intros [= <-]. exists (with_data_key_id (from + 1) rec). split; [done|]. by split.
      * rewrite Hrek, Hten by done. apply HR.
    + intros t i. rewrite Hdk. intros [[= -> ->]%elem_of_singleton|Hin]%elem_of_union.
      * exists (with_data_key_id (from + 1) rec). auto.
      * destruct (HK t i Hin) as (r & Hr & Hi). destruct (decide (t = tenant)) as [->|Hne].
        -- exists (with_data_key_id (from + 1) rec). split; [done|]. right. rewrite Hrt.
           assert (r = rec) as -> by congruence. destruct Hi as [->|Hi]; [done|congruence].
        -- exists r. by rewrite Hten, Hrr.
  - apply SealsOk_headers. intros k t id Ho Hh.
    assert (header db' k = header db k) as Hhe.
    { subst db' db1. unfold stage_new_key. destruct (negb _); by destruct k. }
    rewrite Hhe in Hh. pose proof (proj1 (SealsOk_headers db) (inv_seals db HI) k t id Ho Hh) as Hk.
    destruct Hk as [Hk|(r & Hr & Hk)]; [left; by rewrite (proj1 (sp_rest _ _ HP'))|right].
    destruct (decide (t = tenant)) as [->|Hne].
    + eexists. split; [exact Hnew|]. right. exists rk. split_and!; [done|done| |].
      * assert (r = rec) as -> by congruence. destruct Hk as [->|(r' & Hr' & Hd & _)]; [done|].
        unfold rekey_retiring in Hret. rewrite Hr', Hd in Hret. done.
      * intros [Hw|(_ & c & Hc & _)]; [|done]. cbn in Hw. destruct k; cbn in Hw; lia.
    + exists r. rewrite Hten, Hrek by done. done.
  - intros t Hs. destruct (decide (t = tenant)) as [->|Hne]; [rewrite Hnew; eauto|by rewrite Hten].
Qed.

(** The rotation record of a tenant mid-rotation. *)
Definition Rotating (db : Db) (tenant : TenantId) (rk : RekeyRecord) (rec : TenantRecord) : Prop :=
  Db.rekey db !! tenant = Some rk /\ RekeyRecord.is_done rk = false /\
  Db.tenants db !! tenant = Some rec.
Definition retired_record (now : Timestamp) (r : RekeyRecord) : RekeyRecord :=
  RekeyRecord.mk (RekeyRecord.tenant r) (RekeyRecord.from_key_id r) (RekeyRecord.to_key_id r)
    (RekeyRecord.keyspace r) None (RekeyRecord.visited r) (RekeyRecord.resealed r) (RekeyRecord.total r)
    true (RekeyRecord.started_at r) (Some now).

(** One committed batch: the tenant's records among the entries move to the
    active key. *)
Definition Batched (db db' : Db) (tenant : TenantId) (batch : positive) (rk : RekeyRecord)
    (rec : TenantRecord) (st : RekeyStatus) : Prop :=
  let entries := walk_entries db (RekeyRecord.keyspace rk) (RekeyRecord.cursor rk) batch in
  exists db1 n, SamePlain db db1 /\ SameKeys db db1 /\
    (forall k, header db1 k =
       if bool_decide (k ∈ entries /\ walk_owner k = Some tenant /\ header db k = Some (RekeyRecord.from_key_id rk))
       then Some (TenantRecord.data_key_id rec) else header db k) /\
    db' = put_rekey (advance rk entries batch n) db1 /\ st = rekey_status_of (advance rk entries batch n).
Definition Retired (now : Timestamp) (db db' : Db) (rk : RekeyRecord) (st : RekeyStatus) : Prop :=
  db' = put_rekey (retired_record now rk)
          (set_data_keys (fun k => k ∖ {[(RekeyRecord.tenant rk, RekeyRecord.from_key_id rk)]}) db) /\
  st = rekey_status_of (retired_record now rk).

Lemma walk_get_range z : 0 <= z <= 5 -> (z <= 4 /\ is_Some (walk_get z)) \/ (z = 5 /\ walk_get z = None).
Proof using Type.
  intros Hz. assert (z = 0 \/ z = 1 \/ z = 2 \/ z = 3 \/ z = 4 \/ z = 5) as Hc by lia.
  destruct Hc as [->|[->|[->|[->|[->| ->]]]]]; cbn; [left; split; [lia|by eexists]..|by right].
Qed.

Lemma rekey_batch_shape now db tenant batch : Inv db ->
  match rekey_batch_tx now db tenant batch with
  | Ok (Committed b st db') => exists rk rec, Rotating db tenant rk rec /\
      ((RekeyRecord.keyspace rk = 5 /\ Retired now db db' rk st /\ b = Some Boundary.RekeyRetire) \/
       (0 <= RekeyRecord.keyspace rk <= 4 /\ Batched db db' tenant batch rk rec st /\ b = Some Boundary.RekeyBatch))
  | Ok (Dropped _) => False
  | Err e => e = StoreError.RekeyNotInProgress tenant /\ forall rk rec, ~ Rotating db tenant rk rec
  end.
Proof using Type.
  intros HI. unfold rekey_batch_tx, Rotating.
  destruct (Db.rekey db !! tenant) as [rk|] eqn:Hrk; [|cbn; split; [done|naive_solver]].
  destruct (RekeyRecord.is_done rk) eqn:Hd; [cbn; split; [done|naive_solver congruence]|].
  destruct (reg_rekey db (inv_registry db HI) tenant rk Hrk) as (rec & Ht & [R1 R2 R3 R4]).
  cbn [ok_or mbind result_bind].
  destruct (walk_get_range _ R4) as [[Hks [step Hstep]]|[Hks Hstep]]; rewrite Hstep.
  - rewrite (Registry_keys db tenant rec (inv_registry db HI) Ht). cbn [mbind result_bind TenantKeyring.retiring_id].
    assert (rekey_retiring db tenant = Some (RekeyRecord.from_key_id rk)) as ->.
    { unfold rekey_retiring. by rewrite Hrk, Hd. }
    cbn [ok_or mbind result_bind TenantKeyring.key_id].
    set (entries := walk_entries db (RekeyRecord.keyspace rk) (RekeyRecord.cursor rk) batch).
    destruct (reseal_all step tenant _ _ db _ entries) as [db1 n] eqn:Hr. exists rk, rec. split; [done|]. right.
    apply reseal_all_spec in Hr as (HP & HK & HH).
    + split; [lia|]. split; [|done]. exists db1, n. split_and!; done.
    + apply Forall_forall. intros k [Hk _]%walk_entries_elem. apply walk_keys_step in Hk as [-> _].
      unfold walk_get in *. by rewrite Nat2Z.id.
    + lia.
  - exists rk, rec. split; [done|]. left. done.
Qed.

Lemma Batched_Inv db db' tenant batch rk rec st :
  Inv db -> Rotating db tenant rk rec -> 0 <= RekeyRecord.keyspace rk <= 4 ->
  Batched db db' tenant batch rk rec st -> Inv db'.
Proof using Type.
  intros HI (Hrk & Hd & Ht) Hks (db1 & n & HP & (E1 & E2 & E3 & E4) & HH & -> & _).
  set (entries := walk_entries _ _ _ _) in *. set (rk' := advance rk entries batch n).
  pose proof (inv_registry db HI) as [HT HS HR HK].
  destruct (HR tenant rk Hrk) as (rec0 & Ht0 & [R1 R2 R3 R4]). assert (rec0 = rec) as -> by congruence.
  assert (RekeyRecord.tenant rk' = tenant) as Hrt by done.
  set (db' := put_rekey rk' db1). assert (SamePlain db db') as HP'. { etransitivity; [exact HP|]. by split. }
  assert (forall t, t <> tenant -> Db.rekey db' !! t = Db.rekey db !! t) as Hrek.
  { intros t Hne. cbn. rewrite R1, E4. by rewrite lookup_insert_ne. }
  assert (Db.rekey db' !! tenant = Some rk') as Hnew. { cbn. rewrite R1. apply lookup_insert_eq. }
  assert (forall t, rekey_retiring db' t = rekey_retiring db t) as Hrr.
  { intros t. unfold rekey_retiring. destruct (decide (t = tenant)) as [->|Hne]; [|by rewrite Hrek].
    rewrite Hnew, Hrk. cbn [RekeyRecord.is_done rk' advance]. by rewrite Hd. }
  assert (Db.tenants db' = Db.tenants db) as Eten by exact E1.
  assert (Db.data_keys db' = Db.data_keys db) as Edk by exact E2.
  apply (Inv_plain db); [done| | | |done].
  - split.
    + intros t r. rewrite Eten. intros Hr. destruct (HT t r Hr) as [U1 U2 U3 U4 U5 U6]. split; try done.
      * by rewrite (proj1 (sp_rest _ _ HP')).
      * by rewrite Edk.
      * change (Db.address_keys db') with (Db.address_keys db1). by rewrite E3.
      * intros i. rewrite Hrr, Edk. apply U5.
    + intros s r. destruct (sp_rest _ _ HP') as (Etb & _ & _ & Ess & _). rewrite Ess, Etb, Eten. apply HS.
    + intros t r. rewrite Eten. destruct (decide (t = tenant)) as [->|Hne]; [|rewrite Hrek by done; apply HR].
      rewrite Hnew. intros [= <-]. exists rec. split; [done|]. split; try done.
      unfold rk', advance. cbn [RekeyRecord.keyspace]. unfold saturating_add, u8_max. destruct (Nat.ltb _ _); lia.
    + intros t i. rewrite Edk, Eten, Hrr. apply HK.
  - apply SealsOk_headers. intros k t id Ho Hh. change (header db' k) with (header db1 k) in Hh. rewrite HH in Hh.
    unfold KeyOk. rewrite Eten, (proj1 (sp_rest _ _ HP')).
    case_bool_decide as Hc; [|].
    + injection Hh as <-. destruct Hc as (_ & Ho' & _). right. exists rec.
      assert (t = tenant) as -> by congruence. auto.
    + pose proof (proj1 (SealsOk_headers db) (inv_seals db HI) k t id Ho Hh) as [Hk|(r & Hr & Hk)]; [by left|].
      right. exists r. split; [done|]. destruct Hk as [Hk|(x & Hx & Hxd & -> & Hw)]; [by left|].
      right. destruct (decide (t = tenant)) as [->|Hne]; [|exists x; by rewrite Hrek].
      assert (x = rk) as -> by congruence. exists rk'. split_and!; try done. intros Hw'.
      apply (advance_walked db) in Hw' as [|Hin]; [done|apply Hc; split_and!; done|done|by eexists].
  - intros t. by rewrite Eten.
Qed.

Lemma Retired_Inv now db db' tenant rk rec st :
  Inv db -> Rotating db tenant rk rec -> RekeyRecord.keyspace rk = 5 -> Retired now db db' rk st -> Inv db'.
Proof using Type.
  intros HI (Hrk & Hd & Ht) Hks [-> _].
  pose proof (inv_registry db HI) as [HT HS HR HK].
  destruct (HR tenant rk Hrk) as (rec0 & Ht0 & [R1 R2 R3 R4]). assert (rec0 = rec) as -> by congruence.
  set (db' := put_rekey _ _). assert (SamePlain db db') as HP' by (by split).
  assert (forall t, t <> tenant -> Db.rekey db' !! t = Db.rekey db !! t) as Hrek.
  { intros t Hne. cbn. rewrite R1. by rewrite lookup_insert_ne. }
  assert (Db.rekey db' !! tenant = Some (retired_record now rk)) as Hnew. { cbn. rewrite R1. apply lookup_insert_eq. }
  assert (forall t, t <> tenant -> rekey_retiring db' t = rekey_retiring db t) as Hrr.
  { intros t Hne. unfold rekey_retiring. by rewrite Hrek. }
  assert (rekey_retiring db' tenant = None) as Hrt. { unfold rekey_retiring. by rewrite Hnew. }
  assert (forall t i, (t, i) ∈ Db.data_keys db' <->
    (t, i) ∈ Db.data_keys db /\ (t <> tenant \/ i <> RekeyRecord.from_key_id rk)) as Hdk.
  { intros t i. cbn. rewrite R1, elem_of_difference, elem_of_singleton. split.
    - intros [Hin Hn]. split; [done|]. destruct (decide (t = tenant)); [right|by left]. congruence.
    - intros [Hin Hn]. split; [done|]. intros [= -> ->]. naive_solver. }
  apply (Inv_plain db); [done| | |done|done].
  - split.
    + intros t r Hr. change (Db.tenants db' !! t) with (Db.tenants db !! t) in Hr.
      destruct (HT t r Hr) as [U1 U2 U3 U4 U5 U6]. split; try done.
      * apply Hdk. split; [done|]. destruct (decide (t = tenant)) as [->|]; [right|by left].
        assert (r = rec) as -> by congruence. lia.
      * intros i Hi. destruct (decide (t = tenant)) as [->|Hne]; [congruence|]. rewrite Hrr in Hi by done.
        apply Hdk. auto.
    + apply HS.
    + intros t r. change (Db.tenants db' !! t) with (Db.tenants db !! t).
      destruct (decide (t = tenant)) as [->|Hne]; [|rewrite Hrek by done; apply HR].
      rewrite Hnew. intros [= <-]. exists rec. split; [done|]. by split.
    + intros t i [Hin Hn]%Hdk. change (Db.tenants db' !! t) with (Db.tenants db !! t).
      destruct (HK t i Hin) as (r & Hr & Hi). exists r. split; [done|].
      destruct (decide (t = tenant)) as [->|Hne]; [|by rewrite Hrr]. left. destruct Hi as [|Hi]; [done|].
      unfold rekey_retiring in Hi. rewrite Hrk, Hd in Hi. injection Hi as <-. naive_solver.
  - apply SealsOk_headers. intros k t id Ho Hh.
    assert (header db k = Some id) as Hh' by (by destruct k).
    pose proof (proj1 (SealsOk_headers db) (inv_seals db HI) k t id Ho Hh') as [Hk|(r & Hr & Hk)]; [by left|].
    right. exists r. split; [done|]. destruct Hk as [Hk|(x & Hx & Hxd & -> & Hw)]; [by left|].
    destruct (decide (t = tenant)) as [->|Hne]; [|right; exists x; by rewrite Hrek].
    exfalso. assert (x = rk) as -> by congruence. apply Hw. left. rewrite Hks. destruct k; cbn; lia.
Qed.

Lemma rekey_batch_Inv fp now db tenant batch : Inv db -> Inv (snd (rekey_batch fp now db tenant batch)).
Proof using Type.
  intros HI. apply (with_tx_cases fp db _ Inv HI). intros b st db' Hb.
  pose proof (rekey_batch_shape now db tenant batch HI) as Hs. rewrite Hb in Hs.
  destruct Hs as (rk & rec & Hrot & [(Hks & Hret & _)|(Hks & Hba & _)]);
    [by eapply Retired_Inv|by eapply Batched_Inv].
Qed.

(** A rotation step changes no content, and of a tenant's record only the key
    id. *)
Record Rotated (db db' : Db) : Prop := {
  rot_plain : SamePlain db db';
  rot_tenants : forall t, with_data_key_id 0 <$> Db.tenants db' !! t = with_data_key_id 0 <$> Db.tenants db !! t;
}.
#[global] Instance Rotated_preorder : PreOrder Rotated.
Proof using Type.
  split.
  - intros db. by split.
  - intros a b c [] []. split; [by etransitivity|]. intros t. congruence.
Qed.

Lemma begin_rekey_Rotated fp now db tenant : Rotated db (snd (begin_rekey fp now db tenant)).
Proof using Type.
  apply (with_tx_cases fp db _ (Rotated db)); [reflexivity|]. intros b st db' Hb.
  apply begin_rekey_shape in Hb as (rec & keys & total & Ht & _ & _ & _ & _ & -> & _).
  destruct (stage_new_key_spec tenant (TenantRecord.data_key_id rec + 1) db) as (HP & Et & _). split.
  - etransitivity; [exact HP|]. by split.
  - intros t. cbn. rewrite Et. destruct (decide (t = tenant)) as [->|Hne].
    + rewrite lookup_insert_eq, Ht. done.
    + by rewrite lookup_insert_ne.
Qed.
Lemma rekey_batch_Rotated fp now db tenant batch : Inv db -> Rotated db (snd (rekey_batch fp now db tenant batch)).
Proof using Type.
  intros HI. apply (with_tx_cases fp db _ (Rotated db)); [reflexivity|]. intros b st db' Hb.
  pose proof (rekey_batch_shape now db tenant batch HI) as Hs. rewrite Hb in Hs.
  destruct Hs as (rk & rec & _ & [(_ & (-> & _) & _)|(_ & (db1 & n & HP & (E1 & _) & _ & -> & _) & _)]).
  - by split.
  - split; [etransitivity; [exact HP|by split]|]. intros t. cbn. by rewrite E1.
Qed.
End invariant.
