(* ===== verification/Runs.v ===== *)
(** * Runs of the custody store

    Recovery always completes: on a store with the invariant, recovery without
    crashes succeeds, leaves every invocation in a terminal state, and run
    again changes nothing. [Op] lists the write operations of the store; a run
    is any sequence of them, each at its own time and under its own
    failpoints, from the empty store. *)
From S2P Require Import Prelude Vocab Ids Payload Epitrope Origin View Chain Issue Budget Decision.
From S2P Require Import Lifecycle Records Store StoreAudit Invocation Transition Directory Claim.
From S2P Require Import Shred Recovery Rekey Invariant Steps StoreRun RekeyInv.
Local Open Scope Z_scope.

Section recovery.
Context `{Hashes}.

Lemma recover_one_Inv fp now db report id action :
  Inv db -> Inv (snd (recover_one fp now db report id action)).
Proof using Type.
  intros HI. unfold recover_one. destruct report, action.
  - pose proof (release_Inv fp now db id ReleaseReason.Abandoned HI). by destruct (release _ _ _ _ _).
  - pose proof (mark_unknown_effect_Inv fp now db id HI). by destruct (mark_unknown_effect _ _ _ _).
  - pose proof (publish_Inv fp now db id HI) as HI'. destruct (publish _ _ _ _) as [[st|e] db1]; [|done].
    cbn [snd] in HI'.
    pose proof (settle_Inv fp now db1 id SettleOutcome.Success HI' ltac:(done)). by destruct (settle _ _ _ _ _).
  - pose proof (settle_Inv fp now db id SettleOutcome.Success HI ltac:(done)). by destruct (settle _ _ _ _ _).
Qed.

Lemma recover_Inv fp now db scan : Inv db -> Inv (snd (recover fp now db scan)).
Proof using Type.
  unfold recover. generalize (open_invocations scan). intros work.
  generalize report_default. revert db. induction work as [|[id action] work IH]; intros db report HI; [done|].
  cbn [recover_loop]. pose proof (recover_one_Inv fp now db report id action HI) as HI'.
  destruct (recover_one _ _ _ _ _ _) as [[r|e] db1]; [by apply IH|done].
Qed.

(** ** Each step recovery takes succeeds *)

(** A step that succeeded: only the record changed among the invocations. *)
Definition Took (db db' : Db) (id : InvocationId) (s : InvocationState) (audited : Z) : Prop :=
  (exists r', Db.invocations db' = <[id := r']> (Db.invocations db) /\ InvocationRecord.state r' = s) /\
  last_seq db' = last_seq db + audited.

Lemma transition_terminal now db id step b apply r next r1 db1 t keys :
  Inv db -> Db.invocations db !! id = Some r -> steps_to (InvocationRecord.state r) step next ->
  apply db r = Ok (r1, db1) -> InvocationRecord.id r1 = id ->
  is_terminal next = true -> InvocationRecord.terminal r1 = Some t -> terminal_state t = next ->
  Db.invocations db1 = Db.invocations db ->
  Db.audit_stub db1 = Db.audit_stub db /\ Db.audit db1 = Db.audit db ->
  tenant_keys db1 (InvocationRecord.tenant r1) = Ok keys -> last_seq db < u64_max ->
  exists st db', transition NoFailpoints now db id step b apply = (Ok st, db') /\ Took db db' id next 1.
Proof using Type.
  intros HI Hr Hn Ha Hid Ht Hterm Hts Hinv Hst Hk Hlast. unfold transition, transition_tx, existing_invocation, invocation_record.
  rewrite Hr. cbn [ok_or mbind result_bind]. apply (next_state_steps (V := StoreError)) in Hn as Hn'. rewrite Hn'.
  cbn [map_err mbind result_bind]. rewrite Ha. cbn [mbind result_bind]. rewrite Ht. unfold terminal_entry.
  change (InvocationRecord.terminal (with_updated_at now (with_state next r1))) with (InvocationRecord.terminal r1).
  rewrite Hterm, bool_decide_eq_true_2 by done. cbn [ok_or mbind result_bind].
  assert (last_seq db1 = last_seq db) as Hl by (unfold last_seq; by rewrite (proj1 Hst)).
  match goal with |- context [append_audit now db1 ?e] => set (entry := e) end.
  destruct (append_audit_total now db1 entry keys) as (seq & db2 & Hau); [exact Hk|by rewrite Hl|].
  rewrite Hau. cbn [mbind result_bind with_tx commit NoFailpoints Failpoint.before_commit Failpoint.after_commit].
  eexists _, _. split; [reflexivity|].
  pose proof (append_audit_log _ _ _ _ _ Hau) as Hc.
  apply append_audit_Ok in Hau as (_ & _ & ks & stub & rec & _ & _ & _ & _ & _ & _ & _ & Hdb2).
  split.
  - eexists. rewrite Hdb2. cbn [Db.invocations set_invocations put_invocation set_audit set_audit_stub].
    rewrite Hinv. cbn [InvocationRecord.id with_updated_at with_state]. rewrite Hid. split; [reflexivity|done].
  - change (last_seq (put_invocation ?r db2)) with (last_seq db2). rewrite <- Hl. apply Hc.
    apply (AuditLog_same db); [done|apply HI].
Qed.

Lemma tenant_at_hand db id r :
  Inv db -> Db.invocations db !! id = Some r -> is_terminal (InvocationRecord.state r) = false ->
  exists keys, tenant_keys db (InvocationRecord.tenant r) = Ok keys.
Proof using Type.
  intros HI Hr Ho. destruct (inv_open db HI id r Hr Ho) as [[rec Hrec] _].
  rewrite (Registry_keys db _ rec); [eauto|apply HI|done].
Qed.

(** A settlement of an open invocation never finds a ledger short. *)
Lemma apply_settlement_total db id r r0 s :
  Inv db -> Db.invocations db !! id = Some r -> is_terminal (InvocationRecord.state r) = false ->
  InvocationRecord.ledgers r0 = InvocationRecord.ledgers r ->
  SettlementOk (InvocationRecord.reserved r) s ->
  exists f, apply_settlement s db r0 =
    Ok (with_debited (Some (Settlement.debit s)) r0, set_ledgers f db).
Proof using Type.
  intros HI Hr Ho Hl Hs. unfold apply_settlement.
  destruct (release_all_total db (InvocationRecord.ledgers r0) (Settlement.release s)) as [db' Hd].
  - intros d. by destruct (Hs d) as (_ & _ & ?).
  - intros l d. rewrite Hl. etransitivity; [|apply (Balanced_covers db id r l d);
      [apply HI|apply RecordsOk_HeldOk, HI|done]].
    unfold held. rewrite Ho. pose proof (occ_nonneg l (InvocationRecord.ledgers r)).
    destruct (Hs d) as (? & ? & ?). nia.
  - rewrite Hd. apply release_all_moved in Hd as [Hd _]. cbn [mbind result_bind].
    exists (fun _ => Db.ledgers db'). by rewrite Hd at 1.
Qed.

Lemma settlement_took now db id r step b t next s r0 stage :
  Inv db -> Db.invocations db !! id = Some r -> steps_to (InvocationRecord.state r) step next ->
  last_seq db < u64_max ->
  stage db r = apply_settlement s db r0 ->
  InvocationRecord.id r0 = InvocationRecord.id r ->
  InvocationRecord.tenant r0 = InvocationRecord.tenant r ->
  InvocationRecord.ledgers r0 = InvocationRecord.ledgers r ->
  InvocationRecord.terminal r0 = Some t -> terminal_state t = next ->
  SettlementOk (InvocationRecord.reserved r) s ->
  exists st db', transition NoFailpoints now db id step b stage = (Ok st, db') /\ Took db db' id next 1.
Proof using Type.
  intros HI Hr Hn Hlast Hstage Hid Hten Hled Hterm Hts Hs.
  assert (is_terminal (InvocationRecord.state r) = false) as Ho.
  { destruct (is_terminal _) eqn:E; [|done]. by apply (terminal_no_step _ _ _ E) in Hn. }
  destruct (apply_settlement_total db id r r0 s HI Hr Ho Hled Hs) as [f Hf].
  destruct (tenant_at_hand db id r HI Hr Ho) as [keys Hk].
  apply (transition_terminal now db id step b stage r next
    (with_debited (Some (Settlement.debit s)) r0) (set_ledgers f db) t keys HI Hr Hn); try done.
  - rewrite Hstage. exact Hf.
  - cbn [InvocationRecord.id with_debited]. rewrite Hid. by apply (inv_records db HI id r Hr).
  - by rewrite <- Hts; destruct t.
  - cbn [InvocationRecord.tenant with_debited]. by rewrite Hten.
Qed.

Lemma release_took now db id r :
  Inv db -> Db.invocations db !! id = Some r -> last_seq db < u64_max ->
  InvocationRecord.state r = InvocationState.IntentPersisted ->
  exists st db', release NoFailpoints now db id ReleaseReason.Abandoned = (Ok st, db') /\
    Took db db' id InvocationState.Released 1.
Proof using Type.
  intros HI Hr Hlast Hst. apply (settlement_took now db id r _ _ (Terminal.Released ReleaseReason.Abandoned)
    _ (Settlement.mk cost_default (InvocationRecord.reserved r))
    (with_terminal (Some (Terminal.Released ReleaseReason.Abandoned)) r)); try done.
  - by rewrite Hst.
  - intros d. pose proof (ro_reserved _ _ (inv_records db HI id r Hr) d) as [? _]. cbn [Settlement.debit Settlement.release].
    replace (cost_get cost_default d) with 0 by (by destruct d). lia.
Qed.

Lemma unknown_took now db id r :
  Inv db -> Db.invocations db !! id = Some r -> last_seq db < u64_max ->
  InvocationRecord.state r = InvocationState.Dispatched ->
  exists st db', mark_unknown_effect NoFailpoints now db id = (Ok st, db') /\
    Took db db' id InvocationState.UnknownEffect 1.
Proof using Type.
  intros HI Hr Hlast Hst. apply (settlement_took now db id r _ _ Terminal.UnknownEffect
    _ (unknown_effect_settlement (InvocationRecord.reserved r))
    (with_terminal (Some Terminal.UnknownEffect) r)); try done.
  - by rewrite Hst.
  - intros d. pose proof (ro_reserved _ _ (inv_records db HI id r Hr) d) as [? _].
    cbn [Settlement.debit Settlement.release unknown_effect_settlement].
    replace (cost_get cost_default d) with 0 by (by destruct d). lia.
Qed.

Lemma settle_took now db id r :
  Inv db -> Db.invocations db !! id = Some r -> last_seq db < u64_max ->
  InvocationRecord.state r = InvocationState.Published ->
  exists st db', settle NoFailpoints now db id SettleOutcome.Success = (Ok st, db') /\
    Took db db' id InvocationState.Settled 1.
Proof using Type.
  intros HI Hr Hlast Hst. pose proof (inv_records db HI id r Hr) as [_ Hres Hso].
  unfold StateOk in Hso. rewrite Hst in Hso. destruct Hso as (_ & _ & c & Hact & Hc).
  apply (settlement_took now db id r _ _ (Terminal.Settled None) _
    (settlement_of (InvocationRecord.reserved r) c)
    (with_terminal (Some (Terminal.Settled None)) (with_actual (Some c) r))); try done.
  - by rewrite Hst.
  - unfold stage_settle, settle_input. rewrite Hst, Hact. cbn [ok_or mbind result_bind].
    rewrite (proj2 (settle_settlement _ _ _) eq_refl). done.
  - by apply settlement_of_ok.
Qed.

Lemma publish_took now db id r :
  Inv db -> Db.invocations db !! id = Some r ->
  InvocationRecord.state r = InvocationState.TransferComplete ->
  exists st db', publish NoFailpoints now db id = (Ok st, db') /\
    Took db db' id InvocationState.Published 0.
Proof using Type.
  intros HI Hr Hst. assert (is_terminal (InvocationRecord.state r) = false) as Ho by (by rewrite Hst).
  assert (InvocationRecord.id r = id) as Hid by apply (inv_records db HI id r Hr).
  destruct (ao_pending _ (inv_artifacts db HI) id r Hr Hst) as (s & Hs & Hname).
  destruct (tenant_at_hand db id r HI Hr Ho) as [keys Hk].
  assert (Sealed.key_id s ∈ openers keys) as Hopen.
  { eapply (KeyOk_openers db (InvocationRecord.tenant r)); [apply HI| |done].
    apply (so_pending db (inv_seals db HI) _ _ Hs). }
  assert (Db.locators db !! artifact_ref id = None) as Hloc.
  { destruct (Db.locators db !! artifact_ref id) as [loc|] eqn:E; [|done].
    destruct (ao_locator _ (inv_artifacts db HI) _ _ E) as (j & x & ->%artifact_ref_inj & Hj & Hx).
    simplify_eq. rewrite Hst in Hx. by destruct Hx. }
  unfold publish, transition, transition_tx, existing_invocation, invocation_record.
  rewrite Hr. cbn [ok_or mbind result_bind]. rewrite Hst. cbn [next_state ok_or map_err mbind result_bind].
  unfold stage_publish. rewrite Hk. cbn [mbind result_bind]. rewrite Hid, Hs. cbn [get_sealed].
  rewrite open_sealed_Ok by done. cbn [mbind result_bind ok_or]. rewrite Hname, bool_decide_eq_true_2 by done.
  cbn [ensure mbind result_bind].
  match goal with |- context [stage_index now ?d r ?a] =>
    assert (exists f, stage_index now d r a = Ok (set_session_index f d)) as [f Hf] end.
  { unfold stage_index. destruct (inv_open db HI id r Hr Ho) as [_ Hses].
    destruct (InvocationRecord.session r) as [ss|]; [|by exists (fun x => x)].
    destruct (Hses ss eq_refl) as (rec & Hrec & [orec Howner]).
    cbn [Db.sessions set_locators set_pending set_artifacts]. rewrite Hrec. cbn [ok_or mbind result_bind].
    change (tenant_keys (set_locators ?x ?y) ?z) with (tenant_keys db z).
    rewrite (Registry_keys db _ orec); [|apply HI|done]. cbn [mbind result_bind]. eauto. }
  rewrite Hf. cbn [mbind result_bind is_terminal with_tx commit NoFailpoints Failpoint.before_commit Failpoint.after_commit].
  eexists _, _. split; [reflexivity|]. split; [|cbn -[last_seq]; unfold last_seq; cbn; lia].
  eexists. cbn [Db.invocations set_invocations put_invocation set_session_index set_locators set_pending
    set_artifacts InvocationRecord.id with_updated_at with_state]. rewrite Hid. split; [reflexivity|done].
Qed.
End recovery.

(** ** Runs *)

Module Op.
Inductive Op : Type :=
| Begin (intent : Intent)
| Dispatch (id : InvocationId)
| CompleteTransfer (id : InvocationId) (transfer : Transfer)
| Publish (id : InvocationId)
| Settle (id : InvocationId) (outcome : SettleOutcome)
| Release (id : InvocationId) (reason : ReleaseReason)
| MarkUnknownEffect (id : InvocationId)
| Recover (scan : list InvocationRecord)
| RegisterTenant (registration : TenantRegistration)
| InstallRootGrant (root : RootGrant)
| IssueGrant (issue : GrantIssue)
| RevokeGrant (revoke : RevokeGrant)
| OpenSession (new : NewSession) (parent : option SessionId)
| Claim (claim : IdemClaim)
| RecordAudit (note : AuditNote)
| ShredTenant (tenant : TenantId)
| BeginRekey (tenant : TenantId)
| RekeyBatch (tenant : TenantId) (batch : positive).
End Op.
Abbreviation Op := Op.Op.

(** The machine widths of an operation's arguments. *)
Definition OpTyped (op : Op) : Prop :=
  match op with
  | Op.Begin intent => cost_wf (AuthzRequest.declared (Intent.authz intent))
  | Op.CompleteTransfer _ transfer => cost_wf (Transfer.actual transfer)
  | Op.Settle _ (SettleOutcome.Failed _ actual) => cost_wf actual
  | Op.RegisterTenant registration => ceilings_wf (TenantRegistration.ceilings registration)
  | Op.InstallRootGrant root =>
      in_range u8_max (RootGrant.max_depth root) /\ ceilings_wf (RootGrant.ceilings root)
  | Op.IssueGrant issue =>
      (forall m, GrantIssueRequest.max_depth (GrantIssue.request issue) = Some m -> in_range u8_max m) /\
      ceilings_wf (GrantIssueRequest.ceilings (GrantIssue.request issue))
  | Op.OpenSession new _ => ceilings_wf (NewSession.ceilings new)
  | _ => True
  end.

Section runs.
Context `{Hashes}.

(** The store after one operation. *)
Definition exec (fp : Failpoint) (now : Timestamp) (db : Db) (op : Op) : Db :=
  match op with
  | Op.Begin intent => snd (begin fp now db intent)
  | Op.Dispatch id => snd (dispatch fp now db id)
  | Op.CompleteTransfer id transfer => snd (complete_transfer fp now db id transfer)
  | Op.Publish id => snd (publish fp now db id)
  | Op.Settle id outcome => snd (settle fp now db id outcome)
  | Op.Release id reason => snd (release fp now db id reason)
  | Op.MarkUnknownEffect id => snd (mark_unknown_effect fp now db id)
  | Op.Recover scan => snd (recover fp now db scan)
  | Op.RegisterTenant registration => snd (register_tenant fp now db registration)
  | Op.InstallRootGrant root => snd (install_root_grant fp db root)
  | Op.IssueGrant issue => snd (issue_grant fp now db issue)
  | Op.RevokeGrant revoke => snd (revoke_grant fp now db revoke)
  | Op.OpenSession new parent => snd (open_session fp now db new parent)
  | Op.Claim c => snd (claim fp db c)
  | Op.RecordAudit note => snd (record_audit fp now db note)
  | Op.ShredTenant tenant => snd (shred_tenant fp now db tenant)
  | Op.BeginRekey tenant => snd (begin_rekey fp now db tenant)
  | Op.RekeyBatch tenant batch => snd (rekey_batch fp now db tenant batch)
  end.

(** One event of a run: an operation, its time, its failpoints. *)
Definition Event : Type := Failpoint * Timestamp * Op.
Definition run (db : Db) (trace : list Event) : Db :=
  foldl (fun db '(fp, now, op) => exec fp now db op) db trace.
Definition Typed (trace : list Event) : Prop := Forall (fun e => OpTyped e.2) trace.

Lemma exec_Inv fp now db op : Inv db -> OpTyped op -> Inv (exec fp now db op).
Proof using Type.
  intros HI Ht. destruct op; cbn [exec OpTyped] in *.
  - by apply begin_Inv.
  - by apply dispatch_Inv.
  - by apply complete_transfer_Inv.
  - by apply publish_Inv.
  - apply settle_Inv; [done|]. intros f c ->. done.
  - by apply release_Inv.
  - by apply mark_unknown_effect_Inv.
  - by apply recover_Inv.
  - by apply register_tenant_Inv.
  - destruct Ht. by apply install_root_grant_Inv.
  - destruct Ht. by apply issue_grant_Inv.
  - by apply revoke_grant_Inv.
  - by apply open_session_Inv.
  - by apply claim_Inv.
  - by apply record_audit_Inv.
  - by apply shred_tenant_Inv.
  - by apply begin_rekey_Inv.
  - by apply rekey_batch_Inv.
Qed.

(** Rule induction over runs: an invariant of every typed operation holds
    along every typed run. *)
Lemma run_ind (P : Db -> Prop) db trace :
  P db -> (forall fp now db op, P db -> OpTyped op -> P (exec fp now db op)) ->
  Typed trace -> P (run db trace).
Proof using Type.
  intros Hdb Hstep. revert db Hdb; induction trace as [|[[fp now] op] trace IH]; intros db Hdb Ht; [done|].
  apply Forall_cons in Ht as [Ho Ht]. cbn. apply IH; auto.
Qed.

Lemma run_Inv trace : Typed trace -> Inv (run empty_db trace).
Proof using Type. apply run_ind; [apply Inv_empty|]. intros. by apply exec_Inv. Qed.
Lemma run_Inv_from db trace : Inv db -> Typed trace -> Inv (run db trace).
Proof using Type. intros HI. apply run_ind; [done|]. intros. by apply exec_Inv. Qed.

(** ** Recovery *)

(** Where recovery takes an invocation. *)
Definition recovered_state (s : InvocationState) : InvocationState :=
  match s with
  | InvocationState.IntentPersisted => InvocationState.Released
  | InvocationState.Dispatched => InvocationState.UnknownEffect
  | InvocationState.TransferComplete | InvocationState.Published => InvocationState.Settled
  | s => s
  end.

Lemma recover_one_total now db report id action r :
  Inv db -> Db.invocations db !! id = Some r ->
  recovery_action (InvocationRecord.state r) = Some action -> last_seq db < u64_max ->
  exists report' db', recover_one NoFailpoints now db report id action = (Ok report', db') /\
    Took db db' id (recovered_state (InvocationRecord.state r)) 1.
Proof using Type.
  intros HI Hr Ha Hl. unfold recover_one. destruct report as [a b c d].
  destruct (InvocationRecord.state r) eqn:Hst; try done; injection Ha as <-; cbn [recovered_state].
  - destruct (release_took now db id r) as (st & db' & -> & Ht); try done. eexists _, _. split; [reflexivity|done].
  - destruct (unknown_took now db id r) as (st & db' & -> & Ht); try done. eexists _, _. split; [reflexivity|done].
  - destruct (publish_took now db id r) as (st & db1 & Hp & (r1 & Hi1 & Hs1) & Hl1); try done. rewrite Hp.
    assert (Inv db1) as HI1.
    { pose proof (publish_Inv NoFailpoints now db id HI) as HI1. by rewrite Hp in HI1. }
    destruct (settle_took now db1 id r1) as (st' & db' & -> & (r2 & Hi2 & Hs2) & Hl2); try done;
      [by rewrite Hi1, lookup_insert_eq|lia|].
    eexists _, _. split; [reflexivity|]. split; [|lia].
    exists r2. rewrite Hi2, Hi1, insert_insert_eq. done.
  - destruct (settle_took now db id r) as (st & db' & -> & Ht); try done. eexists _, _. split; [reflexivity|done].
Qed.

Lemma recover_loop_total now work : forall db report,
  Inv db -> NoDup work.*1 ->
  (forall id a, (id, a) ∈ work -> exists r, Db.invocations db !! id = Some r /\
     recovery_action (InvocationRecord.state r) = Some a) ->
  last_seq db + Z.of_nat (length work) <= u64_max ->
  exists report' db', recover_loop NoFailpoints now db report work = (Ok report', db') /\ Inv db' /\
    dom (Db.invocations db') = dom (Db.invocations db) /\
    forall i r, Db.invocations db !! i = Some r -> exists r', Db.invocations db' !! i = Some r' /\
      (i ∈ work.*1 -> InvocationRecord.state r' = recovered_state (InvocationRecord.state r)) /\
      (~ i ∈ work.*1 -> r' = r).
Proof using Type.
  induction work as [|[id a] work IH]; intros db report HI Hnd Hw Hl.
  { exists report, db. split_and!; try done. intros i r Hi. exists r. split_and!; try done.
    by intros Hin%elem_of_nil. }
  cbn [recover_loop fmap list_fmap fst length] in *. apply NoDup_cons in Hnd as [Hnin Hnd].
  destruct (Hw id a ltac:(left)) as (r0 & Hr0 & Ha0).
  destruct (recover_one_total now db report id a r0) as (rep & db1 & Hone & (r1 & Hi1 & Hs1) & Hl1); try done; [lia|].
  assert (Inv db1) as HI1.
  { pose proof (recover_one_Inv NoFailpoints now db report id a HI) as HI1. by rewrite Hone in HI1. }
  rewrite Hone. destruct (IH db1 rep HI1 Hnd) as (rep' & db' & Hloop & HI' & Hdom & Hpost); [|lia|].
  { intros i b Hin. destruct (Hw i b ltac:(by right)) as (r & Hr & Hb). exists r. rewrite Hi1.
    rewrite lookup_insert_ne; [done|]. intros ->. apply Hnin. by apply (list_elem_of_fmap_2 fst _ (i, b)). }
  exists rep', db'. split_and!; [done|done| |].
  - rewrite Hdom, Hi1, dom_insert_lookup_L; eauto.
  - intros i r Hi. destruct (decide (i = id)) as [->|Hne].
    + simplify_eq. destruct (Hpost id r1) as (r' & Hr' & _ & Hout); [by rewrite Hi1, lookup_insert_eq|].
      exists r'. rewrite (Hout Hnin). rewrite (Hout Hnin) in Hr'. split_and!; try done.
      intros Hn. exfalso. apply Hn. left.
    + destruct (Hpost i r) as (r' & Hr' & Hin & Hout); [by rewrite Hi1, lookup_insert_ne|].
      exists r'. split; [done|]. rewrite elem_of_cons. naive_solver.
Qed.

(** A scan of the invocations keyspace visits every record once. *)
Definition Scan (db : Db) (scan : list InvocationRecord) : Prop :=
  Permutation scan (map_to_list (Db.invocations db)).*2.

Lemma Scan_elem db scan r : Inv db -> Scan db scan ->
  r ∈ scan <-> Db.invocations db !! InvocationRecord.id r = Some r.
Proof using Type.
  intros HI Hs. unfold Scan in Hs. rewrite Hs, list_elem_of_fmap. split.
  - intros ([i x] & -> & Hx%elem_of_map_to_list). cbn.
    by rewrite (ro_id _ _ (inv_records db HI i x Hx)).
  - intros Hr. exists (InvocationRecord.id r, r). split; [done|]. by apply elem_of_map_to_list.
Qed.

Lemma open_invocations_elem scan i a :
  (i, a) ∈ open_invocations scan <->
  exists r, r ∈ scan /\ InvocationRecord.id r = i /\ recovery_action (InvocationRecord.state r) = Some a.
Proof using Type.
  unfold open_invocations. rewrite list_elem_of_omap. split.
  - intros (r & Hr & Hf). exists r. destruct (recovery_action _); naive_solver.
  - intros (r & Hr & <- & Ha). exists r. by rewrite Ha.
Qed.

Lemma open_invocations_NoDup db scan : Inv db -> Scan db scan -> NoDup (open_invocations scan).*1.
Proof using Type.
  intros HI Hs.
  assert (NoDup (InvocationRecord.id <$> scan)) as Hnd.
  { unfold Scan in Hs. rewrite Hs, <- list_fmap_compose.
    replace ((InvocationRecord.id ∘ snd) <$> map_to_list (Db.invocations db))
      with ((map_to_list (Db.invocations db)).*1); [apply NoDup_fst_map_to_list|].
    apply list_fmap_ext. intros k [i x] Hx%list_elem_of_lookup_2%elem_of_map_to_list. cbn.
    symmetry. apply (inv_records db HI i x Hx). }
  clear Hs HI. unfold open_invocations. induction scan as [|r scan IH]; [constructor|].
  cbn [fmap list_fmap] in Hnd. apply NoDup_cons in Hnd as [Hn Hnd]. cbn [omap list_omap].
  destruct (recovery_action (InvocationRecord.state r)); cbn; [|by apply IH].
  apply NoDup_cons. split; [|by apply IH]. intros Hin. apply Hn.
  apply list_elem_of_fmap in Hin as ([i a] & Hi & Hin). apply list_elem_of_omap in Hin as (x & Hx & Hf).
  destruct (recovery_action (InvocationRecord.state x)); [|done]. cbn in *. simplify_eq.
  apply list_elem_of_fmap. exists x. split; [congruence|done].
Qed.

Lemma open_invocations_length scan : (length (open_invocations scan) <= length scan)%nat.
Proof using Type.
  unfold open_invocations. induction scan as [|r scan IH]; [done|]. cbn [omap list_omap].
  destruct (_ <$> _); cbn [length]; lia.
Qed.
End runs.
