(* ===== verification/Rotation.v ===== *)
(** * Guarantees of a data-key rotation

    A rotation always ends, with every record of the tenant under the new key
    and the old key gone; no record is ever left without a key that opens it,
    whatever crashes interrupt the walk; and readers see the same contents
    before, during and after. *)
From stdpp Require Import sorting.
From S2P Require Import Prelude Vocab Ids Payload Epitrope View Lifecycle Records Store Seal.
From S2P Require Import StoreAudit Invocation Transition Rekey Read Invariant Steps StoreRun.
From S2P Require Import RekeyInv Runs.
Local Open Scope Z_scope.

(** ** Termination *)

Lemma length_filter_perm {A} (p : A -> bool) l l' :
  l ≡ₚ l' -> length (List.filter p l) = length (List.filter p l').
Proof. induction 1; cbn; try destruct (p _); cbn; try destruct (p _); cbn; congruence. Qed.
Lemma length_filter_le {A} (p : A -> bool) l : (length (List.filter p l) <= length l)%nat.
Proof. induction l as [|a l IH]; cbn; [lia|]. destruct (p a); cbn; lia. Qed.
Lemma filter_filter_impl {A} (p q : A -> bool) l :
  (forall a, q a = true -> p a = true) -> List.filter q (List.filter p l) = List.filter q l.
Proof.
  intros Hpq. induction l as [|a l IH]; [done|]. cbn. destruct (p a) eqn:Hp; cbn; rewrite IH; [done|].
  destruct (q a) eqn:Hq; [|done]. rewrite (Hpq a Hq) in Hp. done.
Qed.
Lemma filter_none {A} (p : A -> bool) l : (forall a, a ∈ l -> p a = false) -> List.filter p l = [].
Proof.
  induction l as [|a l IH]; intros Hp; [done|]. cbn. rewrite (Hp a) by left. apply IH. intros b Hb.
  apply Hp. by right.
Qed.

Lemma bytes_lt_le_trans a b c : bytes_lt a b = true -> bytes_le b c = true -> bytes_lt a c = true.
Proof.
  unfold bytes_lt. rewrite !negb_true_iff. intros Hab Hbc. apply not_true_iff_false. intros Hca.
  apply not_true_iff_false in Hab. apply Hab. by eapply bytes_le_trans.
Qed.

Section todo.
Context `{Hashes}.

(** The keyspaces after position [ks], each with the step that leaves it. *)
Definition rest (db : Db) (ks : Z) : nat :=
  foldr (fun (j : Z) (acc : nat) => ((if (ks <? j)%Z then S (length (walk_keys db j)) else 0) + acc)%nat) 0%nat [0; 1; 2; 3; 4]%Z.
(** An upper bound on the batches a walk still takes. *)
Definition todo (db : Db) (rk : RekeyRecord) : nat :=
  ((if (RekeyRecord.keyspace rk <=? 4)%Z
    then S (length (ahead db (RekeyRecord.keyspace rk) (RekeyRecord.cursor rk))) else 0)
   + rest db (RekeyRecord.keyspace rk))%nat.

Lemma ahead_plain db db' step c : SamePlain db db' -> length (ahead db' step c) = length (ahead db step c).
Proof using Type.
  intros HP. unfold ahead. apply length_filter_perm. rewrite !merge_sort_Permutation. by apply walk_keys_plain.
Qed.
Lemma rest_plain db db' ks : SamePlain db db' -> rest db' ks = rest db ks.
Proof using Type.
  intros HP. unfold rest. cbn [foldr]. by rewrite !(Permutation_length (walk_keys_plain db db' _ HP)).
Qed.
Lemma ahead_start db step : length (ahead db step None) = length (walk_keys db step).
Proof using Type.
  unfold ahead. rewrite (length_filter_perm _ _ _ (merge_sort_Permutation by_physical (walk_keys db step))).
  by rewrite forallb_filter_id by (by apply forallb_forall).
Qed.

(** A full batch leaves that many fewer entries ahead. *)
Lemma ahead_advance db step c batch e :
  last (walk_entries db step c batch) = Some e ->
  (length (ahead db step (Some (physical e))) < length (ahead db step c))%nat.
Proof using Type.
  intros He. unfold walk_entries in He. fold (ahead db step c) in He. set (n := Pos.to_nat batch) in *.
  pose proof (ahead_sorted db step c) as Hs. pose proof He as [l' Hl']%last_Some.
  assert (e ∈ ahead db step c) as Hin.
  { rewrite <- (take_drop n (ahead db step c)), Hl'. apply elem_of_app. left. apply elem_of_app. right. left. }
  assert (ahead db step (Some (physical e)) = List.filter (after (Some (physical e))) (ahead db step c)) as ->.
  { symmetry. apply filter_filter_impl. intros k Hk. destruct c as [c|]; [|done]. cbn in *.
    apply ahead_elem in Hin as [_ Hc]. cbn in Hc. eapply bytes_lt_le_trans; [exact Hc|].
    unfold bytes_lt in Hk. apply negb_true_iff in Hk. destruct (bytes_le_total (physical e) (physical k)); congruence. }
  rewrite <- (take_drop n (ahead db step c)) at 1. rewrite List.filter_app, filter_none; [cbn|].
  - pose proof (length_filter_le (after (Some (physical e))) (drop n (ahead db step c))) as Hle.
    rewrite length_drop in Hle. apply (f_equal length) in Hl'. rewrite length_take, length_app in Hl'. cbn in Hl'. lia.
  - intros k Hk. cbn. unfold bytes_lt. apply negb_false_iff. rewrite Hl' in Hk.
    apply elem_of_app in Hk as [Hk| ->%list_elem_of_singleton]; [|apply bytes_le_refl].
    rewrite <- (take_drop n (ahead db step c)), Hl' in Hs. apply StronglySorted_app_1_l in Hs.
    eapply (StronglySorted_app_1_elem_of by_physical l' [e]); [exact Hs|done|left].
Qed.

Lemma todo_Batched db db' tenant batch rk rec st :
  Inv db -> Rotating db tenant rk rec -> 0 <= RekeyRecord.keyspace rk <= 4 ->
  Batched db db' tenant batch rk rec st ->
  exists rk', Rotating db' tenant rk' rec /\ st = rekey_status_of rk' /\ (todo db' rk' < todo db rk)%nat /\
    RekeyRecord.to_key_id rk' = RekeyRecord.to_key_id rk /\ 0 <= RekeyRecord.keyspace rk' <= 5.
Proof using Type.
  intros HI (Hrk & Hd & Ht) Hks (db1 & n & HP & (E1 & _) & _ & -> & ->).
  set (entries := walk_entries _ _ _ _) in *. set (rk' := advance rk entries batch n). exists rk'.
  destruct (reg_rekey db (inv_registry db HI) tenant rk Hrk) as (rec0 & Ht0 & [R1 R2 R3 R4]).
  assert (SamePlain db (put_rekey rk' db1)) as HP'. { etransitivity; [exact HP|]. by split. }
  split; [|split; [done|split; [|split; [done|]]]].
  - split_and!; [cbn; rewrite R1; apply lookup_insert_eq|exact Hd|]. cbn. by rewrite E1.
  - unfold todo. rewrite (ahead_plain db) by done. rewrite (rest_plain db) by done.
    rewrite (proj2 (Z.leb_le (RekeyRecord.keyspace rk) 4)) by lia. unfold rk', advance.
    cbn [RekeyRecord.keyspace RekeyRecord.cursor]. destruct (Nat.ltb_spec (length entries) (Pos.to_nat batch)) as [Hl|Hl].
    + rewrite ahead_start. unfold saturating_add, u8_max. clear -Hks.
      assert (RekeyRecord.keyspace rk = 0 \/ RekeyRecord.keyspace rk = 1 \/ RekeyRecord.keyspace rk = 2 \/
        RekeyRecord.keyspace rk = 3 \/ RekeyRecord.keyspace rk = 4) as Hc by lia.
      unfold rest. cbn [foldr]. destruct Hc as [->|[->|[->|[->| ->]]]]; cbv -[walk_keys length ahead Nat.add lt RekeyRecord.cursor]; lia.
    + rewrite (proj2 (Z.leb_le (RekeyRecord.keyspace rk) 4)) by lia.
      destruct (last entries) as [e|] eqn:He.
      * apply ahead_advance in He. cbn [fmap option_fmap option_map]. lia.
      * apply last_None in He. rewrite He in Hl. cbn in Hl. lia.
  - unfold rk', advance. cbn [RekeyRecord.keyspace]. unfold saturating_add, u8_max. destruct (Nat.ltb _ _); lia.
Qed.

(** The number of records in the walked keyspaces bounds the walk. *)
Definition walk_size (db : Db) : nat :=
  (length (walk_keys db 0) + length (walk_keys db 1) + length (walk_keys db 2) + length (walk_keys db 3)
   + length (walk_keys db 4))%nat.
Lemma todo_size db rk : 0 <= RekeyRecord.keyspace rk -> (todo db rk <= 5 + walk_size db)%nat.
Proof using Type.
  intros Hks. unfold todo, rest, walk_size. cbn [foldr].
  assert (forall c step, (length (ahead db step c) <= length (walk_keys db step))%nat) as Ha.
  { intros c step. rewrite <- ahead_start. unfold ahead.
    rewrite !(length_filter_perm _ _ _ (merge_sort_Permutation by_physical (walk_keys db step))).
    rewrite (forallb_filter_id (after None)) by (by apply forallb_forall). apply length_filter_le. }
  destruct (Z.leb_spec (RekeyRecord.keyspace rk) 4) as [Hl|Hl].
  - assert (RekeyRecord.keyspace rk = 0 \/ RekeyRecord.keyspace rk = 1 \/ RekeyRecord.keyspace rk = 2 \/
      RekeyRecord.keyspace rk = 3 \/ RekeyRecord.keyspace rk = 4) as Hc by lia.
    specialize (Ha (RekeyRecord.cursor rk) (RekeyRecord.keyspace rk)).
    destruct Hc as [Hc|[Hc|[Hc|[Hc|Hc]]]]; rewrite Hc in *; cbn -[walk_keys length ahead]; lia.
  - repeat match goal with |- context [?a <? ?b] => destruct (Z.ltb_spec a b); [lia|] end. lia.
Qed.

(** ** The loop *)

(** What a finished rotation leaves, from [db]. *)
Record Finished (db db' : Db) (tenant : TenantId) (rec : TenantRecord) (st : RekeyStatus) : Prop := {
  fin_inv : Inv db';
  fin_rotated : Rotated db db';
  fin_done : RekeyStatus.is_done st = true;
  fin_to : RekeyStatus.to_key_id st = TenantRecord.data_key_id rec;
  fin_tenant : Db.tenants db' !! tenant = Some rec;
  fin_retired : rekey_retiring db' tenant = None;
  fin_others : forall k, walk_owner k <> Some tenant -> header db' k = header db k;
}.

Lemma rekey_batch_ok now db tenant batch rk rec :
  Inv db -> Rotating db tenant rk rec ->
  exists st db', rekey_batch NoFailpoints now db tenant batch = (Ok st, db') /\
    ((RekeyRecord.keyspace rk = 5 /\ Retired now db db' rk st) \/
     (0 <= RekeyRecord.keyspace rk <= 4 /\ Batched db db' tenant batch rk rec st)).
Proof using Type.
  intros HI Hrot. pose proof (rekey_batch_shape now db tenant batch HI) as Hs.
  unfold rekey_batch. destruct (rekey_batch_tx now db tenant batch) as [[a|b st db']|e]; [done| |].
  - destruct Hs as (rk' & rec' & (H1 & H2 & H3) & Hs). destruct Hrot as (G1 & G2 & G3). simplify_eq.
    exists st, db'. split; [by destruct Hs as [(_ & _ & ->)|(_ & _ & ->)]|]. naive_solver.
  - destruct Hs as [_ Hs]. by apply Hs in Hrot.
Qed.

Lemma rekey_loop_done now tenant batch rec : forall fuel db rk,
  Inv db -> Rotating db tenant rk rec -> (todo db rk < fuel)%nat ->
  exists st db', rekey_loop fuel NoFailpoints now db tenant batch (rekey_status_of rk) = Some (Ok st, db') /\
    Finished db db' tenant rec st.
Proof using Type.
  induction fuel as [|fuel IH]; intros db rk HI Hrot Hf; [lia|].
  pose proof Hrot as (Hrk & Hd & Ht). cbn [rekey_loop].
  change (RekeyStatus.is_done (rekey_status_of rk)) with (RekeyRecord.is_done rk). rewrite Hd.
  destruct (reg_rekey db (inv_registry db HI) tenant rk Hrk) as (rec0 & Ht0 & [R1 R2 R3 R4]).
  assert (rec0 = rec) as -> by congruence.
  destruct (rekey_batch_ok now db tenant batch rk rec HI Hrot) as (st & db1 & Hb & Hc).
  pose proof (rekey_batch_Inv NoFailpoints now db tenant batch HI) as HI1.
  pose proof (rekey_batch_Rotated NoFailpoints now db tenant batch HI) as HR1.
  rewrite Hb in HI1, HR1. cbn [snd] in *. rewrite Hb. destruct Hc as [[Hks Hret]|[Hks Hba]].
  - exists st, db1. destruct Hret as [-> ->]. split; [by destruct fuel|].
    split; try done. unfold rekey_retiring. cbn. by rewrite R1, lookup_insert_eq.
  - destruct (todo_Batched db db1 tenant batch rk rec st) as (rk1 & Hrot1 & -> & Hlt & _); try done.
    destruct (IH db1 rk1 HI1 Hrot1 ltac:(lia)) as (st & db2 & Hl & [F1 F2 F3 F4 F5 F6 F7]).
    exists st, db2. split; [done|]. split; try done; [by etransitivity|]. intros k Hk. rewrite F7 by done.
    destruct Hba as (dbx & n & _ & _ & HH & -> & _). change (header (put_rekey _ dbx) k) with (header dbx k).
    rewrite HH. rewrite bool_decide_eq_false_2; [done|]. naive_solver.
Qed.

Lemma begin_rekey_ok now db tenant rec :
  Inv db -> Db.tenants db !! tenant = Some rec -> rekey_retiring db tenant = None ->
  TenantRecord.data_key_id rec < u32_max ->
  exists rk db', begin_rekey NoFailpoints now db tenant = (Ok (rekey_status_of rk), db') /\
    Rotating db' tenant rk (with_data_key_id (TenantRecord.data_key_id rec + 1) rec) /\
    RekeyRecord.keyspace rk = 0 /\ forall k, header db' k = header db k.
Proof using Type.
  intros HI Ht Hret Hlt.
  assert (match Db.rekey db !! tenant with
          | Some existing => ensure (RekeyRecord.is_done existing) (StoreError.RekeyInProgress tenant)
          | None => Ok tt end = Ok tt) as Hidle.
  { unfold rekey_retiring in Hret. destruct (Db.rekey db !! tenant) as [rk|]; [|done].
    by destruct (RekeyRecord.is_done rk). }
  unfold begin_rekey, begin_rekey_tx. rewrite Ht, Hidle, (Registry_keys db tenant rec (inv_registry db HI) Ht).
  cbn [mbind result_bind TenantKeyring.key_id]. unfold checked_add.
  rewrite (proj2 (Z.leb_le (TenantRecord.data_key_id rec + 1) u32_max)) by lia. cbn [ok_or mbind result_bind].
  eexists (RekeyRecord.mk _ _ _ _ _ _ _ _ _ _ _), _. split; [reflexivity|].
  split; [split_and!; [apply lookup_insert_eq|done|apply lookup_insert_eq]|]. split; [done|].
  intros k. unfold stage_new_key. destruct (negb _); by destruct k.
Qed.

(** A rotation from [db], started or resumed. *)
Lemma rekey_tenant_done now db tenant rec batch fuel :
  Inv db -> Db.tenants db !! tenant = Some rec ->
  (rekey_retiring db tenant = None -> TenantRecord.data_key_id rec < u32_max) ->
  (5 + walk_size db < fuel)%nat ->
  exists st db' rec', rekey_tenant fuel NoFailpoints now db tenant batch = Some (Ok st, db') /\
    Finished db db' tenant rec' st.
Proof using Type.
  intros HI Ht Hids Hf.
  assert (rekey_retiring db tenant = None -> exists st db' rec',
    match begin_rekey NoFailpoints now db tenant with
    | (Ok status, db) => rekey_loop fuel NoFailpoints now db tenant batch status
    | (Err e, db) => Some (Err e, db) end = Some (Ok st, db') /\ Finished db db' tenant rec' st) as Hfresh.
  { intros Hret. pose proof (begin_rekey_Inv NoFailpoints now db tenant HI) as HI0.
    pose proof (begin_rekey_Rotated NoFailpoints now db tenant) as HR0.
    destruct (begin_rekey_ok now db tenant rec HI Ht Hret (Hids Hret)) as (rk & db0 & Hb & Hrot & Hks & Hh).
    rewrite Hb in *. cbn [snd] in *. edestruct (rekey_loop_done now tenant batch _ fuel db0 rk HI0 Hrot)
      as (st & db' & Hl & [F1 F2 F3 F4 F5 F6 F7]).
    { pose proof (todo_size db0 rk ltac:(lia)) as Hts. assert (walk_size db0 = walk_size db); [|lia].
      unfold walk_size. by rewrite !(Permutation_length (walk_keys_plain db db0 _ (rot_plain _ _ HR0))). }
    eexists st, db', _. split; [done|]. split; try done; [by etransitivity|]. intros k Hk. by rewrite F7. }
  unfold rekey_tenant, rekey_status. destruct (Db.rekey db !! tenant) as [rk|] eqn:Hrk;
    cbn [fmap option_fmap option_map]; [|apply Hfresh; unfold rekey_retiring; by rewrite Hrk].
  change (RekeyStatus.is_done (rekey_status_of rk)) with (RekeyRecord.is_done rk).
  destruct (RekeyRecord.is_done rk) eqn:Hd; cbn [negb]; [apply Hfresh; unfold rekey_retiring; by rewrite Hrk, Hd|].
  destruct (rekey_loop_done now tenant batch rec fuel db rk) as (st & db' & Hl & Hfin); [done|by split_and!| |by eauto].
  destruct (reg_rekey db (inv_registry db HI) tenant rk Hrk) as (_ & _ & [_ _ _ R4]).
  pose proof (todo_size db rk ltac:(lia)). lia.
Qed.

(** Afterwards the new key is everywhere and alone. *)
Lemma Finished_keys db db' tenant rec st :
  Finished db db' tenant rec st ->
  (forall k id, walk_owner k = Some tenant -> header db' k = Some id -> id = RekeyStatus.to_key_id st) /\
  (forall id, (tenant, id) ∈ Db.data_keys db' <-> id = RekeyStatus.to_key_id st).
Proof using Type.
  intros [F1 F2 F3 F4 F5 F6 F7]. pose proof (inv_registry db' F1) as [HT _ _ HK]. rewrite F4. split.
  - intros k id Ho Hk.
    destruct (proj1 (SealsOk_headers db') (inv_seals db' F1) k tenant id Ho Hk) as [[tb Htb]|(r & Hr & Hk')].
    + by rewrite (to_tomb _ _ _ (HT tenant rec F5)) in Htb.
    + rewrite F5 in Hr. injection Hr as <-. destruct Hk' as [->|(rk & Hrk & Hd & _)]; [done|].
      unfold rekey_retiring in F6. by rewrite Hrk, Hd in F6.
  - intros id. split.
    + intros Hin. destruct (HK tenant id Hin) as (r & Hr & [Hi|Hi]); congruence.
    + intros ->. apply (to_key _ _ _ (HT tenant rec F5)).
Qed.
End todo.

(** ** Properties *)
Section properties.
Context `{Hashes}.

(** C15. A rotation always completes. From any state a run of the store can
    reach, for a registered tenant whose key ids are not exhausted, a rotation
    resumes where an earlier one stopped or starts, and ends after a bounded
    number of batches: then every record of the tenant is sealed under the
    new key, the new key is the only data key the store holds for the tenant,
    the seals of every other tenant are as they were and no content changed. *)
Theorem rekey_completes (trace : list Event) (now : Timestamp) (tenant : TenantId) (rec : TenantRecord)
    (batch : positive) (fuel : nat) :
  Typed trace ->
  let db := run empty_db trace in
  Db.tenants db !! tenant = Some rec ->
  (rekey_retiring db tenant = None -> TenantRecord.data_key_id rec < u32_max) ->
  (5 + walk_size db < fuel)%nat ->
  exists st db', rekey_tenant fuel NoFailpoints now db tenant batch = Some (Ok st, db') /\
    RekeyStatus.is_done st = true /\
    (forall k id, walk_owner k = Some tenant -> header db' k = Some id -> id = RekeyStatus.to_key_id st) /\
    (forall id, (tenant, id) ∈ Db.data_keys db' <-> id = RekeyStatus.to_key_id st) /\
    (forall k, walk_owner k <> Some tenant -> header db' k = header db k) /\
    Rotated db db'.
Proof using Type.
  intros HI%run_Inv db Ht Hids Hf. fold db in HI.
  destruct (rekey_tenant_done now db tenant rec batch fuel HI Ht Hids Hf) as (st & db' & rec' & Hr & Hfin).
  exists st, db'. destruct (Finished_keys _ _ _ _ _ Hfin). by destruct Hfin.
Qed.

(** C16. No record is ever stranded. In every run, with rotations started,
    interrupted by crashes and resumed in any order among the other
    operations, every registered tenant's keyring loads, and it opens every
    record sealed under that tenant's keys: a key is deleted only when nothing
    is sealed under it. *)
Theorem no_record_stranded (trace : list Event) (tenant : TenantId) (rec : TenantRecord) :
  Typed trace ->
  let db := run empty_db trace in
  Db.tenants db !! tenant = Some rec ->
  exists keys, tenant_keys db tenant = Ok keys /\
    forall k id, walk_owner k = Some tenant -> header db k = Some id -> id ∈ openers keys.
Proof using Type.
  intros HI%run_Inv db Ht. fold db in HI. eexists. split; [by apply Registry_keys; [apply HI|]|].
  intros k id Ho Hk. eapply KeyOk_openers; [apply HI| |by apply Registry_keys; [apply HI|]].
  by apply (proj1 (SealsOk_headers db)); [apply HI|..].
Qed.

Lemma get_sealed_live {A} keys (s : option (Sealed A)) :
  (forall x, s = Some x -> Sealed.key_id x ∈ openers keys) ->
  get_sealed (openers keys) s = Ok (Sealed.plain <$> s).
Proof using Type. destruct s as [x|]; [|done]. intros Hx. cbn. by rewrite open_sealed_Ok by auto. Qed.

(** What a live tenant's reader finds is the plain contents. *)
Lemma published_live db a : Inv db ->
  published db a =
  match Db.locators db !! a with
  | None => Ok None
  | Some loc =>
      match tenant_keys db (LocatorRecord.owner loc) with
      | Ok keys =>
          record ← ok_or ((Sealed.plain <$> Db.artifacts db) !! (LocatorRecord.owner loc, a))
            (StoreError.Inconsistent "artifact locator has no side record");
          Ok (Some (record, keys))
      | Err (StoreError.TenantShredded _) => Ok None
      | Err e => Err e
      end
  end.
Proof using Type.
  intros HI. unfold published, live_tenant_keys. destruct (Db.locators db !! a) as [loc|]; [|done].
  destruct (tenant_keys db (LocatorRecord.owner loc)) as [keys|e] eqn:Hk; [|by destruct e]. cbn [mbind result_bind].
  rewrite get_sealed_live, lookup_fmap; [done|]. intros x Hx. eapply KeyOk_openers; [apply HI| |exact Hk].
  by apply (so_artifacts db (inv_seals db HI) _ _ Hx).
Qed.

Lemma blob_live {A} db t keys address e (f : bytes -> result StoreError A) :
  Inv db -> tenant_keys db t = Ok keys ->
  (sealed ← ok_or (Db.blobs db !! (t, address)) e; envelope ← open_sealed (openers keys) sealed; f envelope) =
  (envelope ← ok_or ((Sealed.plain <$> Db.blobs db) !! (t, address)) e; f envelope).
Proof using Type.
  intros HI Hk. rewrite lookup_fmap. destruct (Db.blobs db !! (t, address)) as [s|] eqn:Hs; [|done]. cbn.
  rewrite open_sealed_Ok; [done|]. eapply KeyOk_openers; [apply HI| |exact Hk].
  by apply (so_blobs db (inv_seals db HI) _ _ Hs).
Qed.

Lemma tenant_keys_Rotated db db' t : Inv db -> Inv db' -> Rotated db db' ->
  match tenant_keys db t, tenant_keys db' t with
  | Ok _, Ok _ => is_Some (Db.tenants db !! t)
  | Err e, Err e' => e = e'
  | _, _ => False
  end.
Proof using Type.
  intros HI HI' [HP HT]. specialize (HT t). destruct (Db.tenants db !! t) as [r|] eqn:Hr, (Db.tenants db' !! t) as [r'|] eqn:Hr'; try done.
  - rewrite (Registry_keys db t r (inv_registry db HI) Hr), (Registry_keys db' t r' (inv_registry db' HI') Hr'). eauto.
  - unfold tenant_keys, key_ids, absent_tenant. rewrite Hr, Hr'. by rewrite (proj1 (sp_rest _ _ HP)).
Qed.

(** A rotation is invisible to readers. Whatever step of a rotation runs
    or is cut short by a crash, in any reachable state, both artifact reads
    answer exactly what they answered before, and so does every question an
    authorization asks of the store. *)
Theorem rotation_invisible (trace : list Event) (fp : Failpoint) (now : Timestamp) (op : Op)
    (tenant : TenantId) (batch : positive) (a : ArtifactRef) (offset len : Z) :
  Typed trace -> op = Op.BeginRekey tenant \/ op = Op.RekeyBatch tenant batch ->
  let db := run empty_db trace in
  let db' := exec fp now db op in
  artifact db' a = artifact db a /\ read_artifact db' a offset len = read_artifact db a offset len /\
  (forall g, view_grant db' g = view_grant db g) /\
  (forall g, view_revocation db' g = view_revocation db g) /\
  (forall s, view_session_owner db' s = view_session_owner db s) /\
  (forall t, view_tenant_parent db' t = view_tenant_parent db t) /\
  (forall l, view_used db' l = view_used db l) /\
  (forall s, view_session_ceilings db' s = view_session_ceilings db s) /\
  (forall t, view_tenant_ceilings db' t = view_tenant_ceilings db t).
Proof using Type.
  intros HI%run_Inv Hop db db'. fold db in HI.
  assert (Inv db' /\ Rotated db db') as [HI' HR].
  { subst db'. destruct Hop as [-> | ->]; cbn [exec].
    - split; [by apply begin_rekey_Inv|apply begin_rekey_Rotated].
    - split; [by apply rekey_batch_Inv|by apply rekey_batch_Rotated]. }
  pose proof HR as [HP HT]. destruct (sp_rest _ _ HP) as (Etb & Eg & Er & Es & _ & El & Eloc & _).
  unfold artifact, read_artifact. rewrite !published_live by done. rewrite Eloc, (sp_artifacts _ _ HP).
  split_and!.
  - destruct (Db.locators db !! a) as [loc|]; [|done].
    pose proof (tenant_keys_Rotated db db' (LocatorRecord.owner loc) HI HI' HR) as Hk.
    destruct (tenant_keys db _) as [k|e], (tenant_keys db' _) as [k'|e']; try done; [|by subst].
    by destruct ((Sealed.plain <$> Db.artifacts db) !! _).
  - destruct (Db.locators db !! a) as [loc|]; [|done].
    pose proof (tenant_keys_Rotated db db' (LocatorRecord.owner loc) HI HI' HR) as Hk.
    destruct (tenant_keys db _) as [k|e] eqn:E, (tenant_keys db' _) as [k'|e'] eqn:E'; try done; [|subst; by destruct e'].
    destruct ((Sealed.plain <$> Db.artifacts db) !! _) as [rec|] eqn:Hrec; [|done]. cbn [ok_or mbind result_bind].
    apply lookup_fmap_Some in Hrec as (s & <- & Hs).
    rewrite (ao_filed _ (inv_artifacts db HI) _ _ Hs). cbn [fst].
    rewrite (blob_live db _ _ _ _ _ HI E), (blob_live db' _ _ _ _ _ HI' E'). by rewrite (sp_blobs _ _ HP).
  - intros g. cbn. by rewrite Eg.
  - intros g. cbn. by rewrite Er.
  - intros s. cbn. by rewrite Es.
  - intros t. cbn. specialize (HT t). destruct (Db.tenants db' !! t), (Db.tenants db !! t); try done.
    cbn in HT |- *. injection HT. intros. congruence.
  - intros l. cbn. unfold view_ledger. by rewrite El.
  - intros s. cbn. by rewrite Es.
  - intros t. cbn. specialize (HT t). destruct (Db.tenants db' !! t), (Db.tenants db !! t); try done.
    cbn in HT |- *. injection HT. intros. congruence.
Qed.
End properties.
