(* ===== verification/Ceiling.v ===== *)
(** * No ledger exceeds its ceilings

    A grant's, session's or tenant's ledger never exceeds the ceilings its
    record carries, on any dimension, in any run. *)
From S2P Require Import Prelude Vocab Ids Payload Epitrope Origin View Chain Issue Budget Decision.
From S2P Require Import Lifecycle Records Store StoreAudit Invocation Transition Directory Claim.
From S2P Require Import Shred Recovery Invariant Steps StoreRun Runs.
From S2P Require Import Rekey RekeyInv.
Local Open Scope Z_scope.

(** The ceilings of a ledger, while what it belongs to has a record. *)
Definition ledger_ceilings (db : Db) (l : LedgerRef) : option Ceilings :=
  match l with
  | LedgerRef.Grant g => GrantRecord.ceilings <$> Db.grants db !! g
  | LedgerRef.Session s => SessionRecord.ceilings <$> Db.sessions db !! s
  | LedgerRef.Tenant t => TenantRecord.ceilings <$> Db.tenants db !! t
  end.
(** A ledger whose owner is gone: only a shredded tenant's. *)
Definition retired (db : Db) (l : LedgerRef) : Prop :=
  match l with LedgerRef.Tenant t => is_Some (Db.tombstones db !! t) | _ => False end.

Definition Within (db : Db) : Prop := forall l d,
  match ledger_ceilings db l with
  | Some c => forall z, ceilings_get c d = Some z -> cost_get (view_ledger db l) d <= z
  | None => retired db l \/ cost_get (view_ledger db l) d = 0
  end.

Lemma Within_empty : Within empty_db.
Proof. intros l d. destruct l; right; by destruct d. Qed.

(** Consumption that only shrinks stays within. *)
Lemma Within_shrink db db' :
  (forall l, ledger_ceilings db' l = ledger_ceilings db l) -> Db.tombstones db' = Db.tombstones db ->
  (forall l d, 0 <= cost_get (view_ledger db' l) d <= cost_get (view_ledger db l) d) ->
  Within db -> Within db'.
Proof.
  intros Hc Hb Hu HW l d. specialize (HW l d). specialize (Hu l d). rewrite Hc.
  assert (retired db l -> retired db' l) as Hret by (destruct l; cbn; by rewrite ?Hb).
  destruct (ledger_ceilings db l); [|destruct HW; [by left; apply Hret|right; lia]].
  intros z Hz. specialize (HW z Hz). lia.
Qed.

Lemma Within_mono db db' :
  Db.grants db' = Db.grants db -> Db.sessions db' = Db.sessions db ->
  Db.tenants db' = Db.tenants db -> Db.tombstones db' = Db.tombstones db ->
  (forall l d, 0 <= cost_get (view_ledger db' l) d <= cost_get (view_ledger db l) d) ->
  Within db -> Within db'.
Proof. intros Hg Hs Ht. apply Within_shrink. intros l. destruct l; cbn; congruence. Qed.

Lemma view_ledger_nonneg `{Hashes} db l d : Inv db -> 0 <= cost_get (view_ledger db l) d.
Proof. intros HI. apply Balanced_nonneg; [apply HI|apply RecordsOk_HeldOk, HI]. Qed.

(** A rotation changes neither ledgers nor ceilings. *)
Lemma Within_Rotated `{Hashes} db db' : Inv db -> Rotated db db' -> Within db -> Within db'.
Proof.
  intros HI [HP HT]. destruct (sp_rest _ _ HP) as (Etb & Eg & _ & Es & _ & El & _).
  apply Within_shrink; [|done|].
  - intros [g|s|t]; cbn; [by rewrite Eg|by rewrite Es|]. specialize (HT t).
    destruct (Db.tenants db' !! t) as [a|], (Db.tenants db !! t) as [b|]; try done.
    cbn in HT |- *. injection HT. intros. congruence.
  - intros l d. pose proof (view_ledger_nonneg db l d HI) as Hn. unfold view_ledger in *. rewrite El. lia.
Qed.

Lemma Within_same `{Hashes} db db' :
  Db.grants db' = Db.grants db -> Db.sessions db' = Db.sessions db ->
  Db.tenants db' = Db.tenants db -> Db.tombstones db' = Db.tombstones db ->
  Db.ledgers db' = Db.ledgers db -> Inv db -> Within db -> Within db'.
Proof.
  intros Hg Hs Ht Hb Hl HI. apply Within_mono; try done. intros l d.
  pose proof (view_ledger_nonneg db l d HI) as Hn. unfold view_ledger in *. rewrite Hl. lia.
Qed.

Lemma Within_append_audit `{Hashes} now db entry seq db' :
  append_audit now db entry = Ok (seq, db') -> Inv db -> Within db -> Within db'.
Proof.
  intros (_ & _ & ks & stub & rec & _ & _ & _ & _ & _ & _ & _ & ->)%append_audit_Ok. by apply Within_same.
Qed.

Lemma Within_Stepped `{Hashes} db db' id r r' step : Inv db -> Inv db' -> Stepped db db' id r r' step ->
  Within db -> Within db'.
Proof.
  intros HI HI' [_ _ _ _ (Ht & Hb & _ & _ & _ & Hs) Hg Hm Hh]. apply Within_mono; try done. intros l d.
  split; [by apply view_ledger_nonneg|].
  rewrite Hm. pose proof (occ_nonneg l (InvocationRecord.ledgers r)). destruct (Hh d). nia.
Qed.

(** A new owner's ledger is empty, so any ceilings hold. *)
Lemma Within_add `{Hashes} db db' l c :
  Inv db -> Within db -> ledger_ceilings db l = None -> ~ retired db l -> ceilings_wf c ->
  ledger_ceilings db' l = Some c -> (forall l', l' <> l -> ledger_ceilings db' l' = ledger_ceilings db l') ->
  Db.tombstones db' = Db.tombstones db -> Db.ledgers db' = Db.ledgers db -> Within db'.
Proof.
  intros HI HW Hn Hr Hc Hl Hne Hb Hld l' d. specialize (HW l' d).
  assert (view_ledger db' l' = view_ledger db l') as -> by (unfold view_ledger; by rewrite Hld).
  assert (retired db l' -> retired db' l') as Hret by (destruct l'; cbn; by rewrite ?Hb).
  destruct (decide (l' = l)) as [->|Hd].
  2: { rewrite Hne by done. destruct (ledger_ceilings db l'); [done|]. destruct HW; auto. }
  rewrite Hl. rewrite Hn in HW. destruct HW as [HW|HW]; [done|]. intros z Hz. rewrite HW.
  by destruct (Hc d z Hz).
Qed.

(** ** The ledgers of a chain *)
Section chain.
Context {W V : Type} `{GrantView W V}.

(** Every link is the record the view holds under its id, and no id repeats. *)
Lemma Linked_links (view : W) leaf chain :
  Linked view leaf chain -> view_grant view (Grant.id leaf) = Ok (Some leaf) ->
  Forall (fun link => view_grant view (Grant.id link) = Ok (Some link) /\
    Grant.depth link <= Grant.depth leaf) chain /\ NoDup (Grant.id <$> chain).
Proof using Type.
  induction 1 as [leaf Hp Hd|leaf pid parent rest Hp Hg Hok HL IH]; intros Hv.
  - split; [repeat constructor; try done; lia|]. apply NoDup_singleton.
  - assert (Grant.id parent = pid) as Hid by (unfold link_ok in Hok; by bool_simpl).
    pose proof (link_ok_depth _ _ _ Hok) as Hdep. destruct IH as [Hall Hnd]; [by rewrite Hid|].
    split.
    + constructor; [split; [done|lia]|]. eapply Forall_impl; [exact Hall|]. cbn. intros l [? ?]. split; [done|lia].
    + cbn. apply NoDup_cons. split; [|done]. intros (l & Heq & Hin)%list_elem_of_fmap.
      rewrite Forall_forall in Hall. destruct (Hall l Hin) as [Hl Hld].
      rewrite <- Heq, Hv in Hl. injection Hl as <-. lia.
Qed.
End chain.

Lemma view_grant_ceilings db i g :
  view_grant db i = Ok (Some g) -> ledger_ceilings db (LedgerRef.Grant i) = Some (Grant.ceilings g).
Proof.
  cbn. destruct (Db.grants db !! i) as [rec|]; [|done]. cbn. intros Hv.
  apply bind_Ok in Hv as (g' & Hg'%map_err_Ok & Hv). apply Ok_inj in Hv. injection Hv as <-.
  unfold to_grant in Hg'. apply bind_Ok in Hg' as (ts & _ & Hg'). apply Ok_inj in Hg'. by subst.
Qed.

(** What [authorize] reads of each ledger is what the store holds. *)
Definition Faithful (db : Db) (s : LedgerState) : Prop := forall l,
  from_ledger_id (LedgerState.id s) = Some l ->
  LedgerState.used s = view_ledger db l /\
  ledger_ceilings db l = Some (LedgerState.ceilings s).

Lemma grant_ledgers_Faithful db tenant chain states :
  Forall (fun link => view_grant db (Grant.id link) = Ok (Some link)) chain ->
  collect (grant_ledger db tenant) chain = Ok states ->
  Forall (Faithful db) states /\ LedgerState.id <$> states = (fun g => LedgerId.Grant (Grant.id g)) <$> chain.
Proof.
  intros Hall Hc%collect_Forall2. induction Hc as [|g s chain states Hg Hc IH]; [by split|].
  apply Forall_cons in Hall as [Hv Hall]. destruct (IH Hall) as [IH1 IH2].
  unfold grant_ledger in Hg. cbn in Hg. apply Ok_inj in Hg. subst s. split; [|by cbn; rewrite IH2].
  constructor; [|done]. intros l. cbn [from_ledger_id LedgerState.id]. intros [= <-]. split; [done|].
  by apply view_grant_ceilings.
Qed.

Lemma ledger_states_Faithful db tenant chain debited states :
  Forall (fun link => view_grant db (Grant.id link) = Ok (Some link)) chain ->
  NoDup (Grant.id <$> chain) -> is_Some (Db.tenants db !! tenant) ->
  (forall s owner, debited = Some (s, owner) -> is_Some (Db.sessions db !! s)) ->
  ledger_states db tenant chain debited = Ok states ->
  Forall (Faithful db) states /\ NoDup (LedgerState.id <$> states).
Proof.
  intros Hall Hnd [trec Ht] Hses Hl. unfold ledger_states in Hl.
  apply bind_Ok in Hl as (gs & Hg & Hl). apply bind_Ok in Hl as (ss & Hs & Hl).
  apply grant_ledgers_Faithful in Hg as [Hf Hids]; [|done]. cbn in Hl. apply Ok_inj in Hl. subst states.
  assert (Forall (Faithful db) ss /\
          exists o, LedgerState.id <$> ss = match o with Some s => [LedgerId.Session s] | None => [] end) as [Hsf [o Ho]].
  { unfold session_ledger in Hs. destruct debited as [[s owner]|].
    - cbn in Hs. apply Ok_inj in Hs. subst ss. split; [|by exists (Some s)].
      constructor; [|done]. intros l [= <-]. split; [done|]. destruct (Hses s owner eq_refl) as [rec Hr].
      cbn. by rewrite Hr.
    - apply Ok_inj in Hs. subst ss. split; [done|by exists None]. }
  split.
  - apply Forall_app. split; [done|]. apply Forall_app. split; [done|]. constructor; [|done].
    intros l [= <-]. split; [done|]. cbn. by rewrite Ht.
  - rewrite !fmap_app, Hids, Ho. apply NoDup_app. split_and!.
    + rewrite (list_fmap_compose Grant.id LedgerId.Grant). apply NoDup_fmap; [|done]. by intros ? ? [= ->].
    + intros x (g & -> & _)%list_elem_of_fmap. destruct o; set_solver.
    + destruct o; cbn; [apply NoDup_cons; split; [set_solver|apply NoDup_singleton]|apply NoDup_singleton].
Qed.

Lemma debit_all_ids db ids amount ls db' :
  debit_all db ((fun l => (l, amount)) <$> ids) = Ok (ls, db') ->
  Forall2 (fun i l => from_ledger_id i = Some l) ids ls.
Proof.
  revert db ls db'; induction ids as [|i ids IH]; intros db ls db' Hd.
  - injection Hd as <- <-. constructor.
  - cbn [debit_all fmap list_fmap] in Hd. apply bind_Ok in Hd as ([l db1] & H1 & Hd).
    apply bind_Ok in Hd as ([ls' db2] & H2 & Hd). apply Ok_inj in Hd. injection Hd as <- <-.
    unfold debit_one in H1. apply bind_Ok in H1 as (l' & Hl%ok_or_Ok & H1).
    apply bind_Ok in H1 as (used & _ & H1). apply Ok_inj in H1. injection H1 as <- <-.
    constructor; [done|]. by apply IH in H2.
Qed.

Lemma from_ledger_id_inj i j l : from_ledger_id i = Some l -> from_ledger_id j = Some l -> i = j.
Proof. destruct i, j; cbn; congruence. Qed.

Lemma occ_notin {A} `{EqDecision A} (x : A) l : ~ x ∈ l -> occ x l = 0.
Proof.
  induction l as [|y l IH]; [done|]. rewrite elem_of_cons. intros Hn. cbn.
  rewrite bool_decide_eq_false_2 by tauto. rewrite IH by tauto. done.
Qed.

Lemma occ_NoDup_ledgers ids ls l :
  Forall2 (fun i l => from_ledger_id i = Some l) ids ls -> NoDup ids -> l ∈ ls -> occ l ls = 1.
Proof.
  induction 1 as [|i x ids ls Hi Hf IH]; intros Hnd Hin; [by apply elem_of_nil in Hin|].
  apply NoDup_cons in Hnd as [Hn Hnd]. cbn. case_bool_decide as Hx.
  - subst x. rewrite occ_notin; [done|]. intros Hl. apply Hn.
    apply list_elem_of_lookup in Hl as [k Hk].
    destruct (Forall2_lookup_r _ _ _ _ _ Hf Hk) as (j & Hj & Hjl).
    rewrite (from_ledger_id_inj i j l) by done. by apply list_elem_of_lookup_2 in Hj.
  - apply elem_of_cons in Hin as [->|Hin]; [done|]. rewrite IH; auto.
Qed.

(** ** Every operation keeps every ledger within its ceilings *)
Section ops.
Context `{Hashes}.

Lemma persist_Within now db keys intent chain reservation b a db' :
  Inv db -> Within db ->
  tenant_keys db (AuthzRequest.tenant (Intent.authz intent)) = Ok keys ->
  authorize db (Intent.authz intent) now = Ok (Decision.Allowed chain reservation) ->
  persist now db keys intent chain reservation = Ok (Committed b a db') -> Within db'.
Proof using Type.
  intros HI HW Hk Hauth Hp. unfold persist, intent_record, debit_reservation in Hp.
  apply bind_Ok in Hp as ([r db2] & Hi & Hp). apply Ok_inj in Hp. injection Hp as _ _ <-.
  apply bind_Ok in Hi as ([ls db1] & Hd & Hi). apply Ok_inj in Hi. injection Hi as _ <-.
  apply authorize_inv in Hauth as (_ & ch & deb & lds & Hdc & _ & Hsess & _ & Hl & [-> Hcov]%plan_reservation_Fits & _).
  apply designated_chain_Ok in Hdc as (leaf & Hv & Hid & _ & HL & _ & _); [|apply Inv_view_u8, HI].
  destruct (Linked_links db leaf ch HL) as [Hall Hnd]; [by rewrite Hid|].
  destruct (ledger_states_Faithful db (AuthzRequest.tenant (Intent.authz intent)) ch deb lds)
    as [Hfaith Hndl]; [|done| | |done|].
  { eapply Forall_impl; [exact Hall|]. by intros g [? _]. }
  { by apply tenant_keys_Some in Hk as (rec & -> & _). }
  { intros s owner ->. unfold SessionOk in Hsess.
    destruct (AuthzRequest.session (Intent.authz intent)) as [s'|]; [|by destruct Hsess].
    destruct Hsess as (_ & o & Ho & _ & [= <- <-]). cbn in Ho.
    destruct (Db.sessions db !! s); [eauto|done]. }
  unfold debits in Hd. cbn [ReservationPlan.ledgers ReservationPlan.cost] in Hd.
  pose proof (debit_all_ids _ _ _ _ _ Hd) as Hids. apply debit_all_moved in Hd as [[Hdb Hm] _].
  assert (exists f, db1 = set_ledgers f db) as [f ->] by eauto. clear Hdb.
  intros l d. change (ledger_ceilings _ l) with (ledger_ceilings db l).
  change (view_ledger (set_idem _ _) l) with (view_ledger (set_ledgers f db) l). specialize (HW l d).
  rewrite Hm. destruct (decide (l ∈ ls)) as [Hin|Hout].
  - rewrite (occ_NoDup_ledgers _ ls l Hids Hndl Hin).
    apply list_elem_of_lookup in Hin as [k Hk'].
    destruct (Forall2_lookup_r _ _ _ _ _ Hids Hk') as (i & Hi & Hil).
    apply list_lookup_fmap_Some in Hi as (st & -> & Hst).
    apply list_elem_of_lookup_2 in Hst. rewrite Forall_forall in Hfaith.
    destruct (Hfaith st Hst l Hil) as [Hu Hc]. rewrite Hc. intros z Hz.
    destruct (Hcov st ltac:(by apply list_elem_of_In) d) as [_ Hle]. specialize (Hle z Hz).
    rewrite Hu in Hle. lia.
  - rewrite (occ_notin l ls Hout). destruct (ledger_ceilings db l) as [c|].
    + intros z Hz. specialize (HW z Hz). lia.
    + destruct HW as [HW|HW]; [by left|]. right. lia.
Qed.

Lemma begin_Within fp now db intent : Inv db -> Within db -> Within (snd (begin fp now db intent)).
Proof using Type.
  intros HI HW. apply (with_tx_cases fp db _ Within HW). intros b a db' Hb. unfold begin_tx in Hb.
  assert (forall failure, refuse now db intent failure = Ok (Committed b a db') -> Within db') as Hrefuse.
  { intros f Hr. unfold refuse in Hr. apply bind_Ok in Hr as ([seq db1] & Ha & Hr).
    apply Ok_inj in Hr. injection Hr as _ _ <-. by apply Within_append_audit in Ha. }
  apply bind_Ok in Hb as (keys & Hk & Hb). apply bind_Ok in Hb as (idem & _ & Hb).
  destruct idem as [idem|].
  { unfold replay in Hb. case_in Hb; [done|]. by apply bind_Ok in Hb as (r & _ & Hb). }
  apply bind_Ok in Hb as ([] & _ & Hb). apply bind_Ok in Hb as (d & Hd%map_err_Ok & Hb).
  destruct d as [chain res|code|dim|]; try (by apply Hrefuse in Hb).
  destruct (session_owner_shredded _ _); [by apply Hrefuse in Hb|].
  by apply (persist_Within _ _ _ _ _ _ _ _ _ HI HW Hk Hd) in Hb.
Qed.

Lemma transition_Within fp now db id step b apply :
  Inv db -> Within db -> StageSound now db id step apply ->
  Within (snd (transition fp now db id step b apply)).
Proof using Type.
  intros HI HW Hs. destruct (transition_cases fp now db id step b apply HI Hs) as [HI' [->|(r & r' & Hst)]]; [done|].
  by apply (Within_Stepped _ _ _ _ _ _ HI HI' Hst).
Qed.

Lemma recover_Within fp now db scan : Inv db -> Within db -> Within (snd (recover fp now db scan)).
Proof using Type.
  unfold recover. generalize (open_invocations scan). intros work. generalize report_default.
  revert db. induction work as [|[id action] work IH]; intros db report HI HW; [done|].
  cbn [recover_loop]. pose proof (recover_one_Inv fp now db report id action HI) as HI'.
  assert (Within (snd (recover_one fp now db report id action))) as HW'.
  { unfold recover_one. destruct report, action.
    - pose proof (transition_Within fp now db id _ Boundary.Terminal _ HI HW
        (release_sound now db id ReleaseReason.Abandoned HI)) as HW'.
      fold (release fp now db id ReleaseReason.Abandoned) in HW'. by destruct (release _ _ _ _ _).
    - pose proof (transition_Within fp now db id _ Boundary.Terminal _ HI HW
        (mark_unknown_effect_sound now db id HI)) as HW'.
      fold (mark_unknown_effect fp now db id) in HW'. by destruct (mark_unknown_effect _ _ _ _).
    - pose proof (transition_Within fp now db id _ Boundary.Publish _ HI HW (publish_sound now db id HI)) as HW1.
      fold (publish fp now db id) in HW1. pose proof (publish_Inv fp now db id HI) as HI1.
      destruct (publish _ _ _ _) as [[st|e] db1]; [|done]. cbn [snd] in *.
      pose proof (transition_Within fp now db1 id _ Boundary.Terminal _ HI1 HW1
        (settle_sound now db1 id SettleOutcome.Success HI1 ltac:(done))) as HW2.
      fold (settle fp now db1 id SettleOutcome.Success) in HW2. by destruct (settle _ _ _ _ _).
    - pose proof (transition_Within fp now db id _ Boundary.Terminal _ HI HW
        (settle_sound now db id SettleOutcome.Success HI ltac:(done))) as HW2.
      fold (settle fp now db id SettleOutcome.Success) in HW2. by destruct (settle _ _ _ _ _). }
  destruct (recover_one _ _ _ _ _ _) as [[r|e] db1]; [by apply IH|done].
Qed.
End ops.

Lemma register_tenant_Within `{Hashes} fp now db registration :
  Inv db -> Within db -> ceilings_wf (TenantRegistration.ceilings registration) ->
  Within (snd (register_tenant fp now db registration)).
Proof.
  intros HI HW Hc. apply (with_tx_cases fp db _ Within HW). intros b a db' Hr. unfold register_tenant_tx in Hr.
  set (id := TenantRegistration.id registration) in *.
  destruct (Db.tenants db !! id) eqn:Hnew; [by apply bind_Ok in Hr as (_ & _ & Hr)|].
  apply bind_Ok in Hr as ([] & Ht%ensure_Ok & Hr). apply bool_decide_eq_true in Ht.
  apply bind_Ok in Hr as ([] & _ & Hr). apply Ok_inj in Hr. injection Hr as _ _ <-.
  apply (Within_add db _ (LedgerRef.Tenant id) (TenantRegistration.ceilings registration)); try done.
  - cbn. by rewrite Hnew.
  - cbn. rewrite Ht. by intros [].
  - cbn. by rewrite lookup_insert_eq.
  - intros [g|s|t] Hne; try done. cbn. rewrite lookup_insert_ne by congruence. done.
Qed.

Lemma put_new_grant_Within `{Hashes} db g staged db' :
  Inv db -> Within db -> ceilings_wf (GrantRecord.ceilings g) ->
  put_new_grant db g = Ok (staged, db') -> Within db'.
Proof.
  intros HI HW Hc Hp. unfold put_new_grant in Hp. destruct (Db.grants db !! GrantRecord.id g) eqn:Hnew.
  - apply bind_Ok in Hp as ([] & _ & Hp). apply Ok_inj in Hp. by injection Hp as _ <-.
  - apply Ok_inj in Hp. injection Hp as _ <-.
    apply (Within_add db _ (LedgerRef.Grant (GrantRecord.id g)) (GrantRecord.ceilings g)); try done.
    + cbn. by rewrite Hnew.
    + by intros [].
    + cbn. by rewrite lookup_insert_eq.
    + intros [i|s|t] Hne; try done. cbn. rewrite lookup_insert_ne by congruence. done.
Qed.

Lemma install_root_grant_Within `{Hashes} fp db root :
  Inv db -> Within db -> ceilings_wf (RootGrant.ceilings root) ->
  Within (snd (install_root_grant fp db root)).
Proof.
  intros HI HW Hc. apply (with_tx_cases fp db _ Within HW). intros b a db' Hr.
  unfold install_root_grant_tx, root_to_grant in Hr.
  apply bind_Ok in Hr as (g & Hg & Hr). apply bind_Ok in Hg as (ts & _ & Hg). apply Ok_inj in Hg. subst g.
  apply bind_Ok in Hr as ([] & _ & Hr). apply bind_Ok in Hr as ([staged db1] & Hp & Hr).
  apply Ok_inj in Hr. destruct staged; [|done]. injection Hr as _ _ <-.
  by apply put_new_grant_Within in Hp.
Qed.

Lemma check_issue_ceilings (db : Db) ctx request now child :
  check_issue db ctx request now = Ok (IssueDecision.Issued child) ->
  Grant.ceilings child = GrantIssueRequest.ceilings request.
Proof.
  destruct ctx as [issuer designated cid]. unfold check_issue. intros Hc.
  apply bind_Ok in Hc as ([parent|] & _ & Hc); [|done]. case_in Hc; [done|].
  apply bind_Ok in Hc as ([chain|] & _ & Hc); [|done]. case_in Hc; [done|].
  destruct chain as [|p rest]; [done|]. case_in Hc; [|done]. case_in Hc; [|done].
  apply bind_Ok in Hc as (used & _ & Hc). apply bind_Ok in Hc as (v & _ & Hc).
  destruct v; [done|]. apply Ok_inj in Hc. by injection Hc as <-.
Qed.

Lemma issue_grant_Within `{Hashes} fp now db issue :
  Inv db -> Within db -> OpTyped (Op.IssueGrant issue) -> Within (snd (issue_grant fp now db issue)).
Proof.
  intros HI HW [Hm Hcw]. apply (with_tx_cases fp db _ Within HW). intros b a db' Hr. unfold issue_grant_tx in Hr.
  assert (forall d outcome state, Inv d -> Within d ->
    issue_finish now d issue outcome state = Ok (Committed b a db') -> Within db') as Hfin.
  { intros d outcome state HId HWd Hf. unfold issue_finish in Hf. apply bind_Ok in Hf as ([seq db1] & Ha & Hf).
    apply Ok_inj in Hf. injection Hf as _ _ <-. by apply Within_append_audit in Ha. }
  set (new := mbind _ _) in Hr. assert (new = Ok (Committed b a db') -> Within db') as Hnew.
  { subst new. intros Hn. apply bind_Ok in Hn as (d & Hd%map_err_Ok & Hn).
    destruct d as [child| | |]; try (by apply Hfin in Hn).
    apply bind_Ok in Hn as ([staged db1] & Hp & Hn).
    pose proof (check_issue_ceilings _ _ _ _ _ Hd) as Hceil.
    apply issued_depths in Hd as [Hd Hmd]; [|apply HI|done].
    destruct staged; [|done]. apply (Hfin db1) in Hn; [done| |].
    - by apply put_new_grant_Inv in Hp.
    - apply put_new_grant_Within in Hp; try done. cbn. by rewrite Hceil. }
  destruct (Db.grants db !! _); [|by apply Hnew]. case_in Hr; [|by apply Hnew].
  by apply bind_Ok in Hr as (_ & _ & Hr).
Qed.

Lemma open_session_Within `{Hashes} fp now db new parent :
  Inv db -> Within db -> ceilings_wf (NewSession.ceilings new) ->
  Within (snd (open_session fp now db new parent)).
Proof.
  intros HI HW Hc. apply (with_tx_cases fp db _ Within HW). intros b a db' Hr. unfold open_session_tx in Hr.
  apply bind_Ok in Hr as ([] & Hown & Hr). case_in Hr; [done|].
  destruct (Db.sessions db !! NewSession.session new) eqn:Hnew.
  { by apply bind_Ok in Hr as (_ & _ & Hr). }
  apply bind_Ok in Hr as ([seq db1] & Ha & Hr). apply Ok_inj in Hr. injection Hr as _ _ <-.
  apply append_audit_Ok in Ha as (_ & _ & ks & stub & rec & _ & _ & _ & _ & _ & _ & _ & ->).
  apply (Within_add db _ (LedgerRef.Session (NewSession.session new)) (NewSession.ceilings new)); try done.
  - cbn. by rewrite Hnew.
  - by intros [].
  - cbn. by rewrite lookup_insert_eq.
  - intros [g|s|t] Hne; try done. cbn. rewrite lookup_insert_ne by congruence. done.
Qed.

Lemma shred_tenant_Within fp now db tenant : Within db -> Within (snd (shred_tenant fp now db tenant)).
Proof.
  intros HW. apply (with_tx_cases fp db _ Within HW). intros b a db' Hs.
  apply shred_shape in Hs as (_ & _ & _ & dk & rk & _ & _ & _ & _ & ->).
  intros l d. specialize (HW l d). destruct l as [g|s|t]; try done. cbn in *.
  destruct (decide (t = tenant)) as [->|Hne].
  - rewrite lookup_delete_eq, lookup_insert_eq. left. eauto.
  - by rewrite lookup_delete_ne, lookup_insert_ne by done.
Qed.

Section runs.
Context `{Hashes}.

Lemma exec_Within fp now db op : Inv db -> Within db -> OpTyped op -> Within (exec fp now db op).
Proof using Type.
  intros HI HW Ht. destruct op; cbn [exec].
  - by apply begin_Within.
  - apply transition_Within; try done. by apply dispatch_sound.
  - apply transition_Within; try done. by apply complete_transfer_sound.
  - apply transition_Within; try done. by apply publish_sound.
  - apply transition_Within; try done. apply settle_sound; [done|]. by intros f c ->.
  - apply transition_Within; try done. by apply release_sound.
  - apply transition_Within; try done. by apply mark_unknown_effect_sound.
  - by apply recover_Within.
  - by apply register_tenant_Within.
  - apply install_root_grant_Within; try done. apply Ht.
  - by apply issue_grant_Within.
  - apply (with_tx_cases fp db _ Within HW). intros b a db' Hr. unfold revoke_grant_tx in Hr.
    destruct (Db.grants db !! _); [|done]. destruct (Db.revocations db !! _); [done|].
    apply bind_Ok in Hr as ([seq db1] & Ha & Hr). apply Ok_inj in Hr. injection Hr as _ _ <-.
    pose proof (Inv_append_audit _ _ _ _ _ Ha HI). apply Within_append_audit in Ha; try done.
  - by apply open_session_Within.
  - apply (with_tx_cases fp db _ Within HW). intros b a db' Hr. unfold claim_tx in Hr.
    apply bind_Ok in Hr as (keys & Hk & Hr). apply bind_Ok in Hr as (e & _ & Hr).
    destruct e; [done|]. apply Ok_inj in Hr. by injection Hr as _ _ <-.
  - apply (with_tx_cases fp db _ Within HW). intros b a db' Hr. unfold record_audit_tx in Hr.
    apply bind_Ok in Hr as ([seq db1] & Ha & Hr). apply Ok_inj in Hr. injection Hr as _ _ <-.
    by apply Within_append_audit in Ha.
  - by apply shred_tenant_Within.
  - eapply Within_Rotated; [done|apply begin_rekey_Rotated|done].
  - eapply Within_Rotated; [done|by apply rekey_batch_Rotated|done].
Qed.

Lemma run_Within trace : Typed trace -> Inv (run empty_db trace) /\ Within (run empty_db trace).
Proof using Type.
  apply (run_ind (fun db => Inv db /\ Within db)); [split; [apply Inv_empty|apply Within_empty]|].
  intros fp now db op [HI HW] Ht. split; [by apply exec_Inv|by apply exec_Within].
Qed.
End runs.
