(* ===== verification/Guarantees.v ===== *)
(** * Guarantees of the custody store, over every run *)
From S2P Require Import Prelude Vocab Ids Payload Epitrope Origin View Chain Issue Budget Decision.
From S2P Require Import Lifecycle Records Store StoreAudit Invocation Transition Directory Claim.
From S2P Require Import Shred Recovery Invariant Steps StoreRun Runs.
From S2P Require Import Rekey RekeyInv Ceiling.
Local Open Scope Z_scope.

(** ** How one operation changes the invocations *)

(** Every record of [db] is still there, moved along the transition table, a
    terminal one untouched; only those in [S] moved. *)
Definition Advanced (S : InvocationId -> Prop) (db db' : Db) : Prop := forall i r,
  Db.invocations db !! i = Some r ->
  exists r' steps, Db.invocations db' !! i = Some r' /\
    Run (InvocationRecord.state r) steps (InvocationRecord.state r') /\
    InvocationRecord.reserved r' = InvocationRecord.reserved r /\
    (is_terminal (InvocationRecord.state r) = true -> r' = r) /\ (S i \/ r' = r).

Lemma Run_app s t1 s' t2 s'' : Run s t1 s' -> Run s' t2 s'' -> Run s (t1 ++ t2) s''.
Proof. induction 1; [done|]. intros. cbn. econstructor; eauto. Qed.

Lemma Advanced_refl S db : Advanced S db db.
Proof. intros i r Hi. exists r, []. split_and!; try done; [constructor|by right]. Qed.

Lemma Advanced_same S db db' : Db.invocations db' = Db.invocations db -> Advanced S db db'.
Proof. intros He i r Hi. exists r, []. rewrite He. split_and!; try done; [constructor|by right]. Qed.

Lemma Advanced_trans S db1 db2 db3 : Advanced S db1 db2 -> Advanced S db2 db3 -> Advanced S db1 db3.
Proof.
  intros H1 H2 i r Hi. destruct (H1 i r Hi) as (r1 & t1 & Hi1 & Hr1 & Hres1 & Ht1 & Hs1).
  destruct (H2 i r1 Hi1) as (r2 & t2 & Hi2 & Hr2 & Hres2 & Ht2 & Hs2).
  exists r2, (t1 ++ t2). split_and!; [done|by eapply Run_app|congruence| |naive_solver].
  intros Ht. rewrite Ht2; [by apply Ht1|]. by rewrite (Ht1 Ht).
Qed.

Lemma Advanced_Stepped db db' id r r' step : Stepped db db' id r r' step -> Advanced (eq id) db db'.
Proof.
  intros [Hf Hs Hi Hres _ _ _ _] i x Hx. rewrite Hi. destruct (decide (i = id)) as [->|Hne].
  - simplify_eq. exists r', [step]. rewrite lookup_insert_eq. split_and!; try done.
    + econstructor; [done|constructor].
    + intros Ht. by apply (terminal_no_step _ _ _ Ht) in Hs.
    + by left.
  - exists x, []. rewrite lookup_insert_ne by done. split_and!; try done; [constructor|by right].
Qed.

(** What is logged stays: every stub as it is, every tenant's audit entry and
    every idempotency binding with its content, whatever key it is sealed
    under. *)
Record Logged (db db' : Db) : Prop := {
  logged_stub : Db.audit_stub db ⊆ Db.audit_stub db';
  logged_audit : (Sealed.plain <$> Db.audit db) ⊆ (Sealed.plain <$> Db.audit db');
  logged_idem : (Sealed.plain <$> Db.idem db) ⊆ (Sealed.plain <$> Db.idem db');
}.
#[global] Instance Logged_preorder : PreOrder Logged.
Proof. split; [by split|]. intros a b c [] []. split; by etransitivity. Qed.
Lemma Logged_same db db' :
  Db.audit_stub db' = Db.audit_stub db -> Db.audit db' = Db.audit db -> Db.idem db' = Db.idem db -> Logged db db'.
Proof. intros Hs Ha Hi. split; by rewrite ?Hs, ?Ha, ?Hi. Qed.
Lemma plain_insert_fresh {K A} `{Countable K} (m : gmap K (Sealed A)) (k : K) (s : Sealed A) :
  m !! k = None -> (Sealed.plain <$> m) ⊆ (Sealed.plain <$> <[k := s]> m).
Proof. intros Hk. rewrite fmap_insert. apply insert_subseteq. by rewrite lookup_fmap, Hk. Qed.
Lemma plain_kept {K A} `{Countable K} (m m' : gmap K (Sealed A)) (k : K) (s : Sealed A) :
  (Sealed.plain <$> m) ⊆ (Sealed.plain <$> m') -> m !! k = Some s ->
  exists s', m' !! k = Some s' /\ Sealed.plain s' = Sealed.plain s.
Proof.
  intros Hm Hk. assert ((Sealed.plain <$> m') !! k = Some (Sealed.plain s)) as Hl.
  { eapply lookup_weaken; [|exact Hm]. by rewrite lookup_fmap, Hk. }
  rewrite lookup_fmap in Hl. destruct (m' !! k) as [s'|]; [|done]. injection Hl as Hl. eauto.
Qed.

Lemma append_audit_Logged now db entry seq db' :
  append_audit now db entry = Ok (seq, db') -> AuditLog db -> Logged db db'.
Proof.
  intros Ha Hc. pose proof (append_audit_log _ _ _ _ _ Ha Hc) as (_ & _ & Hn).
  apply append_audit_Ok in Ha as (_ & _ & ks & stub & rec & _ & _ & _ & _ & _ & _ & _ & ->).
  split; [by apply insert_subseteq|apply plain_insert_fresh|done].
  apply eq_None_not_Some. intros [x Hx]. destruct (al_entry _ Hc _ _ _ Hx) as (_ & _ & Hs).
  rewrite Hn in Hs. by destruct Hs.
Qed.

(** Both at once: what every operation does. *)
Definition Grew (S : InvocationId -> Prop) (db db' : Db) : Prop := Advanced S db db' /\ Logged db db'.

Lemma Grew_refl S db : Grew S db db.
Proof. split; [apply Advanced_refl|reflexivity]. Qed.
Lemma Grew_trans S db1 db2 db3 : Grew S db1 db2 -> Grew S db2 db3 -> Grew S db1 db3.
Proof. intros [A1 L1] [A2 L2]. split; [by eapply Advanced_trans|by etransitivity]. Qed.
Lemma Grew_weaken (S T : InvocationId -> Prop) db db' :
  (forall i, S i -> T i) -> Grew S db db' -> Grew T db db'.
Proof.
  intros HST [HA HL]. split; [|done]. intros i r Hi. destruct (HA i r Hi) as (r' & t & ? & ? & ? & ? & ?).
  exists r', t. naive_solver.
Qed.
Lemma Grew_append S now db entry seq db' :
  append_audit now db entry = Ok (seq, db') -> AuditLog db -> Grew S db db'.
Proof.
  intros Ha Hc. split; [|by eapply append_audit_Logged].
  apply append_audit_Ok in Ha as (_ & _ & ks & stub & rec & _ & _ & _ & _ & _ & _ & _ & ->). by apply Advanced_same.
Qed.
Lemma Grew_same S db db' :
  Db.invocations db' = Db.invocations db -> Db.audit_stub db' = Db.audit_stub db ->
  Db.audit db' = Db.audit db -> Db.idem db' = Db.idem db -> Grew S db db'.
Proof. intros Hi Hs Ha Hd. split; [by apply Advanced_same|by apply Logged_same]. Qed.

Lemma Grew_Rotated S db db' : Rotated db db' -> Grew S db db'.
Proof.
  intros [HP _]. destruct (sp_rest _ _ HP) as (_ & _ & _ & _ & Ei & _ & _ & Es).
  split; [by apply Advanced_same|]. split; [by rewrite Es|by rewrite (sp_audit _ _ HP)|by rewrite (sp_idem _ _ HP)].
Qed.

Lemma put_new_grant_staged db g db' :
  put_new_grant db g = Ok (true, db') -> db' = set_grants <[GrantRecord.id g := g]> db.
Proof.
  unfold put_new_grant. destruct (Db.grants db !! GrantRecord.id g); intros Hp.
  - apply bind_Ok in Hp as (_ & _ & Hp). by apply Ok_inj in Hp.
  - apply Ok_inj in Hp. by injection Hp as <-.
Qed.

Lemma issue_grant_Grew `{Hashes} S now db issue b a db' :
  Inv db -> OpTyped (Op.IssueGrant issue) ->
  issue_grant_tx now db issue = Ok (Committed b a db') -> Grew S db db'.
Proof.
  intros HI [Hm _] Hr. unfold issue_grant_tx in Hr.
  assert (forall d outcome state, AuditLog d -> Grew S db d ->
    issue_finish now d issue outcome state = Ok (Committed b a db') -> Grew S db db') as Hfin.
  { intros d outcome state HId HWd Hf. unfold issue_finish in Hf. apply bind_Ok in Hf as ([seq db1] & Ha & Hf).
    apply Ok_inj in Hf. injection Hf as _ _ <-. apply (Grew_append S) in Ha; [|done]. by eapply Grew_trans. }
  set (new := mbind _ _) in Hr. assert (new = Ok (Committed b a db') -> Grew S db db') as Hnew.
  { subst new. intros Hn. apply bind_Ok in Hn as (d & Hd%map_err_Ok & Hn).
    destruct d as [child| | |]; try (apply (Hfin db) in Hn; [done|apply HI|apply Grew_refl]).
    apply bind_Ok in Hn as ([staged db1] & Hp & Hn). destruct staged; [|done].
    apply put_new_grant_staged in Hp. subst db1. apply Hfin in Hn; [done|apply (AuditLog_same db); [done|apply HI]|by apply Grew_same]. }
  destruct (Db.grants db !! _); [|by apply Hnew]. case_in Hr; [|by apply Hnew].
  by apply bind_Ok in Hr as (_ & _ & Hr).
Qed.

Lemma get_sealed_None {A} ids (s : option (Sealed A)) : get_sealed ids s = Ok None -> s = None.
Proof. destruct s; [|done]. cbn. intros Hg. by apply bind_Ok in Hg as (? & _ & Hg). Qed.

Section guarantees.
Context `{Hashes}.

Lemma transition_Grew fp now db id step b apply :
  Inv db -> StageSound now db id step apply -> Grew (eq id) db (snd (transition fp now db id step b apply)).
Proof using Type.
  intros HI Hst. unfold transition. apply (with_tx_cases fp db _ (Grew _ db)); [apply Grew_refl|].
  intros b' a db' Ht. split.
  - apply transition_Stepped in Ht as (_ & r & r' & Hs & _); [|done|done]. by eapply Advanced_Stepped.
  - apply transition_tx_Ok in Ht as (r & next & r1 & db1 & db2 & Hr & Hn & Ha & Hf & Hd).
    injection Hf as _ _ ->. specialize (Hst r next r1 db1 Hr (ro_id _ _ (inv_records db HI id r Hr)) Hn Ha).
    assert (Logged db db1) as HL by (apply Logged_same; apply Hst).
    etransitivity; [|by apply (Logged_same db2)]. destruct (is_terminal next); [|by subst].
    destruct Hd as (t & seq & entry & _ & _ & _ & Hau). apply append_audit_Logged in Hau.
    + by etransitivity.
    + apply (AuditLog_same db); [split; by apply Hst|apply HI].
Qed.

Lemma recover_one_Grew fp now db report id action :
  Inv db -> Grew (fun _ => True) db (snd (recover_one fp now db report id action)).
Proof using Type.
  intros HI. assert (forall d step b apply, Inv d -> StageSound now d id step apply ->
    Grew (fun _ => True) d (snd (transition fp now d id step b apply))) as HG.
  { intros. eapply Grew_weaken; [done|]. by apply transition_Grew. }
  unfold recover_one. destruct report, action.
  - specialize (HG db _ Boundary.Terminal _ HI (release_sound now db id ReleaseReason.Abandoned HI)).
    fold (release fp now db id ReleaseReason.Abandoned) in HG. by destruct (release _ _ _ _ _).
  - specialize (HG db _ Boundary.Terminal _ HI (mark_unknown_effect_sound now db id HI)).
    fold (mark_unknown_effect fp now db id) in HG. by destruct (mark_unknown_effect _ _ _ _).
  - pose proof (HG db _ Boundary.Publish _ HI (publish_sound now db id HI)) as HG1.
    fold (publish fp now db id) in HG1. pose proof (publish_Inv fp now db id HI) as HI1.
    destruct (publish _ _ _ _) as [[st|e] db1]; [|done]. cbn [snd] in *.
    pose proof (HG db1 _ Boundary.Terminal _ HI1
      (settle_sound now db1 id SettleOutcome.Success HI1 ltac:(done))) as HG2.
    fold (settle fp now db1 id SettleOutcome.Success) in HG2. destruct (settle _ _ _ _ _).
    by eapply Grew_trans.
  - specialize (HG db _ Boundary.Terminal _ HI
      (settle_sound now db id SettleOutcome.Success HI ltac:(done))).
    fold (settle fp now db id SettleOutcome.Success) in HG. by destruct (settle _ _ _ _ _).
Qed.

Lemma recover_Grew fp now db scan : Inv db -> Grew (fun _ => True) db (snd (recover fp now db scan)).
Proof using Type.
  unfold recover. generalize (open_invocations scan). intros work. generalize report_default.
  revert db. induction work as [|[id action] work IH]; intros db report HI; [apply Grew_refl|].
  cbn [recover_loop]. pose proof (recover_one_Inv fp now db report id action HI) as HI'.
  pose proof (recover_one_Grew fp now db report id action HI) as HG.
  destruct (recover_one _ _ _ _ _ _) as [[r|e] db1]; [|done]. eapply Grew_trans; [exact HG|]. by apply IH.
Qed.

Lemma begin_Grew S fp now db intent : Inv db -> Grew S db (snd (begin fp now db intent)).
Proof using Type.
  intros HI. apply (with_tx_cases fp db _ (Grew _ db)); [apply Grew_refl|]. intros b a db' Hb. unfold begin_tx in Hb.
  assert (forall failure, refuse now db intent failure = Ok (Committed b a db') -> Grew S db db') as Hrefuse.
  { intros f Hr. unfold refuse in Hr. apply bind_Ok in Hr as ([seq db1] & Ha & Hr).
    apply Ok_inj in Hr. injection Hr as _ _ <-. eapply Grew_append in Ha; [done|apply HI]. }
  apply bind_Ok in Hb as (keys & Hk & Hb). apply bind_Ok in Hb as (idem & Hg & Hb).
  destruct idem as [idem|].
  { unfold replay in Hb. case_in Hb; [done|]. by apply bind_Ok in Hb as (r & _ & Hb). }
  apply get_sealed_None in Hg.
  apply bind_Ok in Hb as ([] & Hn%ensure_Ok & Hb). apply bool_decide_eq_true in Hn.
  apply bind_Ok in Hb as (d & Hd%map_err_Ok & Hb).
  destruct d as [chain res|code|dim|]; try (by apply Hrefuse in Hb).
  destruct (session_owner_shredded _ _); [by apply Hrefuse in Hb|].
  unfold persist, intent_record, debit_reservation in Hb.
  apply bind_Ok in Hb as ([r db2] & Hi & Hb). apply Ok_inj in Hb. injection Hb as _ _ <-.
  apply bind_Ok in Hi as ([ls db1] & Hdb & Hi). apply Ok_inj in Hi. injection Hi as <- <-.
  apply debit_all_moved in Hdb as [[Hdb _] _]. assert (exists f, db1 = set_ledgers f db) as [f ->] by eauto.
  split; [|split; [done..|by apply plain_insert_fresh]].
  intros i x Hx. exists x, []. split_and!; try done; [|constructor|by right].
  cbn. rewrite lookup_insert_ne; [done|]. intros <-. unfold invocation_record in Hn. congruence.
Qed.

(** The invocations an operation may move. *)
Definition moves (op : Op) (id : InvocationId) : Prop :=
  match op with
  | Op.Dispatch i | Op.CompleteTransfer i _ | Op.Publish i | Op.Settle i _ | Op.Release i _
  | Op.MarkUnknownEffect i => i = id
  | Op.Recover _ => True
  | _ => False
  end.
Lemma exec_Grew fp now db op : Inv db -> OpTyped op -> Grew (moves op) db (exec fp now db op).
Proof using Type.
  intros HI Ht. destruct op; cbn [exec].
  - by apply begin_Grew.
  - apply transition_Grew; try done. by apply dispatch_sound.
  - apply transition_Grew; try done. by apply complete_transfer_sound.
  - apply transition_Grew; try done. by apply publish_sound.
  - apply transition_Grew; try done. apply settle_sound; [done|]. by intros f c ->.
  - apply transition_Grew; try done. by apply release_sound.
  - apply transition_Grew; try done. by apply mark_unknown_effect_sound.
  - by apply recover_Grew.
  - apply (with_tx_cases fp db _ (Grew _ db)); [apply Grew_refl|]. intros b a db' Hr. unfold register_tenant_tx in Hr.
    destruct (Db.tenants db !! _); [by apply bind_Ok in Hr as (_ & _ & Hr)|].
    apply bind_Ok in Hr as (_ & _ & Hr). apply bind_Ok in Hr as (_ & _ & Hr).
    apply Ok_inj in Hr. injection Hr as _ _ <-. by apply Grew_same.
  - apply (with_tx_cases fp db _ (Grew _ db)); [apply Grew_refl|]. intros b a db' Hr. unfold install_root_grant_tx in Hr.
    apply bind_Ok in Hr as (g & _ & Hr). apply bind_Ok in Hr as (_ & _ & Hr).
    apply bind_Ok in Hr as ([staged db1] & Hp & Hr). apply Ok_inj in Hr. destruct staged; [|done].
    injection Hr as _ _ <-. apply put_new_grant_staged in Hp. subst db1. by apply Grew_same.
  - apply (with_tx_cases fp db _ (Grew _ db)); [apply Grew_refl|]. intros b a db' Hr.
    by apply (issue_grant_Grew _ now db issue b a).
  - apply (with_tx_cases fp db _ (Grew _ db)); [apply Grew_refl|]. intros b a db' Hr. unfold revoke_grant_tx in Hr.
    destruct (Db.grants db !! _); [|done]. destruct (Db.revocations db !! _); [done|].
    apply bind_Ok in Hr as ([seq db1] & Ha & Hr). apply Ok_inj in Hr. injection Hr as _ _ <-.
    eapply Grew_append in Ha; [|apply HI]. eapply Grew_trans; [exact Ha|]. by apply Grew_same.
  - apply (with_tx_cases fp db _ (Grew _ db)); [apply Grew_refl|]. intros b a db' Hr. unfold open_session_tx in Hr.
    apply bind_Ok in Hr as ([] & Hown & Hr). case_in Hr; [done|].
    destruct (Db.sessions db !! _); [by apply bind_Ok in Hr as (_ & _ & Hr)|].
    apply bind_Ok in Hr as ([seq db1] & Ha & Hr). apply Ok_inj in Hr. injection Hr as _ _ <-.
    eapply Grew_append in Ha; [|apply (AuditLog_same db); [done|apply HI]].
    eapply Grew_trans; [|exact Ha]. by apply Grew_same.
  - apply (with_tx_cases fp db _ (Grew _ db)); [apply Grew_refl|]. intros b a db' Hr. unfold claim_tx in Hr.
    apply bind_Ok in Hr as (keys & Hk & Hr). apply bind_Ok in Hr as (e & Hg & Hr).
    destruct e; [done|]. apply get_sealed_None in Hg. apply Ok_inj in Hr. injection Hr as _ _ <-.
    split; [by apply Advanced_same|split; [done..|by apply plain_insert_fresh]].
  - apply (with_tx_cases fp db _ (Grew _ db)); [apply Grew_refl|]. intros b a db' Hr. unfold record_audit_tx in Hr.
    apply bind_Ok in Hr as ([seq db1] & Ha & Hr). apply Ok_inj in Hr. injection Hr as _ _ <-.
    eapply Grew_append in Ha; [done|apply HI].
  - apply (with_tx_cases fp db _ (Grew _ db)); [apply Grew_refl|]. intros b a db' Hs.
    apply shred_shape in Hs as (_ & _ & _ & dk & rk & _ & _ & _ & _ & ->). by apply Grew_same.
  - apply Grew_Rotated, begin_rekey_Rotated.
  - by apply Grew_Rotated, rekey_batch_Rotated.
Qed.
(** A whole run, from any store with the invariant. *)
Lemma run_Grew db trace : Inv db -> Typed trace -> Grew (fun _ => True) db (run db trace).
Proof using Type.
  intros HI Ht. apply (run_ind (fun d => Inv d /\ Grew (fun _ => True) db d)); [split; [done|apply Grew_refl]| |done].
  intros fp now d op [HId HG] Ho. split; [by apply exec_Inv|]. eapply Grew_trans; [exact HG|].
  eapply Grew_weaken; [done|]. by apply exec_Grew.
Qed.
End guarantees.

(** ** Properties *)
Section properties.
Context `{Hashes}.

(** C1. Conservation of budget. In every run of the store, whatever the
    operations, their order and the crashes injected at commits, every ledger
    (grant, session or tenant) holds on every dimension exactly the sum of
    what the invocations that debited it hold: the reservation of each open
    one, the final debit of each ended one; and that sum is never negative
    and never exceeds the machine width. *)
Theorem ledgers_balanced (trace : list Event) (l : LedgerRef) (d : Dimension) :
  Typed trace ->
  let db := run empty_db trace in
  cost_get (view_ledger db l) d = map_sum (share l d) (Db.invocations db) /\
  0 <= cost_get (view_ledger db l) d <= u64_max.
Proof using Type.
  intros HI%run_Inv db. split; [by apply HI|]. split; [|by apply HI].
  apply Balanced_nonneg; [apply HI|by apply RecordsOk_HeldOk, HI].
Qed.

(** C7. No overspending. In every run, no ledger ever exceeds a ceiling its
    grant, session or tenant record sets, on any dimension: reservations are
    checked inside the writing transaction, so concurrent calls cannot spend
    the same remaining budget twice, and settlements never add. *)
Theorem no_ledger_over_ceiling (trace : list Event) (l : LedgerRef) (d : Dimension)
    (c : Ceilings) (z : Z) :
  Typed trace ->
  let db := run empty_db trace in
  ledger_ceilings db l = Some c -> ceilings_get c d = Some z ->
  cost_get (view_ledger db l) d <= z.
Proof using Type.
  intros [_ HW]%run_Within db Hc Hz. specialize (HW l d). fold db in HW. rewrite Hc in HW. by apply HW.
Qed.

(** C20. Every invocation follows the transition table, and an ended one is
    final: any operation, of this invocation or of any other, with or without
    a crash, moves an existing record only along a run of legal steps, keeps
    its reservation, never removes it, and leaves a terminal record exactly
    as it was. The audit log keeps what it had: every stub unchanged, and
    every tenant's entry at its place with its content, through rotations of
    the key it is sealed under and through shredding. *)
Theorem invocations_follow_table (trace : list Event) (fp : Failpoint) (now : Timestamp) (op : Op)
    (i : InvocationId) (r : InvocationRecord) :
  Typed trace -> OpTyped op ->
  let db := run empty_db trace in
  let db' := exec fp now db op in
  Db.invocations db !! i = Some r ->
  (exists r' steps, Db.invocations db' !! i = Some r' /\
    Run (InvocationRecord.state r) steps (InvocationRecord.state r') /\
    InvocationRecord.reserved r' = InvocationRecord.reserved r /\
    (is_terminal (InvocationRecord.state r) = true -> r' = r)) /\
  (forall s stub, Db.audit_stub db !! s = Some stub -> Db.audit_stub db' !! s = Some stub) /\
  (forall t s entry, Db.audit db !! (t, s) = Some entry ->
     exists entry', Db.audit db' !! (t, s) = Some entry' /\ Sealed.plain entry' = Sealed.plain entry).
Proof using Type.
  intros HI%run_Inv Ht db db' Hi. destruct (exec_Grew fp now db op HI Ht) as [HA [HS HE _]].
  destruct (HA i r Hi) as (r' & steps & ? & ? & ? & ? & _). split_and!; [by exists r', steps| |].
  - intros s stub Hs. by eapply lookup_weaken.
  - intros t s entry. by apply plain_kept.
Qed.

(** Settled exactly once. Once an invocation is in a terminal state every
    further lifecycle step on it (dispatch, transfer, publish, settle,
    release, unknown effect) is refused as an illegal transition and leaves
    the whole store, ledgers included, untouched. *)
Theorem settled_exactly_once (fp : Failpoint) (now : Timestamp) (db : Db) (i : InvocationId)
    (r : InvocationRecord) (transfer : Transfer) (outcome : SettleOutcome) (reason : ReleaseReason) :
  Db.invocations db !! i = Some r -> is_terminal (InvocationRecord.state r) = true ->
  let refused step := (Err (StoreError.Authz (Error.IllegalTransition (InvocationRecord.state r) step)), db) in
  dispatch fp now db i = refused Step.Dispatch /\
  complete_transfer fp now db i transfer = refused Step.CompleteTransfer /\
  publish fp now db i = refused Step.Publish /\
  settle fp now db i outcome = refused Step.Settle /\
  release fp now db i reason = refused (Step.Release reason) /\
  mark_unknown_effect fp now db i = refused Step.MarkUnknownEffect.
Proof using Type.
  intros Hi Ht refused.
  assert (forall step b apply, transition fp now db i step b apply = refused step) as Hall.
  { intros step b apply. unfold transition, transition_tx, existing_invocation, invocation_record.
    rewrite Hi. cbn [ok_or mbind result_bind]. subst refused.
    by destruct (InvocationRecord.state r), step. }
  split_and!; apply Hall.
Qed.

(** Recovery without crashes, from any store with the invariant. *)
Lemma recover_ends db now scan : Inv db -> Scan db scan -> last_seq db + Z.of_nat (length scan) <= u64_max ->
  exists report db', recover NoFailpoints now db scan = (Ok report, db') /\ Inv db' /\
    dom (Db.invocations db') = dom (Db.invocations db) /\
    forall i r, Db.invocations db !! i = Some r -> exists r', Db.invocations db' !! i = Some r' /\
      InvocationRecord.state r' = recovered_state (InvocationRecord.state r) /\
      is_terminal (InvocationRecord.state r') = true /\
      (is_terminal (InvocationRecord.state r) = true -> r' = r).
Proof using Type.
  intros HI Hs Hl. pose proof (open_invocations_length scan) as Hlen.
  destruct (recover_loop_total now (open_invocations scan) db report_default HI) as
    (rep & db' & Hrec & HI' & Hdom & Hpost); [by eapply open_invocations_NoDup| |lia|].
  { intros id a (r & Hr & <- & Ha)%open_invocations_elem. exists r. split; [|done]. by apply (Scan_elem db scan). }
  exists rep, db'. split_and!; [done|done|done|].
  intros i r Hi. destruct (Hpost i r Hi) as (r' & Hr' & Hin & Hout). exists r'. split; [done|].
    pose proof (inv_records db HI i r Hi) as Hro.
    assert (recovery_action (InvocationRecord.state r) = None -> ~ i ∈ (open_invocations scan).*1) as Hclosed.
    { intros Ha ([j a] & Hj & (x & Hx & Hid & Hax)%open_invocations_elem)%list_elem_of_fmap. cbn in Hj. subst j.
      apply (Scan_elem db scan x HI Hs) in Hx. rewrite Hid in Hx. congruence. }
    assert (InvocationRecord.state r' = recovered_state (InvocationRecord.state r)) as Hst.
    { destruct (recovery_action (InvocationRecord.state r)) as [a|] eqn:Ha.
      - apply Hin, list_elem_of_fmap. exists (i, a). split; [done|]. apply open_invocations_elem.
        exists r. split_and!; [|apply Hro|done]. apply (Scan_elem db scan); try done. by rewrite (ro_id _ _ Hro).
      - rewrite Hout by (by apply Hclosed). destruct (InvocationRecord.state r); done. }
    split; [done|]. rewrite Hst. pose proof (ro_state _ _ Hro) as Hso. unfold StateOk in Hso.
    split; [by destruct (InvocationRecord.state r)|].
    intros Ht. apply Hout, Hclosed. by destruct (InvocationRecord.state r).
Qed.

(** C6. Recovery completes. From the store any run leaves, recovery without
    crashes succeeds whatever order it visits the invocations in: it takes
    every open invocation to its terminal state (B1 released, B2 unknown
    effect, B3 and B4 settled), leaves every ended one untouched, adds and
    removes none, and a second recovery finds nothing to do and changes
    nothing. The bound on the audit sequence says the log has room. *)
Theorem recover_completes (trace : list Event) (now now' : Timestamp) (fp' : Failpoint)
    (scan : list InvocationRecord) :
  Typed trace ->
  let db := run empty_db trace in
  Scan db scan -> last_seq db + Z.of_nat (length scan) <= u64_max ->
  exists report db', recover NoFailpoints now db scan = (Ok report, db') /\
    dom (Db.invocations db') = dom (Db.invocations db) /\
    (forall i r, Db.invocations db !! i = Some r -> exists r', Db.invocations db' !! i = Some r' /\
       InvocationRecord.state r' = recovered_state (InvocationRecord.state r) /\
       is_terminal (InvocationRecord.state r') = true /\
       (is_terminal (InvocationRecord.state r) = true -> r' = r)) /\
    forall scan', Scan db' scan' -> recover fp' now' db' scan' = (Ok report_default, db').
Proof using Type.
  intros HI%run_Inv db Hs Hl. fold db in HI. destruct (recover_ends db now scan HI Hs Hl) as (rep & db' & Hrec & HI' & Hdom & Hall).
  exists rep, db'. split_and!; [done|done|done|]. intros scan' Hs'. unfold recover.
  assert (open_invocations scan' = []) as ->; [|done].
  destruct (open_invocations scan') as [|[i a] l] eqn:E; [done|].
  assert ((i, a) ∈ open_invocations scan') as Hin by (rewrite E; left).
  apply open_invocations_elem in Hin as (x & Hx & Hid & Ha). apply (Scan_elem db' scan' x HI' Hs') in Hx.
  assert (exists r, Db.invocations db !! InvocationRecord.id x = Some r) as [r Hr].
  { apply elem_of_dom. rewrite <- Hdom. apply elem_of_dom. eauto. }
  destruct (Hall _ r Hr) as (r' & Hr' & _ & Ht & _). assert (r' = x) as -> by congruence.
  by destruct (InvocationRecord.state x).
Qed.

(** Crash atomicity. A crash injected at any boundary leaves the store
    either exactly as it was (the transaction was not committed) or exactly
    as the operation without a crash leaves it (the transaction is durable
    and only the reply is lost): never a part of the operation's writes. *)
Theorem crash_atomic (fp : Failpoint) (now : Timestamp) (db : Db) (op : Op) :
  (forall scan, op <> Op.Recover scan) ->
  exec fp now db op = db \/ exec fp now db op = exec NoFailpoints now db op.
Proof using Type.
  intros Hop.
  assert (forall A (body : result StoreError (Finish A)),
    snd (with_tx fp db body) = db \/ snd (with_tx fp db body) = snd (with_tx NoFailpoints db body)) as Htx.
  { intros A body. unfold with_tx, commit. destruct body as [[a|[b|] a db']|e]; auto.
    destruct (Failpoint.before_commit fp b), (Failpoint.after_commit fp b); auto. }
  destruct op; cbn [exec]; try (by apply Htx). by destruct (Hop scan).
Qed.

(** The audit log is contiguous: in every run the sequences in use are
    exactly [1 .. n] with no gap. *)
Theorem audit_contiguous (trace : list Event) (seq : AuditSeq) :
  Typed trace ->
  let db := run empty_db trace in
  is_Some (Db.audit_stub db !! seq) <-> 1 <= seq <= last_seq db.
Proof using Type. intros HI%run_Inv db. apply (al_contiguous db), HI. Qed.
End properties.
