(* ===== verification/Idempotency.v ===== *)
(** * Outcomes and idempotency of B1 and of claims *)
From S2P Require Import Prelude Vocab Ids Payload Epitrope Origin View Chain Issue Budget Decision.
From S2P Require Import Lifecycle Records Store StoreAudit Invocation Transition Invariant Claim.
From S2P Require Import StoreRun Runs Guarantees.
Local Open Scope Z_scope.

Section idempotency.
Context `{Hashes}.

Definition idem_slot (intent : Intent) : TenantId * Capability * IdempotencyKey :=
  (AuthzRequest.tenant (Intent.authz intent), AuthzRequest.capability (Intent.authz intent),
   Intent.idempotency_key intent).

(** What was sealed under the active key opens under it. *)
Lemma open_active {A} keys (a : A) ks :
  open_sealed (TenantKeyring.key_id keys :: ks) (seal_active keys a) = Ok a.
Proof using Type. unfold open_sealed. rewrite bool_decide_eq_true_2; [done|]. cbn. left. Qed.

(** The four ways the B1 transaction ends. *)
Lemma begin_tx_inv now db intent f :
  begin_tx now db intent = Ok f ->
  exists keys, tenant_keys db (AuthzRequest.tenant (Intent.authz intent)) = Ok keys /\
  ((exists s idem, Db.idem db !! idem_slot intent = Some s /\ open_sealed (openers keys) s = Ok idem /\
      replay db intent idem = Ok f) \/
   (Db.idem db !! idem_slot intent = None /\
    Db.invocations db !! Intent.invocation intent = None /\
    ((exists failure, refuse now db intent failure = Ok f /\
        ((exists d, authorize db (Intent.authz intent) now = Ok d /\ decision_refusal d = Some failure) \/
         (session_owner_shredded db (AuthzRequest.session (Intent.authz intent)) = true /\
          failure = Failure.NotFoundOrDenied))) \/
     (exists chain reservation,
        authorize db (Intent.authz intent) now = Ok (Decision.Allowed chain reservation) /\
        session_owner_shredded db (AuthzRequest.session (Intent.authz intent)) = false /\
        persist now db keys intent chain reservation = Ok f)))).
Proof using Type.
  unfold begin_tx. intros Hb. apply bind_Ok in Hb as (keys & Hk & Hb). exists keys. split; [done|].
  apply bind_Ok in Hb as (idem & Hi & Hb). fold (idem_slot intent) in Hi. unfold get_sealed in Hi.
  destruct (Db.idem db !! idem_slot intent) as [s|] eqn:Hs.
  { apply bind_Ok in Hi as (rec & Ho & Hi). apply Ok_inj in Hi. subst idem. left. eauto. }
  apply Ok_inj in Hi. subst idem. right. apply bind_Ok in Hb as ([] & Hn%ensure_Ok & Hb).
  apply bool_decide_eq_true in Hn. split; [done|]. split; [done|].
  apply bind_Ok in Hb as (d & Hd%map_err_Ok & Hb).
  destruct d as [chain res|code|dim|]; cbn [decision_refusal default] in Hb.
  - destruct (session_owner_shredded _ _) eqn:Hsh; [left|right; eauto 6].
    eexists. split; [exact Hb|by right].
  - left. eexists. split; [exact Hb|]. left. eauto.
  - left. eexists. split; [exact Hb|]. left. eauto.
  - left. eexists. split; [exact Hb|]. left. eauto.
Qed.

Lemma persist_inv now db keys intent chain reservation f :
  persist now db keys intent chain reservation = Ok f ->
  exists r g, f = Committed (Some Boundary.PersistIntent) (Begin.Persisted (status_of r))
      (set_idem <[idem_slot intent := seal_active keys
         (IdemRecord.mk (Intent.invocation intent) (request_binding intent))]>
       (put_invocation r (set_ledgers g db))) /\
    InvocationRecord.id r = Intent.invocation intent /\
    InvocationRecord.state r = InvocationState.IntentPersisted /\
    InvocationRecord.tenant r = AuthzRequest.tenant (Intent.authz intent) /\
    InvocationRecord.session r = AuthzRequest.session (Intent.authz intent) /\
    InvocationRecord.grant_chain r = chain /\
    InvocationRecord.reserved r = ReservationPlan.cost reservation.
Proof using Type.
  unfold persist, intent_record, debit_reservation. intros Hp.
  apply bind_Ok in Hp as ([r db2] & Hi & Hp). apply Ok_inj in Hp.
  apply bind_Ok in Hi as ([ls db1] & Hd & Hi). apply Ok_inj in Hi. injection Hi as Hr <-.
  apply debit_all_moved in Hd as [[Hdb _] _]. assert (exists g, db1 = set_ledgers g db) as [g ->] by eauto.
  exists r, g. split; [by subst f|]. by subst r.
Qed.

Lemma replay_Dropped db intent idem f : replay db intent idem = Ok f ->
  exists a, f = Dropped a /\ ((a = Begin.Conflict /\ IdemRecord.request_binding idem <> request_binding intent) \/
    exists r, Db.invocations db !! IdemRecord.invocation idem = Some r /\
      a = Begin.Replayed (status_of r) /\ IdemRecord.request_binding idem = request_binding intent).
Proof using Type.
  unfold replay. case_bool_decide as Hb; cbn [negb]; intros Hr; [|apply Ok_inj in Hr; eauto 6].
  apply bind_Ok in Hr as (r & Hl%ok_or_Ok & Hr). apply Ok_inj in Hr. eexists. split; [by subst f|]. eauto.
Qed.

(** What each outcome of [begin] wrote. A persisted call was authorized
    on this very store and its intent record reserves exactly the declared
    cost under the authorizing chain; a refused one wrote one audit entry
    (one entry and its stub at the next sequence) and nothing else; a replay
    and a conflict wrote nothing at all, the first exactly for a stored key
    with the same binding, the second for one with another. *)
Theorem begin_outcomes (fp : Failpoint) (now : Timestamp) (db db' : Db) (intent : Intent) (out : Begin) :
  begin fp now db intent = (Ok out, db') ->
  match out with
  | Begin.Persisted status =>
      exists chain reservation r,
        authorize db (Intent.authz intent) now = Ok (Decision.Allowed chain reservation) /\
        Db.invocations db !! Intent.invocation intent = None /\
        Db.invocations db' = <[Intent.invocation intent := r]> (Db.invocations db) /\
        status = status_of r /\ InvocationRecord.state r = InvocationState.IntentPersisted /\
        InvocationRecord.grant_chain r = chain /\
        InvocationRecord.reserved r = AuthzRequest.declared (Intent.authz intent) /\
        Db.audit_stub db' = Db.audit_stub db
  | Begin.Refused failure seq =>
      seq = last_seq db + 1 /\
      (exists entry stub, db' = set_audit <[(AuthzRequest.tenant (Intent.authz intent), seq) := entry]>
        (set_audit_stub <[seq := stub]> db)) /\
      ((exists d, authorize db (Intent.authz intent) now = Ok d /\ decision_refusal d = Some failure) \/
       session_owner_shredded db (AuthzRequest.session (Intent.authz intent)) = true)
  | Begin.Replayed status =>
      db' = db /\ exists s r, Db.idem db !! idem_slot intent = Some s /\
        IdemRecord.request_binding (Sealed.plain s) = request_binding intent /\
        Db.invocations db !! IdemRecord.invocation (Sealed.plain s) = Some r /\ status = status_of r
  | Begin.Conflict =>
      db' = db /\ exists s, Db.idem db !! idem_slot intent = Some s /\
        IdemRecord.request_binding (Sealed.plain s) <> request_binding intent
  end.
Proof using Type.
  unfold begin, with_tx. destruct (begin_tx now db intent) as [f|e] eqn:Hb; [|done].
  apply begin_tx_inv in Hb as (keys & Hk & [(s & idem & Hs & Ho & Hr)|(Hs & Hn & [(failure & Hr & Hwhy)|Hp])]).
  - apply replay_Dropped in Hr as (a & -> & Ha). intros [= <- <-].
    unfold open_sealed in Ho. case_bool_decide; [|done]. apply Ok_inj in Ho. subst idem.
    destruct Ha as [[-> Hne]|(r & Hr & -> & Hbind)]; (split; [done|]); [by exists s|by exists s, r].
  - unfold refuse in Hr. apply bind_Ok in Hr as ([seq db1] & Ha & Hr). apply Ok_inj in Hr. subst f.
    cbn [commit]. intros [= <- <-].
    apply append_audit_Ok in Ha as (-> & _ & ks & stub & rec & _ & _ & _ & _ & _ & _ & _ & ->).
    split; [done|]. split; [eauto|]. destruct Hwhy as [?|[? _]]; auto.
  - destruct Hp as (chain & res & Hauth & _ & Hp).
    apply persist_inv in Hp as (r & g & -> & Hid & Hst & _ & _ & Hch & Hres). unfold commit.
    destruct (Failpoint.before_commit fp _); [done|]. destruct (Failpoint.after_commit fp _); [done|].
    intros [= <- <-]. exists chain, res, r.
    apply authorize_inv in Hauth as Hinv. destruct Hinv as (_ & ch & deb & lds & _ & _ & _ & _ & _ & [-> _]%plan_reservation_Fits & _).
    split_and!; try done. cbn [Db.invocations set_idem set_invocations put_invocation set_ledgers]. by rewrite Hid.
Qed.

(** What a committed begin left behind: the invocation, and the key bound to
    it. *)
Lemma begin_committed now db intent b status db' :
  begin_tx now db intent = Ok (Committed b (Begin.Persisted status) db') ->
  (exists r, Db.invocations db' !! Intent.invocation intent = Some r /\
     InvocationRecord.reserved r = AuthzRequest.declared (Intent.authz intent)) /\
  (Sealed.plain <$> Db.idem db') !! idem_slot intent =
    Some (IdemRecord.mk (Intent.invocation intent) (request_binding intent)).
Proof using Type.
  intros Hb.
  apply begin_tx_inv in Hb as (keys & Hk & [(s & idem & Hs & Ho & Hr)|(Hs & Hn & [(failure & Hr & Hwhy)|Hp])]).
  - by apply replay_Dropped in Hr as (a & Hf & _).
  - unfold refuse in Hr. by apply bind_Ok in Hr as ([seq db1] & Ha & Hr).
  - destruct Hp as (chain & res & Hauth & _ & Hp).
    apply persist_inv in Hp as (r & g & Hf & Hid & _ & _ & _ & _ & Hres). injection Hf as _ _ ->.
    apply authorize_inv in Hauth as (_ & ch & deb & lds & _ & _ & _ & _ & _ & [-> _]%plan_reservation_Fits & _).
    cbn [Db.idem Db.invocations set_idem set_invocations put_invocation]. split.
    + exists r. by rewrite Hid, lookup_insert_eq.
    + by rewrite lookup_fmap, lookup_insert_eq.
Qed.

(** What [begin] answers for a bound key, in a store with the invariant. *)
Lemma begin_bound fp now db intent s r : Inv db ->
  Db.idem db !! idem_slot intent = Some s -> Db.invocations db !! IdemRecord.invocation (Sealed.plain s) = Some r ->
  begin fp now db intent =
    (match Db.tombstones db !! AuthzRequest.tenant (Intent.authz intent) with
     | Some _ => Err (StoreError.TenantShredded (AuthzRequest.tenant (Intent.authz intent)))
     | None => Ok (if bool_decide (IdemRecord.request_binding (Sealed.plain s) = request_binding intent)
                   then Begin.Replayed (status_of r) else Begin.Conflict)
     end, db).
Proof using Type.
  intros HI Hs Hr. set (t := AuthzRequest.tenant (Intent.authz intent)).
  pose proof (so_idem _ (inv_seals db HI) _ _ Hs) as Hk. cbn [idem_slot fst] in Hk. fold t in Hk.
  unfold idem_slot in Hs. fold t in Hs. unfold begin, with_tx, begin_tx. fold t.
  destruct (Db.tombstones db !! t) as [tb|] eqn:Etb.
  - assert (Db.tenants db !! t = None) as Hno.
    { apply eq_None_not_Some. intros [rec Ht]. pose proof (to_tomb _ _ _ (reg_tenant db (inv_registry db HI) t rec Ht)).
      congruence. }
    unfold tenant_keys, key_ids, absent_tenant. by rewrite Hno, Etb.
  - destruct Hk as [Hx|(rec & Ht & Hid)]; [rewrite Etb in Hx; by destruct Hx|].
    pose proof (Registry_keys db t rec (inv_registry db HI) Ht) as Hkeys. rewrite Hkeys. cbn [mbind result_bind].
    rewrite Hs. unfold get_sealed. rewrite open_sealed_Ok.
    + cbn [mbind result_bind]. unfold replay, invocation_record. rewrite Hr.
      case_bool_decide; by cbn [negb mbind result_bind ok_or].
    + eapply KeyOk_openers; [apply HI|right; exists rec; split; [exact Ht|exact Hid]|exact Hkeys].
Qed.

(** C23. Idempotent begin. After a begin committed in any run (even when a
    crash after the commit lost the reply), and through every later run of
    the store, settlements, recoveries, key rotations and shredding included,
    the same key by the same tenant for the same capability never persists or
    charges again: a request with the same binding gets the status the stored
    invocation has by then, one with another binding a conflict, a shredded
    tenant's an error, and in every case the store does not change. The first
    attempt's invocation is still there with its reservation. *)
Theorem begin_idempotent (trace later : list Event) (fp' : Failpoint) (now now' : Timestamp) (db' : Db)
    (intent intent' : Intent) (b : option Boundary) (status : InvocationStatus) :
  Typed trace -> cost_wf (AuthzRequest.declared (Intent.authz intent)) ->
  begin_tx now (run empty_db trace) intent = Ok (Committed b (Begin.Persisted status) db') ->
  Typed later -> idem_slot intent' = idem_slot intent ->
  let db2 := run db' later in
  let tenant := AuthzRequest.tenant (Intent.authz intent) in
  exists r, Db.invocations db2 !! Intent.invocation intent = Some r /\
    InvocationRecord.reserved r = AuthzRequest.declared (Intent.authz intent) /\
    begin fp' now' db2 intent' =
      (match Db.tombstones db2 !! tenant with
       | Some _ => Err (StoreError.TenantShredded tenant)
       | None => Ok (if bool_decide (request_binding intent = request_binding intent')
                     then Begin.Replayed (status_of r) else Begin.Conflict)
       end, db2).
Proof using Type.
  intros HI%run_Inv Hwf Hb Hl Hslot db2 tenant.
  assert (Inv db') as HI'.
  { pose proof (begin_Inv NoFailpoints now _ intent HI Hwf) as HB. unfold begin, with_tx in HB.
    rewrite Hb in HB. by destruct b. }
  apply begin_committed in Hb as ((r0 & Hr0 & Hres) & Hidem).
  destruct (run_Grew db' later HI' Hl) as [HA [_ _ HD]]. fold db2 in HA, HD.
  destruct (HA _ _ Hr0) as (r & _ & Hr & _ & Hres' & _). exists r. split_and!; [done|congruence|].
  eapply lookup_weaken in Hidem; [|exact HD]. rewrite lookup_fmap in Hidem.
  destruct (Db.idem db2 !! idem_slot intent) as [s|] eqn:Hs; [|done]. injection Hidem as Hp.
  pose proof (run_Inv_from db' later HI' Hl) as HI2. fold db2 in HI2. rewrite <- Hslot in Hs.
  assert (AuthzRequest.tenant (Intent.authz intent') = tenant) as Ht by (by injection Hslot).
  rewrite (begin_bound fp' now' db2 intent' s r HI2 Hs) by (by rewrite Hp). by rewrite Hp, Ht.
Qed.

(** Idempotent claims. A fresh claim binds the key once: claiming again
    (by [claim], or asking with [claimed]) answers with the first attempt's
    invocation for the same binding and a conflict for another, and writes
    nothing. *)
Theorem claim_idempotent (fp fp' : Failpoint) (db db' : Db) (c c' : IdemClaim) (invocation : InvocationId) :
  claim fp db c = (Ok (Claimed.Fresh invocation), db') ->
  claim_slot c' = claim_slot c ->
  let answer := if bool_decide (claim_binding c = claim_binding c')
                then Claimed.Replay (IdemClaim.invocation c) else Claimed.Conflict in
  invocation = IdemClaim.invocation c /\
  claim fp' db' c' = (Ok answer, db') /\ claimed db' c' = Ok (Some answer).
Proof using Type.
  intros Hc Hslot answer. unfold claim, with_tx, claim_tx in Hc.
  destruct (tenant_keys db (IdemClaim.tenant c)) as [keys|] eqn:Hk; cbn [mbind result_bind] in Hc; [|done].
  destruct (get_sealed _ _) as [e|] eqn:Hg; cbn [mbind result_bind] in Hc; [|done].
  destruct e as [e|]; [unfold compare in Hc; case_bool_decide; congruence|].
  cbn [commit] in Hc. injection Hc as <- <-. split; [done|].
  assert (IdemClaim.tenant c' = IdemClaim.tenant c) as Ht by (unfold claim_slot in Hslot; congruence).
  unfold claim, claimed, claim_tx. rewrite Ht, Hslot.
  change (tenant_keys (set_idem _ db) ?t) with (tenant_keys db t). rewrite Hk. cbn [mbind result_bind].
  cbn [Db.idem set_idem]. rewrite lookup_insert_eq. unfold get_sealed. by rewrite open_active.
Qed.

(** C40. While a tenant's data key rotates, an idempotency entry still sealed
    under the retiring key answers [begin] but not [claim]: [claim] and
    [claimed] offer only the active key, so the lookup fails with an unknown
    key id instead of a replay or a conflict, until the entry is resealed. *)
Theorem claim_fails_during_rotation (fp : Failpoint) (db : Db) (c : IdemClaim)
    (active retiring : Z) (entry : IdemRecord) :
  tenant_keys db (IdemClaim.tenant c) = Ok (TenantKeyring.mk active (Some retiring)) ->
  active <> retiring ->
  Db.idem db !! claim_slot c = Some (Sealed.mk retiring entry) ->
  claim fp db c = (Err (StoreError.UnknownKeyId retiring), db) /\
  claimed db c = Err (StoreError.UnknownKeyId retiring) /\
  get_sealed (openers (TenantKeyring.mk active (Some retiring))) (Db.idem db !! claim_slot c) = Ok (Some entry).
Proof using Type.
  intros Hk Hne He. unfold claim, claimed, claim_tx. rewrite Hk, He. cbn [mbind result_bind].
  unfold get_sealed, open_sealed. cbn [TenantKeyring.key_id Sealed.key_id].
  rewrite (bool_decide_eq_false_2 (retiring ∈ [active])) by (rewrite list_elem_of_singleton; congruence).
  rewrite (bool_decide_eq_true_2 (retiring ∈ openers _)) by (right; left). done.
Qed.
End idempotency.

(** ** What the binding binds *)

Lemma length_prefixed_inj (x y u v : bytes) :
  Z.of_nat (length x) <= u64_max -> Z.of_nat (length y) <= u64_max ->
  length_prefixed x ++ u = length_prefixed y ++ v -> x = y /\ u = v.
Proof.
  intros Hx Hy. unfold length_prefixed. rewrite !Z.min_r, <- !app_assoc by done.
  apply prefixed_inj; unfold u64_max in *; lia.
Qed.

(** The widths of an intent's fields. *)
Definition intent_wf (i : Intent) : Prop :=
  length (Intent.request_digest i) = 32%nat /\
  length (GrantId_to_bytes (AuthzRequest.grant (Intent.authz i))) = 16%nat /\
  (forall s, AuthzRequest.session (Intent.authz i) = Some s -> length (SessionId_to_bytes s) = 16%nat) /\
  (forall t, AuthzRequest.target (Intent.authz i) = Some t -> Z.of_nat (length t) <= u64_max).

(** The binding stored with an idempotency key covers exactly the request:
    two intents feed the hash the same bytes if and only if they agree on the
    request digest, the grant, the capability, the session and the target. In
    particular two requests that differ only in the declared cost (or in the
    invocation id drawn for the attempt) have the same binding. *)
Theorem binding_covers_request (i1 i2 : Intent) :
  intent_wf i1 -> intent_wf i2 ->
  binding_input i1 = binding_input i2 <->
  Intent.request_digest i1 = Intent.request_digest i2 /\
  AuthzRequest.grant (Intent.authz i1) = AuthzRequest.grant (Intent.authz i2) /\
  AuthzRequest.capability (Intent.authz i1) = AuthzRequest.capability (Intent.authz i2) /\
  AuthzRequest.session (Intent.authz i1) = AuthzRequest.session (Intent.authz i2) /\
  AuthzRequest.target (Intent.authz i1) = AuthzRequest.target (Intent.authz i2).
Proof.
  intros (Hd1 & Hg1 & Hs1 & Ht1) (Hd2 & Hg2 & Hs2 & Ht2). unfold binding_input. cbn zeta. split.
  - intros He. apply app_inj_1 in He as [_ He]; [|done].
    apply app_inj_1 in He as [Hd He]; [|congruence]. apply app_inj_1 in He as [Hg He]; [|congruence].
    assert (forall c : Capability, Z.of_nat (length (enum_name c)) <= u64_max) as Hc by (by intros []).
    apply length_prefixed_inj in He as [Hn He]; [|apply Hc..]. apply enum_name_inj in Hn.
    assert (AuthzRequest.grant (Intent.authz i1) = AuthzRequest.grant (Intent.authz i2)) as Hgr.
    { destruct (AuthzRequest.grant (Intent.authz i1)), (AuthzRequest.grant (Intent.authz i2)). cbn in Hg. by subst. }
    assert (forall t1 t2 : option str,
      (forall t, t1 = Some t -> Z.of_nat (length t) <= u64_max) ->
      (forall t, t2 = Some t -> Z.of_nat (length t) <= u64_max) ->
      match t1 with Some t => z2b 1 :: length_prefixed t | None => [z2b 0] end =
      match t2 with Some t => z2b 1 :: length_prefixed t | None => [z2b 0] end -> t1 = t2) as Htgt.
    { intros [t1|] [t2|] H1 H2 Ht; try discriminate Ht; [|done]. apply (f_equal (drop 1)) in Ht.
      rewrite <- (app_nil_r (drop 1 (_ :: length_prefixed t1))), <- (app_nil_r (drop 1 (_ :: length_prefixed t2))) in Ht.
      apply (length_prefixed_inj t1 t2 [] []) in Ht as [-> _]; auto. }
    split_and!; try done.
    + destruct (AuthzRequest.session (Intent.authz i1)) as [[s1]|] eqn:E1,
        (AuthzRequest.session (Intent.authz i2)) as [[s2]|] eqn:E2; try discriminate He; [|done].
      apply (f_equal (drop 1)) in He. apply app_inj_1 in He as [Hs _]; [cbn in Hs; by subst|].
      pose proof (Hs1 _ eq_refl). pose proof (Hs2 _ eq_refl). cbn in *. congruence.
    + destruct (AuthzRequest.session (Intent.authz i1)) as [[s1]|] eqn:E1,
        (AuthzRequest.session (Intent.authz i2)) as [[s2]|] eqn:E2; try discriminate He.
      * apply (f_equal (drop 1)) in He. apply app_inj_1 in He as [_ He]; [by apply Htgt|].
        pose proof (Hs1 _ eq_refl). pose proof (Hs2 _ eq_refl). cbn in *. congruence.
      * apply (f_equal (drop 1)) in He. by apply Htgt.
  - intros (-> & -> & -> & -> & ->). reflexivity.
Qed.
