(* ===== verification/Custody.v ===== *)
(** * Custody: what is stored is what is read back, and only then

    Publication, verbatim reads, revocation and shredding, over every run of
    the store. *)
From S2P Require Import Prelude Vocab Ids Payload Epitrope Origin View Chain Issue Budget Decision.
From S2P Require Import Lifecycle Records Store StoreAudit Invocation Transition Directory Claim.
From S2P Require Import Shred Recovery Read Invariant Steps StoreRun.
From S2P Require Import Runs Rekey RekeyInv.
Local Open Scope Z_scope.

Section custody.
Context `{Hashes}.

(** ** What every operation keeps *)

(** Every blob of [db'] is one of [db]'s or sits at its own address, and no
    revocation and no tombstone is ever taken back. *)
Record Kept (db db' : Db) : Prop := {
  kept_blobs : forall k s, Db.blobs db' !! k = Some s ->
    (exists s0, Db.blobs db !! k = Some s0 /\ Sealed.plain s0 = Sealed.plain s) \/
    k.2 = blob_address k.1 (Sealed.plain s);
  kept_revocations : forall g rv, Db.revocations db !! g = Some rv -> Db.revocations db' !! g = Some rv;
  kept_tombstones : forall t tb, Db.tombstones db !! t = Some tb -> Db.tombstones db' !! t = Some tb;
}.

Lemma Kept_same db db' :
  Db.blobs db' = Db.blobs db -> Db.revocations db' = Db.revocations db ->
  Db.tombstones db' = Db.tombstones db -> Kept db db'.
Proof using Type.
  intros Hb Hr Ht. split; [intros k s; rewrite Hb; eauto|intros g rv; by rewrite Hr|intros t tb; by rewrite Ht].
Qed.
Lemma Kept_refl db : Kept db db.
Proof using Type. by apply Kept_same. Qed.
Lemma Kept_trans db1 db2 db3 : Kept db1 db2 -> Kept db2 db3 -> Kept db1 db3.
Proof using Type.
  intros [B1 R1 T1] [B2 R2 T2]. split; [|by auto..]. intros k s Hs.
  destruct (B2 k s Hs) as [(s0 & Hk & He)|]; [|auto]. destruct (B1 k s0 Hk) as [(s1 & Hk1 & He1)|Ha]; rewrite <- He; eauto.
Qed.

Lemma Kept_append now db entry seq db' : append_audit now db entry = Ok (seq, db') -> Kept db db'.
Proof using Type.
  intros (_ & _ & ks & stub & rec & _ & _ & _ & _ & _ & _ & _ & ->)%append_audit_Ok. by apply Kept_same.
Qed.

Lemma Kept_Rotated db db' : Rotated db db' -> Kept db db'.
Proof using Type.
  intros [HP _]. destruct (sp_rest _ _ HP) as (Et & _ & Er & _). split; rewrite ?Et, ?Er; try done.
  intros k s Hs. left. by apply (plain_lookup _ _ _ _ (sp_blobs _ _ HP)).
Qed.

Lemma transition_Kept fp now db id step b apply :
  (forall r r1 db1, apply db r = Ok (r1, db1) -> Kept db db1) ->
  Kept db (snd (transition fp now db id step b apply)).
Proof using Type.
  intros Ha. unfold transition. apply (with_tx_cases fp db _ (Kept db)); [apply Kept_refl|].
  intros b' a db' (r & next & r1 & db1 & db2 & _ & _ & Hap & Hf & Hd)%transition_tx_Ok.
  injection Hf as _ _ ->. apply Ha in Hap.
  assert (Kept db db2) as HK.
  { destruct (is_terminal next); [|by subst].
    destruct Hd as (t & seq & entry & _ & _ & _ & Hau). eapply Kept_trans; [exact Hap|by eapply Kept_append]. }
  eapply Kept_trans; [exact HK|by apply Kept_same].
Qed.

Lemma stage_transfer_Kept transfer db r r1 db1 :
  stage_transfer transfer db r = Ok (r1, db1) -> Kept db db1.
Proof using Type.
  unfold stage_transfer. intros Ha. apply bind_Ok in Ha as (keys & Hk & Ha).
  apply bind_Ok in Ha as (db0 & Hb & Ha). apply Ok_inj in Ha. injection Ha as _ <-.
  apply (Kept_trans db db0); [|by apply Kept_same]. destruct (Db.blobs db !! _).
  - apply Ok_inj in Hb. subst. apply Kept_refl.
  - apply bind_Ok in Hb as ([] & _ & Hb). apply Ok_inj in Hb. subst. split; [|done..].
    intros k s. cbn. intros [[<- <-]|[_ Hs]]%lookup_insert_Some; eauto.
Qed.

Lemma stage_publish_Kept now db r r1 db1 : stage_publish now db r = Ok (r1, db1) -> Kept db db1.
Proof using Type.
  unfold stage_publish, stage_index. intros Ha. apply bind_Ok in Ha as (keys & _ & Ha).
  apply bind_Ok in Ha as (p & _ & Ha). apply bind_Ok in Ha as (art & _ & Ha).
  apply bind_Ok in Ha as ([] & _ & Ha). apply bind_Ok in Ha as (db2 & Hx & Ha).
  apply Ok_inj in Ha. injection Ha as _ <-. destruct (InvocationRecord.session r).
  - apply bind_Ok in Hx as (found & _ & Hx). apply bind_Ok in Hx as (ks & _ & Hx).
    apply Ok_inj in Hx. subst. by apply Kept_same.
  - apply Ok_inj in Hx. subst. by apply Kept_same.
Qed.

Lemma apply_settlement_Kept s db r r1 db1 : apply_settlement s db r = Ok (r1, db1) -> Kept db db1.
Proof using Type.
  unfold apply_settlement. intros Ha. apply bind_Ok in Ha as (db2 & Hm & Ha).
  apply Ok_inj in Ha. injection Ha as _ <-. apply release_all_moved in Hm as [Hdb _].
  assert (exists f, db2 = set_ledgers f db) as [f ->] by eauto. by apply Kept_same.
Qed.

Lemma settle_Kept fp now db id outcome : Kept db (snd (settle fp now db id outcome)).
Proof using Type.
  apply transition_Kept. intros r r1 db1 Ha. unfold stage_settle in Ha.
  apply bind_Ok in Ha as ([actual failure] & _ & Ha). apply bind_Ok in Ha as (s & _ & Ha).
  by apply apply_settlement_Kept in Ha.
Qed.
Lemma release_Kept fp now db id reason : Kept db (snd (release fp now db id reason)).
Proof using Type. apply transition_Kept. intros r r1 db1. apply apply_settlement_Kept. Qed.
Lemma mark_unknown_effect_Kept fp now db id : Kept db (snd (mark_unknown_effect fp now db id)).
Proof using Type. apply transition_Kept. intros r r1 db1. apply apply_settlement_Kept. Qed.
Lemma publish_Kept fp now db id : Kept db (snd (publish fp now db id)).
Proof using Type. apply transition_Kept. apply stage_publish_Kept. Qed.

Lemma recover_Kept fp now db scan : Kept db (snd (recover fp now db scan)).
Proof using Type.
  unfold recover. generalize (open_invocations scan). intros work. generalize report_default.
  revert db. induction work as [|[id action] work IH]; intros db report; [apply Kept_refl|].
  cbn [recover_loop]. assert (Kept db (snd (recover_one fp now db report id action))) as HK.
  { unfold recover_one. destruct report, action.
    - pose proof (release_Kept fp now db id ReleaseReason.Abandoned). by destruct (release _ _ _ _ _).
    - pose proof (mark_unknown_effect_Kept fp now db id). by destruct (mark_unknown_effect _ _ _ _).
    - pose proof (publish_Kept fp now db id). destruct (publish _ _ _ _) as [[st|e] db1]; [|done].
      pose proof (settle_Kept fp now db1 id SettleOutcome.Success). destruct (settle _ _ _ _ _).
      by eapply Kept_trans.
    - pose proof (settle_Kept fp now db id SettleOutcome.Success). by destruct (settle _ _ _ _ _). }
  destruct (recover_one _ _ _ _ _ _) as [[r|e] db1]; [|done]. eapply Kept_trans; [exact HK|apply IH].
Qed.

Lemma begin_Kept fp now db intent : Kept db (snd (begin fp now db intent)).
Proof using Type.
  apply (with_tx_cases fp db _ (Kept db)); [apply Kept_refl|]. intros b a db' Hb. unfold begin_tx in Hb.
  assert (forall failure, refuse now db intent failure = Ok (Committed b a db') -> Kept db db') as Hrefuse.
  { intros f Hr. unfold refuse in Hr. apply bind_Ok in Hr as ([seq db1] & Ha & Hr).
    apply Ok_inj in Hr. injection Hr as _ _ <-. by apply Kept_append in Ha. }
  apply bind_Ok in Hb as (keys & Hk & Hb). apply bind_Ok in Hb as (idem & _ & Hb).
  destruct idem as [idem|].
  { unfold replay in Hb. case_in Hb; [done|]. by apply bind_Ok in Hb as (r & _ & Hb). }
  apply bind_Ok in Hb as ([] & _ & Hb). apply bind_Ok in Hb as (d & Hd%map_err_Ok & Hb).
  destruct d as [chain res|code|dim|]; try (by apply Hrefuse in Hb).
  destruct (session_owner_shredded _ _); [by apply Hrefuse in Hb|].
  unfold persist, intent_record, debit_reservation in Hb.
  apply bind_Ok in Hb as ([r db2] & Hi & Hb). apply Ok_inj in Hb. injection Hb as _ _ <-.
  apply bind_Ok in Hi as ([ls db1] & Hdb & Hi). apply Ok_inj in Hi. injection Hi as <- <-.
  apply debit_all_moved in Hdb as [[Hdb _] _]. assert (exists f, db1 = set_ledgers f db) as [f ->] by eauto.
  by apply Kept_same.
Qed.

Lemma issue_grant_Kept now db issue b a db' :
  issue_grant_tx now db issue = Ok (Committed b a db') -> Kept db db'.
Proof using Type.
  intros Hr. unfold issue_grant_tx in Hr.
  assert (forall d outcome state, Kept db d ->
    issue_finish now d issue outcome state = Ok (Committed b a db') -> Kept db db') as Hfin.
  { intros d outcome state HK Hf. unfold issue_finish in Hf. apply bind_Ok in Hf as ([seq db1] & Ha & Hf).
    apply Ok_inj in Hf. injection Hf as _ _ <-. apply Kept_append in Ha. by eapply Kept_trans. }
  set (new := mbind _ _) in Hr. assert (new = Ok (Committed b a db') -> Kept db db') as Hnew.
  { subst new. intros Hn. apply bind_Ok in Hn as (d & Hd%map_err_Ok & Hn).
    destruct d as [child| | |]; try (apply (Hfin db) in Hn; [done|apply Kept_refl]).
    apply bind_Ok in Hn as ([staged db1] & Hp & Hn). destruct staged; [|done].
    apply Hfin in Hn; [done|]. unfold put_new_grant in Hp.
    destruct (Db.grants db !! GrantRecord.id _); [by apply bind_Ok in Hp as (_ & _ & Hp)|].
    apply Ok_inj in Hp. injection Hp as <-. by apply Kept_same. }
  destruct (Db.grants db !! _); [|by apply Hnew]. case_in Hr; [|by apply Hnew].
  by apply bind_Ok in Hr as (_ & _ & Hr).
Qed.

Lemma exec_Kept fp now db op : Inv db -> Kept db (exec fp now db op).
Proof using Type.
  intros HI. destruct op; cbn [exec].
  - apply begin_Kept.
  - apply transition_Kept. intros r r1 db1 Ha. apply Ok_inj in Ha. injection Ha as <- <-. apply Kept_refl.
  - apply transition_Kept. intros r r1 db1. apply stage_transfer_Kept.
  - apply publish_Kept.
  - apply settle_Kept.
  - apply release_Kept.
  - apply mark_unknown_effect_Kept.
  - apply recover_Kept.
  - apply (with_tx_cases fp db _ (Kept db)); [apply Kept_refl|]. intros b a db' Hr. unfold register_tenant_tx in Hr.
    destruct (Db.tenants db !! _); [by apply bind_Ok in Hr as (_ & _ & Hr)|].
    apply bind_Ok in Hr as (_ & _ & Hr). apply bind_Ok in Hr as (_ & _ & Hr).
    apply Ok_inj in Hr. injection Hr as _ _ <-. by apply Kept_same.
  - apply (with_tx_cases fp db _ (Kept db)); [apply Kept_refl|]. intros b a db' Hr. unfold install_root_grant_tx in Hr.
    apply bind_Ok in Hr as (g & _ & Hr). apply bind_Ok in Hr as (_ & _ & Hr).
    apply bind_Ok in Hr as ([staged db1] & Hp & Hr). apply Ok_inj in Hr. destruct staged; [|done].
    injection Hr as _ _ <-. unfold put_new_grant in Hp.
    destruct (Db.grants db !! GrantRecord.id _); [by apply bind_Ok in Hp as (_ & _ & Hp)|].
    apply Ok_inj in Hp. injection Hp as <-. by apply Kept_same.
  - apply (with_tx_cases fp db _ (Kept db)); [apply Kept_refl|]. intros b a db'. apply issue_grant_Kept.
  - apply (with_tx_cases fp db _ (Kept db)); [apply Kept_refl|]. intros b a db' Hr. unfold revoke_grant_tx in Hr.
    destruct (Db.grants db !! _); [|done].
    destruct (Db.revocations db !! RevokeGrant.grant revoke) eqn:Hn; [done|].
    apply bind_Ok in Hr as ([seq db1] & Ha & Hr). apply Ok_inj in Hr. injection Hr as _ _ <-.
    apply append_audit_Ok in Ha as (_ & _ & ks & stub & rec & _ & _ & _ & _ & _ & _ & _ & ->).
    split; [by eauto| |done]. intros g' rv Hg. cbn. rewrite lookup_insert_ne by congruence. done.
  - apply (with_tx_cases fp db _ (Kept db)); [apply Kept_refl|]. intros b a db' Hr. unfold open_session_tx in Hr.
    apply bind_Ok in Hr as ([] & Hown & Hr). case_in Hr; [done|].
    destruct (Db.sessions db !! _); [by apply bind_Ok in Hr as (_ & _ & Hr)|].
    apply bind_Ok in Hr as ([seq db1] & Ha & Hr). apply Ok_inj in Hr. injection Hr as _ _ <-.
    apply Kept_append in Ha. eapply Kept_trans; [|exact Ha]. by apply Kept_same.
  - apply (with_tx_cases fp db _ (Kept db)); [apply Kept_refl|]. intros b a db' Hr. unfold claim_tx in Hr.
    apply bind_Ok in Hr as (keys & Hk & Hr). apply bind_Ok in Hr as (e & _ & Hr).
    destruct e; [done|]. apply Ok_inj in Hr. injection Hr as _ _ <-. by apply Kept_same.
  - apply (with_tx_cases fp db _ (Kept db)); [apply Kept_refl|]. intros b a db' Hr. unfold record_audit_tx in Hr.
    apply bind_Ok in Hr as ([seq db1] & Ha & Hr). apply Ok_inj in Hr. injection Hr as _ _ <-.
    by apply Kept_append in Ha.
  - apply (with_tx_cases fp db _ (Kept db)); [apply Kept_refl|]. intros b a db' Hs.
    apply shred_shape in Hs as (_ & Hno & _ & dk & rk & _ & _ & _ & _ & ->). split; [by eauto|done|].
    intros t tb Ht. cbn. rewrite lookup_insert_ne; [done|congruence].
  - apply Kept_Rotated, begin_rekey_Rotated.
  - by apply Kept_Rotated, rekey_batch_Rotated.
Qed.

Lemma run_Kept db trace : Inv db -> Typed trace -> Kept db (run db trace).
Proof using Type.
  revert db; induction trace as [|[[fp now] op] trace IH]; intros db HI Ht; [apply Kept_refl|].
  apply Forall_cons in Ht as [Ho Ht]. cbn. eapply Kept_trans; [by apply exec_Kept|].
  apply IH; [by apply exec_Inv|done].
Qed.

(** Every blob of a run sits at its own address. *)
Lemma run_blobs trace t a s : Typed trace ->
  Db.blobs (run empty_db trace) !! (t, a) = Some s -> a = blob_address t (Sealed.plain s).
Proof using Type.
  intros Ht Hs. by destruct (kept_blobs _ _ (run_Kept empty_db trace Inv_empty Ht) _ _ Hs) as [(? & ? & _)|?].
Qed.
End custody.

(** ** Properties *)
Section properties.
Context `{Hashes}.

(** Nothing is visible before B4. In every run, an artifact can be read
    (its side record or its bytes) only under the id of an invocation that
    published it: while the capture is not begun, begun, dispatched or
    transferred but not published, or ended without publishing, both reads
    answer [None], exactly as for an id that was never used. *)
Theorem unpublished_invisible (trace : list Event) (i : InvocationId) (offset len : Z) :
  Typed trace ->
  let db := run empty_db trace in
  (forall r, Db.invocations db !! i = Some r ->
     InvocationRecord.state r <> InvocationState.Published /\
     InvocationRecord.state r <> InvocationState.Settled) ->
  artifact db (artifact_ref i) = Ok None /\ read_artifact db (artifact_ref i) offset len = Ok None.
Proof using Type.
  intros HI%run_Inv db Hn. fold db in HI. unfold artifact, read_artifact, published.
  destruct (Db.locators db !! artifact_ref i) as [loc|] eqn:Hl; [|done].
  destruct (ao_locator _ (inv_artifacts db HI) _ _ Hl) as (j & r & ->%artifact_ref_inj & Hr & Hst).
  destruct (Hn r Hr) as [H1 H2]. by destruct Hst.
Qed.

Lemma get_sealed_active {A} keys (a : A) :
  get_sealed (openers keys) (Some (seal_active keys a)) = Ok (Some a).
Proof using Type.
  unfold get_sealed, open_sealed, openers. rewrite bool_decide_eq_true_2; [done|]. cbn. left.
Qed.

Lemma stage_index_shape now db r a db1 :
  stage_index now db r a = Ok db1 -> exists g, db1 = set_session_index g db.
Proof using Type.
  unfold stage_index. destruct (InvocationRecord.session r); intros Hx.
  - apply bind_Ok in Hx as (found & _ & Hx). apply bind_Ok in Hx as (ks & _ & Hx).
    apply Ok_inj in Hx. eauto.
  - apply Ok_inj in Hx. exists (fun x => x). subst db1. by destruct db.
Qed.

(** The side record B3 stages for a transfer. *)
Definition pending_record (r : InvocationRecord) (transfer : Transfer) : ArtifactRecord :=
  ArtifactRecord.mk (artifact_ref (InvocationRecord.id r)) (InvocationRecord.id r)
    (InvocationRecord.tenant r) (InvocationRecord.session r) (InvocationRecord.grant_chain r)
    (InvocationRecord.id r) None None (sha256 (Transfer.envelope transfer))
    (blob_address (InvocationRecord.tenant r) (Transfer.envelope transfer))
    (Z.min u64_max (Z.of_nat (length (Transfer.envelope transfer)))) (Transfer.source transfer)
    (Transfer.text_view transfer) (Transfer.truncated transfer) (Transfer.output_bytes transfer)
    (Transfer.revoked_after_effect transfer) None.

Lemma stage_transfer_shape transfer db r r1 db1 :
  stage_transfer transfer db r = Ok (r1, db1) ->
  let t := InvocationRecord.tenant r in
  let address := blob_address t (Transfer.envelope transfer) in
  exists keys f s, tenant_keys db t = Ok keys /\
    r1 = with_revoked_after_effect (Transfer.revoked_after_effect transfer)
        (with_actual (Some (Transfer.actual transfer))
          (with_artifact (Some (artifact_ref (InvocationRecord.id r))) r)) /\
    db1 = set_pending <[(t, InvocationRecord.id r) := seal_active keys (pending_record r transfer)]>
            (set_blobs f db) /\
    f (Db.blobs db) !! (t, address) = Some s /\
    (Db.blobs db !! (t, address) = Some s \/ s = seal_active keys (Transfer.envelope transfer)).
Proof using Type.
  unfold stage_transfer. intros Ha1. cbn zeta. apply bind_Ok in Ha1 as (keys & Hk & Ha1).
  apply bind_Ok in Ha1 as (db0 & Hb & Ha1). apply Ok_inj in Ha1. injection Ha1 as <- <-. exists keys.
  set (address := blob_address _ _) in *.
  destruct (Db.blobs db !! (InvocationRecord.tenant r, address)) as [s|] eqn:E.
  - apply Ok_inj in Hb. subst db0. exists (fun x => x), s. split_and!; try done; first [by left|by destruct db].
  - apply bind_Ok in Hb as ([] & _ & Hb). apply Ok_inj in Hb. subst db0. eexists _, _.
    split_and!; [done|done|reflexivity|cbn beta; apply lookup_insert_eq|by right].
Qed.

(** What the B3 and B4 transactions leave of the blob and the side record. *)
Lemma capture_records now1 now2 db db1 db2 i transfer b1 b2 st1 st2 :
  transition_tx now1 db i Step.CompleteTransfer b1 (stage_transfer transfer) = Ok (Committed (Some b1) st1 db1) ->
  transition_tx now2 db1 i Step.Publish b2 (stage_publish now2) = Ok (Committed (Some b2) st2 db2) ->
  Inv db ->
  exists r keys side, side = published_record now2 (pending_record r transfer) /\
    Db.invocations db !! i = Some r /\
    tenant_keys db (InvocationRecord.tenant r) = Ok keys /\
    tenant_keys db2 (InvocationRecord.tenant r) = Ok keys /\
    Db.locators db2 !! artifact_ref i =
      Some (LocatorRecord.mk (artifact_ref i) (InvocationRecord.tenant r) (InvocationRecord.session r)) /\
    Db.artifacts db2 !! (InvocationRecord.tenant r, artifact_ref i) = Some (seal_active keys side) /\
    exists s, Db.blobs db2 !! (InvocationRecord.tenant r, ArtifactRecord.blob_address side) = Some s /\
      (Db.blobs db !! (InvocationRecord.tenant r, ArtifactRecord.blob_address side) = Some s \/
       s = seal_active keys (Transfer.envelope transfer)).
Proof using Type.
  intros H1 H2 HI.
  apply transition_tx_Ok in H1 as (r & n1 & r1 & d1 & d1' & Hr & Hs1%step_CompleteTransfer & Ha1 & Hf1 & Hd1).
  destruct Hs1 as [_ ->]. cbn in Hd1. subst d1'. injection Hf1 as _ ->.
  apply stage_transfer_shape in Ha1 as (keys & f & s & Hk & -> & -> & Hblob & Hwhich).
  assert (InvocationRecord.id r = i) as Hid by apply (inv_records db HI i r Hr).
  apply transition_tx_Ok in H2 as (r' & n2 & r2 & d2 & d2' & Hr' & Hs2%step_Publish & Ha2 & Hf2 & Hd2).
  destruct Hs2 as [_ ->]. cbn in Hd2. subst d2'. injection Hf2 as _ ->.
  cbn [Db.invocations set_invocations put_invocation set_pending set_blobs] in Hr'.
  cbn [InvocationRecord.id stored with_updated_at with_state with_revoked_after_effect with_actual with_artifact] in Hr'.
  rewrite Hid, lookup_insert_eq in Hr'. injection Hr' as <-.
  unfold stage_publish in Ha2. cbn [InvocationRecord.id InvocationRecord.tenant InvocationRecord.session stored
    with_updated_at with_state with_revoked_after_effect with_actual with_artifact] in Ha2.
  change (tenant_keys (put_invocation _ _) ?t) with (tenant_keys db t) in Ha2. rewrite Hk in Ha2.
  cbn [mbind result_bind Db.pending set_invocations put_invocation set_pending] in Ha2.
  rewrite Hid, lookup_insert_eq, get_sealed_active in Ha2. cbn [mbind result_bind ok_or] in Ha2.
  apply bind_Ok in Ha2 as ([] & _ & Ha2). apply bind_Ok in Ha2 as (d3 & Hx & Ha2).
  apply Ok_inj in Ha2. injection Ha2 as _ <-.
  apply stage_index_shape in Hx as [g ->].
  exists r, keys, (published_record now2 (pending_record r transfer)). 
  split; [done|]. split; [done|]. split; [exact Hk|]. split; [exact Hk|].
  cbn [Db.locators Db.artifacts Db.blobs put_invocation set_invocations set_session_index set_locators set_pending
    set_artifacts set_blobs].
  replace (ArtifactRecord.artifact (pending_record r transfer)) with (artifact_ref i) by (by rewrite <- Hid).
  rewrite !lookup_insert_eq.
  split_and!; try reflexivity. exists s. split; [exact Hblob|exact Hwhich].
Qed.

Lemma with_tx_Ok {A} fp db (body : result StoreError (Finish A)) a db' :
  with_tx fp db body = (Ok a, db') ->
  body = Ok (Dropped a) /\ db' = db \/ exists b, body = Ok (Committed b a db').
Proof using Type.
  unfold with_tx, commit. destruct body as [[a'|[b|] a' d]|e]; try (intros [= -> ->]; eauto; fail).
  destruct (Failpoint.before_commit fp b); [done|]. destruct (Failpoint.after_commit fp b); [done|].
  intros [= -> ->]. eauto.
Qed.
Lemma transition_Ok fp now db i step b apply st db' :
  transition fp now db i step b apply = (Ok st, db') ->
  transition_tx now db i step b apply = Ok (Committed (Some b) st db').
Proof using Type.
  intros [[Hd _]|[b' Hc]]%with_tx_Ok; [|pose proof Hc as Hc'];
  [apply transition_tx_Ok in Hd as (? & ? & ? & ? & ? & _ & _ & _ & ? & _); discriminate|].
  apply transition_tx_Ok in Hc' as (? & ? & ? & ? & ? & _ & _ & _ & Hf & _).
  rewrite Hc. by injection Hf as -> _ _.
Qed.

(** A chunk is the requested slice, whatever the saturation and the clamps. *)
Lemma envelope_chunk_slice (envelope : bytes) (offset len : Z) :
  in_range u64_max offset -> in_range u64_max len -> Z.of_nat (length envelope) <= u64_max ->
  envelope_chunk envelope offset len = take (Z.to_nat len) (drop (Z.to_nat offset) envelope).
Proof using Type.
  unfold in_range. intros Ho Hl Hmax. unfold envelope_chunk, saturating_add.
  destruct (Z.le_gt_cases (Z.of_nat (length envelope)) offset) as [Hout|Hin].
  { rewrite (Z.min_r offset) by done. rewrite Nat2Z.id, drop_all, take_nil. rewrite drop_ge by lia.
    by rewrite take_nil. }
  rewrite (Z.min_l offset) by lia. set (total := Z.of_nat (length envelope)) in *.
  destruct (Z.le_gt_cases (offset + len) total) as [Hfit|Hover].
  - rewrite !Z.min_l by lia. f_equal. lia.
  - rewrite (Z.min_r _ total) by lia. rewrite !take_ge; [done| |]; rewrite length_drop; unfold total; lia.
Qed.

(** C14. A published capture reads back verbatim. Take any run, then a
    successful B3 with some transfer and a successful B4 for the same
    invocation: the artifact's info carries the transfer's source, text view
    and size, and every read of it returns exactly the requested slice of the
    transferred envelope with its total length, also when the blob was
    already stored by an earlier capture. The one assumption is that the
    envelope's content address does not collide with that of other content
    already stored. *)
Theorem capture_readable (trace : list Event) (fp1 fp2 : Failpoint) (now1 now2 : Timestamp)
    (i : InvocationId) (transfer : Transfer) (st1 st2 : InvocationStatus) (db1 db2 : Db) (offset len : Z) :
  Typed trace ->
  (forall t a s, Db.blobs (run empty_db trace) !! (t, a) = Some s ->
     blob_address t (Sealed.plain s) = blob_address t (Transfer.envelope transfer) ->
     Sealed.plain s = Transfer.envelope transfer) ->
  complete_transfer fp1 now1 (run empty_db trace) i transfer = (Ok st1, db1) ->
  publish fp2 now2 db1 i = (Ok st2, db2) ->
  let envelope := Transfer.envelope transfer in
  in_range u64_max offset -> in_range u64_max len -> Z.of_nat (length envelope) <= u64_max ->
  (exists info, artifact db2 (artifact_ref i) = Ok (Some info) /\
     ArtifactInfo.source info = Transfer.source transfer /\
     ArtifactInfo.text_view info = Transfer.text_view transfer /\
     ArtifactInfo.envelope_len info = Z.of_nat (length envelope) /\
     ArtifactInfo.published_at info = now2) /\
  read_artifact db2 (artifact_ref i) offset len =
    Ok (Some (ReadChunk.mk offset (take (Z.to_nat len) (drop (Z.to_nat offset) envelope))
                (Z.of_nat (length envelope)))).
Proof using Type.
  intros HT Hinj H1%transition_Ok H2%transition_Ok envelope Ho Hlen Hmax. pose proof (run_Inv trace HT) as HI.
  destruct (capture_records _ _ _ _ _ _ _ _ _ _ _ H1 H2 HI)
    as (r & keys & side & Hside & Hr & Hk0 & Hk & Hl & Ha & s & Hs & Hwhich).
  assert (published db2 (artifact_ref i) = Ok (Some (side, keys))) as Hp.
  { unfold published, live_tenant_keys. rewrite Hl. cbn [LocatorRecord.owner]. rewrite Hk.
    cbn [mbind result_bind]. by rewrite Ha, get_sealed_active. }
  unfold artifact, read_artifact. rewrite Hp. cbn [mbind result_bind].
  split.
  { subst side. eexists. split; [reflexivity|]. split_and!; try done. apply Z.min_r, Hmax. }
  replace (ArtifactRecord.tenant side) with (InvocationRecord.tenant r) by (by subst side).
  rewrite Hs. cbn [ok_or mbind result_bind].
  assert (open_sealed (openers keys) s = Ok envelope) as ->.
  2: { cbn [mbind result_bind]. by rewrite envelope_chunk_slice, Z.min_r. }
  destruct Hwhich as [Hold| ->].
  - rewrite open_sealed_Ok.
    + f_equal. eapply Hinj; [exact Hold|]. symmetry. apply (run_blobs trace) in Hold; [|done]. by subst side.
    + eapply KeyOk_openers; [apply HI| |exact Hk0]. by apply (so_blobs _ (inv_seals _ HI) _ _ Hold).
  - apply open_sealed_Ok. left.
Qed.

Lemma shredded_keys db tenant :
  Db.tenants db !! tenant = None -> is_Some (Db.tombstones db !! tenant) ->
  tenant_keys db tenant = Err (StoreError.TenantShredded tenant).
Proof using Type.
  intros Ht [tb Hs]. unfold tenant_keys, key_ids, absent_tenant. rewrite Ht. cbn. by rewrite Hs.
Qed.

Lemma tombstone_no_tenant db t : Inv db -> is_Some (Db.tombstones db !! t) -> Db.tenants db !! t = None.
Proof using Type.
  intros HI [tb Ht]. destruct (Db.tenants db !! t) as [rec|] eqn:Hr; [|done].
  by rewrite (to_tomb _ _ _ (reg_tenant db (inv_registry db HI) t rec Hr)) in Ht.
Qed.
Lemma shred_tenant_Ok fp now db tenant db1 :
  is_Some (Db.tenants db !! tenant) -> Inv db -> shred_tenant fp now db tenant = (Ok tt, db1) ->
  has_open_invocations db tenant = false /\ is_Some (Db.tombstones db1 !! tenant).
Proof using Type.
  intros Ht HI [[Hd _]|[b Hc]]%with_tx_Ok.
  - unfold shred_tenant_tx in Hd. destruct (Db.tombstones db !! tenant) eqn:E.
    + rewrite (tombstone_no_tenant db tenant HI) in Ht by eauto. by destruct Ht.
    + apply bind_Ok in Hd as (? & _ & Hd). by apply bind_Ok in Hd as (? & _ & Hd).
  - apply shred_shape in Hc as (_ & _ & Hno & dk & rk & _ & _ & _ & _ & ->). split; [done|].
    cbn. rewrite lookup_insert_eq. eauto.
Qed.

(** C26. A shred erases and stays. When an erase of a registered tenant
    succeeds in any run, its invocations were all over, and from then on and
    through every later run: the store holds no data key of it, not even one
    of an unfinished rotation, no keyring of it can be loaded, both reads of an
    artifact it owns answer [None], a later erase is a no-op and registering
    its id again is refused. *)
Theorem shred_erases (trace later : list Event) (fp fp' : Failpoint) (now now' : Timestamp)
    (tenant : TenantId) (db1 : Db) (a : ArtifactRef) (offset len : Z) (reg : TenantRegistration) :
  Typed trace -> Typed later ->
  is_Some (Db.tenants (run empty_db trace) !! tenant) ->
  shred_tenant fp now (run empty_db trace) tenant = (Ok tt, db1) ->
  TenantRegistration.id reg = tenant ->
  let db := run db1 later in
  (forall i r, Db.invocations (run empty_db trace) !! i = Some r -> InvocationRecord.tenant r = tenant ->
     is_terminal (InvocationRecord.state r) = true) /\
  (forall id, (tenant, id) ∉ Db.data_keys db) /\
  tenant_keys db tenant = Err (StoreError.TenantShredded tenant) /\
  (forall loc, Db.locators db !! a = Some loc -> LocatorRecord.owner loc = tenant ->
     artifact db a = Ok None /\ read_artifact db a offset len = Ok None) /\
  shred_tenant fp' now' db tenant = (Ok tt, db) /\
  register_tenant fp' now' db reg = (Err (StoreError.TenantShredded tenant), db).
Proof using Type.
  intros HT HL Hten Hs Hreg db. pose proof (run_Inv trace HT) as HI.
  destruct (shred_tenant_Ok _ _ _ _ _ Hten HI Hs) as [Hno [tb Htb]].
  assert (Inv db1) as HI1. { replace db1 with (snd (shred_tenant fp now (run empty_db trace) tenant)) by (by rewrite Hs).
    by apply shred_tenant_Inv. }
  assert (Inv db) as HIdb by (by apply run_ind; [|intros; apply exec_Inv|]).
  assert (Db.tombstones db !! tenant = Some tb) as Hdead by (by apply (kept_tombstones _ _ (run_Kept db1 later HI1 HL))).
  assert (Db.tenants db !! tenant = None) as Hnone by (apply tombstone_no_tenant; eauto).
  assert (tenant_keys db tenant = Err (StoreError.TenantShredded tenant)) as Hkeys by (apply shredded_keys; eauto).
  split_and!.
  - intros i r Hi Hr. destruct (is_terminal (InvocationRecord.state r)) eqn:E; [done|].
    destruct (not_open_not_involved _ _ i r (inv_registry _ HI) Hno Hi E) as [Hne _]. by destruct Hne.
  - intros id Hin. destruct (reg_keys db (inv_registry db HIdb) tenant id Hin) as (r & Hr & _). congruence.
  - exact Hkeys.
  - intros loc Hl Ho. unfold artifact, read_artifact, published, live_tenant_keys. rewrite Hl, Ho, Hkeys. done.
  - unfold shred_tenant, shred_tenant_tx. by rewrite Hdead.
  - unfold register_tenant, register_tenant_tx. rewrite Hreg, Hnone, Hdead. by rewrite bool_decide_eq_false_2 by done.
Qed.

Lemma revoke_grant_Ok fp now db rv x db1 :
  revoke_grant fp now db rv = (Ok (Some x), db1) -> is_Some (Db.revocations db1 !! RevokeGrant.grant rv).
Proof using Type.
  intros [[Hd ->]|[b Hc]]%with_tx_Ok; [rename Hd into Hc|]; unfold revoke_grant_tx in Hc;
    (destruct (Db.grants db !! _); [|done]); destruct (Db.revocations db !! _) eqn:E; try done.
  - apply bind_Ok in Hc as ([seq d] & _ & Hc). done.
  - apply bind_Ok in Hc as ([seq d] & _ & Hc). apply Ok_inj in Hc. injection Hc as _ _ <-.
    cbn. rewrite lookup_insert_eq. eauto.
Qed.

(** An allowed chain has no revoked link. *)
Lemma authorize_not_revoked db request now ids res g :
  Inv db -> authorize db request now = Ok (Decision.Allowed ids res) ->
  is_Some (Db.revocations db !! g) -> g ∉ ids.
Proof using Type.
  intros HI (_ & chain & debited & ledgers & Hd & _ & _ & _ & _ & _ & ->)%authorize_inv [rv Hrv] Hin.
  apply designated_chain_Ok in Hd as (leaf & _ & _ & _ & _ & Hus & _); [|by apply Inv_view_u8, HI].
  apply list_elem_of_fmap in Hin as (link & -> & Hin).
  rewrite Forall_forall in Hus. destruct (Hus link Hin) as [Hno _]. cbn in Hno.
  by rewrite Hrv in Hno.
Qed.

Lemma begin_Persisted fp now db intent st db2 :
  begin fp now db intent = (Ok (Begin.Persisted st), db2) ->
  exists ids res r, authorize db (Intent.authz intent) now = Ok (Decision.Allowed ids res) /\
    Db.invocations db2 !! Intent.invocation intent = Some r /\ InvocationRecord.grant_chain r = ids /\
    st = status_of r /\ InvocationRecord.id r = Intent.invocation intent /\
    InvocationRecord.state r = InvocationState.IntentPersisted.
Proof using Type.
  intros [[Hb ->]|[b Hb]]%with_tx_Ok; unfold begin_tx in Hb.
  all: apply bind_Ok in Hb as (keys & _ & Hb); apply bind_Ok in Hb as ([idem|] & _ & Hb);
    [unfold replay in Hb; case_in Hb; [done|]; by apply bind_Ok in Hb as (r & _ & Hb)|].
  all: apply bind_Ok in Hb as ([] & _ & Hb); apply bind_Ok in Hb as (d & Hd%map_err_Ok & Hb).
  all: unfold refuse in Hb; destruct d as [ids res|code|dim|];
    try (by apply bind_Ok in Hb as ([seq d] & _ & Hb)).
  all: destruct (session_owner_shredded _ _); [by apply bind_Ok in Hb as ([seq d] & _ & Hb)|].
  all: unfold persist, intent_record in Hb; apply bind_Ok in Hb as ([r d] & Hi & Hb).
  { done. }
  apply Ok_inj in Hb. injection Hb as _ <- <-. apply bind_Ok in Hi as ([ls d1] & _ & Hi).
  apply Ok_inj in Hi. injection Hi as <- _. exists ids, res. eexists. split; [done|].
  cbn. rewrite lookup_insert_eq. done.
Qed.

(** C21. Revocation is final. Once a revocation of a grant is recorded, then
    through every later run, whoever calls and whatever is revoked, issued,
    recovered or shredded meanwhile: no request is authorised through a chain
    with that grant in it, at any link, and every invocation begun from then
    on records a chain without it. *)
Theorem revocation_denies (trace later : list Event) (fp : Failpoint) (now : Timestamp)
    (rv : RevokeGrant) (x : Revocation) (db1 : Db) :
  Typed trace -> Typed later ->
  revoke_grant fp now (run empty_db trace) rv = (Ok (Some x), db1) ->
  let db := run db1 later in
  (forall request now' ids res, authorize db request now' = Ok (Decision.Allowed ids res) ->
     RevokeGrant.grant rv ∉ ids) /\
  (forall fp' now' intent st db2, begin fp' now' db intent = (Ok (Begin.Persisted st), db2) ->
     exists r, Db.invocations db2 !! Intent.invocation intent = Some r /\
       RevokeGrant.grant rv ∉ InvocationRecord.grant_chain r).
Proof using Type.
  intros HT HL Hrv db. pose proof (run_Inv trace HT) as HI.
  assert (Inv db1) as HI1.
  { replace db1 with (snd (revoke_grant fp now (run empty_db trace) rv)) by (by rewrite Hrv).
    by apply revoke_grant_Inv. }
  assert (Inv db) as HIdb by (by apply run_ind; [|intros; apply exec_Inv|]).
  destruct (revoke_grant_Ok _ _ _ _ _ _ Hrv) as [rec Hrec].
  assert (is_Some (Db.revocations db !! RevokeGrant.grant rv)) as Hdead.
  { eexists. apply (kept_revocations _ _ (run_Kept db1 later HI1 HL)), Hrec. }
  split; [intros; by eapply authorize_not_revoked|].
  intros fp' now' intent st db2 (ids & res & r & Ha & Hr & <- & _)%begin_Persisted.
  exists r. split; [done|]. by eapply authorize_not_revoked.
Qed.
End properties.
