(* ===== verification/AuditRead.v ===== *)
(** * Audit queries are exact ([audit_query] of [phylake::store::audit])

    [audit_query] cuts every partition at the limit before it merges them;
    here it is shown to return what cutting the merge of the whole
    partitions would. *)
From stdpp Require Import sorting.
From S2P Require Import Prelude Vocab Ids Payload Epitrope View Lifecycle Records Store StoreAudit.
From S2P Require Import Invocation Invariant Runs.
Local Open Scope Z_scope.

(** ** Strictly sorted lists *)
Section order.
Context {A : Type} (k : A -> Z).
Definition below (a b : A) : Prop := k a < k b.
Definition upto (a b : A) : Prop := k a <= k b.

Lemma below_cons a l : StronglySorted below (a :: l) ->
  StronglySorted below l /\ forall b, b ∈ l -> k a < k b.
Proof using Type. intros [Hf Hl]%StronglySorted_cons. rewrite Forall_forall in Hf. auto. Qed.

(** Sorted with distinct keys is strictly sorted. *)
Lemma strictly_sorted l : StronglySorted upto l -> NoDup (k <$> l) -> StronglySorted below l.
Proof using Type.
  induction l as [|a l IH]; intros Hs Hd; [constructor|].
  apply StronglySorted_cons in Hs as [Hf Hs]. cbn in Hd. apply NoDup_cons in Hd as [Hn Hd].
  constructor; [by apply IH|]. rewrite Forall_forall in Hf |- *. intros b Hb. specialize (Hf b Hb).
  unfold upto, below in *. assert (k a <> k b); [|lia]. intros He. apply Hn. rewrite He.
  by apply list_elem_of_fmap_2.
Qed.

(** Two strictly sorted lists with the same members are the same list. *)
Lemma strictly_sorted_members l l' :
  StronglySorted below l -> StronglySorted below l' -> (forall a, a ∈ l <-> a ∈ l') -> l = l'.
Proof using Type.
  revert l'; induction l as [|a l IH]; intros [|b l'] Hl Hl' Hm; [done| | |].
  - exfalso. apply (not_elem_of_nil b), Hm. left.
  - exfalso. apply (not_elem_of_nil a), Hm. left.
  - apply below_cons in Hl as [Hl Ha], Hl' as [Hl' Hb].
    assert (a = b) as ->.
    { destruct (proj1 (elem_of_cons l' a b) (proj1 (Hm a) (list_elem_of_here a l))) as [->|Hab]; [done|].
      destruct (proj1 (elem_of_cons l b a) (proj2 (Hm b) (list_elem_of_here b l'))) as [->|Hba]; [done|].
      specialize (Ha _ Hba). specialize (Hb _ Hab). lia. }
    f_equal. apply IH; [done..|]. intros c. specialize (Hm c). rewrite !elem_of_cons in Hm.
    split; intros Hc; [destruct (proj1 Hm (or_intror Hc)) as [->|]|destruct (proj2 Hm (or_intror Hc)) as [->|]];
      try done; [specialize (Ha _ Hc)|specialize (Hb _ Hc)]; lia.
Qed.

(** A member of a sublist found among the first [n] of the whole list is
    among the first [n] of the sublist. *)
Lemma take_sub n full part :
  StronglySorted below full -> StronglySorted below part -> (forall a, a ∈ part -> a ∈ full) ->
  forall a, a ∈ part -> a ∈ take n full -> a ∈ take n part.
Proof using Type.
  revert n part; induction full as [|f full IH]; intros n part Hf Hp Hin a Ha Ht.
  { destruct n; by apply not_elem_of_nil in Ht. }
  destruct n as [|n]; [by apply not_elem_of_nil in Ht|]. cbn in Ht.
  apply below_cons in Hf as [Hf Hmin]. destruct part as [|p part]; [by apply not_elem_of_nil in Ha|].
  apply below_cons in Hp as Hp'. destruct Hp' as [Hp' Hpmin]. cbn.
  assert (forall b, b ∈ part -> b ∈ full) as Hrest.
  { intros b Hb. destruct (proj1 (elem_of_cons full b f) (Hin b (list_elem_of_further b p part Hb))) as [->|]; [|done].
    specialize (Hpmin _ Hb). destruct (proj1 (elem_of_cons full p f) (Hin p (list_elem_of_here p part))) as [->|Hpf]; [lia|].
    specialize (Hmin _ Hpf). lia. }
  apply elem_of_cons in Ha as [->|Ha]; [left|]. right.
  apply elem_of_cons in Ht as [->|Ht].
  - specialize (Hrest _ Ha). specialize (Hmin _ Hrest). lia.
  - destruct (proj1 (elem_of_cons full p f) (Hin p (list_elem_of_here p part))) as [->|Hpf].
    + by apply (IH n part).
    + assert (a ∈ take n (p :: part)) as Hc.
      { apply IH; try done; [|by right]. intros b [->|Hb]%elem_of_cons; auto. }
      destruct n as [|n]; [by apply not_elem_of_nil in Hc|]. cbn in Hc.
      apply elem_of_cons in Hc as [->|Hc]; [specialize (Hpmin _ Ha); lia|].
      apply elem_of_take in Hc as (i & Hi & Hlt). apply elem_of_take. exists i. split; [done|lia].
Qed.

(** Dropping what cannot be among the first [n] does not change them. *)
Lemma take_same n full part :
  StronglySorted below full -> StronglySorted below part -> (forall a, a ∈ part -> a ∈ full) ->
  (forall a, a ∈ take n full -> a ∈ part) -> take n part = take n full.
Proof using Type.
  revert n part; induction full as [|f full IH]; intros n part Hf Hp Hin Ht.
  { destruct part as [|p part]; [done|]. destruct (not_elem_of_nil p). apply Hin. left. }
  destruct n as [|n]; [done|]. cbn in Ht. apply below_cons in Hf as [Hf Hmin].
  destruct part as [|p part]; [destruct (not_elem_of_nil f); apply Ht; left|].
  apply below_cons in Hp as [Hp Hpmin].
  assert (p = f) as ->.
  { destruct (proj1 (elem_of_cons part f p) (Ht f (list_elem_of_here f _))) as [->|Hfp]; [done|].
    destruct (proj1 (elem_of_cons full p f) (Hin p (list_elem_of_here p part))) as [->|Hpf]; [done|].
    specialize (Hmin _ Hpf). specialize (Hpmin _ Hfp). lia. }
  cbn. f_equal. apply IH; [done..| |].
  - intros a Ha. destruct (proj1 (elem_of_cons full a f) (Hin a (list_elem_of_further a f part Ha))) as [->|]; [|done].
    specialize (Hpmin _ Ha). lia.
  - intros a Ha. destruct (proj1 (elem_of_cons part a f) (Ht a (list_elem_of_further a f _ Ha))) as [->|]; [|done].
    apply elem_of_take in Ha as (i & Hi & _). apply list_elem_of_lookup_2 in Hi. specialize (Hmin _ Hi). lia.
Qed.

Lemma StronglySorted_omap {B} (R : B -> B -> Prop) (f : B -> option A) l :
  (forall x y a b, x ∈ l -> y ∈ l -> R x y -> f x = Some a -> f y = Some b -> below a b) ->
  StronglySorted R l -> StronglySorted below (omap f l).
Proof using Type.
  induction l as [|x l IH]; intros Hr Hs; [constructor|].
  assert (StronglySorted R l -> StronglySorted below (omap f l)) as IH'.
  { apply IH. intros y z a b Hy Hz. apply Hr; by right. }
  apply StronglySorted_cons in Hs as [Hf Hs]. cbn. destruct (f x) as [a|] eqn:E; [|by apply IH'].
  constructor; [by apply IH'|]. rewrite Forall_forall. intros b (y & Hy & Hb)%list_elem_of_omap.
  apply (Hr x y a b); auto; [left|by right|by apply (proj1 (Forall_forall _ _) Hf)].
Qed.

Lemma NoDup_key_omap {B} (f : B -> option A) l :
  (forall x y a b, x ∈ l -> y ∈ l -> f x = Some a -> f y = Some b -> k a = k b -> x = y) ->
  NoDup l -> NoDup (k <$> omap f l).
Proof using Type.
  intros Hk Hd. induction Hd as [|x l Hx Hd IH]; [constructor|]. cbn.
  destruct (f x) as [a|] eqn:E; [|apply IH; intros; eapply Hk; eauto; by right].
  cbn. constructor; [|apply IH; intros; eapply Hk; eauto; by right].
  intros (b & Hab & (y & Hy & Hb)%list_elem_of_omap)%list_elem_of_fmap.
  apply Hx. rewrite (Hk x y a b); eauto; [left|by right].
Qed.

Lemma below_key_NoDup l : StronglySorted below l -> NoDup (k <$> l).
Proof using Type.
  induction l as [|a l IH]; intros Hs; [constructor|]. apply below_cons in Hs as [Hs Ha].
  cbn. constructor; [|by apply IH]. intros (b & He & Hb)%list_elem_of_fmap. specialize (Ha b Hb). lia.
Qed.
End order.

(** Cutting every part before the merge, against cutting the merge. *)
Lemma merge_truncated {A B} (k : A -> Z) `{!RelDecision (upto k)} (f : B -> list A) (ids : list B) (n : nat) :
  (forall b, b ∈ ids -> StronglySorted (below k) (f b)) ->
  NoDup (k <$> (ids ≫= f)) ->
  StronglySorted (below k) (merge_sort (upto k) (ids ≫= f)) /\
  take n (merge_sort (upto k) (ids ≫= fun b => take n (f b))) = take n (merge_sort (upto k) (ids ≫= f)).
Proof.
  intros Hs Hd.
  assert (forall l, NoDup (k <$> l) -> StronglySorted (below k) (merge_sort (upto k) l)) as Hm.
  { intros l Hl. apply strictly_sorted.
    - assert (Transitive (upto k)) by (intros x y z; unfold upto; lia).
      assert (Total (upto k)) by (intros x y; unfold upto; lia). apply StronglySorted_merge_sort; apply _.
    - by rewrite merge_sort_Permutation. }
  assert (NoDup (k <$> (ids ≫= fun b => take n (f b)))) as Hd'.
  { apply (sublist_NoDup _ (k <$> (ids ≫= f))); [done|]. apply fmap_sublist. clear.
    induction ids as [|b ids IH]; [done|]. cbn. apply sublist_app; [apply sublist_take|exact IH]. }
  split; [by apply Hm|]. apply (take_same k); [by apply Hm..| |].
  - intros a. rewrite !merge_sort_Permutation, !list_elem_of_bind. intros (b & Ha & Hb).
    exists b. split; [by apply subseteq_take in Ha|done].
  - intros a Ha. rewrite merge_sort_Permutation, list_elem_of_bind.
    assert (a ∈ ids ≫= f) as (b & Hab & Hb)%list_elem_of_bind.
    { rewrite <- (merge_sort_Permutation (upto k)). by apply subseteq_take in Ha. }
    exists b. split; [|done]. apply (take_sub k n (merge_sort (upto k) (ids ≫= f))); auto.
    intros c Hc. rewrite merge_sort_Permutation, list_elem_of_bind. eauto.
Qed.

(** ** One partition *)

Definition keep_event (keep : AuditEntryRecord -> bool) (p : Z * Sealed AuditEntryRecord) : option AuditEvent :=
  if keep (Sealed.plain p.2) then Some (to_event (Sealed.plain p.2)) else None.

Lemma partition_loop_spec keys limit keep entries acc :
  Forall (fun p : Z * Sealed AuditEntryRecord => Sealed.key_id p.2 ∈ keys) entries ->
  partition_loop keys limit keep acc entries =
    Ok (reverse acc ++ take (limit - length acc) (omap (keep_event keep) entries)).
Proof.
  intros Hk. revert acc; induction Hk as [|[s x] entries Hx Hk IH]; intros acc; cbn [partition_loop].
  { cbn. by rewrite take_nil, app_nil_r. }
  destruct (Nat.leb_spec limit (length acc)) as [Hle|Hlt].
  { replace (limit - length acc)%nat with 0%nat by lia. cbn. by rewrite app_nil_r. }
  rewrite open_sealed_Ok by done. cbn [mbind result_bind]. rewrite IH. f_equal.
  unfold keep_event at 2. cbn [omap list_omap snd]. destruct (keep (Sealed.plain x)); [|done].
  rewrite reverse_cons, <- app_assoc. f_equal. cbn [length].
  replace (limit - length acc)%nat with (S (limit - S (length acc))) by lia. done.
Qed.

(** The events of one partition that a query selects, all of them. *)
Definition after_start (after : option AuditSeq) : option Z :=
  match after with None => Some 0 | Some seq => checked_add u64_max seq 1 end.
Definition whole (db : Db) (query : AuditQuery) (t : TenantId) : list AuditEvent :=
  match after_start (AuditQuery.after query) with
  | None => []
  | Some start => omap (keep_event (selected db query)) (partition_range db t start)
  end.

Lemma partition_range_elem db t start seq x :
  (seq, x) ∈ partition_range db t start <->
  Db.audit db !! (t, seq) = Some x /\ start <= seq <= u64_max.
Proof.
  unfold partition_range. rewrite merge_sort_Permutation, list_elem_of_omap. split.
  - intros ([[t' seq'] x'] & Hin%elem_of_map_to_list & Hf). case_match eqn:E; [|done].
    injection Hf as -> ->. bool_simpl. subst. done.
  - intros [Hx Hr]. exists ((t, seq), x). split; [by apply elem_of_map_to_list|].
    rewrite bool_decide_eq_true_2 by done. cbn. by rewrite !(proj2 (Z.leb_le _ _)) by lia.
Qed.

Lemma partition_range_sorted db t start : StronglySorted (below fst) (partition_range db t start).
Proof.
  unfold partition_range. apply strictly_sorted.
  - assert (Transitive by_seq) by (intros x y z; unfold by_seq; lia).
    assert (Total by_seq) by (intros x y; unfold by_seq; lia). apply (StronglySorted_merge_sort by_seq).
  - rewrite merge_sort_Permutation. apply NoDup_key_omap; [|apply NoDup_map_to_list].
    intros [[t1 s1] x1] [[t2 s2] x2] a b H1%elem_of_map_to_list H2%elem_of_map_to_list Ha Hb He.
    case_match eqn:E1; [|done]. case_match eqn:E2; [|done]. injection Ha as <-. injection Hb as <-.
    cbn in He. bool_simpl. subst. congruence.
Qed.

(** [after < seq], read off [AuditQuery.after]. *)
Definition later (after : option AuditSeq) (seq : AuditSeq) : Prop :=
  match after with None => True | Some a => a < seq end.

Lemma whole_elem `{Hashes} db query t e : Inv db ->
  e ∈ whole db query t <->
  exists seq x, Db.audit db !! (t, seq) = Some x /\ later (AuditQuery.after query) seq /\
    selected db query (Sealed.plain x) = true /\ e = to_event (Sealed.plain x).
Proof.
  intros HI. unfold whole, after_start, later.
  assert (forall seq x, Db.audit db !! (t, seq) = Some x -> 1 <= seq <= u64_max) as Hr.
  { intros seq x Hx. destruct (inv_audit db HI) as [Hc Hb He _]. destruct (He _ _ _ Hx) as (_ & _ & Hs%Hc). lia. }
  assert (forall start, (e ∈ omap (keep_event (selected db query)) (partition_range db t start)) <->
    exists seq x, Db.audit db !! (t, seq) = Some x /\ start <= seq <= u64_max /\
      selected db query (Sealed.plain x) = true /\ e = to_event (Sealed.plain x)) as Hstart.
  { intros start. rewrite list_elem_of_omap. unfold keep_event. split.
    - intros ([seq x] & [Hx Hs]%partition_range_elem & Hf). cbn [snd] in Hf. case_match eqn:E; [|done].
      injection Hf as <-. eauto 6.
    - intros (seq & x & Hx & Hs & Hk & ->). exists (seq, x). rewrite partition_range_elem. cbn [snd]. by rewrite Hk. }
  destruct (AuditQuery.after query) as [a|].
  - destruct (checked_add u64_max a 1) as [start|] eqn:Ec.
    + apply checked_add_Some in Ec as [-> _]. rewrite Hstart. split; intros (seq & x & Hx & Hs & Hk & ->);
        exists seq, x; split_and!; try done; specialize (Hr _ _ Hx); lia.
    + apply checked_add_None in Ec. split; [by intros ?%not_elem_of_nil|].
      intros (seq & x & Hx & Hs & _). specialize (Hr _ _ Hx). lia.
  - rewrite Hstart. split; intros (seq & x & Hx & Hs & Hk & ->);
      exists seq, x; split_and!; try done; specialize (Hr _ _ Hx); lia.
Qed.

Lemma whole_sorted `{Hashes} db query t : Inv db -> StronglySorted (below event_seq) (whole db query t).
Proof.
  intros HI. unfold whole. destruct (after_start _) as [start|]; [|constructor].
  apply (StronglySorted_omap event_seq (below fst)); [|apply partition_range_sorted].
  intros [s1 x1] [s2 x2] a b [H1 _]%partition_range_elem [H2 _]%partition_range_elem Hlt Ha Hb.
  unfold keep_event in Ha, Hb. cbn [snd] in Ha, Hb. case_match; [|done]. case_match; [|done].
  injection Ha as <-. injection Hb as <-. unfold below, event_seq, to_event in *. cbn in *.
  destruct (inv_audit db HI) as [_ _ He _].
  by rewrite (proj1 (He _ _ _ H1)), (proj1 (He _ _ _ H2)).
Qed.

Lemma partition_whole `{Hashes} db query t limit : Inv db -> is_Some (Db.tenants db !! t) ->
  partition db t (AuditQuery.after query) limit (selected db query) = Ok (take limit (whole db query t)).
Proof.
  intros HI [rec Hrec]. pose proof (Registry_keys db t rec (inv_registry db HI) Hrec) as Hk.
  unfold partition. rewrite Hk. cbn [mbind result_bind]. fold (after_start (AuditQuery.after query)).
  unfold whole. destruct (after_start _) as [start|]; [|by rewrite take_nil].
  rewrite partition_loop_spec.
  - cbn [length reverse app]. rewrite Nat.sub_0_r. done.
  - apply Forall_forall. intros [seq x] [Hx _]%partition_range_elem. cbn [snd].
    eapply KeyOk_openers; [apply HI| |exact Hk]. by apply (so_audit db (inv_seals db HI) (t, seq)).
Qed.

Lemma collect_partitions `{Hashes} db query limit ids : Inv db ->
  (forall t, t ∈ ids -> is_Some (Db.tenants db !! t)) ->
  exists parts,
    collect (fun t => partition db t (AuditQuery.after query) limit (selected db query)) ids = Ok parts /\
    concat parts = ids ≫= fun t => take limit (whole db query t).
Proof.
  intros HI. induction ids as [|t ids IH]; intros Hids; [by exists []|].
  destruct IH as (parts & Hp & Hc); [intros; apply Hids; by right|].
  exists (take limit (whole db query t) :: parts). cbn [collect].
  rewrite partition_whole by (done || (apply Hids; left)). cbn [mbind result_bind].
  rewrite Hp. cbn [mbind result_bind]. split; [done|]. cbn. by rewrite Hc.
Qed.

Lemma whole_keys_NoDup `{Hashes} db query ids : Inv db -> NoDup ids -> NoDup (event_seq <$> (ids ≫= whole db query)).
Proof.
  intros HI Hd. destruct (inv_audit db HI) as [_ _ He Ho].
  assert (forall t e, e ∈ whole db query t -> exists x, Db.audit db !! (t, event_seq e) = Some x /\
    e = to_event (Sealed.plain x)) as Hw.
  { intros t e (seq & x & Hx & _ & _ & ->)%whole_elem; [|done]. exists x.
    unfold event_seq, to_event. cbn. by rewrite (proj1 (He _ _ _ Hx)). }
  apply NoDup_fmap_2_strong.
  - intros e1 e2 (t1 & H1 & _)%list_elem_of_bind (t2 & H2 & _)%list_elem_of_bind Hs.
    apply Hw in H1 as (x1 & H1 & ->), H2 as (x2 & H2 & ->). rewrite Hs in H1.
    assert (t1 = t2) as -> by (eapply Ho; eauto). congruence.
  - apply NoDup_bind; [| |done].
    + intros t1 t2 e _ _ (x1 & H1 & _)%Hw (x2 & H2 & _)%Hw. eapply Ho; eauto.
    + intros t _. apply (NoDup_fmap_1 event_seq), below_key_NoDup. by apply whole_sorted.
Qed.

Section properties.
Context `{Hashes}.

(** C34. Audit queries are exact. In every run, and whatever order the tenants
    are visited in, a query returns the first [limit] events of one list: the
    list, strictly increasing in the global sequence, of exactly the entries
    of tenants not shredded that come after the cursor and that the scope and
    session of the query select. Cutting every partition before the merge
    loses nothing and repeats nothing. *)
Theorem audit_query_exact (trace : list Event) (ids : list TenantId) (query : AuditQuery) :
  Typed trace ->
  let db := run empty_db trace in
  Permutation ids (map_to_list (Db.tenants db)).*1 ->
  exists all,
    audit_query db ids query = Ok (take (Z.to_nat (AuditQuery.limit query)) all) /\
    StronglySorted (fun a b => event_seq a < event_seq b) all /\
    forall e, e ∈ all <-> exists t seq x,
      is_Some (Db.tenants db !! t) /\ Db.audit db !! (t, seq) = Some x /\
      later (AuditQuery.after query) seq /\ selected db query (Sealed.plain x) = true /\
      e = to_event (Sealed.plain x).
Proof using Type.
  intros HI%run_Inv db Hids. fold db in HI.
  assert (forall t, t ∈ ids <-> is_Some (Db.tenants db !! t)) as Ht.
  { intros t. rewrite Hids, list_elem_of_fmap. split.
    - intros ([t' rec] & -> & Hin%elem_of_map_to_list). eauto.
    - intros [rec Hrec]. exists (t, rec). split; [done|by apply elem_of_map_to_list]. }
  assert (NoDup ids) as Hd by (rewrite Hids; apply NoDup_fst_map_to_list).
  set (n := Z.to_nat (AuditQuery.limit query)).
  destruct (collect_partitions db query n ids HI) as (parts & Hp & Hc); [by intros t ?%Ht|].
  destruct (merge_truncated event_seq (RelDecision0 := by_event_seq_dec) (whole db query) ids n) as [Hs Hm].
  { intros t _. by apply whole_sorted. }
  { by apply whole_keys_NoDup. }
  exists (merge_sort by_event_seq (ids ≫= whole db query)). split_and!.
  - unfold audit_query. fold n. rewrite Hp. cbn [mbind result_bind]. rewrite Hc. f_equal. exact Hm.
  - exact Hs.
  - intros e. rewrite merge_sort_Permutation, list_elem_of_bind. split.
    + intros (t & (seq & x & Hx)%whole_elem & Hin%Ht); [|done]. by exists t, seq, x.
    + intros (t & seq & x & Hin & Hx). exists t. rewrite whole_elem by done. split; [eauto|by apply Ht].
Qed.
End properties.
