(* ===== verification/Daemon.v ===== *)
(** * The orchestrator's state and effects ([dioptron::orchestrator], its
    [mod.rs])

    Every request runs as its own task, and the store's transactions of
    concurrent tasks interleave. A handler is a program in the monad [M] over
    the shared state [World]; each of its effects (one store transaction or
    snapshot read, one clock or random read) is one step, and before every
    step the other tasks do whatever the environment's [Tick] for that step
    says: any sequence of store operations and changes to the running set.
    A statement that holds for every environment holds for every
    interleaving. *)
From S2P Require Import Prelude Vocab Ids Payload Wire Epitrope Origin View Chain Issue.
From S2P Require Import Budget Decision Revoke Lifecycle Records Store StoreAudit Invocation Transition.
From S2P Require Import Directory Claim Runs.
Local Open Scope Z_scope.

(** ** Errors ([dioptron::error]; the paths the source reports are left out) *)
Module DaemonError.
Inductive DaemonError : Type :=
| Store (source : StoreError)
| Authz (source : Error StoreError)
| View (source : StoreError)
| Encode (source : SynthekeError)
| RandomSource
(* raised while a command runs or the daemon starts *)
| NoSocketParent
| SocketDir
| InsecureSocketDir (mode owner : Z)
| SocketPathOccupied
| SocketInUse
| InspectSocket
| Bind
| Signal
| FixtureIo
| FixtureSyntax (line : Z) (reason : str)
| Task
| Usage (message : str)
| Runtime.
End DaemonError.
Abbreviation DaemonError := DaemonError.DaemonError.

(** ** The producer's answers ([producer.rs]) *)
Module ProducerOutput.
Record ProducerOutput : Set := mk {
  envelope : bytes;
  schema_id : str;
  producer_revision : str;
  fingerprint : str;
  text_view : option str;
}.
End ProducerOutput.
Abbreviation ProducerOutput := ProducerOutput.ProducerOutput.
(** [ProducerOutput::source]. *)
Definition output_source (o : ProducerOutput) : SourceRef :=
  SourceRef.mk (ProducerOutput.fingerprint o) (ProducerOutput.schema_id o)
    (ProducerOutput.producer_revision o).
Module ProducerError.
Inductive ProducerError : Set :=
| Unavailable (contacted : bool)
| Transfer (class : TransferClass)
| Extraction (class : ExtractionClass)
| Cancelled (effect_started : bool).
End ProducerError.
Abbreviation ProducerError := ProducerError.ProducerError.
(** [ProducerError::effect_started]. *)
Definition effect_started (e : ProducerError) : bool :=
  match e with
  | ProducerError.Unavailable contacted => contacted
  | ProducerError.Cancelled effect_started => effect_started
  | ProducerError.Transfer _ | ProducerError.Extraction _ => true
  end.
(** [AcquireRequest]: what the producer is handed. *)
Module AcquireRequest.
Record AcquireRequest : Set := mk {
  invocation : InvocationId;
  target : str;
  limits : CaptureLimits;
  egress_policy : option EgressPolicy;
}.
End AcquireRequest.
Abbreviation AcquireRequest := AcquireRequest.AcquireRequest.
(** The default producer, [UnavailableProducer]. *)
Definition unavailable_producer (request : AcquireRequest) : result ProducerError ProducerOutput :=
  Err (ProducerError.Unavailable false).

(** ** The running set *)

(** [Running]: an invocation between B1 and its end, and whether its cancel
    signal has fired. *)
Module Running.
Record Running : Set := mk { chain : list GrantId; cancelled : bool }.
End Running.
Abbreviation Running := Running.Running.
Abbreviation RunningMap := (gmap InvocationId Running).
Definition fire (r : Running) : Running := Running.mk (Running.chain r) true.
Definition register_in (invocation : InvocationId) (chain : list GrantId) (m : RunningMap) : RunningMap :=
  <[invocation := Running.mk chain false]> m.
Definition deregister_in (invocation : InvocationId) (m : RunningMap) : RunningMap :=
  delete invocation m.
(** [cancel_revoked]: fires the signal of every entry whose chain contains
    the grant. *)
Definition cancel_revoked_in (revoked : GrantId) (m : RunningMap) : RunningMap :=
  (fun r => if bool_decide (revoked ∈ Running.chain r) then fire r else r) <$> m.

(** What another task does to the running set. *)
Inductive RunningEvent : Set :=
| Registered (invocation : InvocationId) (chain : list GrantId)
| Deregistered (invocation : InvocationId)
| Revoked (grant : GrantId).
Definition running_event (m : RunningMap) (e : RunningEvent) : RunningMap :=
  match e with
  | Registered invocation chain => register_in invocation chain m
  | Deregistered invocation => deregister_in invocation m
  | Revoked grant => cancel_revoked_in grant m
  end.

(** ** Environment and state *)

Module Tick.
Record Tick : Type := mk {
  others : list Event;            (* store operations of the other tasks *)
  running : list RunningEvent;    (* their changes to the running set *)
  now : Timestamp;                (* the wall clock *)
  instant : Z;                    (* the monotonic clock, in milliseconds *)
  failpoint : Failpoint;          (* the store's failpoints *)
  random : option bytes;          (* ten random bytes, or the source's failure *)
  cancelled : bool;               (* whether the caller's cancel signal has fired *)
  acquired : AcquireRequest -> option (result ProducerError ProducerOutput);
                                  (* the producer's answer, once it has one *)
}.
End Tick.
Abbreviation Tick := Tick.Tick.

Module World.
Record World : Type := mk { db : Db; running : RunningMap; tick : nat }.
End World.
Abbreviation World := World.World.

(** The environment, the timer of the asynchronous runtime ([sleep_until]:
    the step from which on a task that sleeps until an instant has been
    woken), and the archive library's encoder of a request. *)
Class Environment : Type := {
  env : nat -> Tick;
  wakes : Z -> nat;
  request_to_bytes : Request -> option bytes;
}.

(** ** Requests and replies *)

(** [ConnIdentity] (server/seams.rs). *)
Module ConnIdentity.
Record ConnIdentity : Set := mk { tenant : TenantId; uid : Z; pid : option Z; version : Z; max_frame : Z }.
End ConnIdentity.
Abbreviation ConnIdentity := ConnIdentity.ConnIdentity.

Module Reply.
Record Reply : Set := mk { invocation : option InvocationId; body : ResponseBody }.
End Reply.
Abbreviation Reply := Reply.Reply.
Definition failed (failure : Failure) : Reply := Reply.mk None (ResponseBody.Failed failure).
Definition reply_of (invocation : InvocationId) (body : ResponseBody) : Reply := Reply.mk (Some invocation) body.
Definition reply_plan (plan : Plan) : Reply := Reply.mk None (ResponseBody.Plan plan).
(** [internal]: the reply to a failure inside the daemon. *)
Definition internal (error : DaemonError) : Reply := failed Failure.UnknownEffect.

Definition MAX_DEADLINE_MS : Z := 120000.
Definition FRAME_OVERHEAD : Z := 1024.

Module Call.
Record Call : Set := mk {
  tenant : TenantId;
  grant : GrantId;
  key : option IdempotencyKey;
  digest : bytes;
  deadline_ms : Z;
  max_frame : Z;
}.
End Call.
Abbreviation Call := Call.Call.
(** [payload_budget]. *)
Definition payload_budget (call : Call) : Z := saturating_sub (Call.max_frame call) FRAME_OVERHEAD.

(** ** The monad *)

Definition M (A : Type) : Type := World -> result DaemonError A * World.
#[global] Instance M_ret : MRet M := fun A a w => (Ok a, w).
#[global] Instance M_bind : MBind M := fun A B f m w =>
  match m w with (Ok a, w) => f a w | (Err e, w) => (Err e, w) end.

(** [self.authz]. *)
Definition authz (call : Call) (capability : Capability) (target : option str) (session : option SessionId)
    (declared : Cost) : AuthzRequest :=
  AuthzRequest.mk (Call.tenant call) (Call.grant call) capability target session declared.

Section daemon.
Context `{Hashes} `{Environment}.

(** One step: the others act, then [f] runs. *)
Definition others (t : Tick) (w : World) : World :=
  World.mk (run (World.db w) (Tick.others t)) (foldl running_event (World.running w) (Tick.running t))
    (S (World.tick w)).
Definition step {A} (f : Tick -> World -> result DaemonError A * World) : M A :=
  fun w => let t := env (World.tick w) in f t (others t w).

(** A store operation, a read of a snapshot, and the environment's values. *)
Definition store_op {A} (op : Failpoint -> Timestamp -> Db -> result StoreError A * Db) : M A :=
  step (fun t w =>
    let '(r, db) := op (Tick.failpoint t) (Tick.now t) (World.db w) in
    (map_err DaemonError.Store r, World.mk db (World.running w) (World.tick w))).
Definition snapshot {A} (f : Timestamp -> Db -> result DaemonError A) : M A :=
  step (fun t w => (f (Tick.now t) (World.db w), w)).
Definition ask {A} (f : Tick -> A) : M A := step (fun t w => (Ok (f t), w)).
Definition on_running (f : RunningMap -> RunningMap) : M unit :=
  step (fun t w => (Ok tt, World.mk (World.db w) (f (World.running w)) (World.tick w))).

(** [fresh_id] and [fresh_invocation]. *)
Definition fresh_id (now : Timestamp) (random : bytes) : bytes :=
  drop 2 (to_be_bytes 8 (Z.max 0 now)) ++ random.
Definition fresh_invocation : M InvocationId :=
  step (fun t w =>
    (match Tick.random t with
     | Some random => Ok (InvocationId_from_bytes (fresh_id (Tick.now t) random))
     | None => Err DaemonError.RandomSource
     end, w)).

(** [request_digest] and [Call::new]. *)
Definition normalized (request : Request) : Request :=
  Request.mk 0 (Request.grant request) (Request.idempotency_key request) (Request.mode request) 0
    (Request.body request).
Definition request_digest (request : Request) : result DaemonError bytes :=
  encoded ← map_err DaemonError.Encode (encode request_to_bytes (normalized request));
  Ok (sha256 (lit "dioptron-request-v1" ++ encoded)).
Definition call_new (conn : ConnIdentity) (request : Request) : result DaemonError Call :=
  digest ← request_digest request;
  Ok (Call.mk (ConnIdentity.tenant conn) (Request.grant request) (Request.idempotency_key request) digest
        (Z.min (Request.deadline_ms request) MAX_DEADLINE_MS) (ConnIdentity.max_frame conn)).

(** [Inner::decide]: the dry-run decision over a fresh snapshot. *)
Definition decide_plan (request : AuthzRequest) : M Plan :=
  snapshot (fun now db => map_err DaemonError.Store (store_plan now db request)).

(** [deny]: commits the [Denied] audit entry of a refused call. *)
Definition deny (call : Call) (capability : Capability) (session : option SessionId) (failure : Failure)
    : M Reply :=
  invocation ← fresh_invocation;
  let note := AuditNote.mk (Call.tenant call) invocation capability session (AuditOutcome.Refused failure)
    (Some (Call.grant call)) None in
  _ ← store_op (fun fp now db => record_audit fp now db note);
  mret (failed failure).

(** [replay_refusal]. *)
Definition replay_refusal (call : Call) (capability : Capability) : M (option Failure) :=
  snapshot (fun now db =>
    decided ← map_err DaemonError.Authz
      (designated_chain db (Call.tenant call) (Call.grant call) capability now);
    Ok (match decided with
        | Ok _ => None
        | Err refusal => Some (default Failure.NotFoundOrDenied (decision_refusal refusal))
        end)).

(** [chain_refusal]. *)
Definition chain_status (now : Timestamp) (db : Db) (grant : GrantId) : result DaemonError (option DenyCode) :=
  leaf ← map_err DaemonError.View (view_grant db grant);
  match leaf with
  | None => Ok (Some DenyCode.GrantRevoked)
  | Some leaf =>
      status ← map_err DaemonError.Authz (check_chain db leaf now);
      Ok (match status with
          | ChainStatus.Valid _ => None
          | ChainStatus.Invalid code _ => Some code
          end)
  end.
Definition chain_refusal (grant : GrantId) : M (option DenyCode) :=
  snapshot (fun now db => chain_status now db grant).

(** [register], [deregister], [cancel_revoked]. *)
Definition register (invocation : InvocationId) (chain : list GrantId) : M unit :=
  on_running (register_in invocation chain).
Definition deregister (invocation : InvocationId) : M unit := on_running (deregister_in invocation).
Definition cancel_revoked (revoked : GrantId) : M unit := on_running (cancel_revoked_in revoked).
End daemon.
