(* ===== verification/Limits.v ===== *)
(** * The limits a capture declares ([dioptron::orchestrator::limits]) and the
    cut of its text view ([cut_text], [source_len], [spent] of
    [orchestrator::capture]) *)
From S2P Require Import Prelude Vocab Ids Payload Wire Epitrope Origin View Chain Issue.
From S2P Require Import Budget Decision Revoke Lifecycle Records Store Seal StoreAudit Invocation.
From S2P Require Import Transition Runs Daemon.
Local Open Scope Z_scope.

(** [max_transfer_bytes], [capture_cost], [declared]. *)
Definition max_transfer_bytes : Z := MAX_PLAINTEXT_LEN.
Definition capture_cost (limits : CaptureLimits) (deadline_ms : Z) : Cost :=
  Cost.mk deadline_ms 1 (default 0 (CaptureLimits.max_transfer_bytes limits))
    (default 0 (CaptureLimits.max_output_bytes limits)) 0 0.
Definition declared (requested remaining : option Z) (cap : Z) : Z :=
  Z.min (default cap (match requested with Some x => Some x | None => remaining end)) cap.

Section limits.
Context `{Hashes} `{Environment}.

(** [own_remaining] and [capture_limits]. *)
Definition own_remaining (call : Call) (session : SessionId) : M Ceilings :=
  snapshot (fun now db =>
    decided ← map_err DaemonError.Authz
      (designated_chain db (Call.tenant call) (Call.grant call) Capability.Capture now);
    match decided with
    | Err _ => Ok ceilings_default
    | Ok chain => map_err DaemonError.Authz (caller_remaining db (Call.tenant call) chain (Some session))
    end).
Definition limits_under (call : Call) (remaining : Ceilings) (requested : CaptureLimits) : CaptureLimits :=
  CaptureLimits.mk
    (Some (declared (CaptureLimits.max_output_bytes requested) (Ceilings.output_bytes remaining)
             (payload_budget call)))
    (Some (declared (CaptureLimits.max_transfer_bytes requested) (Ceilings.bytes_transferred remaining)
             max_transfer_bytes)).
Definition capture_limits (call : Call) (session : SessionId) (requested : CaptureLimits) : M CaptureLimits :=
  remaining ← own_remaining call session;
  mret (limits_under call remaining requested).
End limits.

(** ** The text view *)

(** [str::is_char_boundary]: not inside a UTF-8 sequence. *)
Definition is_char_boundary (text : str) (index : nat) : bool :=
  match index with
  | O => true
  | _ => match text !! index with
         | None => Nat.eqb index (length text)
         | Some b => negb (between 128 191 b)
         end
  end.
(** [(0..=max).rev().find(is_char_boundary).unwrap_or(0)]. *)
Fixpoint find_boundary (text : str) (index : nat) : nat :=
  if is_char_boundary text index then index
  else match index with O => O | S index => find_boundary text index end.
(** [cut_text]. *)
Definition cut_text (text : option str) (max : Z) : option str * bool :=
  match text with
  | None => (None, false)
  | Some text =>
      if Z.of_nat (length text) <=? max then (Some text, false)
      else (Some (take (find_boundary text (Z.to_nat max)) text), true)
  end.
(** [len_u64], [source_len], [spent]. *)
Definition len_u64 (b : bytes) : Z := Z.min u64_max (Z.of_nat (length b)).
Definition source_len (source : SourceRef) : Z :=
  saturating_add u64_max (saturating_add u64_max (len_u64 (SourceRef.fingerprint source))
    (len_u64 (SourceRef.schema_id source))) (len_u64 (SourceRef.producer_revision source)).
Definition spent (elapsed transferred : Z) : Cost := Cost.mk elapsed 1 transferred 0 0 0.

(** ** Lemmas *)

Lemma declared_cap requested remaining cap : declared requested remaining cap <= cap.
Proof. unfold declared. lia. Qed.
Lemma declared_nonneg requested remaining cap :
  0 <= cap -> (forall x, requested = Some x -> 0 <= x) -> (forall x, remaining = Some x -> 0 <= x) ->
  0 <= declared requested remaining cap.
Proof.
  intros Hc Hq Hr. unfold declared. destruct requested as [x|]; cbn; [specialize (Hq x eq_refl); lia|].
  destruct remaining as [x|]; cbn; [specialize (Hr x eq_refl)|]; lia.
Qed.

Lemma find_boundary_le text index : (find_boundary text index <= index)%nat.
Proof. induction index; cbn -[is_char_boundary]; destruct (is_char_boundary _ _); lia. Qed.
Lemma find_boundary_ok text index : is_char_boundary text (find_boundary text index) = true.
Proof.
  induction index as [|index IH]; [done|]. cbn -[is_char_boundary].
  destruct (is_char_boundary text (S index)) eqn:E; done.
Qed.
(** It is the last boundary there is. *)
Lemma find_boundary_max text index j :
  (j <= index)%nat -> is_char_boundary text j = true -> (j <= find_boundary text index)%nat.
Proof.
  induction index as [|index IH]; intros Hj Hb; [lia|]. cbn -[is_char_boundary].
  destruct (is_char_boundary text (S index)) eqn:E; [lia|].
  destruct (decide (j = S index)) as [Hj'|]; [|apply IH; [lia|done]]. rewrite Hj' in Hb. congruence.
Qed.

(** The text view is cut to fit and never inside a character: what is
    kept is a prefix of the text of at most the allowed bytes, ends at a
    character boundary, is the longest such prefix, and is marked truncated
    exactly when something was cut. *)
Theorem cut_text_fits (text : str) (max : Z) (kept : option str) (truncated : bool) :
  0 <= max -> cut_text (Some text) max = (kept, truncated) ->
  exists n, kept = Some (take n text) /\ Z.of_nat (length (take n text)) <= max /\
    is_char_boundary text n = true /\
    (truncated = true <-> take n text <> text) /\
    forall j, Z.of_nat j <= max -> (j <= length text)%nat -> is_char_boundary text j = true -> (j <= n)%nat.
Proof.
  intros Hm. unfold cut_text. destruct (Z.leb_spec (Z.of_nat (length text)) max) as [Hl|Hl]; intros [= <- <-].
  - exists (length text). rewrite take_ge by lia. split_and!; try done.
    unfold is_char_boundary. destruct text as [|b text]; [done|]. cbn [length].
    rewrite (proj2 (lookup_ge_None (b :: text) (S (length text)))) by (cbn; lia). by apply Nat.eqb_eq.
  - exists (find_boundary text (Z.to_nat max)). pose proof (find_boundary_le text (Z.to_nat max)) as Hle.
    rewrite length_take. split_and!; [done|lia|apply find_boundary_ok| |].
    + split; [|done]. intros _ He. apply (f_equal length) in He. rewrite length_take in He. lia.
    + intros j Hj _ Hb. apply find_boundary_max; [lia|done].
Qed.
