(* ===== verification/Calls.v ===== *)
(** * Session and grant calls ([dioptron::orchestrator::directory])

    [SessionCreate], [SessionFork], [GrantIssue] and [GrantRevoke]: the key's
    earlier binding first, then authorization, then the claim of the key and
    the write under the claimed id. *)
From S2P Require Import Prelude Vocab Ids Payload Wire Epitrope Origin View Chain Issue.
From S2P Require Import Budget Decision Revoke Lifecycle Records Store StoreAudit Invocation Transition.
From S2P Require Import Directory Claim Runs Daemon.
Local Open Scope Z_scope.

(** [Prior]: what an idempotency key already names. *)
Module Prior.
Inductive Prior : Set := Unbound | Replay (invocation : InvocationId).
End Prior.
Abbreviation Prior := Prior.Prior.

(** The id of the session or grant a claimed invocation creates. *)
Definition session_of (invocation : InvocationId) : SessionId :=
  SessionId_from_bytes (InvocationId_to_bytes invocation).
Definition grant_of (invocation : InvocationId) : GrantId :=
  GrantId_from_bytes (InvocationId_to_bytes invocation).

(** [issued] and [revoked]. *)
Definition issued (invocation : InvocationId) (grant parent_grant : GrantId) : Reply :=
  reply_of invocation (ResponseBody.GrantIssued (GrantIssued.mk grant parent_grant)).
Definition revoked (invocation : InvocationId) (record : Revocation) : Reply :=
  reply_of invocation (ResponseBody.GrantRevoked
    (GrantRevoked.mk (Revocation.grant record) (Revocation.at_seq record) (Revocation.at_time record))).

Section calls.
Context `{Hashes} `{Environment}.

(** [prior]: the key's binding, or the conflict reply. *)
Definition prior (call : Call) (capability : Capability) (key : IdempotencyKey) : M (result Reply Prior) :=
  let claim := IdemClaim.mk (Call.tenant call) (Call.grant call) capability key (Call.digest call)
    (InvocationId_from_bytes (replicate 16 "000"%byte)) in
  snapshot (fun _ db =>
    found ← map_err DaemonError.Store (claimed db claim);
    Ok (match found with
        | None => Ok Prior.Unbound
        | Some (Claimed.Replay invocation) => Ok (Prior.Replay invocation)
        | Some _ => Err (failed Failure.IdempotencyConflict)
        end)).

(** [bind]: binds the key to a fresh invocation id. *)
Definition bind (call : Call) (capability : Capability) (key : IdempotencyKey)
    : M (result Reply InvocationId) :=
  invocation ← fresh_invocation;
  let c := IdemClaim.mk (Call.tenant call) (Call.grant call) capability key (Call.digest call) invocation in
  out ← store_op (fun fp _ db => claim fp db c);
  mret (match out with
        | Claimed.Fresh invocation | Claimed.Replay invocation => Ok invocation
        | Claimed.Conflict => Err (failed Failure.IdempotencyConflict)
        end).

(** The order every call follows: [stored] answers a replay from what the
    first attempt wrote, [refusal] is the call's decision, and [write]
    performs it under the bound invocation. *)
Section keyed.
Context (call : Call) (capability : Capability) (session : option SessionId).
Context (stored : InvocationId -> M (option Reply)) {D : Type} (decision : M D).
Context (refusal : D -> option Failure) (write : D -> InvocationId -> M Reply).
Definition authorized (key : IdempotencyKey) : M Reply :=
  d ← decision;
  match refusal d with
  | Some failure => deny call capability session failure
  | None =>
      bound ← bind call capability key;
      match bound with
      | Err reply => mret reply
      | Ok invocation => write d invocation
      end
  end.
Definition keyed : M Reply :=
  match Call.key call with
  | None => mret (failed Failure.ProtocolError)
  | Some key =>
      found ← prior call capability key;
      match found with
      | Err reply => mret reply
      | Ok Prior.Unbound => authorized key
      | Ok (Prior.Replay invocation) =>
          refused ← replay_refusal call capability;
          match refused with
          | Some failure => deny call capability session failure
          | None =>
              reply ← stored invocation;
              match reply with
              | Some reply => mret reply
              | None => authorized key
              end
          end
      end
  end.
End keyed.

(** [stored_session] and [open_session]. *)
Definition stored_session (call : Call) (parent : option SessionId) (invocation : InvocationId)
    : M (option Reply) :=
  let session := session_of invocation in
  snapshot (fun _ db =>
    owner ← map_err DaemonError.View (view_session_owner db session);
    Ok (if bool_decide (owner = Some (Call.tenant call)) then
          Some (reply_of invocation (ResponseBody.SessionOpened
            (SessionOpened.mk session (Call.tenant call) parent)))
        else None)).
Definition new_session (call : Call) (invocation : InvocationId) : NewSession :=
  NewSession.mk (session_of invocation) (Call.tenant call) ceilings_default invocation.
Definition write_session (call : Call) (parent : option SessionId) (invocation : InvocationId) : M Reply :=
  let new := new_session call invocation in
  opened ← match parent with
           | None => store_op (fun fp now db =>
               let '(r, db) := create_session fp now db new in (Some <$> r, db))
           | Some parent => store_op (fun fp now db => fork_session fp now db new parent)
           end;
  mret (match opened with
        | None => failed Failure.NotFoundOrDenied
        | Some opened => reply_of invocation (ResponseBody.SessionOpened opened)
        end).
Definition open_capability (parent : option SessionId) : Capability :=
  match parent with Some _ => Capability.SessionFork | None => Capability.SessionCreate end.
Definition open_session (call : Call) (parent : option SessionId) : M Reply :=
  let capability := open_capability parent in
  keyed call capability parent (stored_session call parent)
    (decide_plan (authz call capability None parent cost_default)) Plan.refusal
    (fun _ invocation => write_session call parent invocation).
Definition session_create (call : Call) : M Reply := open_session call None.
Definition session_fork (call : Call) (parent : SessionId) : M Reply := open_session call (Some parent).

(** [issue_refusal] and [grant_issue]. *)
Definition issue_context (call : Call) (child : GrantId) : IssueContext :=
  IssueContext.mk (Call.tenant call) (Call.grant call) child.
Definition issue_decision (call : Call) (request : GrantIssueRequest) (child : GrantId)
    : M (option Failure) :=
  snapshot (fun now db =>
    d ← map_err DaemonError.Authz (check_issue db (issue_context call child) request now);
    Ok (issue_refusal d)).
Definition stored_grant (call : Call) (invocation : InvocationId) : M (option Reply) :=
  let child := grant_of invocation in
  snapshot (fun _ db =>
    grant ← map_err DaemonError.View (view_grant db child);
    Ok (match grant with
        | Some _ => Some (issued invocation child (Call.grant call))
        | None => None
        end)).
Definition write_grant (call : Call) (request : GrantIssueRequest) (invocation : InvocationId) : M Reply :=
  let context := issue_context call (grant_of invocation) in
  outcome ← store_op (fun fp now db => issue_grant fp now db (GrantIssue.mk context request invocation));
  mret (match outcome with
        | IssueOutcome.Issued grant parent => issued invocation grant parent
        | IssueOutcome.Refused failure => failed failure
        end).
Definition grant_issue (call : Call) (request : GrantIssueRequest) : M Reply :=
  keyed call Capability.GrantIssue None (stored_grant call)
    (issue_decision call request (GrantId_from_bytes (replicate 16 "000"%byte))) id
    (fun _ invocation => write_grant call request invocation).

(** [revoke_decision] and [grant_revoke]. *)
Definition revoke_decision (call : Call) (target : GrantId) : M RevokeDecision :=
  snapshot (fun now db =>
    map_err DaemonError.Authz (check_revoke db (Call.tenant call) (Call.grant call) target now)).
Definition stored_revocation (target : GrantId) (invocation : InvocationId) : M (option Reply) :=
  snapshot (fun _ db =>
    existing ← map_err DaemonError.View (view_revocation db target);
    Ok (match existing with Some record => Some (revoked invocation record) | None => None end)).
Definition write_revocation (call : Call) (target : GrantId) (decision : RevokeDecision)
    (invocation : InvocationId) : M Reply :=
  record ← match decision with
           | RevokeDecision.AlreadyRevoked record => mret (Some record)
           | _ => store_op (fun fp now db =>
               revoke_grant fp now db (RevokeGrant.mk (Call.tenant call) target invocation))
           end;
  match record with
  | None => mret (failed Failure.NotFoundOrDenied)
  | Some record =>
      _ ← cancel_revoked target;
      mret (revoked invocation record)
  end.
Definition grant_revoke (call : Call) (target : GrantId) : M Reply :=
  keyed call Capability.GrantRevoke None (stored_revocation target)
    (revoke_decision call target) revoke_refusal (write_revocation call target).
End calls.
