(* ===== verification/Reads.v ===== *)
(** * Reads ([dioptron::orchestrator::reads]) and dry runs
    ([dioptron::orchestrator::plan])

    Each read authorizes the session it touches before it reads, and each
    reply is cut to the connection's frame. *)
From S2P Require Import Prelude Vocab Ids Payload Wire Epitrope Origin View Chain Issue.
From S2P Require Import Budget Decision Revoke Lifecycle Records Store StoreAudit Invocation Transition.
From S2P Require Import Directory Claim Read Runs Daemon Limits Calls.
Local Open Scope Z_scope.

Definition QUERY_REF_BYTES : Z := 32.
Definition AUDIT_RECORD_BYTES : Z := 160.

(** [str::contains] with a string pattern. *)
Fixpoint contains (text predicate : str) : bool :=
  bool_decide (is_Some (strip_prefix predicate text))
  || match text with [] => false | _ :: text => contains text predicate end.

Definition with_plan_refusal (refusal : option Failure) (p : Plan) : Plan :=
  Plan.mk (Plan.capability p) (Plan.cost p) (Plan.grant_chain p) (Plan.rule_chain p) refusal.

Section reads.
Context `{Hashes} `{Environment}.

(** The store's snapshot reads. *)
Definition store_artifact (a : ArtifactRef) : M (option ArtifactInfo) :=
  snapshot (fun _ db => map_err DaemonError.Store (artifact db a)).

(** [artifact_plan] and [read]. *)
Definition artifact_plan (call : Call) (capability : Capability) (a : ArtifactRef) : M Plan :=
  info ← store_artifact a;
  let session := info ≫= ArtifactInfo.session in
  p ← decide_plan (authz call capability None session cost_default);
  mret (if bool_decide (session = None)
           && bool_decide (Plan.refusal p = Some (failure_denied DenyCode.SessionRequired))
        then with_plan_refusal (Some Failure.NotFoundOrDenied) p else p).
Definition read (call : Call) (request : ReadRequest) : M Reply :=
  p ← artifact_plan call Capability.Read (ReadRequest.artifact_ref request);
  match Plan.refusal p with
  | Some failure => deny call Capability.Read None failure
  | None =>
      let len := Z.min (ReadRequest.len request) (payload_budget call) in
      chunk ← snapshot (fun _ db => map_err DaemonError.Store
        (read_artifact db (ReadRequest.artifact_ref request) (ReadRequest.offset request) len));
      mret (match chunk with
            | None => failed Failure.NotFoundOrDenied
            | Some chunk => Reply.mk None (ResponseBody.Chunk chunk)
            end)
  end.

(** [matches] and [query]. *)
Definition matches (a : ArtifactRef) (predicate : str) : M bool :=
  match predicate with
  | [] => mret true
  | _ =>
      info ← store_artifact a;
      mret (match info ≫= ArtifactInfo.text_view with
            | Some text => contains text predicate
            | None => false
            end)
  end.
Fixpoint select (predicate : str) (refs : list ArtifactRef) : M (list ArtifactRef) :=
  match refs with
  | [] => mret []
  | a :: refs =>
      hit ← matches a predicate;
      rest ← select predicate refs;
      mret (if hit : bool then a :: rest else rest)
  end.
Definition query (call : Call) (request : QueryRequest) : M Reply :=
  let session := QueryRequest.session_scope request in
  p ← decide_plan (authz call Capability.Query None session cost_default);
  match Plan.refusal p with
  | Some failure => deny call Capability.Query session failure
  | None =>
      match session with
      | None => mret (failed (failure_denied DenyCode.SessionRequired))
      | Some session =>
          let limit := Z.min (QueryRequest.limit request) (payload_budget call / QUERY_REF_BYTES) in
          page ← snapshot (fun _ db =>
            map_err DaemonError.Store (session_artifacts db session None u32_max));
          match page with
          | None => mret (failed Failure.NotFoundOrDenied)
          | Some page =>
              matched ← select (QueryRequest.predicate request) (QueryPage.result_refs page);
              let limit := Z.to_nat limit in
              mret (Reply.mk None (ResponseBody.QueryPage
                (QueryPage.mk (take limit matched) (Nat.ltb limit (length matched)))))
          end
      end
  end.

(** [audit_scope] and [audit_query]. *)
Definition audit_scope (call : Call) (requested : AuditScope) : M AuditScope :=
  snapshot (fun _ db =>
    grant ← map_err DaemonError.View (view_grant db (Call.grant call));
    Ok (applied_audit_scope requested
          (match grant with Some g => Grant.audit_scope g | None => AuditScope.OwnAndOwnedSessions end))).
Definition audit_query (call : Call) (request : AuditQueryRequest) : M Reply :=
  let capability := Capability.AuditQuery in
  let session := AuditQueryRequest.session request in
  p ← decide_plan (authz call capability None session cost_default);
  match Plan.refusal p with
  | Some failure => deny call capability session failure
  | None =>
      scope ← audit_scope call (AuditQueryRequest.audit_scope request);
      let limit := Z.min (AuditQueryRequest.limit request) (payload_budget call / AUDIT_RECORD_BYTES) in
      let q := AuditQuery.mk (Call.tenant call) scope session (AuditQueryRequest.after request)
        (saturating_add u32_max limit 1) in
      events ← snapshot (fun _ db => map_err DaemonError.Store
        (StoreAudit.audit_query db (map_to_list (Db.tenants db)).*1 q));
      let all := AuditEvent.record <$> events in
      let more := Nat.ltb (Z.to_nat limit) (length all) in
      let records := take (Z.to_nat limit) all in
      invocation ← fresh_invocation;
      let note := AuditNote.mk (Call.tenant call) invocation capability session (AuditOutcome.Completed None)
        (Some (Call.grant call)) (Some scope) in
      _ ← store_op (fun fp now db => record_audit fp now db note);
      let next_after := if more : bool then AuditRecord.seq <$> last records else None in
      mret (reply_of invocation (ResponseBody.AuditPage (AuditPage.mk scope records next_after)))
  end.

(** [ingest_plan] and [ingest]. *)
Definition ingest_plan (call : Call) : M Plan :=
  p ← decide_plan (authz call Capability.Ingest None None cost_default);
  mret (match Plan.refusal p with
        | Some _ => p
        | None => Plan.mk (Plan.capability p) (Plan.cost p) [] (Plan.rule_chain p)
                    (Some (failure_denied DenyCode.NotSupported))
        end).
Definition ingest (call : Call) : M Reply :=
  p ← ingest_plan call;
  deny call Capability.Ingest None
    (default (failure_denied DenyCode.NotSupported) (Plan.refusal p)).

(** ** Dry runs *)

(** [with_refusal], [issue_plan] and [plan]. *)
Definition with_refusal (call : Call) (capability : Capability) (refusal : option Failure) : M Plan :=
  match refusal with
  | Some refusal => mret (Plan.mk capability cost_default [] [] (Some refusal))
  | None =>
      p ← decide_plan (authz call capability None None cost_default);
      mret (with_plan_refusal None p)
  end.
Definition issue_plan (call : Call) (request : GrantIssueRequest) : M Plan :=
  refusal ← issue_decision call request (GrantId_from_bytes (replicate 16 "000"%byte));
  with_refusal call Capability.GrantIssue refusal.
Definition body_plan (call : Call) (body : RequestBody) : M Plan :=
  match body with
  | RequestBody.Capture capture =>
      limits ← capture_limits call (CaptureRequest.session capture) (CaptureRequest.limits capture);
      let cost := capture_cost limits (Call.deadline_ms call) in
      decide_plan (authz call Capability.Capture (Some (CaptureRequest.target capture))
        (Some (CaptureRequest.session capture)) cost)
  | RequestBody.SessionCreate => decide_plan (authz call Capability.SessionCreate None None cost_default)
  | RequestBody.SessionFork fork =>
      decide_plan (authz call Capability.SessionFork None
        (Some (SessionForkRequest.parent_session fork)) cost_default)
  | RequestBody.Query request =>
      decide_plan (authz call Capability.Query None (QueryRequest.session_scope request) cost_default)
  | RequestBody.AuditQuery request =>
      decide_plan (authz call Capability.AuditQuery None (AuditQueryRequest.session request) cost_default)
  | RequestBody.Read request => artifact_plan call Capability.Read (ReadRequest.artifact_ref request)
  | RequestBody.Ingest _ => ingest_plan call
  | RequestBody.GrantIssue request => issue_plan call request
  | RequestBody.GrantRevoke request =>
      d ← revoke_decision call (GrantRevokeRequest.target_grant request);
      with_refusal call Capability.GrantRevoke (revoke_refusal d)
  end.
Definition plan (call : Call) (body : RequestBody) : M Reply :=
  p ← body_plan call body;
  mret (reply_plan p).
End reads.
