(* ===== verification/Capture.v ===== *)
(** * The capture lifecycle ([dioptron::orchestrator::capture])

    B1 intent, B2 dispatch, the producer call, B3 transfer, B4 publish, B5
    settle; or release or [UnknownEffect] on each failure path. *)
From S2P Require Import Prelude Vocab Ids Payload Wire Epitrope Origin View Chain Issue.
From S2P Require Import Budget Decision Revoke Lifecycle Records Store Seal StoreAudit Invocation.
From S2P Require Import Transition Directory Claim Read Runs Daemon Limits Calls Reads.
Local Open Scope Z_scope.

(** [PRODUCER_GRACE] and [CHAIN_POLL], in milliseconds. *)
Definition PRODUCER_GRACE : Z := 1000.
Definition CHAIN_POLL : Z := 100.

(** [Produced]: how a producer call ended. *)
Module Produced.
Inductive Produced : Set :=
| Output (output : ProducerOutput)
| Error (error : ProducerError)
| Abandoned.
End Produced.
Abbreviation Produced := Produced.Produced.

(** [Started]: what B1 answered. *)
Module Started.
Inductive Started : Set :=
| Persisted (status : InvocationStatus) (limits : CaptureLimits)
| Answered (reply : Reply).
End Started.
Abbreviation Started := Started.Started.

(** [Flight]: the deadline and the start, on the monotonic clock. *)
Module Flight.
Record Flight : Set := mk { deadline : Z; started : Z }.
End Flight.
Abbreviation Flight := Flight.Flight.

(** [chain_stop], [elapsed_ms]. *)
Definition chain_stop (code : DenyCode) : ReleaseReason :=
  match code with
  | DenyCode.GrantExpired => ReleaseReason.Expired
  | _ => ReleaseReason.Revoked
  end.
Definition elapsed_ms (started now : Z) : Z := Z.min u64_max (Z.max 0 (now - started)).

(** [captured]: the outcome a settled invocation published. *)
Definition outcome_of (info : ArtifactInfo) : CaptureOutcome :=
  CaptureOutcome.mk (ArtifactInfo.artifact info) (ArtifactInfo.source info) (ArtifactInfo.text_view info)
    (ArtifactInfo.truncated info) (ArtifactInfo.output_bytes info) (ArtifactInfo.revoked_after_effect info).

(** What [publish] makes of a returned output: the transfer it stores and the
    outcome it answers with. *)
Definition transfer_of (call : Call) (limits : CaptureLimits) (output : ProducerOutput) (elapsed : Z)
    (revoked_after_effect : bool) : Transfer :=
  let source := output_source output in
  let frame_room := saturating_sub (payload_budget call) (source_len source) in
  let output_cap := Z.min (default 0 (CaptureLimits.max_output_bytes limits)) frame_room in
  let '(text_view, truncated) := cut_text (ProducerOutput.text_view output) output_cap in
  let output_bytes := match text_view with Some text => len_u64 text | None => 0 end in
  let actual := Cost.mk elapsed 1 (len_u64 (ProducerOutput.envelope output)) output_bytes 0 0 in
  Transfer.mk (ProducerOutput.envelope output) source text_view truncated output_bytes actual
    revoked_after_effect.
Definition transfer_outcome (id : InvocationId) (transfer : Transfer) : CaptureOutcome :=
  CaptureOutcome.mk (artifact_ref id) (Transfer.source transfer) (Transfer.text_view transfer)
    (Transfer.truncated transfer) (Transfer.output_bytes transfer) (Transfer.revoked_after_effect transfer).

Section capture.
Context `{Hashes} `{Environment}.

Definition captured (status : InvocationStatus) : M (option CaptureOutcome) :=
  match InvocationStatus.artifact status with
  | None => mret None
  | Some a =>
      info ← store_artifact a;
      mret (match info with Some info => Some (outcome_of info) | None => None end)
  end.

(** [replay]: the current or terminal outcome of an existing invocation. *)
Definition replay (status : InvocationStatus) : M Reply :=
  body ← match InvocationStatus.terminal status with
         | None => mret ResponseBody.InProgress
         | Some (Terminal.Settled None) =>
             outcome ← captured status;
             mret (match outcome with
                   | Some outcome => ResponseBody.Captured outcome
                   | None => ResponseBody.Failed Failure.UnknownEffect
                   end)
         | Some terminal =>
             mret (ResponseBody.Failed (default Failure.UnknownEffect (terminal_reply_failure terminal)))
         end;
  mret (reply_of (InvocationStatus.id status) body).

(** [replay_capture]: re-authorizes the designated chain first. *)
Definition replay_capture (call : Call) (status : InvocationStatus) : M Reply :=
  refused ← replay_refusal call Capability.Capture;
  match refused with
  | Some failure => deny call Capability.Capture None failure
  | None => replay status
  end.

(** [begin_capture]: B1. *)
Definition begin_capture (call : Call) (capture : CaptureRequest) : M Started :=
  match Call.key call with
  | None => mret (Started.Answered (failed Failure.ProtocolError))
  | Some key =>
      limits ← capture_limits call (CaptureRequest.session capture) (CaptureRequest.limits capture);
      let cost := capture_cost limits (Call.deadline_ms call) in
      let request := authz call Capability.Capture (Some (CaptureRequest.target capture))
        (Some (CaptureRequest.session capture)) cost in
      invocation ← fresh_invocation;
      let intent := Intent.mk invocation request key (Call.digest call) in
      begun ← store_op (fun fp now db => begin fp now db intent);
      match begun with
      | Begin.Persisted status => mret (Started.Persisted status limits)
      | Begin.Replayed status =>
          reply ← replay_capture call status;
          mret (Started.Answered reply)
      | Begin.Conflict => mret (Started.Answered (failed Failure.IdempotencyConflict))
      | Begin.Refused failure _ => mret (Started.Answered (failed failure))
      end
  end.

(** [pre_dispatch] and [stop_reason]. *)
Definition pre_dispatch (grant : GrantId) (cancelled : bool) (deadline : Z) : M (option ReleaseReason) :=
  refusal ← chain_refusal grant;
  match refusal with
  | Some code => mret (Some (chain_stop code))
  | None =>
      if cancelled then mret (Some ReleaseReason.Cancelled)
      else
        instant ← ask Tick.instant;
        mret (if deadline <=? instant then Some ReleaseReason.DeadlineExceeded else None)
  end.
Definition stop_reason (grant : GrantId) (deadline : Z) : M ReleaseReason :=
  refusal ← chain_refusal grant;
  match refusal with
  | Some code => mret (chain_stop code)
  | None =>
      instant ← ask Tick.instant;
      mret (if deadline <=? instant then ReleaseReason.DeadlineExceeded else ReleaseReason.Cancelled)
  end.

(** [produce]: waits for the producer's answer or the timer of the backstop,
    whichever comes first. Meanwhile the forwarding task fires the producer's
    signal, once: on the caller's cancel, when the deadline's timer wakes it,
    or when [chain_lost] finds the chain unusable (or unreadable), which it
    checks each time its sleep of [CHAIN_POLL] ends. [forwarding] is the
    instant of its next check, [None] once it has fired; [rounds] are the
    steps left before the backstop's timer fires. *)
Definition chain_live (t : Tick) (db : Db) (grant : GrantId) : bool :=
  match chain_status (Tick.now t) db grant with Ok None => true | _ => false end.
Definition woken (k : nat) (instant : Z) : bool := (wakes instant <=? k)%nat.
Definition chain_lost (k : nat) (db : Db) (grant : GrantId) (check : Z) : bool :=
  woken k check && negb (chain_live (env k) db grant).
Definition next_check (k : nat) (check : Z) : Z :=
  if woken k check then Tick.instant (env k) + CHAIN_POLL else check.
Definition fire_signal (id : InvocationId) (w : World) : World :=
  World.mk (World.db w) (alter fire id (World.running w)) (World.tick w).
Fixpoint produce_loop (rounds : nat) (request : AcquireRequest) (grant : GrantId) (deadline : Z)
    (forwarding : option Z) : M Produced := fun w =>
  let k := World.tick w in
  let w' := others (env k) w in
  match Tick.acquired (env k) request, rounds with
  | Some (Ok output), _ => (Ok (Produced.Output output), w')
  | Some (Err error), _ => (Ok (Produced.Error error), w')
  | None, O => (Ok Produced.Abandoned, w')
  | None, S rounds =>
      match forwarding with
      | None => produce_loop rounds request grant deadline None w'
      | Some check =>
          if Tick.cancelled (env k) || woken k deadline || chain_lost k (World.db w') grant check
          then produce_loop rounds request grant deadline None
                 (fire_signal (AcquireRequest.invocation request) w')
          else produce_loop rounds request grant deadline (Some (next_check k check)) w'
      end
  end.
Definition produce (request : AcquireRequest) (grant : GrantId) (flight : Flight) : M Produced := fun w =>
  let k := World.tick w in
  let backstop := Flight.deadline flight + PRODUCER_GRACE in
  produce_loop (wakes backstop - k) request grant (Flight.deadline flight)
    (Some (Tick.instant (env k) + CHAIN_POLL)) w.

(** [release], [settle_failed] and the end in [UnknownEffect]. *)
Definition release (id : InvocationId) (reason : ReleaseReason) : M Reply :=
  status ← store_op (fun fp now db => Transition.release fp now db id reason);
  let terminal := default (Terminal.Released reason) (InvocationStatus.terminal status) in
  mret (reply_of id (ResponseBody.Failed (default Failure.Cancelled (terminal_reply_failure terminal)))).
Definition settle_failed (id : InvocationId) (failure : Failure) (actual : Cost) : M Reply :=
  _ ← store_op (fun fp now db => settle fp now db id (SettleOutcome.Failed failure actual));
  mret (reply_of id (ResponseBody.Failed failure)).
Definition end_unknown (id : InvocationId) : M Reply :=
  _ ← store_op (fun fp now db => mark_unknown_effect fp now db id);
  mret (reply_of id (ResponseBody.Failed Failure.UnknownEffect)).

(** [publish] and [finish]: B3 to B5. *)
Definition publish (call : Call) (limits : CaptureLimits) (id : InvocationId) (output : ProducerOutput)
    (elapsed : Z) : M Reply :=
  refusal ← chain_refusal (Call.grant call);
  let transfer := transfer_of call limits output elapsed (bool_decide (is_Some refusal)) in
  _ ← store_op (fun fp now db => complete_transfer fp now db id transfer);
  _ ← store_op (fun fp now db => Transition.publish fp now db id);
  _ ← store_op (fun fp now db => settle fp now db id SettleOutcome.Success);
  mret (reply_of id (ResponseBody.Captured (transfer_outcome id transfer))).
Definition finish (call : Call) (limits : CaptureLimits) (id : InvocationId) (output : ProducerOutput)
    (elapsed : Z) : M Reply :=
  if default 0 (CaptureLimits.max_transfer_bytes limits) <? len_u64 (ProducerOutput.envelope output)
  then settle_failed id (Failure.TransferFailed TransferClass.TooLarge) (spent elapsed 0)
  else publish call limits id output elapsed.

(** [fail]: the producer returned a failure. *)
Definition fail (grant : GrantId) (id : InvocationId) (error : ProducerError) (deadline elapsed : Z)
    : M Reply :=
  match error with
  | ProducerError.Unavailable false => release id ReleaseReason.ProducerUnavailable
  | ProducerError.Cancelled false =>
      stop ← stop_reason grant deadline;
      release id stop
  | ProducerError.Transfer class => settle_failed id (Failure.TransferFailed class) (spent elapsed 0)
  | ProducerError.Extraction class => settle_failed id (Failure.ExtractionFailed class) (spent elapsed 0)
  | ProducerError.Unavailable true => end_unknown id
  | ProducerError.Cancelled true =>
      instant ← ask Tick.instant;
      settle_failed id (if deadline <=? instant then Failure.DeadlineExceeded else Failure.Cancelled)
        (spent elapsed 0)
  end.

(** [run_invocation]: B1 committed; re-check, dispatch, produce, finish. *)
Definition run_invocation (call : Call) (capture : CaptureRequest) (limits : CaptureLimits)
    (id : InvocationId) (flight : Flight) : M Reply :=
  let grant := Call.grant call in
  let deadline := Flight.deadline flight in
  cancelled ← ask Tick.cancelled;
  stop ← pre_dispatch grant cancelled deadline;
  match stop with
  | Some reason => release id reason
  | None =>
      _ ← store_op (fun fp now db => dispatch fp now db id);
      let request := AcquireRequest.mk id (CaptureRequest.target capture) limits
        (CaptureRequest.egress_policy capture) in
      produced ← produce request grant flight;
      elapsed ← ask (fun t => elapsed_ms (Flight.started flight) (Tick.instant t));
      match produced with
      | Produced.Output output => finish call limits id output elapsed
      | Produced.Error error => fail grant id error deadline elapsed
      | Produced.Abandoned => end_unknown id
      end
  end.

(** [after_error]: resolves an invocation whose step failed. *)
Definition after_error (id : InvocationId) : M Reply :=
  status ← snapshot (fun _ db => Ok (invocation db id));
  match status with
  | None => mret (failed Failure.UnknownEffect)
  | Some status =>
      status ← match InvocationStatus.state status with
               | InvocationState.IntentPersisted =>
                   store_op (fun fp now db => Transition.release fp now db id ReleaseReason.Abandoned)
               | InvocationState.Dispatched =>
                   store_op (fun fp now db => mark_unknown_effect fp now db id)
               | _ => mret status
               end;
      match InvocationStatus.terminal status with
      | Some _ => replay status
      | None => mret (reply_of id (ResponseBody.Failed Failure.UnknownEffect))
      end
  end.

(** A result taken as a value, and
    [m.unwrap_or_else(|error| internal(&error))]. *)
Definition attempt {A} (m : M A) : M (result DaemonError A) := fun w => let '(r, w) := m w in (Ok r, w).
Definition or_internal (m : M Reply) : M Reply :=
  reply ← attempt m;
  mret (match reply with Ok reply => reply | Err error => internal error end).

(** [capture]. *)
Definition capture (call : Call) (request : CaptureRequest) (deadline : Z) : M Reply :=
  started ← ask Tick.instant;
  begun ← attempt (begin_capture call request);
  match begun with
  | Err error => mret (internal error)
  | Ok (Started.Answered reply) => mret reply
  | Ok (Started.Persisted status limits) =>
      let id := InvocationStatus.id status in
      _ ← register id (InvocationStatus.grant_chain status);
      reply ← attempt (run_invocation call request limits id (Flight.mk deadline started));
      _ ← deregister id;
      match reply with
      | Ok reply => mret reply
      | Err error => or_internal (after_error id)
      end
  end.
End capture.
