(* ===== verification/Orchestrator.v ===== *)
(** * The request handler ([handle], [execute], [dispatch] of
    [dioptron::orchestrator]) *)
From S2P Require Import Prelude Vocab Ids Payload Wire Epitrope Origin View Chain Issue.
From S2P Require Import Budget Decision Revoke Lifecycle Records Store StoreAudit Invocation.
From S2P Require Import Transition Directory Claim Read Runs Daemon Limits Calls Reads Capture.
Local Open Scope Z_scope.

Section orchestrator.
Context `{Hashes} `{Environment}.

(** [execute]: an executed call other than [Capture]. *)
Definition execute (call : Call) (body : RequestBody) : M Reply :=
  match body with
  | RequestBody.SessionCreate => session_create call
  | RequestBody.SessionFork fork => session_fork call (SessionForkRequest.parent_session fork)
  | RequestBody.GrantIssue issue => grant_issue call issue
  | RequestBody.GrantRevoke revoke => grant_revoke call (GrantRevokeRequest.target_grant revoke)
  | RequestBody.Read request => read call request
  | RequestBody.Query request => query call request
  | RequestBody.AuditQuery request => audit_query call request
  | RequestBody.Ingest _ => ingest call
  | RequestBody.Capture _ => mret (failed Failure.ProtocolError)
  end.

(** [handle]: one request to its reply. *)
Definition handle (conn : ConnIdentity) (request : Request) (deadline : Z) : M Reply :=
  match call_new conn request with
  | Err error => mret (internal error)
  | Ok call =>
      or_internal
        match Request.mode request with
        | Mode.DryRun => plan call (Request.body request)
        | Mode.Execute =>
            match Request.body request with
            | RequestBody.Capture request => capture call request deadline
            | body => execute call body
            end
        end
  end.

(** [dispatch]: the reply under the request's id. *)
Definition dispatch (conn : ConnIdentity) (request : Request) (deadline : Z) : M Response :=
  reply ← handle conn request deadline;
  mret (Response.mk (Request.request_id request) (Reply.invocation reply) (Reply.body reply)).
End orchestrator.
