(* ===== verification/Confine.v ===== *)
(** * What a request can do to the store

    [Runs] describes a program of the orchestrator by the store operations it
    performs: between its start and its end the store sees an interleaving of
    the other tasks' operations with operations of the program's own, one per
    step at most, each satisfying [P]. [own] says which operations a request
    may perform: those its body calls for, under the connection's tenant and
    the designated grant. *)
From S2P Require Import Prelude Vocab Ids Payload Wire Epitrope Origin View Chain Issue.
From S2P Require Import Budget Decision Revoke Lifecycle Records Store Seal StoreAudit Invocation.
From S2P Require Import Transition Directory Claim Read Invariant Runs Custody.
From S2P Require Import Daemon Limits Calls Reads Capture Orchestrator.
Local Open Scope Z_scope.

(** ** Typing *)

(** The widths of a request's amounts: [u64] limits and ceilings, [u8]
    depths, [u32] deadlines and frames. *)
Definition limits_typed (l : CaptureLimits) : Prop :=
  (forall x, CaptureLimits.max_output_bytes l = Some x -> 0 <= x) /\
  (forall x, CaptureLimits.max_transfer_bytes l = Some x -> 0 <= x).
Definition body_typed (body : RequestBody) : Prop :=
  match body with
  | RequestBody.Capture request => limits_typed (CaptureRequest.limits request)
  | RequestBody.GrantIssue request =>
      (forall m, GrantIssueRequest.max_depth request = Some m -> in_range u8_max m) /\
      ceilings_wf (GrantIssueRequest.ceilings request)
  | _ => True
  end.
Definition request_typed (conn : ConnIdentity) (request : Request) : Prop :=
  in_range u32_max (ConnIdentity.max_frame conn) /\ in_range u32_max (Request.deadline_ms request) /\
  body_typed (Request.body request).
Definition call_typed (call : Call) : Prop :=
  in_range u32_max (Call.max_frame call) /\ in_range MAX_DEADLINE_MS (Call.deadline_ms call).

Lemma foldl_min_nonneg l z : 0 <= z -> Forall (Z.le 0) l -> 0 <= foldl Z.min z l.
Proof. intros Hz Hl. revert z Hz. induction Hl; intros z Hz; [done|]. cbn. apply IHHl. lia. Qed.
Lemma own_left_nonneg ledgers d x : own_left ledgers d = Some x -> 0 <= x.
Proof.
  unfold own_left, min_list. set (l := omap _ _).
  assert (Forall (Z.le 0) l) as Hl.
  { apply Forall_forall. intros y (ls & _ & Hy)%list_elem_of_omap.
    destruct (LedgerState.own ls); [|done]. destruct (ceilings_get _ _); [|done].
    injection Hy as <-. unfold saturating_sub. lia. }
  destruct Hl; [done|]. intros [= <-]. by apply foldl_min_nonneg.
Qed.
Lemma limits_under_typed call remaining requested d :
  call_typed call -> limits_typed requested -> in_range MAX_DEADLINE_MS d ->
  (forall d x, ceilings_get remaining d = Some x -> 0 <= x) ->
  cost_wf (capture_cost (limits_under call remaining requested) d).
Proof.
  intros [Hf _] [Ho Ht] [Hd Hd'] Hr. unfold in_range, MAX_DEADLINE_MS, u32_max in *.
  assert (0 <= payload_budget call <= u32_max) as Hb.
  { unfold payload_budget, saturating_sub, FRAME_OVERHEAD, u32_max. lia. }
  pose proof (declared_nonneg _ (Ceilings.output_bytes remaining) (payload_budget call) (proj1 Hb) Ho
                (Hr Dimension.OutputBytes)).
  assert (0 <= max_transfer_bytes) as Hm by (by vm_compute).
  pose proof (declared_nonneg _ (Ceilings.bytes_transferred remaining) max_transfer_bytes Hm Ht
                (Hr Dimension.BytesTransferred)).
  pose proof (declared_cap (CaptureLimits.max_output_bytes requested) (Ceilings.output_bytes remaining)
                (payload_budget call)).
  pose proof (declared_cap (CaptureLimits.max_transfer_bytes requested) (Ceilings.bytes_transferred remaining)
                max_transfer_bytes).
  assert (max_transfer_bytes <= u32_max) by (by vm_compute). unfold u32_max in *.
  intros []; unfold in_range, u64_max; cbn; lia.
Qed.
Lemma spent_wf elapsed : 0 <= elapsed <= u64_max -> cost_wf (spent elapsed 0).
Proof. intros He []; unfold in_range, u64_max in *; cbn; lia. Qed.
Lemma len_u64_range b : 0 <= len_u64 b <= u64_max.
Proof. unfold len_u64, u64_max. lia. Qed.
Lemma elapsed_range a b : 0 <= elapsed_ms a b <= u64_max.
Proof. unfold elapsed_ms, u64_max. lia. Qed.
Lemma transfer_of_wf call limits output elapsed b :
  0 <= elapsed <= u64_max -> cost_wf (Transfer.actual (transfer_of call limits output elapsed b)).
Proof.
  intros He. unfold transfer_of. destruct (cut_text _ _) as [text tr]. cbn [Transfer.actual].
  pose proof (len_u64_range (ProducerOutput.envelope output)).
  assert (0 <= match text with Some x => len_u64 x | None => 0 end <= u64_max).
  { destruct text; [apply len_u64_range|]. unfold u64_max. lia. }
  intros []; unfold in_range, u64_max in *; cbn; lia.
Qed.

Section confine.
Context `{Hashes} `{Environment}.

(** ** Interleavings *)

(** The store's history from step [n] to step [n']: at each step the other
    tasks' operations, then at most one operation of the program. *)
Inductive Interleaved (P : Op -> Prop) : nat -> list Event -> nat -> Prop :=
| Interleaved_end n : Interleaved P n [] n
| Interleaved_idle n trace n' :
    Interleaved P (S n) trace n' -> Interleaved P n (Tick.others (env n) ++ trace) n'
| Interleaved_own n op trace n' :
    P op -> Interleaved P (S n) trace n' ->
    Interleaved P n
      (Tick.others (env n) ++ (Tick.failpoint (env n), Tick.now (env n), op) :: trace) n'.

Lemma Interleaved_le P n trace n' : Interleaved P n trace n' -> (n <= n')%nat.
Proof using Type. induction 1; lia. Qed.
Lemma Interleaved_app P n t1 n' t2 n'' :
  Interleaved P n t1 n' -> Interleaved P n' t2 n'' -> Interleaved P n (t1 ++ t2) n''.
Proof using Type.
  induction 1; intros Ht; [done| |]; rewrite <- app_assoc; [apply Interleaved_idle|apply Interleaved_own]; auto.
Qed.
Lemma Interleaved_mono (P Q : Op -> Prop) n trace n' :
  (forall op, P op -> Q op) -> Interleaved P n trace n' -> Interleaved Q n trace n'.
Proof using Type. intros HPQ. induction 1; [constructor|apply Interleaved_idle|apply Interleaved_own]; auto. Qed.
Lemma Interleaved_Typed P n trace n' :
  (forall k, Typed (Tick.others (env k))) -> (forall op, P op -> OpTyped op) ->
  Interleaved P n trace n' -> Typed trace.
Proof using Type.
  intros He HP. induction 1; [constructor| |]; apply Forall_app; split; try done; [apply He|apply He|].
  constructor; [cbn; auto|done].
Qed.
(** With no operation of its own the history is the others'. *)
Lemma Interleaved_others n trace n' :
  Interleaved (fun _ => False) n trace n' ->
  trace = (seq n (n' - n) ≫= fun k => Tick.others (env k)).
Proof using Type.
  induction 1 as [n|n trace n' Ht IH|n op trace n' [] Ht IH]; [by rewrite Nat.sub_diag|].
  apply Interleaved_le in Ht. replace (n' - n)%nat with (S (n' - S n)) by lia. cbn. by rewrite IH.
Qed.

(** ** Programs by their operations *)

(** An id this call drew, at step [n] or later. *)
Definition Drawn (n : nat) (id : InvocationId) : Prop := exists k random,
  (n <= k)%nat /\ Tick.random (env k) = Some random /\
  id = InvocationId_from_bytes (fresh_id (Tick.now (env k)) random).

Definition Runs {A} (n : nat) (P : Op -> Prop) (m : M A) (Q : A -> Prop) : Prop :=
  forall w, (n <= World.tick w)%nat -> exists trace,
    Interleaved P (World.tick w) trace (World.tick (m w).2) /\
    World.db (m w).2 = run (World.db w) trace /\ forall a, (m w).1 = Ok a -> Q a.

Lemma Runs_ret {A} n P (a : A) (Q : A -> Prop) : Q a -> Runs n P (mret a) Q.
Proof using Type. intros HQ w _. exists []. split_and!; [constructor|done|]. by intros a' [= <-]. Qed.
Lemma Runs_bind {A B} n P (m : M A) (f : A -> M B) R Q :
  Runs n P m R -> (forall a, R a -> Runs n P (f a) Q) -> Runs n P (m ≫= f) Q.
Proof using Type.
  intros Hm Hf w Hw. destruct (Hm w Hw) as (t1 & Hi1 & Hd1 & HR).
  unfold mbind, M_bind. destruct (m w) as [[a|e] w1]; cbn [fst snd] in *; [|by exists t1].
  pose proof (Interleaved_le _ _ _ _ Hi1). destruct (Hf a (HR a eq_refl) w1) as (t2 & Hi2 & Hd2 & HQ); [lia|].
  exists (t1 ++ t2). split_and!; [by eapply Interleaved_app| |done].
  rewrite Hd2, Hd1. unfold run. by rewrite foldl_app.
Qed.
Lemma Runs_weaken {A} n P (m : M A) (R Q : A -> Prop) :
  Runs n P m R -> (forall a, R a -> Q a) -> Runs n P m Q.
Proof using Type. intros Hm HRQ w Hw. destruct (Hm w Hw) as (t & ? & ? & ?). exists t. naive_solver. Qed.
Lemma Runs_mono {A} n (P P' : Op -> Prop) (m : M A) Q :
  Runs n P m Q -> (forall op, P op -> P' op) -> Runs n P' m Q.
Proof using Type.
  intros Hm HP w Hw. destruct (Hm w Hw) as (t & Hi & ? & ?). exists t.
  split; [by eapply Interleaved_mono|done].
Qed.
(** A step that leaves the store alone. *)
Lemma Runs_step {A} n P (f : Tick -> World -> result DaemonError A * World) (Q : A -> Prop) :
  (forall t w, World.db (f t w).2 = World.db w /\ World.tick (f t w).2 = World.tick w) ->
  (forall k w a, (n <= k)%nat -> (f (env k) w).1 = Ok a -> Q a) -> Runs n P (step f) Q.
Proof using Type.
  intros Hf HQ w Hw. exists (Tick.others (env (World.tick w)) ++ []). unfold step.
  destruct (Hf (env (World.tick w)) (others (env (World.tick w)) w)) as [-> ->].
  split_and!; [repeat constructor|by rewrite app_nil_r|]. intros a Ha. by eapply HQ.
Qed.
Lemma Runs_snapshot {A} n P (f : Timestamp -> Db -> result DaemonError A) (Q : A -> Prop) :
  (forall now db a, f now db = Ok a -> Q a) -> Runs n P (snapshot f) Q.
Proof using Type. intros HQ. apply Runs_step; [done|]. intros k w a _. apply HQ. Qed.
Lemma Runs_ask {A} n P (f : Tick -> A) (Q : A -> Prop) : (forall t, Q (f t)) -> Runs n P (ask f) Q.
Proof using Type. intros HQ. apply Runs_step; [done|]. intros k w a _ [= <-]. apply HQ. Qed.
Lemma Runs_on_running n P f (Q : unit -> Prop) : Q tt -> Runs n P (on_running f) Q.
Proof using Type. intros HQ. apply Runs_step; [done|]. intros k w [] _ _. done. Qed.
Lemma Runs_fresh n P : Runs n P fresh_invocation (Drawn n).
Proof using Type.
  apply Runs_step; [done|]. intros k w a Hk. cbn. destruct (Tick.random (env k)) as [random|] eqn:Er; [|done].
  intros [= <-]. by exists k, random.
Qed.
(** A step that performs one store operation. *)
Lemma Runs_store_op {A} n P (f : Failpoint -> Timestamp -> Db -> result StoreError A * Db) op (Q : A -> Prop) :
  P op -> (forall fp now db, (f fp now db).2 = exec fp now db op) ->
  (forall fp now db a, (f fp now db).1 = Ok a -> Q a) -> Runs n P (store_op f) Q.
Proof using Type.
  intros HP Hf HQ w Hw. set (t := env (World.tick w)).
  exists (Tick.others t ++ [(Tick.failpoint t, Tick.now t, op)]). unfold store_op, step. fold t.
  set (db := run (World.db w) (Tick.others t)).
  specialize (Hf (Tick.failpoint t) (Tick.now t) db). specialize (HQ (Tick.failpoint t) (Tick.now t) db).
  change (World.db (others t w)) with db. destruct (f _ _ _) as [r db'] eqn:Ef. cbn [fst snd] in *.
  split_and!.
  - apply Interleaved_own; [done|constructor].
  - cbn. unfold run. rewrite foldl_app. cbn. by rewrite Hf.
  - intros a Ha%map_err_Ok. by apply HQ.
Qed.
Lemma Runs_attempt {A} n P (m : M A) Q :
  Runs n P m Q -> Runs n P (attempt m) (fun r => forall a, r = Ok a -> Q a).
Proof using Type.
  intros Hm w Hw. destruct (Hm w Hw) as (t & Hi & Hd & HQ). exists t. unfold attempt.
  destruct (m w) as [r w']. cbn [fst snd] in *. split_and!; [done..|]. by intros a [= <-].
Qed.
Lemma Runs_or_internal n P (m : M Reply) : Runs n P m (fun _ => True) -> Runs n P (or_internal m) (fun _ => True).
Proof using Type.
  intros Hm. eapply Runs_bind; [by apply Runs_attempt|]. intros r _. by apply Runs_ret.
Qed.

(** ** What a request may do *)

(** The operations a request may perform. *)
Definition own (n : nat) (call : Call) (body : RequestBody) (op : Op) : Prop :=
  OpTyped op /\
  match op with
  | Op.RecordAudit note =>
      AuditNote.tenant note = Call.tenant call /\ AuditNote.grant note = Some (Call.grant call) /\
      AuditNote.capability note = body_capability body /\ Drawn n (AuditNote.invocation note)
  | Op.Claim c =>
      IdemClaim.tenant c = Call.tenant call /\ IdemClaim.grant c = Call.grant call /\
      IdemClaim.capability c = body_capability body /\ Some (IdemClaim.key c) = Call.key call /\
      IdemClaim.request_digest c = Call.digest call /\ Drawn n (IdemClaim.invocation c)
  | Op.OpenSession new parent =>
      NewSession.owner new = Call.tenant call /\ NewSession.ceilings new = ceilings_default /\
      NewSession.session new = session_of (NewSession.invocation new) /\
      match body with
      | RequestBody.SessionCreate => parent = None
      | RequestBody.SessionFork fork => parent = Some (SessionForkRequest.parent_session fork)
      | _ => False
      end
  | Op.IssueGrant issue =>
      body = RequestBody.GrantIssue (GrantIssue.request issue) /\
      GrantIssue.context issue = issue_context call (grant_of (GrantIssue.invocation issue))
  | Op.RevokeGrant revoke =>
      body = RequestBody.GrantRevoke (GrantRevokeRequest.mk (RevokeGrant.grant revoke)) /\
      RevokeGrant.actor revoke = Call.tenant call
  | Op.Begin intent =>
      Drawn n (Intent.invocation intent) /\ Some (Intent.idempotency_key intent) = Call.key call /\
      Intent.request_digest intent = Call.digest call /\
      exists request declared, body = RequestBody.Capture request /\
        Intent.authz intent = authz call Capability.Capture (Some (CaptureRequest.target request))
          (Some (CaptureRequest.session request)) declared
  | Op.Dispatch id | Op.CompleteTransfer id _ | Op.Publish id | Op.Settle id _ | Op.Release id _
  | Op.MarkUnknownEffect id => body_capability body = Capability.Capture /\ Drawn n id
  | _ => False
  end.

Lemma Runs_deny n call body session failure :
  Runs n (own n call body) (deny call (body_capability body) session failure) (fun _ => True).
Proof using Type.
  eapply Runs_bind; [apply Runs_fresh|]. intros i Hi. eapply Runs_bind.
  - apply (Runs_store_op _ _ _ (Op.RecordAudit
      (AuditNote.mk (Call.tenant call) i (body_capability body) session (AuditOutcome.Refused failure)
         (Some (Call.grant call)) None)) (fun _ => True)); [|done|done].
    split; [done|]. cbn. done.
  - intros _ _. by apply Runs_ret.
Qed.
Lemma Runs_decide n P request : Runs n P (decide_plan request) (fun _ => True).
Proof using Type. by apply Runs_snapshot. Qed.
Lemma Runs_replay_refusal n P call capability : Runs n P (replay_refusal call capability) (fun _ => True).
Proof using Type. by apply Runs_snapshot. Qed.
Lemma Runs_chain_refusal n P grant : Runs n P (chain_refusal grant) (fun _ => True).
Proof using Type. by apply Runs_snapshot. Qed.
Lemma Runs_artifact n P a : Runs n P (store_artifact a) (fun _ => True).
Proof using Type. by apply Runs_snapshot. Qed.
End confine.
Create HintDb runs.
#[export] Hint Resolve Runs_deny Runs_decide Runs_replay_refusal Runs_chain_refusal Runs_artifact
  Runs_or_internal : runs.

(** Runs a program that performs no operation of its own here: the binds, the
    case analyses and the steps above. *)
Ltac runs_step :=
  lazymatch goal with
  | |- Runs _ _ (mret _) _ => apply Runs_ret; try done
  | |- Runs _ _ (snapshot _) _ => apply Runs_snapshot; try done
  | |- Runs _ _ (ask _) _ => apply Runs_ask; try done
  | |- Runs _ _ (_ ≫= _) _ => eapply (Runs_bind _ _ _ _ (fun _ => True)); [|intros ? _]
  | |- Runs _ _ (match ?x with _ => _ end) _ => destruct x
  | |- Runs _ _ (let x := ?v in @?f x) _ => cbv zeta
  | |- _ => solve [eauto with runs nocore]
  end.
Ltac runs := repeat runs_step.

Section handlers.
Context `{Hashes} `{Environment}.

(** *** Session and grant calls *)

Lemma Runs_bind_key n call body key :
  Call.key call = Some key -> Runs n (own n call body) (bind call (body_capability body) key) (fun _ => True).
Proof using Type.
  intros Hk. eapply Runs_bind; [apply Runs_fresh|]. intros i Hi. eapply Runs_bind.
  - apply (Runs_store_op _ _ _ (Op.Claim (IdemClaim.mk (Call.tenant call) (Call.grant call)
      (body_capability body) key (Call.digest call) i)) (fun _ => True)); [|done|done].
    split; [done|]. cbn. by rewrite Hk.
  - intros out _. by destruct out; apply Runs_ret.
Qed.
Lemma Runs_keyed n call body session stored {D} (decision : M D) refusal write :
  (forall i, Runs n (own n call body) (stored i) (fun _ => True)) ->
  Runs n (own n call body) decision (fun _ => True) ->
  (forall d i, Runs n (own n call body) (write d i) (fun _ => True)) ->
  Runs n (own n call body) (keyed call (body_capability body) session stored decision refusal write)
    (fun _ => True).
Proof using Type.
  intros Hs Hd Hw. unfold keyed. destruct (Call.key call) as [key|] eqn:Hk; [|by apply Runs_ret].
  assert (Runs n (own n call body)
    (authorized call (body_capability body) session decision refusal write key) (fun _ => True)) as Hf.
  { eapply Runs_bind; [exact Hd|]. intros d _. destruct (refusal d); [apply Runs_deny|].
    eapply Runs_bind; [by apply Runs_bind_key|]. intros [i|reply] _; [apply Hw|by apply Runs_ret]. }
  eapply Runs_bind; [by apply (Runs_snapshot _ _ _ (fun _ => True))|]. intros [[|i]|reply] _; [done| |by apply Runs_ret].
  eapply Runs_bind; [apply Runs_replay_refusal|]. intros [failure|] _; [apply Runs_deny|].
  eapply Runs_bind; [apply Hs|]. intros [reply|] _; [by apply Runs_ret|done].
Qed.

Lemma Runs_write_session n call body parent i :
  match body with
  | RequestBody.SessionCreate => parent = None
  | RequestBody.SessionFork fork => parent = Some (SessionForkRequest.parent_session fork)
  | _ => False
  end ->
  Runs n (own n call body) (write_session call parent i) (fun _ => True).
Proof using Type.
  intros Hb. assert (own n call body (Op.OpenSession (new_session call i) parent)) as Ho.
  { split; [|done]. by intros []. }
  apply (Runs_bind _ _ _ _ (fun _ => True)).
  - destruct parent as [parent|]; apply (Runs_store_op _ _ _ _ _ Ho); try done.
    intros fp now db. cbn. unfold create_session. by destruct (Directory.open_session _ _ _ _ _).
  - intros [opened|] _; by apply Runs_ret.
Qed.
Lemma Runs_open_session n call body parent :
  body_capability body = open_capability parent ->
  match body with
  | RequestBody.SessionCreate => parent = None
  | RequestBody.SessionFork fork => parent = Some (SessionForkRequest.parent_session fork)
  | _ => False
  end ->
  Runs n (own n call body) (Calls.open_session call parent) (fun _ => True).
Proof using Type.
  intros Hc Hb. unfold Calls.open_session. rewrite <- Hc. apply Runs_keyed.
  - intros i. by apply Runs_snapshot.
  - apply Runs_decide.
  - intros _ i. by apply Runs_write_session.
Qed.
Lemma Runs_write_grant n call request i :
  body_typed (RequestBody.GrantIssue request) ->
  Runs n (own n call (RequestBody.GrantIssue request)) (write_grant call request i) (fun _ => True).
Proof using Type.
  intros Ht. eapply (Runs_bind _ _ _ _ (fun _ => True)).
  - apply (Runs_store_op _ _ _ (Op.IssueGrant (GrantIssue.mk (issue_context call (grant_of i)) request i))); done.
  - intros [] _; by apply Runs_ret.
Qed.
Lemma Runs_grant_issue n call request :
  body_typed (RequestBody.GrantIssue request) ->
  Runs n (own n call (RequestBody.GrantIssue request)) (grant_issue call request) (fun _ => True).
Proof using Type.
  intros Ht. apply (Runs_keyed n call (RequestBody.GrantIssue request)).
  - intros i. by apply Runs_snapshot.
  - by apply Runs_snapshot.
  - intros _ i. by apply Runs_write_grant.
Qed.
Lemma Runs_write_revocation n call request d i :
  Runs n (own n call (RequestBody.GrantRevoke request))
    (write_revocation call (GrantRevokeRequest.target_grant request) d i) (fun _ => True).
Proof using Type.
  destruct request as [target]. unfold write_revocation. cbn [GrantRevokeRequest.target_grant].
  eapply (Runs_bind _ _ _ _ (fun _ => True)).
  - destruct d; try (by apply Runs_ret).
    all: apply (Runs_store_op _ _ _ (Op.RevokeGrant (RevokeGrant.mk (Call.tenant call) target i))); done.
  - intros [r|] _; [|by apply Runs_ret]. eapply (Runs_bind _ _ _ _ (fun _ => True)); [by apply Runs_on_running|].
    intros _ _. by apply Runs_ret.
Qed.
Lemma Runs_grant_revoke n call request :
  Runs n (own n call (RequestBody.GrantRevoke request))
    (grant_revoke call (GrantRevokeRequest.target_grant request)) (fun _ => True).
Proof using Type.
  apply (Runs_keyed n call (RequestBody.GrantRevoke request)).
  - intros i. by apply Runs_snapshot.
  - by apply Runs_snapshot.
  - intros d i. apply Runs_write_revocation.
Qed.

(** *** Reads and dry runs *)

Lemma Runs_artifact_plan n P call capability a : Runs n P (artifact_plan call capability a) (fun _ => True).
Proof using Type. unfold artifact_plan. runs. Qed.
Lemma Runs_ingest_plan n P call : Runs n P (ingest_plan call) (fun _ => True).
Proof using Type. unfold ingest_plan. runs. Qed.
Lemma Runs_read n call request :
  Runs n (own n call (RequestBody.Read request)) (read call request) (fun _ => True).
Proof using Type.
  eapply Runs_bind; [apply Runs_artifact_plan|]. intros p _.
  destruct (Plan.refusal p); [apply (Runs_deny n call (RequestBody.Read request))|]. runs.
Qed.
Lemma Runs_select n P predicate refs : Runs n P (select predicate refs) (fun _ => True).
Proof using Type. induction refs as [|a refs IH]; cbn [select]; unfold matches; runs; done. Qed.
Lemma Runs_query n call request :
  Runs n (own n call (RequestBody.Query request)) (query call request) (fun _ => True).
Proof using Type.
  eapply Runs_bind; [apply Runs_decide|]. intros p _.
  destruct (Plan.refusal p); [apply (Runs_deny n call (RequestBody.Query request))|].
  destruct (QueryRequest.session_scope request); [|by apply Runs_ret].
  eapply (Runs_bind _ _ _ _ (fun _ => True)); [by apply Runs_snapshot|]. intros [page|] _; [|by apply Runs_ret].
  eapply Runs_bind; [apply Runs_select|]. intros matched _. by apply Runs_ret.
Qed.
Lemma Runs_audit_query n call request :
  Runs n (own n call (RequestBody.AuditQuery request)) (audit_query call request) (fun _ => True).
Proof using Type.
  eapply Runs_bind; [apply Runs_decide|]. intros p _.
  destruct (Plan.refusal p); [apply (Runs_deny n call (RequestBody.AuditQuery request))|].
  eapply (Runs_bind _ _ _ _ (fun _ => True)); [by apply Runs_snapshot|]. intros scope _.
  eapply (Runs_bind _ _ _ _ (fun _ => True)); [by apply Runs_snapshot|]. intros events _.
  eapply Runs_bind; [apply Runs_fresh|]. intros i Hi.
  eapply (Runs_bind _ _ _ _ (fun _ => True)); [|intros _ _; by apply Runs_ret].
  apply (Runs_store_op _ _ _ (Op.RecordAudit (AuditNote.mk (Call.tenant call) i Capability.AuditQuery
    (AuditQueryRequest.session request) (AuditOutcome.Completed None) (Some (Call.grant call)) (Some scope))));
    [by split|done|done].
Qed.
Lemma Runs_ingest n call request :
  Runs n (own n call (RequestBody.Ingest request)) (ingest call) (fun _ => True).
Proof using Type.
  eapply Runs_bind; [apply Runs_ingest_plan|]. intros p _. apply (Runs_deny n call (RequestBody.Ingest request)).
Qed.
Lemma Runs_plan n P call body : Runs n P (plan call body) (fun _ => True).
Proof using Type.
  unfold plan. apply (Runs_bind _ _ _ _ (fun _ => True)); [|intros p _; by apply Runs_ret].
  destruct body; cbn [body_plan]; try apply Runs_decide; try apply Runs_artifact_plan; try apply Runs_ingest_plan;
    unfold capture_limits, own_remaining, issue_plan, issue_decision, revoke_decision, with_refusal; runs.
Qed.

(** *** Captures *)

Lemma begin_Persisted_id fp now db intent st :
  (begin fp now db intent).1 = Ok (Begin.Persisted st) -> InvocationStatus.id st = Intent.invocation intent.
Proof using Type.
  destruct (begin fp now db intent) as [r db'] eqn:Hb. cbn. intros ->.
  by apply begin_Persisted in Hb as (ids & res & r & _ & _ & _ & -> & Hid & _).
Qed.

Lemma Runs_capture_limits n P call session requested :
  call_typed call -> limits_typed requested ->
  Runs n P (capture_limits call session requested)
    (fun limits => cost_wf (capture_cost limits (Call.deadline_ms call))).
Proof using Type.
  intros Hc Hr.
  apply (Runs_bind _ _ _ _ (fun remaining => forall d x, ceilings_get remaining d = Some x -> 0 <= x)).
  - apply Runs_snapshot. intros now db remaining Hd.
    apply bind_Ok in Hd as ([chain|refusal] & _ & Hd); [|by apply Ok_inj in Hd as <-; intros []].
    apply map_err_Ok in Hd. unfold caller_remaining in Hd.
    apply bind_Ok in Hd as (owned & _ & Hd). apply bind_Ok in Hd as (ledgers & _ & Hd).
    apply Ok_inj in Hd as <-. intros d x. rewrite own_remaining_get. apply own_left_nonneg.
  - intros remaining Hrem. apply Runs_ret. apply limits_under_typed; [done|done|apply Hc|done].
Qed.

Lemma Runs_replay n P status : Runs n P (Capture.replay status) (fun _ => True).
Proof using Type. unfold Capture.replay, captured. runs. Qed.

Lemma Runs_replay_capture n call request status :
  Runs n (own n call (RequestBody.Capture request)) (replay_capture call status) (fun _ => True).
Proof using Type.
  eapply Runs_bind; [apply Runs_replay_refusal|].
  intros [f|] _; [apply (Runs_deny n call (RequestBody.Capture request))|apply Runs_replay].
Qed.
Lemma Runs_begin_capture n call request :
  call_typed call -> body_typed (RequestBody.Capture request) ->
  Runs n (own n call (RequestBody.Capture request)) (begin_capture call request)
    (fun s => match s with Started.Persisted st _ => Drawn n (InvocationStatus.id st) | _ => True end).
Proof using Type.
  intros Hc Hb. unfold begin_capture. destruct (Call.key call) as [key|] eqn:Hk; [|by apply Runs_ret].
  eapply Runs_bind; [by apply Runs_capture_limits|]. intros limits Hl.
  eapply Runs_bind; [apply Runs_fresh|]. intros i Hi. cbv zeta.
  match goal with |- context [Intent.mk i ?a key ?d] => set (intent := Intent.mk i a key d) end.
  apply (Runs_bind _ _ _ _ (fun b => match b with Begin.Persisted st => InvocationStatus.id st = i | _ => True end)).
  - apply (Runs_store_op _ _ _ (Op.Begin intent)); [|done|].
    + split; [exact Hl|]. cbn. rewrite Hk. split_and!; try done. by eexists _, _.
    + intros fp now db [st|st| |]; try done. apply (begin_Persisted_id fp now db intent).
  - intros [st|st| |f a] Hs; try (by apply Runs_ret).
    + apply Runs_ret. by rewrite Hs.
    + apply (Runs_bind _ _ _ _ (fun _ => True)); [apply Runs_replay_capture|intros reply _; by apply Runs_ret].
Qed.

(** The wait takes steps and performs no operation. *)
Lemma Runs_idle {A} n P (m : M A) w :
  (exists trace, Interleaved P (S (World.tick w)) trace (World.tick (m w).2) /\
     World.db (m w).2 = run (run (World.db w) (Tick.others (env (World.tick w)))) trace) ->
  (n <= World.tick w)%nat -> exists trace, Interleaved P (World.tick w) trace (World.tick (m w).2) /\
    World.db (m w).2 = run (World.db w) trace /\ forall a, (m w).1 = Ok a -> True.
Proof using Type.
  intros (t & Hi & Hd) _. exists (Tick.others (env (World.tick w)) ++ t).
  split_and!; [by apply Interleaved_idle| |done]. rewrite Hd. unfold run. by rewrite foldl_app.
Qed.
Lemma Runs_produce n P request grant flight : Runs n P (produce request grant flight) (fun _ => True).
Proof using Type.
  intros w Hn. unfold produce. set (rounds := (_ - _)%nat). clearbody rounds. generalize (Some (Tick.instant (env (World.tick w)) + CHAIN_POLL)) as forwarding.
  intros forwarding. revert n w forwarding Hn.
  induction rounds as [|rounds IH]; intros n w forwarding Hn; (eapply Runs_idle; [|exact Hn]); cbn [produce_loop].
  all: destruct (Tick.acquired _ request) as [[]|]; [exists []; split; [constructor|done]..|].
  - exists []. split; [constructor|done].
  - destruct forwarding as [check|]; [destruct (_ || _)|];
      match goal with |- context [produce_loop _ _ _ _ ?f ?w'] =>
        destruct (IH 0%nat w' f ltac:(lia)) as (t & Hi & Hd & _) end; exists t; (split; [exact Hi|exact Hd]).
Qed.

(** The lifecycle operations of the drawn invocation. *)
Section lifecycle.
Context (n : nat) (call : Call) (request : CaptureRequest) (id : InvocationId) (Hid : Drawn n id).
Let P := own n call (RequestBody.Capture request).

Lemma Runs_release reason : Runs n P (Capture.release id reason) (fun _ => True).
Proof using Hid.
  apply (Runs_bind _ _ _ _ (fun _ => True)); [|intros st _; by apply Runs_ret].
  by apply (Runs_store_op _ _ _ (Op.Release id reason)).
Qed.
Lemma Runs_settle_failed failure actual : cost_wf actual ->
  Runs n P (settle_failed id failure actual) (fun _ => True).
Proof using Hid.
  intros Ha. apply (Runs_bind _ _ _ _ (fun _ => True)); [|intros st _; by apply Runs_ret].
  by apply (Runs_store_op _ _ _ (Op.Settle id (SettleOutcome.Failed failure actual))).
Qed.
Lemma Runs_end_unknown : Runs n P (end_unknown id) (fun _ => True).
Proof using Hid.
  apply (Runs_bind _ _ _ _ (fun _ => True)); [|intros st _; by apply Runs_ret].
  by apply (Runs_store_op _ _ _ (Op.MarkUnknownEffect id)).
Qed.
Lemma Runs_publish limits output elapsed : 0 <= elapsed <= u64_max ->
  Runs n P (Capture.publish call limits id output elapsed) (fun _ => True).
Proof using Hid.
  intros He. eapply Runs_bind; [apply Runs_chain_refusal|]. intros refusal _. cbv zeta.
  set (transfer := transfer_of _ _ _ _ _).
  assert (P (Op.CompleteTransfer id transfer)) as Hp by (split; [by apply transfer_of_wf|done]).
  apply (Runs_bind _ _ _ _ (fun _ => True)); [by apply (Runs_store_op _ _ _ (Op.CompleteTransfer id transfer))|].
  intros _ _. apply (Runs_bind _ _ _ _ (fun _ => True)); [by apply (Runs_store_op _ _ _ (Op.Publish id))|].
  intros _ _. apply (Runs_bind _ _ _ _ (fun _ => True)); [|intros _ _; by apply Runs_ret].
  by apply (Runs_store_op _ _ _ (Op.Settle id SettleOutcome.Success)).
Qed.
Lemma Runs_fail grant error deadline elapsed : 0 <= elapsed <= u64_max ->
  Runs n P (fail grant id error deadline elapsed) (fun _ => True).
Proof using Hid.
  intros He. destruct error as [[]| | |[]]; cbn [fail];
    try (apply Runs_settle_failed; by apply spent_wf); try apply Runs_release; try apply Runs_end_unknown.
  - apply (Runs_bind _ _ _ _ (fun _ => True)); [by apply Runs_ask|]. intros t _.
    apply Runs_settle_failed. by apply spent_wf.
  - apply (Runs_bind _ _ _ _ (fun _ => True)); [unfold stop_reason; runs|]. intros t _. apply Runs_release.
Qed.
Lemma Runs_run_invocation capture limits flight :
  Runs n P (run_invocation call capture limits id flight) (fun _ => True).
Proof using Hid.
  apply (Runs_bind _ _ _ _ (fun _ => True)); [by apply Runs_ask|]. intros cancelled _.
  apply (Runs_bind _ _ _ _ (fun _ => True)); [unfold pre_dispatch; runs|].
  intros [reason|] _; [apply Runs_release|].
  apply (Runs_bind _ _ _ _ (fun _ => True)); [by apply (Runs_store_op _ _ _ (Op.Dispatch id))|]. intros _ _.
  eapply Runs_bind; [apply Runs_produce|]. intros produced _.
  apply (Runs_bind _ _ _ _ (fun e => 0 <= e <= u64_max)); [apply Runs_ask; intros; apply elapsed_range|].
  intros elapsed He. destruct produced; [|by apply Runs_fail|apply Runs_end_unknown].
  unfold finish. case_match; [apply Runs_settle_failed; by apply spent_wf|by apply Runs_publish].
Qed.
Lemma Runs_after_error : Runs n P (after_error id) (fun _ => True).
Proof using Hid.
  apply (Runs_bind _ _ _ _ (fun _ => True)); [by apply Runs_snapshot|]. intros [status|] _; [|by apply Runs_ret].
  apply (Runs_bind _ _ _ _ (fun _ => True)).
  - destruct (InvocationStatus.state status); try (by apply Runs_ret);
      [by apply (Runs_store_op _ _ _ (Op.Release id ReleaseReason.Abandoned))|
       by apply (Runs_store_op _ _ _ (Op.MarkUnknownEffect id))].
  - intros st _. destruct (InvocationStatus.terminal st); [apply Runs_replay|by apply Runs_ret].
Qed.
End lifecycle.

Lemma Runs_capture n call request deadline :
  call_typed call -> body_typed (RequestBody.Capture request) ->
  Runs n (own n call (RequestBody.Capture request)) (capture call request deadline) (fun _ => True).
Proof using Type.
  intros Hc Hb. apply (Runs_bind _ _ _ _ (fun _ => True)); [by apply Runs_ask|]. intros started _.
  eapply Runs_bind; [by apply Runs_attempt, Runs_begin_capture|].
  intros [[status limits|reply]|error] Hs; [|by apply Runs_ret..]. specialize (Hs _ eq_refl). cbn in Hs.
  apply (Runs_bind _ _ _ _ (fun _ => True)); [by apply Runs_on_running|]. intros _ _.
  eapply Runs_bind; [by apply Runs_attempt, Runs_run_invocation|]. intros reply _.
  apply (Runs_bind _ _ _ _ (fun _ => True)); [by apply Runs_on_running|]. intros _ _.
  destruct reply; [by apply Runs_ret|]. by apply Runs_or_internal, Runs_after_error.
Qed.

(** *** The handler *)

Lemma call_new_Ok conn request call :
  call_new conn request = Ok call -> request_typed conn request ->
  call_typed call /\ Call.tenant call = ConnIdentity.tenant conn /\ Call.grant call = Request.grant request.
Proof using Type.
  intros Hc (Hf & Hd & _). apply bind_Ok in Hc as (digest & _ & Hc). apply Ok_inj in Hc as <-.
  unfold call_typed, in_range in *. cbn [Call.max_frame Call.deadline_ms Call.tenant Call.grant].
  unfold MAX_DEADLINE_MS. split_and!; try done; lia.
Qed.

Lemma Runs_execute n call body :
  body_typed body -> (forall r, body <> RequestBody.Capture r) ->
  Runs n (own n call body) (execute call body) (fun _ => True).
Proof using Type.
  intros Ht Hn. destruct body as [|fork|r|r|r|r|r|r|r]; cbn [execute].
  - by apply Runs_open_session.
  - by apply Runs_open_session.
  - by destruct (Hn r).
  - apply Runs_ingest.
  - apply Runs_read.
  - apply Runs_query.
  - by apply Runs_grant_issue.
  - apply Runs_grant_revoke.
  - apply Runs_audit_query.
Qed.

Lemma Runs_handle n conn request deadline call :
  call_new conn request = Ok call -> request_typed conn request -> Request.mode request = Mode.Execute ->
  Runs n (own n call (Request.body request)) (handle conn request deadline) (fun _ => True).
Proof using Type.
  intros Hc Ht Hm. unfold handle. rewrite Hc, Hm. pose proof (call_new_Ok _ _ _ Hc Ht) as [Hct _].
  destruct Ht as (_ & _ & Hb). apply Runs_or_internal.
  destruct (Request.body request) eqn:Eb; try (by apply Runs_execute). by apply Runs_capture.
Qed.

(** The operations a request on a connection may perform. *)
Definition may (conn : ConnIdentity) (request : Request) (n : nat) (op : Op) : Prop :=
  Request.mode request = Mode.Execute /\
  exists call, call_new conn request = Ok call /\ Call.tenant call = ConnIdentity.tenant conn /\
    Call.grant call = Request.grant request /\ own n call (Request.body request) op.

(** C4. What a request can do to the store. Whatever the other tasks do
    meanwhile, handling a request leaves the store as a run of theirs
    interleaved with the request's own operations, at most one a step; a dry
    run, and a request whose facts cannot be encoded, has none; and an
    executed request has only those its body calls for, all under the
    connection's tenant and the designated grant: the audit notes and claims
    of its own capability, the one session, grant or revocation it asks for,
    and the lifecycle steps of an invocation it drew itself. Each is typed,
    so every guarantee over runs of the store holds through every request. *)
Theorem request_confined (conn : ConnIdentity) (request : Request) (deadline : Z) (w : World) :
  request_typed conn request ->
  let w' := (handle conn request deadline w).2 in
  exists trace,
    Interleaved (may conn request (World.tick w)) (World.tick w) trace (World.tick w') /\
    World.db w' = run (World.db w) trace /\
    ((forall k, Typed (Tick.others (env k))) -> Typed trace).
Proof using Type.
  intros Ht w'. subst w'. set (P := may conn request (World.tick w)).
  assert (Runs (World.tick w) P (handle conn request deadline) (fun _ => True)) as Hr.
  { unfold handle. destruct (call_new conn request) as [call|e] eqn:Hc; [|by apply Runs_ret].
    destruct (Request.mode request) eqn:Hm; [|by apply Runs_or_internal, Runs_plan].
    pose proof (Runs_handle (World.tick w) conn request deadline call Hc Ht Hm) as Hr.
    unfold handle in Hr. rewrite Hc, Hm in Hr. eapply Runs_mono; [exact Hr|].
    intros op Ho. split; [done|]. exists call. destruct (call_new_Ok _ _ _ Hc Ht) as (_ & ? & ?). done. }
  destruct (Hr w ltac:(lia)) as (trace & Hi & Hd & _). exists trace. split_and!; [done|done|].
  intros He. eapply Interleaved_Typed; [done| |done]. intros op (_ & call & _ & _ & _ & Ho & _). done.
Qed.

(** A dry run writes nothing: the store it leaves is the one the other
    tasks made meanwhile, operation for operation, so a plan reserves, binds
    and audits nothing, whatever its outcome. *)
Theorem dry_run_writes_nothing (conn : ConnIdentity) (request : Request) (deadline : Z) (w : World) :
  Request.mode request = Mode.DryRun ->
  let w' := (handle conn request deadline w).2 in
  World.db w' = run (World.db w)
    (seq (World.tick w) (World.tick w' - World.tick w) ≫= fun k => Tick.others (env k)).
Proof using Type.
  intros Hm w'. assert (Runs 0 (fun _ => False) (handle conn request deadline) (fun _ => True)) as Hr.
  { unfold handle. destruct (call_new conn request); [|by apply Runs_ret]. rewrite Hm.
    apply Runs_or_internal, Runs_plan. }
  destruct (Hr w ltac:(lia)) as (trace & Hi & Hd & _). fold w' in Hi, Hd.
  apply Interleaved_others in Hi. by rewrite Hd, Hi.
Qed.
End handlers.
