(* ===== verification/Ends.v ===== *)
(** * Every capture ends its invocation, and says how

    Once B1 has committed, the lifecycle brings the invocation to a terminal
    state on every path through the producer's answers, cancellations,
    revocations and refused steps, and the reply is the ending the record
    holds. The other tasks may do anything in between but move this
    invocation, which only its own task does. *)
From S2P Require Import Prelude Vocab Ids Payload Wire Epitrope Origin View Chain Issue.
From S2P Require Import Budget Decision Revoke Lifecycle Records Store Seal StoreAudit Invocation.
From S2P Require Import Transition Directory Claim Recovery Read Invariant Steps StoreRun.
From S2P Require Import Runs Guarantees Custody Daemon Limits Calls Reads Capture Orchestrator Confine.
Local Open Scope Z_scope.

(** The log only grows, so a log with room at the end had room all along. *)
Lemma last_seq_Logged db db' : AuditLog db -> AuditLog db' -> Logged db db' -> last_seq db <= last_seq db'.
Proof.
  intros [Hc _ _ _] [Hc' _ _ _] HL. pose proof (last_seq_nonneg db). pose proof (last_seq_nonneg db').
  destruct (decide (last_seq db = 0)) as [->|Hn]; [done|].
  destruct (proj2 (Hc (last_seq db)) ltac:(lia)) as [stub Hs].
  eapply lookup_weaken in Hs; [|apply HL]. destruct (proj1 (Hc' (last_seq db)) ltac:(eauto)). lia.
Qed.

(** One lifecycle step: nothing changed and it failed, or the record moved,
    and it failed only if a crash was injected after the commit. *)
Definition Moved `{Hashes} (step : Step) (apply : Timestamp -> Apply) (r r' : InvocationRecord) : Prop :=
  exists now db next r1 db1, Inv db /\ steps_to (InvocationRecord.state r) step next /\
    apply now db r = Ok (r1, db1) /\ r' = stored now next r1.
Lemma transition_run `{Hashes} fp now db id step b (apply : Timestamp -> Apply) r res db' :
  Inv db -> Db.invocations db !! id = Some r -> StageSound now db id step (apply now) ->
  transition fp now db id step b (apply now) = (res, db') ->
  Inv db' /\
  (db' = db /\ (exists e, res = Err e) \/
   exists r', Db.invocations db' !! id = Some r' /\ Moved step apply r r' /\
     (res = Ok (status_of r') \/ (exists e, res = Err e) /\ fp <> NoFailpoints)).
Proof.
  intros HI Hr Hst Ht.
  assert (forall b' st d, transition_tx now db id step b (apply now) = Ok (Committed b' st d) -> Inv d /\
    exists r', Db.invocations d !! id = Some r' /\ Moved step apply r r' /\ st = status_of r') as Hc.
  { intros b' st d Hd. pose proof Hd as Hd'. apply transition_Stepped in Hd as (HI' & x & r' & Hs & -> & _); [|done|done].
    apply transition_tx_Ok in Hd' as (y & next & r1 & db1 & db2 & Hy & Hn & Ha & Hf & _). injection Hf as _ _ Hd.
    assert (y = r) as -> by congruence. split; [done|]. exists r'. rewrite (sp_invocations _ _ _ _ _ _ Hs), lookup_insert_eq.
    split_and!; [done| |done]. exists now, db, next, r1, db1. split_and!; try done.
    pose proof (ro_id _ _ (inv_records db HI id r Hr)) as Hid.
    pose proof (st_id _ _ _ _ (Hst r next r1 db1 Hr Hid Hn Ha)) as Hid1. rewrite Hid in Hid1.
    pose proof (sp_invocations _ _ _ _ _ _ Hs) as Hi. subst d.
    apply (f_equal (lookup id)) in Hi. rewrite lookup_insert_eq in Hi.
    cbn [Db.invocations put_invocation set_invocations] in Hi. rewrite Hid1, lookup_insert_eq in Hi. by injection Hi. }
  unfold transition, with_tx, commit in Ht.
  destruct (transition_tx now db id step b (apply now)) as [[st|[b'|] st d]|e] eqn:Etx.
  - apply transition_tx_Ok in Etx as (? & ? & ? & ? & ? & _ & _ & _ & ? & _). discriminate.
  - destruct (Hc _ _ _ eq_refl) as (HI' & r' & Hr' & Hm & ->).
    destruct (Failpoint.before_commit fp b') eqn:Ebc; [injection Ht as <- <-; split; [done|left; eauto]|].
    destruct (Failpoint.after_commit fp b') eqn:Eac; injection Ht as <- <-; (split; [done|right; exists r'; split_and!; [done..|]]); [|by left].
    right. split; [eauto|]. by intros ->.
  - destruct (Hc _ _ _ eq_refl) as (HI' & r' & Hr' & Hm & ->). injection Ht as <- <-.
    split; [done|right]. exists r'. auto.
  - injection Ht as <- <-. split; [done|left; eauto].
Qed.

Section ends.
Context `{Hashes} `{Environment}.
Context (id : InvocationId).
Context (Htyped : forall k, Typed (Tick.others (env k))).
Context (Hforeign : forall k, Forall (fun e => ~ moves e.2 id) (Tick.others (env k))).

(** ** Assertions on the store *)

(** The record of the invocation satisfies [P]. *)
Definition At (P : InvocationRecord -> Prop) (db : Db) : Prop :=
  Inv db /\ exists r, Db.invocations db !! id = Some r /\ P r.
(** Without injected crashes and with room in the log, [P]. *)
Definition calm : Prop := forall k, Tick.failpoint (env k) = NoFailpoints.
Definition Calm (P : InvocationRecord -> Prop) (db : Db) : Prop :=
  At (fun r => calm -> last_seq db < u64_max -> P r) db.
Definition Stable (A : Db -> Prop) : Prop := forall k db,
  A db -> A (run db (Tick.others (env k))).

Lemma run_foreign trace db r :
  Typed trace -> Forall (fun e => ~ moves e.2 id) trace -> Inv db -> Db.invocations db !! id = Some r ->
  Inv (run db trace) /\ Db.invocations (run db trace) !! id = Some r /\ last_seq db <= last_seq (run db trace).
Proof using Type.
  revert db. induction trace as [|[[fp now] op] trace IH]; intros db Ht Hf HI Hr; [done|].
  apply Forall_cons in Ht as [Ho Ht]. apply Forall_cons in Hf as [Hm Hf]. cbn [snd] in *.
  pose proof (exec_Inv fp now db op HI Ho) as HI'. destruct (exec_Grew fp now db op HI Ho) as [HA HL].
  destruct (HA id r Hr) as (r' & _ & Hr' & _ & _ & _ & [?| ->]); [done|].
  destruct (IH (exec fp now db op) Ht Hf HI' Hr') as (? & ? & ?). cbn [run foldl]. split_and!; try done.
  pose proof (last_seq_Logged _ _ (inv_audit db HI) (inv_audit _ HI') HL). unfold run in *. lia.
Qed.
Lemma At_Stable P : Stable (At P).
Proof using Htyped Hforeign.
  intros k db (HI & r & Hr & HP). destruct (run_foreign _ db r (Htyped k) (Hforeign k) HI Hr) as (? & ? & _).
  split; [done|eauto].
Qed.
Lemma Calm_Stable P : Stable (Calm P).
Proof using Htyped Hforeign.
  intros k db (HI & r & Hr & HP). destruct (run_foreign _ db r (Htyped k) (Hforeign k) HI Hr) as (? & ? & ?).
  split; [done|]. exists r. split; [done|]. intros Hc Hl. apply HP; [done|lia].
Qed.

(** ** Triples *)

(** From [A], [m] ends in [Q a] or fails in [E]. *)
Definition Triple {A} (I : Db -> Prop) (m : M A) (Q : A -> Db -> Prop) (E : Db -> Prop) : Prop := forall w,
  I (World.db w) -> match m w with
                    | (Ok a, w') => Q a (World.db w')
                    | (Err _, w') => E (World.db w')
                    end.

Lemma Triple_ret {A} (a : A) I (Q : A -> Db -> Prop) E : (forall db, I db -> Q a db) -> Triple I (mret a) Q E.
Proof using Type. intros HQ w Hw. by apply HQ. Qed.
Lemma Triple_bind {A B} (m : M A) (f : A -> M B) I R Q E :
  Triple I m R E -> (forall a, Triple (R a) (f a) Q E) -> Triple I (m ≫= f) Q E.
Proof using Type.
  intros Hm Hf w Hw. specialize (Hm w Hw). unfold mbind, M_bind. destruct (m w) as [[a|e] w1]; [|done].
  by apply Hf.
Qed.
(** A step that leaves the store alone. *)
Lemma Triple_step {A} (f : Tick -> World -> result DaemonError A * World) I (E : Db -> Prop) :
  Stable I -> (forall t w, World.db (f t w).2 = World.db w) -> (forall db, I db -> E db) ->
  Triple I (step f) (fun _ => I) E.
Proof using Type.
  intros HI Hf HE w Hw. unfold step. set (t := env (World.tick w)).
  pose proof (HI (World.tick w) _ Hw) as Hi. specialize (Hf t (others t w)).
  destruct (f t (others t w)) as [[a|e] w']; cbn in *; rewrite Hf; auto.
Qed.
Lemma Triple_read {A} (f : Timestamp -> Db -> result DaemonError A) I (E : Db -> Prop) :
  Stable I -> (forall db, I db -> E db) -> Triple I (snapshot f) (fun _ => I) E.
Proof using Type. intros. by apply Triple_step. Qed.
Lemma Triple_ask {A} (f : Tick -> A) I E : Stable I -> (forall db, I db -> E db) -> Triple I (ask f) (fun _ => I) E.
Proof using Type. intros. by apply Triple_step. Qed.
Lemma Triple_running f I E : Stable I -> Triple I (on_running f) (fun _ => I) E.
Proof using Type. intros HI w Hw. by apply (HI (World.tick w)) in Hw. Qed.
Lemma Triple_attempt {A} (m : M A) I Q E :
  Triple I m Q E -> forall E', Triple I (attempt m) (fun r db => match r with Ok a => Q a db | Err _ => E db end) E'.
Proof using Type. intros Hm E' w Hw. specialize (Hm w Hw). unfold attempt. by destruct (m w) as [[a|e] w']. Qed.
Lemma Triple_weaken {A} (m : M A) (I I' : Db -> Prop) Q (Q' : A -> Db -> Prop) (E E' : Db -> Prop) :
  Triple I m Q E -> (forall db, I' db -> I db) -> (forall a db, Q a db -> Q' a db) -> (forall db, E db -> E' db) ->
  Triple I' m Q' E'.
Proof using Type.
  intros Hm HI HQ HE w Hw. specialize (Hm w (HI _ Hw)). destruct (m w) as [[a|e] w']; auto.
Qed.

Lemma store_op_run {A} (f : Failpoint -> Timestamp -> Db -> result StoreError A * Db) w :
  store_op f w =
    let t := env (World.tick w) in
    let '(r, db) := f (Tick.failpoint t) (Tick.now t) (World.db (others t w)) in
    (map_err DaemonError.Store r, World.mk db (World.running (others t w)) (World.tick (others t w))).
Proof using Type. done. Qed.

(** A lifecycle step of the invocation. *)
Lemma Triple_transition step b (apply : Timestamp -> Apply) (P : InvocationRecord -> Prop) :
  (forall now db, Inv db -> StageSound now db id step (apply now)) ->
  Triple (At P) (store_op (fun fp now db => transition fp now db id step b (apply now)))
    (fun st => At (fun r' => st = status_of r' /\ exists r, P r /\ Moved step apply r r'))
    (Calm P).
Proof using Htyped Hforeign.
  intros Hs w Hw. rewrite store_op_run. cbv beta zeta. set (t := env (World.tick w)).
  apply (At_Stable P (World.tick w)) in Hw. fold t in Hw. change (run _ _) with (World.db (others t w)) in Hw.
  destruct Hw as (HI & r & Hr & HP). destruct (transition _ _ _ _ _ _ _) as [res db'] eqn:Et.
  destruct (transition_run _ _ _ _ _ _ _ _ _ _ HI Hr (Hs _ _ HI) Et)
    as (HI' & [[-> [e ->]]|(r' & Hr' & Hm & [->|[[e ->] Hfp]])]); cbn.
  - split; [done|]. exists r. auto.
  - split; [done|]. exists r'. eauto.
  - split; [done|]. exists r'. split; [done|]. intros Hc. by specialize (Hc (World.tick w)).
Qed.

(** A step that cannot fail without a crash while the log has room. *)
Lemma Triple_total step b (apply : Timestamp -> Apply) (P : InvocationRecord -> Prop) :
  (forall now db, Inv db -> StageSound now db id step (apply now)) ->
  (forall now db r, Inv db -> Db.invocations db !! id = Some r -> P r -> last_seq db < u64_max ->
     exists st db', transition NoFailpoints now db id step b (apply now) = (Ok st, db')) ->
  Triple (At P) (store_op (fun fp now db => transition fp now db id step b (apply now)))
    (fun st => At (fun r' => st = status_of r' /\ exists r, P r /\ Moved step apply r r'))
    (Calm (fun _ => False)).
Proof using Htyped Hforeign.
  intros Hs Htot w Hw. pose proof (Triple_transition step b apply P Hs w Hw) as Ht. revert Ht.
  rewrite store_op_run. cbv beta zeta. set (t := env (World.tick w)).
  apply (At_Stable P (World.tick w)) in Hw. fold t in Hw. change (run _ _) with (World.db (others t w)) in Hw.
  destruct Hw as (HI & r & Hr & HP). specialize (Htot (Tick.now t) _ r HI Hr HP).
  destruct (transition (Tick.failpoint t) (Tick.now t) (World.db (others t w)) id step b (apply (Tick.now t)))
    as [[st|e] db'] eqn:Et; [exact (fun x => x)|]. cbn.
  intros (HI' & r' & Hr' & _). split; [done|]. exists r'. split; [done|]. intros Hc Hl.
  pose proof (Hc (World.tick w)) as Hfp. fold t in Hfp. rewrite Hfp in Et.
  destruct (transition_run _ _ _ _ _ _ _ _ _ _ HI Hr (Hs _ _ HI) Et)
    as (_ & [[-> _]|(x & _ & _ & [?|[_ ?]])]); try done.
  destruct (Htot Hl) as (st & db2 & Htt). congruence.
Qed.

(** ** The paths of the lifecycle *)

(** [reply] is the ending the record holds. *)
Definition Answers (r : InvocationRecord) (reply : Reply) : Prop :=
  Reply.invocation reply = Some id /\
  match InvocationRecord.terminal r with
  | Some (Terminal.Settled None) => exists outcome, Reply.body reply = ResponseBody.Captured outcome
  | Some t => exists failure, terminal_reply_failure t = Some failure /\
      Reply.body reply = ResponseBody.Failed failure
  | None => False
  end.
Definition Ended (reply : Reply) (r : InvocationRecord) : Prop :=
  is_terminal (InvocationRecord.state r) = true /\ Answers r reply.
Definition early (r : InvocationRecord) : Prop :=
  InvocationRecord.state r = InvocationState.IntentPersisted \/
  InvocationRecord.state r = InvocationState.Dispatched.
Definition at_state (s : InvocationState) (r : InvocationRecord) : Prop := InvocationRecord.state r = s.

Lemma Calm_weaken (P Q : InvocationRecord -> Prop) db : (forall r, P r -> Q r) -> Calm P db -> Calm Q db.
Proof using Type. intros HPQ (HI & r & Hr & HP). split; [done|]. exists r. auto. Qed.
Lemma At_weaken (P Q : InvocationRecord -> Prop) db : (forall r, P r -> Q r) -> At P db -> At Q db.
Proof using Type. intros HPQ (HI & r & Hr & HP). split; [done|]. exists r. auto. Qed.
Lemma At_Calm (P Q : InvocationRecord -> Prop) db : (forall r, P r -> Q r) -> At P db -> Calm Q db.
Proof using Type. intros HPQ (HI & r & Hr & HP). split; [done|]. exists r. auto. Qed.

Lemma Moved_terminal step s r0 t r r' apply :
  apply = (fun _ db r => apply_settlement (s r) db (r0 r)) -> (forall r, InvocationRecord.terminal (r0 r) = Some t) ->
  Moved step apply r r' -> InvocationRecord.terminal r' = Some t.
Proof using Type.
  intros -> Hr0 (now & db & next & r1 & db1 & _ & _ & Ha & ->). unfold apply_settlement in Ha.
  apply bind_Ok in Ha as (db2 & _ & Ha). apply Ok_inj in Ha. injection Ha as <- _. apply Hr0.
Qed.
Lemma Moved_settled outcome r r' :
  Moved Step.Settle (fun _ => stage_settle outcome) r r' ->
  InvocationRecord.terminal r' =
    Some (Terminal.Settled (match outcome with SettleOutcome.Success => None | SettleOutcome.Failed f _ => Some f end)).
Proof using Type.
  intros (now & db & next & r1 & db1 & _ & _ & Ha & ->). unfold stage_settle in Ha.
  apply bind_Ok in Ha as ([actual failure] & Hi & Ha). apply bind_Ok in Ha as (s & _ & Ha).
  unfold apply_settlement in Ha. apply bind_Ok in Ha as (db2 & _ & Ha). apply Ok_inj in Ha.
  injection Ha as <- _. cbn. f_equal. f_equal. unfold settle_input in Hi.
  destruct (InvocationRecord.state r), outcome as [|f c]; try done.
  - destruct (started_failure f); [|done]. by injection Hi.
  - apply bind_Ok in Hi as (a & _ & Hi). by injection Hi.
Qed.
Lemma Moved_state step apply r r' : Moved step apply r r' ->
  steps_to (InvocationRecord.state r) step (InvocationRecord.state r').
Proof using Type. by intros (now & db & next & r1 & db1 & _ & Hn & _ & ->). Qed.
Lemma Moved_ended step apply r r' : Moved step apply r r' ->
  match step with Step.Release _ | Step.Settle | Step.MarkUnknownEffect => True | _ => False end ->
  is_terminal (InvocationRecord.state r') = true.
Proof using Type.
  intros Hm%Moved_state Hs. destruct step; try done;
    first [apply step_Release in Hm|apply step_Settle in Hm|apply step_MarkUnknownEffect in Hm];
    destruct Hm as [_ ->]; done.
Qed.

Lemma release_path reason (P : InvocationRecord -> Prop) :
  Triple (At P) (Capture.release id reason) (fun reply => At (Ended reply)) (Calm P).
Proof using Htyped Hforeign.
  eapply Triple_bind; [apply (Triple_transition (Step.Release reason) Boundary.Terminal (fun _ => stage_release reason)); intros; by apply release_sound|].
  intros st. apply Triple_ret. intros db (HI & r' & Hr & -> & r & _ & Hm). split; [done|]. exists r'.
  split; [done|]. pose proof (Moved_ended _ _ _ _ Hm I) as Ht.
  apply (Moved_terminal _ (fun r => Settlement.mk cost_default (InvocationRecord.reserved r))
    (fun r => with_terminal (Some (Terminal.Released reason)) r) (Terminal.Released reason)) in Hm; [|done|done].
  split; [done|]. split; [done|]. rewrite Hm. cbn [status_of InvocationStatus.terminal default]. rewrite Hm.
  eexists. split; [reflexivity|]. by destruct reason.
Qed.
Lemma settle_failed_path failure actual (P : InvocationRecord -> Prop) : cost_wf actual ->
  Triple (At P) (settle_failed id failure actual) (fun reply => At (Ended reply)) (Calm P).
Proof using Htyped Hforeign.
  intros Hw. eapply Triple_bind.
  - apply (Triple_transition Step.Settle Boundary.Terminal (fun _ => stage_settle (SettleOutcome.Failed failure actual))).
    intros now db HI. apply settle_sound; [done|]. by intros f c [= <- <-].
  - intros st. apply Triple_ret. intros db (HI & r' & Hr & -> & r & _ & Hm). split; [done|]. exists r'.
    split; [done|]. split; [by apply (Moved_ended _ _ _ _ Hm)|]. apply Moved_settled in Hm.
    split; [done|]. rewrite Hm. by eexists.
Qed.
Lemma end_unknown_path (P : InvocationRecord -> Prop) :
  Triple (At P) (end_unknown id) (fun reply => At (Ended reply)) (Calm P).
Proof using Htyped Hforeign.
  eapply Triple_bind; [apply (Triple_transition Step.MarkUnknownEffect Boundary.Terminal (fun _ => stage_unknown_effect)); intros; by apply mark_unknown_effect_sound|].
  intros st. apply Triple_ret. intros db (HI & r' & Hr & -> & r & _ & Hm). split; [done|]. exists r'.
  split; [done|]. split; [by apply (Moved_ended _ _ _ _ Hm)|].
  apply (Moved_terminal _ (fun r => unknown_effect_settlement (InvocationRecord.reserved r))
    (fun r => with_terminal (Some Terminal.UnknownEffect) r) Terminal.UnknownEffect) in Hm; [|done|done].
  split; [done|]. rewrite Hm. by eexists.
Qed.
Lemma publish_path call limits output elapsed : 0 <= elapsed <= u64_max ->
  Triple (At (at_state InvocationState.Dispatched)) (Capture.publish call limits id output elapsed)
    (fun reply => At (Ended reply)) (Calm early).
Proof using Htyped Hforeign.
  intros He. eapply Triple_bind.
  { apply Triple_read; [apply At_Stable|]. intros db. apply At_Calm. by right. }
  intros refusal. cbv zeta. set (transfer := transfer_of _ _ _ _ _). eapply Triple_bind.
  { eapply Triple_weaken;
      [apply (Triple_transition Step.CompleteTransfer Boundary.CompleteTransfer (fun _ => stage_transfer transfer))|done|done|].
    - intros now db HI. apply complete_transfer_sound; [done|]. by apply transfer_of_wf.
    - intros db. apply Calm_weaken. by right. }
  intros st. eapply Triple_bind.
  { eapply (Triple_weaken _ (At (at_state InvocationState.TransferComplete)));
      [apply (Triple_total Step.Publish Boundary.Publish stage_publish)|..].
    - intros now db HI. by apply publish_sound.
    - intros now db r HI Hr Hs Hl. destruct (publish_took now db id r HI Hr Hs) as (x & db' & Hx & _). eauto.
    - intros db. apply At_weaken. intros r' (_ & r & _ & Hm%Moved_state). by apply step_CompleteTransfer in Hm as [_ ?].
    - done.
    - intros db. by apply Calm_weaken. }
  intros st2. eapply Triple_bind.
  { eapply (Triple_weaken _ (At (at_state InvocationState.Published)));
      [apply (Triple_total Step.Settle Boundary.Terminal (fun _ => stage_settle SettleOutcome.Success))|..].
    - intros now db HI. by apply settle_sound.
    - intros now db r HI Hr Hs Hl. destruct (settle_took now db id r HI Hr Hl Hs) as (x & db' & Hx & _). eauto.
    - intros db. apply At_weaken. intros r' (_ & r & _ & Hm%Moved_state). by apply step_Publish in Hm as [_ ?].
    - done.
    - intros db. by apply Calm_weaken. }
  intros st3. apply Triple_ret. intros db (HI & r' & Hr & _ & r & _ & Hm). split; [done|]. exists r'.
  split; [done|]. split; [by apply (Moved_ended _ _ _ _ Hm)|]. apply Moved_settled in Hm.
  split; [done|]. rewrite Hm. by eexists.
Qed.
Lemma fail_path grant error deadline elapsed : 0 <= elapsed <= u64_max ->
  Triple (At (at_state InvocationState.Dispatched)) (fail grant id error deadline elapsed)
    (fun reply => At (Ended reply)) (Calm early).
Proof using Htyped Hforeign.
  intros He. assert (forall db, Calm (at_state InvocationState.Dispatched) db -> Calm early db) as Hd.
  { intros db. apply Calm_weaken. by right. }
  assert (forall db, At (at_state InvocationState.Dispatched) db -> Calm early db) as Hd'.
  { intros db. apply At_Calm. by right. }
  assert (forall reason, Triple (At (at_state InvocationState.Dispatched)) (Capture.release id reason)
    (fun reply => At (Ended reply)) (Calm early)) as Hrel.
  { intros reason. eapply Triple_weaken; [apply release_path|done|done|done]. }
  assert (forall f, Triple (At (at_state InvocationState.Dispatched)) (settle_failed id f (spent elapsed 0))
    (fun reply => At (Ended reply)) (Calm early)) as Hset.
  { intros f. eapply Triple_weaken; [by apply settle_failed_path, spent_wf|done|done|done]. }
  destruct error as [[]|class|class|[]]; cbn [fail]; try apply Hrel; try apply Hset.
  - eapply Triple_weaken; [apply end_unknown_path|done|done|done].
  - eapply Triple_bind; [by apply Triple_ask, Hd'; apply At_Stable|]. intros t. apply Hset.
  - eapply Triple_bind; [|intros reason; apply Hrel]. unfold stop_reason.
    eapply Triple_bind; [by apply Triple_read; [apply At_Stable|]|].
    intros [code|]; [by apply Triple_ret|]. eapply Triple_bind; [by apply Triple_ask; [apply At_Stable|]|].
    intros t. by apply Triple_ret.
Qed.

Lemma produce_path request grant flight I E :
  Stable I -> Triple I (produce request grant flight) (fun _ => I) E.
Proof using Type.
  intros HI w Hw. unfold produce. set (rounds := (_ - _)%nat). clearbody rounds.
  generalize (Some (Tick.instant (env (World.tick w)) + CHAIN_POLL)) as forwarding. revert w Hw. induction rounds as [|rounds IH]; intros w Hw forwarding; cbn [produce_loop];
    (destruct (Tick.acquired _ request) as [[]|]; [by apply HI..|]); [by apply HI|].
  destruct forwarding; [destruct (_ || _)|]; apply IH; by apply HI.
Qed.
Lemma run_path call request limits flight :
  Triple (At (at_state InvocationState.IntentPersisted)) (run_invocation call request limits id flight)
    (fun reply => At (Ended reply)) (Calm early).
Proof using Htyped Hforeign.
  assert (forall db, At (at_state InvocationState.IntentPersisted) db -> Calm early db) as H1.
  { intros db. apply At_Calm. by left. }
  assert (forall db, At (at_state InvocationState.Dispatched) db -> Calm early db) as H2.
  { intros db. apply At_Calm. by right. }
  eapply Triple_bind; [by apply Triple_ask; [apply At_Stable|]|]. intros cancelled.
  eapply (Triple_bind _ _ _ (fun _ => At (at_state InvocationState.IntentPersisted))).
  { unfold pre_dispatch. eapply Triple_bind; [by apply Triple_read; [apply At_Stable|]|].
    intros [code|]; [by apply Triple_ret|]. destruct cancelled; [by apply Triple_ret|].
    eapply Triple_bind; [by apply Triple_ask; [apply At_Stable|]|]. intros t. by apply Triple_ret. }
  intros [reason|].
  { eapply Triple_weaken; [apply release_path|done|done|]. intros db. apply Calm_weaken. by left. }
  eapply Triple_bind.
  { eapply (Triple_weaken _ _ _ _ (fun _ => At (at_state InvocationState.Dispatched)));
      [apply (Triple_transition Step.Dispatch Boundary.Dispatch (fun _ db record => Ok (record, db)));
       intros; by apply dispatch_sound|done| |].
    - intros st db. apply At_weaken. intros r' (_ & r & _ & Hm%Moved_state). by apply step_Dispatch in Hm as [_ ?].
    - intros db. apply Calm_weaken. by left. }
  intros ?. cbv zeta. eapply Triple_bind; [apply produce_path, At_Stable|]. intros produced.
  intros w Hw. unfold mbind, M_bind.
  pose proof (Triple_ask (fun t => elapsed_ms (Flight.started flight) (Tick.instant t)) _ (Calm early)
    (At_Stable (at_state InvocationState.Dispatched)) H2 w Hw) as Ha.
  destruct (ask _ w) as [[elapsed|e] w1] eqn:Eask; [|done].
  assert (0 <= elapsed <= u64_max) as He.
  { unfold ask, step in Eask. injection Eask as <- _. apply elapsed_range. }
  clear Eask. revert w1 Ha. change (Triple (At (at_state InvocationState.Dispatched))
    (match produced with
     | Produced.Output output => finish call limits id output elapsed
     | Produced.Error error => fail (Call.grant call) id error (Flight.deadline flight) elapsed
     | Produced.Abandoned => end_unknown id
     end) (fun reply => At (Ended reply)) (Calm early)).
  destruct produced as [output|error|]; [|by apply fail_path|].
  - unfold finish. case_match; [|by apply publish_path].
    eapply Triple_weaken; [by apply settle_failed_path, spent_wf|done|done|]. intros db. apply Calm_weaken. by right.
  - eapply Triple_weaken; [apply end_unknown_path|done|done|]. intros db. apply Calm_weaken. by right.
Qed.

(** ** After a failed step *)

(** [X] of the record, and [P] without crashes and with room. *)
Definition Sure (X P : InvocationRecord -> Prop) (db : Db) : Prop :=
  At (fun r => X r /\ (calm -> last_seq db < u64_max -> P r)) db.
Lemma Sure_Stable X P : Stable (Sure X P).
Proof using Htyped Hforeign.
  intros k db (HI & r & Hr & HX & HP). destruct (run_foreign _ db r (Htyped k) (Hforeign k) HI Hr) as (? & ? & ?).
  split; [done|]. exists r. split_and!; [done|done|]. intros Hc Hl. apply HP; [done|lia].
Qed.
Definition honest (reply : Reply) (r : InvocationRecord) : Prop :=
  Answers r reply \/ Reply.body reply = ResponseBody.Failed Failure.UnknownEffect.

Lemma bind_ret {A B} (a : A) (f : A -> M B) : mret a ≫= f = f a.
Proof using Type. done. Qed.
Lemma Triple_pure {A} (phi : Prop) (m : M A) I Q E :
  (forall db, I db -> phi) -> (phi -> Triple I m Q E) -> Triple I m Q E.
Proof using Type. intros Hphi Hm w Hw. by apply Hm; [apply (Hphi _ Hw)|]. Qed.
Lemma Triple_status P E :
  Triple (Calm P) (snapshot (fun _ db => Ok (invocation db id)))
    (fun o => Sure (fun r => o = Some (status_of r)) P) E.
Proof using Htyped Hforeign.
  intros w Hw. apply (Calm_Stable P (World.tick w)) in Hw. unfold snapshot, step. cbn.
  destruct Hw as (HI & r & Hr & HP). split; [done|]. exists r. split_and!; [done| |done].
  unfold invocation, invocation_record. by rewrite Hr.
Qed.

Lemma replay_path status t (P : InvocationRecord -> Prop) :
  InvocationStatus.id status = id -> InvocationStatus.terminal status = Some t ->
  Triple (Sure (fun r => InvocationRecord.terminal r = Some t) P) (Capture.replay status)
    (fun reply => Sure (honest reply) (fun r => P r /\ (t <> Terminal.Settled None -> Answers r reply)))
    (Sure (fun _ => t = Terminal.Settled None) P).
Proof using Htyped Hforeign.
  intros Hid Ht. unfold Capture.replay. rewrite Ht.
  assert (forall body, (forall r, InvocationRecord.terminal r = Some t ->
      Answers r (reply_of id body) \/ t = Terminal.Settled None /\ body = ResponseBody.Failed Failure.UnknownEffect) ->
    Triple (Sure (fun r => InvocationRecord.terminal r = Some t) P) (mret (reply_of id body))
      (fun reply => Sure (honest reply) (fun r => P r /\ (t <> Terminal.Settled None -> Answers r reply)))
      (Sure (fun _ => t = Terminal.Settled None) P)) as Hret.
  { intros body Hb. apply Triple_ret. intros db (HI & r & Hr & Hter & HP). split; [done|]. exists r.
    split; [done|]. destruct (Hb r Hter) as [Ha|[-> ->]]; (split; [|intros; split; [by apply HP|done]]).
    - by left.
    - by right. }
  rewrite Hid. destruct t as [[f|]|reason|].
  - rewrite bind_ret. apply Hret. intros r Hr. left. split; [done|]. rewrite Hr. by eexists.
  - eapply (Triple_bind _ _ _ (fun body => Sure (fun r => InvocationRecord.terminal r = Some (Terminal.Settled None) /\
      ((exists o, body = ResponseBody.Captured o) \/ body = ResponseBody.Failed Failure.UnknownEffect)) P)).
    + unfold captured. destruct (InvocationStatus.artifact status) as [a|].
      * unfold store_artifact. eapply (Triple_bind _ _ _ (fun _ =>
          Sure (fun r => InvocationRecord.terminal r = Some (Terminal.Settled None)) P)); [eapply Triple_bind; [apply Triple_read; [apply Sure_Stable|]|]|].
        -- intros db. apply At_weaken. by intros r [_ ?].
        -- intros info. apply Triple_ret. intros db Hdb. exact Hdb.
        -- intros outcome. apply Triple_ret. intros db. apply At_weaken. intros r [Hr HP]. split; [|done].
           split; [done|]. destruct outcome; eauto.
      * rewrite !bind_ret. apply Triple_ret. intros db. apply At_weaken. intros r [Hr HP]. auto.
    + intros body. apply Triple_pure with ((exists o, body = ResponseBody.Captured o) \/ body = ResponseBody.Failed Failure.UnknownEffect).
      { by intros db (_ & r & _ & (_ & Hb) & _). }
      intros Hb. eapply Triple_weaken; [apply (Hret body)| |done|done].
      * intros r Hr. destruct Hb as [[o ->]| ->]; [left|by right]. split; [done|]. rewrite Hr. by eexists.
      * intros db. apply At_weaken. by intros r [[Hr _] HP].
  - rewrite bind_ret. apply Hret. intros r Hr. left. split; [done|]. rewrite Hr. eexists. split; [reflexivity|].
    by destruct reason.
  - rewrite bind_ret. apply Hret. intros r Hr. left. split; [done|]. rewrite Hr. by eexists.
Qed.

Definition resolved (r : InvocationRecord) : Prop :=
  is_terminal (InvocationRecord.state r) = true /\
  exists t, InvocationRecord.terminal r = Some t /\ t <> Terminal.Settled None.
Lemma resolve_path status :
  Triple (Sure (fun r => Some status = Some (status_of r)) early)
    (match InvocationStatus.state status with
     | InvocationState.IntentPersisted =>
         store_op (fun fp now db => Transition.release fp now db id ReleaseReason.Abandoned)
     | InvocationState.Dispatched => store_op (fun fp now db => mark_unknown_effect fp now db id)
     | _ => mret status
     end)
    (fun st => Sure (fun r => st = status_of r) resolved) (Calm (fun _ => False)).
Proof using Htyped Hforeign.
  assert (forall s, InvocationStatus.state status = s -> s <> InvocationState.IntentPersisted ->
    s <> InvocationState.Dispatched -> Triple (Sure (fun r => Some status = Some (status_of r)) early) (mret status)
    (fun st => Sure (fun r => st = status_of r) resolved) (Calm (fun _ => False))) as Hkeep.
  { intros s Hs H1 H2. apply Triple_ret. intros db. apply At_weaken. intros r [[= ->] He]. split; [done|].
    intros Hc Hl. destruct (He Hc Hl) as [Hr|Hr]; cbn in Hs; congruence. }
  assert (forall s db, InvocationStatus.state status = s ->
    Sure (fun r => Some status = Some (status_of r)) early db -> At (at_state s) db) as Hat.
  { intros s db Hs. apply At_weaken. by intros r [[= ->] _]. }
  destruct (InvocationStatus.state status) eqn:Hs; try (by apply (Hkeep _ eq_refl)).
  - eapply (Triple_weaken _ (At (at_state InvocationState.IntentPersisted)));
      [apply (Triple_total _ Boundary.Terminal (fun _ => stage_release ReleaseReason.Abandoned))|by intros db; apply Hat| |done].
    + intros now db HI. by apply release_sound.
    + intros now db r HI Hr Hst Hl. destruct (release_took now db id r HI Hr Hl Hst) as (x & d & Hx & _). eauto.
    + intros st db. apply At_weaken. intros r' (-> & r & _ & Hm). split; [done|]. intros _ _.
      split; [by apply (Moved_ended _ _ _ _ Hm)|]. exists (Terminal.Released ReleaseReason.Abandoned). split; [|done].
      by eapply (Moved_terminal _ (fun r => Settlement.mk cost_default (InvocationRecord.reserved r))
        (fun r => with_terminal (Some (Terminal.Released ReleaseReason.Abandoned)) r)) in Hm.
  - eapply (Triple_weaken _ (At (at_state InvocationState.Dispatched)));
      [apply (Triple_total _ Boundary.Terminal (fun _ => stage_unknown_effect))|by intros db; apply Hat| |done].
    + intros now db HI. by apply mark_unknown_effect_sound.
    + intros now db r HI Hr Hst Hl. destruct (unknown_took now db id r HI Hr Hl Hst) as (x & d & Hx & _). eauto.
    + intros st db. apply At_weaken. intros r' (-> & r & _ & Hm). split; [done|]. intros _ _.
      split; [by apply (Moved_ended _ _ _ _ Hm)|]. exists Terminal.UnknownEffect. split; [|done].
      by eapply (Moved_terminal _ (fun r => unknown_effect_settlement (InvocationRecord.reserved r))
        (fun r => with_terminal (Some Terminal.UnknownEffect) r)) in Hm.
Qed.
Lemma after_error_path :
  Triple (Calm early) (after_error id) (fun reply => Sure (honest reply) (Ended reply)) (Calm (fun _ => False)).
Proof using Htyped Hforeign.
  eapply Triple_bind; [apply Triple_status|]. intros [status|]; [|by intros w (_ & r & _ & [=] & _)].
  eapply Triple_bind; [apply resolve_path|]. intros st. destruct (InvocationStatus.terminal st) as [t|] eqn:Et.
  - apply Triple_pure with (InvocationStatus.id st = id).
    { intros db (HI & r & Hr & -> & _). apply (inv_records db HI id r Hr). }
    intros Hid. eapply Triple_weaken; [apply (replay_path st t (fun r => resolved r /\ InvocationRecord.terminal r = Some t) Hid Et)|..].
    + intros db. apply At_weaken. intros r [-> Hres]. split; [done|]. intros. split; [auto|done].
    + intros reply db. apply At_weaken. intros r [Hh HP]. split; [done|]. intros Hc Hl.
      destruct (HP Hc Hl) as [[[Ht (t' & Ht' & Hn)] Htt] Ha]. split; [done|]. apply Ha. congruence.
    + intros db. apply At_weaken. intros r [-> HP] Hc Hl.
      destruct (HP Hc Hl) as [[_ (t' & Ht' & Hn)] Htt]. congruence.
  - apply Triple_ret. intros db. apply At_weaken. intros r [-> Hres]. split; [by right|].
    intros Hc Hl. destruct (Hres Hc Hl) as [_ (t & Ht & _)]. cbn in Et. congruence.
Qed.
End ends.

Lemma bind_run {A B} (m : M A) (f : A -> M B) w b w' :
  (m ≫= f) w = (Ok b, w') -> exists a w1, m w = (Ok a, w1) /\ f a w1 = (Ok b, w').
Proof. unfold mbind, M_bind. destruct (m w) as [[a|e] w1]; [|done]. eauto. Qed.
Lemma bind_eq {A B} (m : M A) (f : A -> M B) w a w1 : m w = (Ok a, w1) -> (m ≫= f) w = f a w1.
Proof. intros Hm. unfold mbind, M_bind. by rewrite Hm. Qed.
(** What B1 leaves behind when it commits. *)
Lemma begin_capture_At `{Hashes} `{Environment} call request w status limits w1 :
  (forall k, Typed (Tick.others (env k))) -> call_typed call -> body_typed (RequestBody.Capture request) ->
  Inv (World.db w) -> begin_capture call request w = (Ok (Started.Persisted status limits), w1) ->
  At (InvocationStatus.id status) (fun r => at_state InvocationState.IntentPersisted r /\ status = status_of r)
    (World.db w1).
Proof.
  intros He Hc Hb HI Hw. split.
  - destruct (Runs_begin_capture 0 call request Hc Hb w ltac:(lia)) as (trace & Hi & Hd & _).
    rewrite Hw in Hi, Hd. cbn [snd] in *. rewrite Hd. apply run_Inv_from; [done|].
    eapply Interleaved_Typed; [done| |done]. by intros op [? _].
  - unfold begin_capture in Hw. destruct (Call.key call) as [key|]; [|done].
    apply bind_run in Hw as (l & w2 & _ & Hw). apply bind_run in Hw as (i & w3 & _ & Hw). cbv zeta in Hw.
    apply bind_run in Hw as (begun & w4 & Hs & Hw). rewrite store_op_run in Hs. cbv beta zeta in Hs.
    destruct (begin _ _ _ _) as [res db'] eqn:Ebegin.
    injection Hs as Hres <-. apply map_err_Ok in Hres as ->.
    destruct begun as [st|st| |]; try done.
    + injection Hw as -> _ <-. apply begin_Persisted in Ebegin as (ids & rs & r & _ & Hr & _ & -> & Hid & Hst).
      exists r. cbn [InvocationStatus.id status_of World.db]. rewrite Hid. done.
    + by apply bind_run in Hw as (reply & w5 & _ & Hw).
Qed.

Section properties.
Context `{Hashes} `{Environment}.

(** C2. Every capture ends its invocation, and its reply says how. Once B1 has
    committed, whatever the producer answers or fails to, whatever is
    cancelled, revoked, expired or refused, and whatever the other tasks do to
    the store (short of moving this very invocation, which only its own task
    does): the call answers; without crashes, and while the audit log has
    room, the invocation is then in a terminal state, its reservation settled
    or released, and the reply carries the invocation and the ending its
    record holds, [Captured] exactly for a successful settlement and the
    record's own failure otherwise; and even when a step crashes, a reply that
    is not [UnknownEffect] is the ending the record holds. *)
Theorem capture_ends (trace : list Event) (call : Call) (request : CaptureRequest) (deadline : Z)
    (w w1 : World) (status : InvocationStatus) (limits : CaptureLimits) :
  Typed trace -> World.db w = run empty_db trace ->
  call_typed call -> body_typed (RequestBody.Capture request) ->
  (forall k, Typed (Tick.others (env k))) ->
  (forall k, Forall (fun e => ~ moves e.2 (InvocationStatus.id status)) (Tick.others (env k))) ->
  begin_capture call request (others (env (World.tick w)) w) = (Ok (Started.Persisted status limits), w1) ->
  let id := InvocationStatus.id status in
  exists reply w' r, capture call request deadline w = (Ok reply, w') /\
    Db.invocations (World.db w') !! id = Some r /\ honest id reply r /\
    ((forall k, Tick.failpoint (env k) = NoFailpoints) -> last_seq (World.db w') < u64_max ->
     is_terminal (InvocationRecord.state r) = true /\ Answers id r reply).
Proof using Type.
  intros Ht Hdb Hc Hb He Hf Hbegin id. pose proof (run_Inv trace Ht) as HI. rewrite <- Hdb in HI.
  assert (Inv (World.db (others (env (World.tick w)) w))) as HI0 by (by apply run_Inv_from).
  apply begin_capture_At in Hbegin as HA; [|done..]. fold id in HA.
  assert (Triple (At id (fun r => at_state InvocationState.IntentPersisted r /\ status = status_of r))
    (_ ← register id (InvocationStatus.grant_chain status);
     reply ← attempt (run_invocation call request limits id (Flight.mk deadline (Tick.instant (env (World.tick w)))));
     _ ← deregister id;
     match reply with Ok reply => mret reply | Err error => or_internal (after_error id) end)
    (fun reply => Sure id (honest id reply) (Ended id reply)) (fun _ => False)) as HT.
  { eapply Triple_bind; [apply Triple_running; by apply At_Stable|]. intros []. eapply Triple_bind.
    { eapply (Triple_attempt _ (At id (fun r => _))), Triple_weaken; [by apply run_path| |done|done].
      intros db. apply At_weaken. by intros r [? _]. }
    intros reply. apply (Triple_bind _ _ _ (fun _ db => match reply with
      Ok a => At id (Ended id a) db | Err _ => Calm id (early) db end)).
    { apply Triple_running. destruct reply; [by apply At_Stable|by apply Calm_Stable]. }
    intros []. destruct reply as [reply|error].
    - apply Triple_ret. intros db. apply At_weaken. intros r [Ht' Ha]. split; [by left|done].
    - unfold or_internal. eapply Triple_bind; [by apply Triple_attempt, after_error_path|].
      intros [reply|e]; apply Triple_ret; [done|]. intros db. apply At_weaken. intros r HF.
      split; [by right|]. intros Hcalm Hl. by destruct (HF Hcalm Hl). }
  specialize (HT w1 HA).
  match type of HT with context [match ?x with _ => _ end] => destruct x as [[reply|e] w'] eqn:Er end; [|done].
  destruct HT as (HI' & r & Hr & Hh & Hend). exists reply, w', r. split; [|done].
  unfold capture. rewrite (bind_eq _ _ _ (Tick.instant (env (World.tick w))) (others (env (World.tick w)) w)) by done.
  rewrite (bind_eq _ _ _ (Ok (Started.Persisted status limits)) w1) by (unfold attempt; by rewrite Hbegin).
  exact Er.
Qed.
End properties.
