(* ===== verification/Authority.v ===== *)
(** * No content without authority

    Every handler authorizes before it answers: a reply that is not a failure
    means that at some step of this very call the designated grant's chain
    was valid and carried the capability. Replays are no exception. *)
From S2P Require Import Prelude Vocab Ids Payload Wire Epitrope Origin View Chain Issue.
From S2P Require Import Budget Decision Revoke Lifecycle Records Store Seal StoreAudit Invocation.
From S2P Require Import Transition Directory Claim Idempotency Read Invariant Runs Custody.
From S2P Require Import Daemon Limits Calls Reads Capture Orchestrator Confine.
Local Open Scope Z_scope.

Section authority.
Context `{Hashes} `{Environment}.

(** The designated grant of the tenant authorizes the capability: the grant
    is the tenant's, its chain is valid now, every link carries it. *)
Definition Authorized (tenant : TenantId) (grant : GrantId) (capability : Capability) (now : Timestamp)
    (db : Db) : Prop :=
  exists chain, designated_chain db tenant grant capability now = Ok (Ok chain).

Lemma authorize_Authorized db request now ids res :
  authorize db request now = Ok (Decision.Allowed ids res) ->
  Authorized (AuthzRequest.tenant request) (AuthzRequest.grant request) (AuthzRequest.capability request) now db.
Proof using Type. intros (_ & chain & _ & _ & Hd & _)%authorize_inv. by exists chain. Qed.
Lemma store_plan_Authorized now db request p :
  store_plan now db request = Ok p -> Plan.refusal p = None ->
  Authorized (AuthzRequest.tenant request) (AuthzRequest.grant request) (AuthzRequest.capability request) now db.
Proof using Type.
  intros Hp%map_err_Ok. apply bind_Ok in Hp as (d & Hd & Hp). apply Ok_inj in Hp as <-. cbn.
  destruct d; try done. intros _. by eapply authorize_Authorized.
Qed.
Lemma check_issue_Authorized db context request now d :
  check_issue db context request now = Ok d -> issue_refusal d = None ->
  Authorized (IssueContext.issuer context) (IssueContext.designated context) Capability.GrantIssue now db.
Proof using Type.
  destruct context as [issuer designated child]. unfold check_issue, Authorized, designated_chain. cbn.
  intros Hd Hn. apply bind_Ok in Hd as ([parent|] & -> & Hd); [|by apply Ok_inj in Hd as <-]. cbn [mbind result_bind].
  case_in Hd; [by apply Ok_inj in Hd as <-|]. apply bind_Ok in Hd as ([chain|code link] & -> & Hd);
    [|by apply Ok_inj in Hd as <-]. cbn [mbind result_bind].
  case_in Hd; [by apply Ok_inj in Hd as <-|]. eauto.
Qed.
Lemma check_revoke_Authorized db tenant designated target now d :
  check_revoke db tenant designated target now = Ok d -> revoke_refusal d = None ->
  Authorized tenant designated Capability.GrantRevoke now db.
Proof using Type.
  unfold check_revoke. intros Hd Hn. apply bind_Ok in Hd as ([chain|refusal] & Hc & Hd); [by exists chain|].
  destruct refusal; apply Ok_inj in Hd as <-; done.
Qed.

(** ** Seeing the authorization *)

Context (call : Call) (capability : Capability).

(** The operations the other tasks perform from step [n] up to step [n']. *)
Definition others_between (n n' : nat) : list Event := seq n (n' - n) ≫= fun k => Tick.others (env k).

(** At a step [k] between [w] and [w'] the store authorizes the call. The
    store is the one the call reads at that step: what it was when the call
    began, after exactly the other tasks' operations up to step [k]. *)
Definition Saw (w w' : World) : Prop := exists k, (World.tick w <= k < World.tick w')%nat /\
  Authorized (Call.tenant call) (Call.grant call) capability (Tick.now (env k))
    (run (World.db w) (others_between (World.tick w) (S k))).
(** An answer of [m] satisfies [Q] unless the authorization was seen. *)
Definition Permit {A} (m : M A) (Q : A -> Prop) : Prop := forall w a w',
  m w = (Ok a, w') -> Q a \/ Saw w w'.
(** Every answer of [m] satisfies [Q]. *)
Definition Sure {A} (m : M A) (Q : A -> Prop) : Prop := forall w a w', m w = (Ok a, w') -> Q a.
(** When [m] answers in [R], the call itself has not changed the store. *)
Definition Quiet {A} (m : M A) (R : A -> Prop) : Prop := forall w a w', m w = (Ok a, w') -> R a ->
  (World.tick w <= World.tick w')%nat /\
  World.db w' = run (World.db w) (others_between (World.tick w) (World.tick w')).
Definition Mono {A} (m : M A) : Prop := forall w, (World.tick w <= World.tick (m w).2)%nat.

Lemma others_between_app n n' n'' :
  (n <= n' <= n'')%nat -> others_between n n' ++ others_between n' n'' = others_between n n''.
Proof using Type.
  intros Hn. unfold others_between. rewrite <- bind_app. f_equal.
  replace (n'' - n)%nat with ((n' - n) + (n'' - n'))%nat by lia. rewrite seq_app. f_equal. f_equal. lia.
Qed.
Lemma Quiet_runs {A} (m : M A) (R Q : A -> Prop) : Runs 0 (fun _ => False) m Q -> Quiet m R.
Proof using Type.
  intros Hm w a w' Hw _. destruct (Hm w ltac:(lia)) as (t & Hi & Hd & _). rewrite Hw in Hi, Hd. cbn in Hi, Hd.
  split; [by eapply Interleaved_le|]. by rewrite Hd, (Interleaved_others _ _ _ Hi).
Qed.
Lemma Quiet_store_op {A} (f : Failpoint -> Timestamp -> Db -> result StoreError A * Db) (R : A -> Prop) :
  (forall fp now db a db', f fp now db = (Ok a, db') -> R a -> db' = db) -> Quiet (store_op f) R.
Proof using Type.
  intros Hf w a w' Hw HR. unfold store_op, step in Hw. set (t := env (World.tick w)) in *.
  destruct (f (Tick.failpoint t) (Tick.now t) (World.db (others t w))) as [[x|e] db'] eqn:Ef; [|done].
  injection Hw as <- <-. cbn [World.tick World.db others]. split; [lia|].
  rewrite (Hf _ _ _ _ _ Ef HR). unfold others_between.
  replace (S (World.tick w) - World.tick w)%nat with 1%nat by lia. cbn. by rewrite app_nil_r.
Qed.

Lemma Permit_ret {A} (a : A) (Q : A -> Prop) : Q a -> Permit (mret a) Q.
Proof using Type. intros HQ w a' w' [= <- _]. by left. Qed.
Lemma Sure_ret {A} (a : A) (Q : A -> Prop) : Q a -> Sure (mret a) Q.
Proof using Type. by intros HQ w a' w' [= <- _]. Qed.
Lemma Sure_Permit {A} (m : M A) Q : Sure m Q -> Permit m Q.
Proof using Type. intros Hm w a w' Hw. left. eauto. Qed.
Lemma Permit_any {A} (m : M A) : Permit m (fun _ => True).
Proof using Type. intros w a w' _. by left. Qed.
(** The authorization may still be seen after [m] where [m] was quiet; where
    it was not, the rest must answer in [Q] whatever it sees. *)
Lemma Permit_bind {A B} (m : M A) (f : A -> M B) (S R : A -> Prop) Q :
  Quiet m S -> Permit m R -> (forall a, Mono (f a)) ->
  (forall a, R a -> S a /\ Permit (f a) Q \/ Sure (f a) Q) -> Permit (m ≫= f) Q.
Proof using Type.
  intros Hq Hm Hmono Hf w b w' Hw. unfold mbind, M_bind in Hw. specialize (Hm w). specialize (Hq w).
  destruct (m w) as [[a|e] w1]; [|done]. cbn [fst snd] in *.
  pose proof (Hmono a w1) as Hle. rewrite Hw in Hle. cbn in Hle.
  destruct (Hm a w1 eq_refl) as [HR|(k & Hk & Ha)]; [|right; exists k; split; [lia|done]].
  destruct (Hf a HR) as [[HS Hp]|Hs]; [|left; eauto].
  destruct (Hp w1 b w' Hw) as [HQ|(k & Hk & Ha)]; [by left|right]. destruct (Hq a w1 eq_refl HS) as [Hle1 Hd].
  exists k. split; [lia|]. rewrite Hd in Ha. unfold run in *.
  rewrite <- foldl_app, others_between_app in Ha by lia. done.
Qed.
Lemma Permit_next {A B} (m : M A) (f : A -> M B) (R : A -> Prop) Q :
  Quiet m R -> Permit m R -> (forall a, Mono (f a)) -> (forall a, R a -> Permit (f a) Q) -> Permit (m ≫= f) Q.
Proof using Type. intros Hq Hm Hmono Hf. eapply Permit_bind; eauto. Qed.
Lemma Permit_last {A B} (m : M A) (f : A -> M B) (R : A -> Prop) Q :
  Permit m R -> (forall a, Mono (f a)) -> (forall a, R a -> Sure (f a) Q) -> Permit (m ≫= f) Q.
Proof using Type. intros Hm Hmono Hf. eapply (Permit_bind m f (fun _ => False)); [by intros ? ? ? _ []|done..|eauto]. Qed.
Lemma Permit_step {A} (f : Tick -> World -> result DaemonError A * World) (Q : A -> Prop) :
  (forall t w, World.tick (f t w).2 = World.tick w) ->
  (forall t w a, (f t w).1 = Ok a ->
     Q a \/ Authorized (Call.tenant call) (Call.grant call) capability (Tick.now t) (World.db w)) ->
  Permit (step f) Q.
Proof using Type.
  intros Ht Hf w a w' Hw. unfold step in Hw. set (t := env (World.tick w)) in *.
  destruct (Hf t (others t w) a) as [HQ|Ha]; [by rewrite Hw|by left|right].
  specialize (Ht t (others t w)). rewrite Hw in Ht. cbn in Ht.
  exists (World.tick w). split; [lia|]. unfold others_between.
  replace (S (World.tick w) - World.tick w)%nat with 1%nat by lia. cbn. by rewrite app_nil_r.
Qed.
Lemma Permit_snapshot {A} (f : Timestamp -> Db -> result DaemonError A) (Q : A -> Prop) :
  (forall now db a, f now db = Ok a -> Q a \/ Authorized (Call.tenant call) (Call.grant call) capability now db) ->
  Permit (snapshot f) Q.
Proof using Type. intros Hf. apply Permit_step; [done|]. intros t w a Ha. by apply Hf. Qed.
Lemma Permit_store_op {A} (f : Failpoint -> Timestamp -> Db -> result StoreError A * Db) (Q : A -> Prop) :
  (forall fp now db a, (f fp now db).1 = Ok a ->
     Q a \/ Authorized (Call.tenant call) (Call.grant call) capability now db) ->
  Permit (store_op f) Q.
Proof using Type.
  intros Hf. apply Permit_step; [intros t w; by destruct (f _ _ _)|].
  intros t w a. specialize (Hf (Tick.failpoint t) (Tick.now t) (World.db w) a).
  destruct (f _ _ _) as [r db']. cbn. intros Ha%map_err_Ok. auto.
Qed.
Lemma Permit_attempt {A} (m : M A) Q :
  Permit m Q -> Permit (attempt m) (fun r => forall a, r = Ok a -> Q a).
Proof using Type.
  intros Hm w r w' Hw. unfold attempt in Hw. specialize (Hm w). destruct (m w) as [[a|e] w1]; injection Hw as <- <-.
  - destruct (Hm a w1 eq_refl); [left|by right]. by intros a' [= <-].
  - by left.
Qed.
(** *** Steps only go forward *)
Lemma Mono_ret {A} (a : A) : Mono (mret a).
Proof using Type. intros w. cbn. lia. Qed.
Lemma Mono_bind {A B} (m : M A) (f : A -> M B) : Mono m -> (forall a, Mono (f a)) -> Mono (m ≫= f).
Proof using Type.
  intros Hm Hf w. unfold mbind, M_bind. specialize (Hm w). destruct (m w) as [[a|e] w1]; [|done]. cbn in Hm.
  specialize (Hf a w1). lia.
Qed.
Lemma Mono_step {A} (f : Tick -> World -> result DaemonError A * World) :
  (forall t w, World.tick (f t w).2 = World.tick w) -> Mono (step f).
Proof using Type. intros Hf w. unfold step. rewrite Hf. cbn. lia. Qed.
Lemma Mono_snapshot {A} (f : Timestamp -> Db -> result DaemonError A) : Mono (snapshot f).
Proof using Type. by apply Mono_step. Qed.
Lemma Mono_ask {A} (f : Tick -> A) : Mono (ask f).
Proof using Type. by apply Mono_step. Qed.
Lemma Mono_fresh : Mono fresh_invocation.
Proof using Type. by apply Mono_step. Qed.
Lemma Mono_on_running f : Mono (on_running f).
Proof using Type. by apply Mono_step. Qed.
Lemma Mono_store_op {A} (f : Failpoint -> Timestamp -> Db -> result StoreError A * Db) : Mono (store_op f).
Proof using Type. apply Mono_step. intros t w. by destruct (f _ _ _). Qed.
Lemma Mono_attempt {A} (m : M A) : Mono m -> Mono (attempt m).
Proof using Type. intros Hm w. unfold attempt. specialize (Hm w). by destruct (m w). Qed.

Definition refused (reply : Reply) : Prop := exists failure, Reply.body reply = ResponseBody.Failed failure.

Lemma Sure_deny session failure : Sure (deny call capability session failure) refused.
Proof using Type.
  intros w reply w' Hw. unfold deny, mbind, M_bind in Hw. destruct (fresh_invocation w) as [[i|] w1]; [|done].
  destruct (store_op _ w1) as [[s|] w2]; [|done]. injection Hw as <- _. by exists failure.
Qed.
Lemma Permit_decide request :
  AuthzRequest.tenant request = Call.tenant call -> AuthzRequest.grant request = Call.grant call ->
  AuthzRequest.capability request = capability ->
  Permit (decide_plan request) (fun p => is_Some (Plan.refusal p)).
Proof using Type.
  intros Ht Hg Hc. apply Permit_snapshot. intros now db p Hp%map_err_Ok.
  destruct (Plan.refusal p) eqn:Er; [left; eauto|right].
  rewrite <- Ht, <- Hg, <- Hc. by eapply store_plan_Authorized.
Qed.
Lemma Permit_replay_refusal : Permit (replay_refusal call capability) is_Some.
Proof using Type.
  apply Permit_snapshot. intros now db o Ho. apply bind_Ok in Ho as ([chain|refusal] & Hd%map_err_Ok & Ho).
  - right. by exists chain.
  - left. apply Ok_inj in Ho as <-. eauto.
Qed.
End authority.

(** Closes [Mono] goals: every program is built from steps. *)
Ltac mono := intros; repeat
  match goal with
  | |- Mono (mret _) => apply Mono_ret
  | |- Mono (_ ≫= _) => apply Mono_bind; intros
  | |- Mono (snapshot _) => apply Mono_snapshot
  | |- Mono (ask _) => apply Mono_ask
  | |- Mono fresh_invocation => apply Mono_fresh
  | |- Mono (on_running _) => apply Mono_on_running
  | |- Mono (store_op _) => apply Mono_store_op
  | |- Mono (attempt _) => apply Mono_attempt
  | |- Mono (match ?x with _ => _ end) => destruct x
  | |- Mono (let x := ?v in @?f x) => cbv zeta
  | |- _ => done
  end.

(** ** The handlers *)
Section handlers.
Context `{Hashes} `{Environment}.

Lemma Mono_deny call capability session failure : Mono (deny call capability session failure).
Proof using Type. unfold deny. mono. Qed.
Lemma Mono_keyed call capability session stored {D} (decision : M D) refusal write :
  (forall i, Mono (stored i)) -> Mono decision -> (forall d i, Mono (write d i)) ->
  (forall key, Mono (authorized call capability session decision refusal write key)) /\
  Mono (keyed call capability session stored decision refusal write).
Proof using Type.
  intros Hs Hd Hw. assert (forall key, Mono (authorized call capability session decision refusal write key)) as Ha.
  { intros key. unfold authorized. apply Mono_bind; [done|]. intros d. destruct (refusal d); [apply Mono_deny|].
    unfold bind. mono; apply Hw. }
  split; [done|]. unfold keyed, prior, replay_refusal. mono; try apply Hs; try apply Ha; try apply Mono_deny.
Qed.

Lemma Permit_keyed call body session stored {D} (decision : M D) refusal write :
  (forall i, Mono (stored i)) -> Mono decision -> (forall d i, Mono (write d i)) ->
  Permit call (body_capability body) decision (fun d => is_Some (refusal d)) ->
  Permit call (body_capability body)
    (keyed call (body_capability body) session stored decision refusal write) refused.
Proof using Type.
  intros Hs Hm Hw Hd. destruct (Mono_keyed call (body_capability body) session stored decision refusal write Hs Hm Hw)
    as [Hauth _]. unfold keyed. destruct (Call.key call) as [key|] eqn:Hk; [|apply Permit_ret; by eexists].
  assert (Permit call (body_capability body)
    (authorized call (body_capability body) session decision refusal write key) refused) as Hf.
  { eapply Permit_last; [exact Hd| |].
    - intros d. destruct (refusal d); [apply Mono_deny|]. unfold bind. mono; apply Hw.
    - intros d [failure ->]. apply Sure_deny. }
  eapply (Permit_next _ _ _ _ (fun r => match r with Err reply => refused reply | Ok _ => True end)).
  - by eapply Quiet_runs, (Runs_snapshot _ _ _ (fun _ => True)).
  - apply Permit_snapshot. intros now db r Hr. left. apply bind_Ok in Hr as ([[]|] & _ & Hr);
      apply Ok_inj in Hr as <-; try done; by eexists.
  - unfold replay_refusal. mono; try apply Hs; try apply Hauth; try apply Mono_deny.
  - intros [[|i]|reply] Hr; [done| |by apply Permit_ret].
    eapply Permit_last; [apply Permit_replay_refusal| |].
    + mono; try apply Hs; try apply Hauth; try apply Mono_deny.
    + intros o [failure ->]. apply Sure_deny.
Qed.

Lemma Permit_open_session call parent :
  Permit call (open_capability parent) (Calls.open_session call parent) refused.
Proof using Type.
  assert (exists body, body_capability body = open_capability parent) as [body Hb].
  { destruct parent as [p|]; [by exists (RequestBody.SessionFork (SessionForkRequest.mk p))|by exists RequestBody.SessionCreate]. }
  unfold Calls.open_session. rewrite <- Hb. apply Permit_keyed.
  - intros i. apply Mono_snapshot.
  - apply Mono_snapshot.
  - intros _ i. unfold write_session. mono.
  - by apply Permit_decide.
Qed.
Lemma Permit_grant_issue call request : Permit call Capability.GrantIssue (grant_issue call request) refused.
Proof using Type.
  apply (Permit_keyed call (RequestBody.GrantIssue request)).
  - intros i. apply Mono_snapshot.
  - apply Mono_snapshot.
  - intros _ i. unfold write_grant. mono.
  - apply Permit_snapshot. intros now db o Ho. apply bind_Ok in Ho as (d & Hd%map_err_Ok & Ho).
    apply Ok_inj in Ho as <-. destruct (issue_refusal d) eqn:Er; [left; cbn; eauto|right].
    by apply check_issue_Authorized in Hd.
Qed.
Lemma Permit_grant_revoke call target : Permit call Capability.GrantRevoke (grant_revoke call target) refused.
Proof using Type.
  apply (Permit_keyed call (RequestBody.GrantRevoke (GrantRevokeRequest.mk target))).
  - intros i. apply Mono_snapshot.
  - apply Mono_snapshot.
  - intros d i. unfold write_revocation, cancel_revoked. mono.
  - apply Permit_snapshot. intros now db d Hd%map_err_Ok.
    destruct (revoke_refusal d) eqn:Er; [left; cbn; eauto|right]. by eapply check_revoke_Authorized.
Qed.
Lemma Permit_artifact_plan call capability a :
  Permit call capability (artifact_plan call capability a) (fun p => is_Some (Plan.refusal p)).
Proof using Type.
  eapply Permit_next; [by eapply Quiet_runs, (Runs_snapshot _ _ _ (fun _ => True))|apply Permit_any|
    unfold decide_plan; mono|]. intros info _.
  eapply Permit_last; [by apply Permit_decide|mono|]. intros p [f Hp]. apply Sure_ret. case_match; [by eexists|]. rewrite Hp. eauto.
Qed.
Lemma Mono_select predicate refs : Mono (select predicate refs).
Proof using Type. induction refs as [|a refs IH]; cbn [select]; unfold matches, store_artifact; mono. Qed.

Lemma Permit_reads call body :
  match body with
  | RequestBody.Read _ | RequestBody.Query _ | RequestBody.AuditQuery _ | RequestBody.Ingest _ =>
      Permit call (body_capability body) (execute call body) refused
  | _ => True
  end.
Proof using Type.
  destruct body as [|fork|r|r|r|r|r|r|r]; try done; cbn [execute body_capability].
  - eapply Permit_last; [apply Permit_any|unfold deny; mono|intros p _; apply Sure_deny].
  - eapply Permit_last; [apply Permit_artifact_plan|unfold deny; mono|]. intros p [f ->]. apply Sure_deny.
  - eapply Permit_last; [by apply Permit_decide| |intros p [f ->]; apply Sure_deny].
    unfold deny; mono; apply Mono_select.
  - eapply Permit_last; [by apply Permit_decide| |intros p [f ->]; apply Sure_deny].
    unfold deny, audit_scope; mono.
Qed.

(** *** Captures *)
Lemma Mono_produce request grant flight : Mono (produce request grant flight).
Proof using Type.
  intros w. destruct (Runs_produce 0 (fun _ => True) request grant flight w ltac:(lia)) as (t & Hi & _).
  by apply Interleaved_le in Hi.
Qed.
Lemma Mono_replay status : Mono (Capture.replay status).
Proof using Type. unfold Capture.replay, captured, store_artifact. mono. Qed.
Lemma Mono_run_invocation call request limits id flight : Mono (run_invocation call request limits id flight).
Proof using Type.
  unfold run_invocation, finish, fail, pre_dispatch, stop_reason, Capture.release, Capture.publish, end_unknown,
    settle_failed, chain_refusal. mono; apply Mono_produce.
Qed.
Lemma Mono_after_error id : Mono (after_error id).
Proof using Type. unfold after_error. mono; apply Mono_replay. Qed.

Lemma Permit_begin_capture call request :
  Permit call Capability.Capture (begin_capture call request)
    (fun s => match s with Started.Persisted _ _ => False | Started.Answered reply => refused reply end).
Proof using Type.
  unfold begin_capture. destruct (Call.key call) as [key|]; [|apply Permit_ret; by eexists].
  assert (forall status, Mono (replay_capture call status)) as Hrc.
  { intros. unfold replay_capture, deny, replay_refusal. mono; apply Mono_replay. }
  eapply Permit_next; [|apply Permit_any|mono; apply Hrc|].
  { eapply Quiet_runs. by eapply Runs_bind; [apply (Runs_snapshot _ _ _ (fun _ => True))|
      intros; apply (Runs_ret _ _ _ (fun _ => True))]. }
  intros limits _. eapply Permit_next; [eapply Quiet_runs, Runs_fresh|apply Permit_any|mono; apply Hrc|].
  intros i _. cbv zeta.
  match goal with |- context [Intent.mk i ?a key ?d] => set (intent := Intent.mk i a key d) end.
  eapply (Permit_bind _ _ _ _ (fun b => match b with Begin.Replayed _ => True | _ => False end)
    (fun b => match b with Begin.Persisted _ => False | _ => True end)).
  - apply Quiet_store_op. intros fp now db [st|st| |] db' Hb HS; try done. by apply begin_outcomes in Hb as [-> _].
  - apply Permit_store_op. intros fp now db [st|st| |] Hb; try (by left). right.
    destruct (begin fp now db intent) as [r db'] eqn:Eb. cbn in Hb. subst r.
    apply begin_Persisted in Eb as (ids & res & r & Ha & _). by apply authorize_Authorized in Ha.
  - mono; apply Hrc.
  - intros [st|st| |f a] Hs; try done; [left; split; [done|]|right; apply Sure_ret; by eexists..].
    eapply (Permit_last _ _ _ _ refused); [|mono|intros reply Hr; by apply Sure_ret].
    eapply Permit_last; [apply Permit_replay_refusal|unfold deny; mono; apply Mono_replay|].
    intros o [f ->]. apply Sure_deny.
Qed.
Lemma Permit_capture call request deadline :
  call_typed call -> body_typed (RequestBody.Capture request) ->
  Permit call Capability.Capture (capture call request deadline) refused.
Proof using Type.
  intros Hc Hb. assert (forall started begun, Mono (match begun with
    | Ok (Started.Persisted status limits) =>
        let id := InvocationStatus.id status in
        _ ← register id (InvocationStatus.grant_chain status);
        reply ← attempt (run_invocation call request limits id (Flight.mk deadline started));
        _ ← deregister id;
        match reply with Ok reply => mret reply | Err error => or_internal (after_error id) end
    | Ok (Started.Answered reply) => mret reply
    | Err error => mret (internal error)
    end)) as Hm.
  { unfold register, deregister, or_internal. mono; [apply Mono_run_invocation|apply Mono_after_error]. }
  eapply Permit_next; [by eapply Quiet_runs, (Runs_ask _ _ _ (fun _ => True))|apply Permit_any| |].
  - intros started. apply Mono_bind; [|apply Hm]. apply Mono_attempt. unfold begin_capture, capture_limits, own_remaining.
    mono. unfold replay_capture, deny, replay_refusal. mono; apply Mono_replay.
  - intros started _. eapply Permit_last; [apply Permit_attempt, Permit_begin_capture|apply Hm|].
    intros [[status limits|reply]|error] Hs; [by destruct (Hs _ eq_refl)|apply Sure_ret; by apply (Hs _ eq_refl)|].
    apply Sure_ret. by eexists.
Qed.

(** C5. No content without authority. A reply to an executed request that is
    not a failure, replays of earlier attempts included, means that at some
    step [k] of this very call the designated grant belonged to the
    connection's tenant, its whole chain was valid at the time of that step,
    and every link of it carried the capability the request exercises. The
    store is the one the call looked at: the store when the call began after
    exactly the operations the other tasks performed up to step [k], with
    nothing the call wrote itself. *)
Theorem content_authorized (conn : ConnIdentity) (request : Request) (deadline : Z) (w w' : World)
    (reply : Reply) :
  request_typed conn request -> Request.mode request = Mode.Execute ->
  handle conn request deadline w = (Ok reply, w') ->
  (forall failure, Reply.body reply <> ResponseBody.Failed failure) ->
  exists k chain, (World.tick w <= k < World.tick w')%nat /\
    designated_chain (run (World.db w) (others_between (World.tick w) (S k)))
      (ConnIdentity.tenant conn) (Request.grant request)
      (body_capability (Request.body request)) (Tick.now (env k)) = Ok (Ok chain).
Proof using Type.
  intros Ht Hm Hw Hok. unfold handle in Hw. destruct (call_new conn request) as [call|e] eqn:Hc;
    [|injection Hw as <- _; by destruct (Hok Failure.UnknownEffect)].
  pose proof (call_new_Ok _ _ _ Hc Ht) as (Hct & Htn & Hg). rewrite Hm in Hw.
  match type of Hw with or_internal ?x _ = _ => set (m := x) in Hw end.
  assert (Permit call (body_capability (Request.body request)) m refused) as HP.
  { subst m. destruct Ht as (_ & _ & Hb). destruct (Request.body request) as [|fork|r|r|r|r|r|r|r] eqn:Eb.
    - apply (Permit_open_session call None).
    - apply (Permit_open_session call (Some (SessionForkRequest.parent_session fork))).
    - by apply Permit_capture.
    - apply (Permit_reads call (RequestBody.Ingest r)).
    - apply (Permit_reads call (RequestBody.Read r)).
    - apply (Permit_reads call (RequestBody.Query r)).
    - apply Permit_grant_issue.
    - apply Permit_grant_revoke.
    - apply (Permit_reads call (RequestBody.AuditQuery r)). }
  assert (exists reply', refused reply' /\ reply = reply' \/ Saw call (body_capability (Request.body request)) w w') as Hs.
  { unfold or_internal, attempt, mbind, M_bind in Hw. specialize (HP w).
    destruct (m w) as [[a|e] w1].
    - injection Hw as <- <-. exists a. destruct (HP a w1 eq_refl); auto.
    - injection Hw as <- _. exists (internal e). left. split; [by eexists|done]. }
  destruct Hs as [reply' [[[f Hf] ->]|(k & Hk & chain & Hd)]]; [by destruct (Hok f)|].
  rewrite <- Htn, <- Hg. eauto.
Qed.
End handlers.
