(* ===== verification/Replies.v ===== *)
(** * What the replies carry

    Every reply fits the connection's frame, every refusal reads the same
    whatever it hides and is audited, what a capture publishes keeps to its
    limits, a revocation reaches every running call it stops, and the wait for
    a producer ends with its answer or at the backstop. *)
From S2P Require Import Prelude Vocab Ids Payload Wire Epitrope Origin View Chain Issue.
From S2P Require Import Budget Decision Revoke Lifecycle Records Store Seal StoreAudit Invocation.
From S2P Require Import Transition Directory Claim Read Invariant Runs Guarantees Custody.
From S2P Require Import Daemon Limits Calls Reads Capture Orchestrator Confine Ends Authority.
Local Open Scope Z_scope.

(** ** Postconditions *)
Section post.
Context `{Hashes} `{Environment}.

Definition Post {A} (m : M A) (Q : A -> Prop) : Prop := forall w a w', m w = (Ok a, w') -> Q a.
Lemma Post_ret {A} (a : A) (Q : A -> Prop) : Q a -> Post (mret a) Q.
Proof using Type. by intros HQ w a' w' [= <- _]. Qed.
Lemma Post_bind {A B} (m : M A) (f : A -> M B) R Q :
  Post m R -> (forall a, R a -> Post (f a) Q) -> Post (m ≫= f) Q.
Proof using Type. intros Hm Hf w b w' (a & w1 & Ha & Hb)%bind_run. by eapply Hf; [eapply Hm|]. Qed.
Lemma Post_true {A} (m : M A) : Post m (fun _ => True).
Proof using Type. by intros w a w' _. Qed.
Lemma Post_then {A B} (m : M A) (f : A -> M B) Q : (forall a, Post (f a) Q) -> Post (m ≫= f) Q.
Proof using Type. intros Hf. eapply Post_bind; [apply Post_true|]. intros a _. apply Hf. Qed.
Lemma Post_snapshot {A} (f : Timestamp -> Db -> result DaemonError A) (Q : A -> Prop) :
  (forall now db a, f now db = Ok a -> Q a) -> Post (snapshot f) Q.
Proof using Type. intros Hf w a w' Hw. injection Hw as Ha _. by eapply Hf. Qed.
End post.

(** Walks a program to its returns. *)
Ltac post := repeat
  match goal with
  | |- Post (mret _) _ => apply Post_ret
  | |- Post (_ ≫= _) _ => apply Post_then; intros
  | |- Post (match ?x with _ => _ end) _ => destruct x eqn:?
  | |- Post (let x := ?v in @?f x) _ => cbv zeta
  end.

(** ** Refusals *)

(** A failure answers without an invocation. *)
Definition uniform (reply : Reply) : Prop :=
  forall failure, Reply.body reply = ResponseBody.Failed failure -> reply = failed failure.

Lemma uniform_failed failure : uniform (failed failure).
Proof. by intros f [= ->]. Qed.
Ltac uniform := repeat case_match; simplify_eq; first [done|apply uniform_failed|by intros ? [=]].

Section replies.
Context `{Hashes} `{Environment}.

(** A property of every bare failure and of what [stored] and [write] answer
    holds of the whole call. *)
Lemma Post_deny call capability session failure (Q : Reply -> Prop) :
  (forall f, Q (failed f)) -> Post (deny call capability session failure) Q.
Proof using Type. intros HQ. unfold deny. post. apply HQ. Qed.
Lemma Post_keyed call capability session stored {D} (decision : M D) refusal write (Q : Reply -> Prop) :
  (forall f, Q (failed f)) ->
  (forall i, Post (stored i) (fun o => forall reply, o = Some reply -> Q reply)) ->
  (forall d i, Post (write d i) Q) ->
  Post (keyed call capability session stored decision refusal write) Q.
Proof using Type.
  intros HQ Hs Hw. assert (forall key, Post (authorized call capability session decision refusal write key) Q) as Ha.
  { intros key. unfold authorized. apply Post_then. intros d. destruct (refusal d); [by apply Post_deny|].
    eapply (Post_bind _ _ (fun r => match r with Err reply => Q reply | Ok _ => True end)).
    - unfold bind. post. repeat case_match; simplify_eq; done.
    - intros [i|reply] Hr; [apply Hw|by apply Post_ret]. }
  unfold keyed. destruct (Call.key call) as [key|]; [|apply Post_ret, HQ].
  eapply (Post_bind _ _ (fun r => match r with Err reply => Q reply | Ok _ => True end)).
  - apply Post_snapshot. intros now db r Hr. apply bind_Ok in Hr as ([[]|] & _ & Hr); apply Ok_inj in Hr as <-;
      done.
  - intros [[|i]|reply] Hr; [apply Ha| |by apply Post_ret]. apply Post_then. intros [f|]; [by apply Post_deny|].
    eapply Post_bind; [apply Hs|]. intros [reply|] Hu; [by apply Post_ret, Hu|apply Ha].
Qed.
(** The session and grant calls: a property of bare failures and of the three
    kinds of answer. *)
Lemma Post_calls call body (Q : Reply -> Prop) :
  (forall f, Q (failed f)) -> (forall i o, Q (reply_of i (ResponseBody.SessionOpened o))) ->
  (forall i g p, Q (issued i g p)) -> (forall i r, Q (revoked i r)) ->
  match body with
  | RequestBody.SessionCreate | RequestBody.SessionFork _ | RequestBody.GrantIssue _ | RequestBody.GrantRevoke _ =>
      Post (execute call body) Q
  | _ => True
  end.
Proof using Type.
  intros HQ Ho Hi Hr. destruct body as [|fork|r|r|r|r|r|r|r]; cbn [execute]; try done.
  all: apply Post_keyed; [done| |].
  2,4: intros _ i; unfold write_session; post; by repeat case_match; simplify_eq.
  3,5: intros i; apply Post_snapshot; intros now db o Hs; apply bind_Ok in Hs as (x & _ & Hs);
    apply Ok_inj in Hs as <-; destruct x; intros reply' [= <-]; auto.
  1,2: intros i; apply Post_snapshot; intros now db o Hs; apply bind_Ok in Hs as (x & _ & Hs);
    apply Ok_inj in Hs as <-; case_match; intros reply' [= <-]; auto.
  - intros _ i. unfold write_grant. post. by repeat case_match; simplify_eq.
  - intros d i. unfold write_revocation. post; auto.
Qed.

(** Refusals are uniform. Whatever an executed request other than a
    capture is refused for, and whatever exists or does not, the reply is the
    failure alone: it names no invocation and carries nothing else, so two
    refusals for the same reason are the same reply. *)
Theorem refusals_uniform (call : Call) (body : RequestBody) (w w' : World) (reply : Reply)
    (failure : Failure) :
  execute call body w = (Ok reply, w') -> Reply.body reply = ResponseBody.Failed failure ->
  reply = failed failure.
Proof using Type.
  intros Hw. assert (Post (execute call body) uniform) as HP; [|by apply (HP w reply w' Hw)].
  pose proof (Post_calls call body uniform uniform_failed) as Hc.
  destruct body as [|fork|r|r|r|r|r|r|r]; cbn [execute]; try (by apply Hc).
  - apply Post_ret, uniform_failed.
  - unfold ingest, ingest_plan. post. apply Post_deny, uniform_failed.
  - unfold read. post; [apply Post_deny, uniform_failed|uniform].
  - unfold query. post; [apply Post_deny, uniform_failed|uniform..].
  - unfold audit_query. post; [apply Post_deny, uniform_failed|uniform].
Qed.

Lemma record_audit_entry fp now db note seq db' :
  record_audit fp now db note = (Ok seq, db') ->
  seq = last_seq db + 1 /\ exists sealed, Db.audit db' !! (AuditNote.tenant note, seq) = Some sealed /\
    AuditEntryRecord.tenant (Sealed.plain sealed) = AuditNote.tenant note /\
    AuditEntryRecord.invocation (Sealed.plain sealed) = AuditNote.invocation note /\
    AuditEntryRecord.state (Sealed.plain sealed) = AuditEntry.state (note_entry note) /\
    AuditEntryRecord.outcome (Sealed.plain sealed) = AuditEntry.outcome (note_entry note).
Proof using Type.
  intros [[Hb _]|[b Hb]]%with_tx_Ok; apply bind_Ok in Hb as ([s d] & Ha & Hb); [done|].
  apply Ok_inj in Hb. injection Hb as _ <- <-.
  apply append_audit_Ok in Ha as (-> & _ & ks & stub & rec & _ & _ & _ & Ht & Hi & Hs & Ho & ->).
  split; [done|]. assert (AuditEntry.tenant (note_entry note) = AuditNote.tenant note /\
    AuditEntry.invocation (note_entry note) = AuditNote.invocation note) as [Et Ei].
  { unfold note_entry. by destruct (AuditNote.outcome note). }
  rewrite Et in *. rewrite Ei in *. eexists. cbn [Db.audit set_audit]. rewrite lookup_insert_eq. done.
Qed.

(** Every refusal is audited. A call that is denied answers with its
    failure only after the audit log holds one more entry: the next in
    sequence, in the tenant's own partition, under a fresh invocation id, in
    state [Denied] and with the failure's outcome. When the entry cannot be
    written the caller gets no refusal but [UnknownEffect]. *)
Theorem refusal_audited (call : Call) (capability : Capability) (session : option SessionId)
    (failure : Failure) (w w' : World) (r : result DaemonError Reply) :
  deny call capability session failure w = (r, w') ->
  match r with
  | Ok reply => reply = failed failure /\
      exists db id sealed, Drawn (World.tick w) id /\
        Db.audit (World.db w') !! (Call.tenant call, last_seq db + 1) = Some sealed /\
        World.db w' = exec (Tick.failpoint (env (S (World.tick w)))) (Tick.now (env (S (World.tick w)))) db
          (Op.RecordAudit (AuditNote.mk (Call.tenant call) id capability session (AuditOutcome.Refused failure)
             (Some (Call.grant call)) None)) /\
        AuditEntryRecord.invocation (Sealed.plain sealed) = id /\
        AuditEntryRecord.state (Sealed.plain sealed) = InvocationState.Denied /\
        AuditEntryRecord.outcome (Sealed.plain sealed) = failure_kind failure
  | Err e => internal e = failed Failure.UnknownEffect
  end.
Proof using Type.
  intros Hw. destruct r as [reply|e]; [|done].
  unfold deny in Hw. apply bind_run in Hw as (i & w1 & Hf & Hw). cbv zeta in Hw.
  apply bind_run in Hw as (seq & w2 & Hs & Hw). injection Hw as <- <-. split; [done|].
  destruct (Runs_fresh (World.tick w) (fun _ => True) w ltac:(lia)) as (_ & _ & _ & Hi). rewrite Hf in Hi.
  assert (World.tick w1 = S (World.tick w)) as Ht by (by injection Hf as _ <-).
  rewrite store_op_run in Hs. cbv beta zeta in Hs. rewrite Ht in Hs.
  set (t := env (S (World.tick w))) in *. set (db := World.db (others t w1)) in *.
  destruct (record_audit _ _ _ _) as [res db'] eqn:Er. injection Hs as Hres <-. apply map_err_Ok in Hres as ->.
  pose proof Er as He. apply record_audit_entry in He as (-> & sealed & Hl & _ & Hinv & Hst & Hout).
  exists db, i, sealed. split_and!; try done; [by apply Hi|]. cbn [World.db exec]. by rewrite Er.
Qed.

(** ** Frames *)

Lemma envelope_chunk_length envelope offset len :
  0 <= len -> Z.of_nat (length (envelope_chunk envelope offset len)) <= len.
Proof using Type. intros Hl. unfold envelope_chunk, saturating_add. rewrite length_take. lia. Qed.
Lemma payload_budget_nonneg call : 0 <= payload_budget call.
Proof using Type. unfold payload_budget, saturating_sub. lia. Qed.

(** The variable part of a reply fits what the frame leaves for it. *)
Definition fits (call : Call) (reply : Reply) : Prop :=
  match Reply.body reply with
  | ResponseBody.Chunk c => Z.of_nat (length (ReadChunk.chunk c)) <= payload_budget call
  | ResponseBody.QueryPage p =>
      QUERY_REF_BYTES * Z.of_nat (length (QueryPage.result_refs p)) <= payload_budget call
  | ResponseBody.AuditPage p =>
      AUDIT_RECORD_BYTES * Z.of_nat (length (AuditPage.records p)) <= payload_budget call
  | _ => True
  end.
Lemma page_fits (limit budget size : Z) (n : nat) :
  0 <= budget -> 0 < size -> (n <= Z.to_nat (Z.min limit (budget / size)))%nat -> size * Z.of_nat n <= budget.
Proof using Type.
  intros Hb Hs Hn. pose proof (Z.mul_div_le budget size Hs). pose proof (Z.div_pos budget size Hb Hs). nia.
Qed.
(** Every answer of a read fits one frame: a chunk is at most the reply
    payload the connection's frame leaves, and a query or audit page holds at
    most as many entries as that payload has room for, whatever length, limit
    and offset the caller asks for and whatever the store holds. *)
Theorem replies_fit (call : Call) (body : RequestBody) (w w' : World) (reply : Reply) :
  (match body with RequestBody.Read r => 0 <= ReadRequest.len r | _ => True end) ->
  execute call body w = (Ok reply, w') -> fits call reply.
Proof using Type.
  intros Hl Hw. pose proof (payload_budget_nonneg call) as Hp.
  pose proof (Post_calls call body (fits call) ltac:(done) ltac:(done) ltac:(done) ltac:(done)) as Hc.
  destruct body as [|fork|r|r|r|r|r|r|r]; cbn [execute] in Hw; try (by eapply Hc).
  - injection Hw as <- _. done.
  - revert w reply w' Hw. change (Post (ingest call) (fits call)). unfold ingest, ingest_plan. post. by apply Post_deny.
  - revert w reply w' Hw. change (Post (read call r) (fits call)). unfold read.
    apply Post_then. intros p. destruct (Plan.refusal p); [by apply Post_deny|]. cbv zeta.
    eapply (Post_bind _ _ (fun o => forall c, o = Some c -> Z.of_nat (length (ReadChunk.chunk c)) <= payload_budget call)).
    + apply Post_snapshot. intros now db o Ho%map_err_Ok c ->. unfold read_artifact in Ho.
      apply bind_Ok in Ho as ([[rec keys]|] & _ & Ho); [|done]. apply bind_Ok in Ho as (sealed & _ & Ho).
      apply bind_Ok in Ho as (envelope & _ & Ho). apply Ok_inj in Ho. injection Ho as <-. cbn [ReadChunk.chunk].
      etransitivity; [apply envelope_chunk_length; lia|lia].
    + intros [c|] Hlen; apply Post_ret; [by apply Hlen|done].
  - revert w reply w' Hw. change (Post (query call r) (fits call)). unfold query.
    post; [by apply Post_deny| |done|done]. cbn [fits Reply.body QueryPage.result_refs].
    unfold fits. cbn [Reply.body QueryPage.result_refs].
    apply (page_fits (QueryRequest.limit r)); [done|done|]. rewrite length_take. lia.
  - revert w reply w' Hw. change (Post (audit_query call r) (fits call)). unfold audit_query.
    post; [by apply Post_deny|]. unfold fits. cbn [Reply.body reply_of AuditPage.records].
    apply (page_fits (AuditQueryRequest.limit r)); [done|done|]. rewrite length_take. lia.
Qed.





(** ** Revocation of running calls *)

(** An event that leaves the entry of [id] registered. *)
Definition keeps_entry (id : InvocationId) (e : RunningEvent) : Prop :=
  match e with Registered i _ | Deregistered i => i <> id | Revoked _ => True end.
(** One of the events cancels for a link of the chain. *)
Definition revoked_in (chain : list GrantId) (es : list RunningEvent) : Prop :=
  exists g, Revoked g ∈ es /\ g ∈ chain.
Lemma running_kept id es : forall m r, m !! id = Some r -> Forall (keeps_entry id) es ->
  exists c, foldl running_event m es !! id = Some (Running.mk (Running.chain r) c) /\
    (c = true <-> Running.cancelled r = true \/ revoked_in (Running.chain r) es).
Proof using Type.
  induction es as [|e es IH]; intros m r Hm Hk.
  { exists (Running.cancelled r). cbn. split; [by destruct r|]. split; [by left|].
    intros [?|(g & ?%elem_of_nil & _)]; done. }
  apply Forall_cons in Hk as [He Hk]. cbn [foldl].
  assert (exists c, running_event m e !! id = Some (Running.mk (Running.chain r) c) /\
    (c = true <-> Running.cancelled r = true \/ exists g, e = Revoked g /\ g ∈ Running.chain r)) as (c & Hc & Hiff).
  { destruct e as [i chain|i|g]; cbn [running_event keeps_entry] in *.
    - exists (Running.cancelled r). unfold register_in. rewrite lookup_insert_ne by done.
      split; [by destruct r|naive_solver].
    - exists (Running.cancelled r). unfold deregister_in. rewrite lookup_delete_ne by done.
      split; [by destruct r|naive_solver].
    - unfold cancel_revoked_in. rewrite lookup_fmap, Hm. cbn. case_bool_decide as Hin.
      + exists true. split; [done|]. split; [eauto|done].
      + exists (Running.cancelled r). split; [by destruct r|]. naive_solver. }
  destruct (IH _ _ Hc Hk) as (c' & Hc' & Hiff'). cbn [Running.chain Running.cancelled] in *.
  exists c'. split; [done|]. rewrite Hiff', Hiff. unfold revoked_in. split.
  - intros [[?|(g & -> & ?)]|(g & ? & ?)]; [by left|right..]; exists g; (split; [set_solver|done]).
  - intros [?|(g & [<-|?]%elem_of_cons & ?)]; eauto.
Qed.

(** A revocation is never lost between the re-check and the producer. The
    call is registered before its chain is re-checked; when the re-check lets
    it go on, no link of the chain is revoked in the store at that step, so
    any revocation comes later and finds the call registered: whatever the
    other tasks do to the running set from then on, as soon as one of them
    cancels for a link of the chain, the call's signal has fired and stays
    fired. *)
Theorem revocation_reaches_running (grant : GrantId) (cancelled : bool) (deadline : Z) (w w' : World)
    (id : InvocationId) :
  pre_dispatch grant cancelled deadline w = (Ok None, w') ->
  let db := run (World.db w) (Tick.others (env (World.tick w))) in
  exists leaf chain, view_grant db grant = Ok (Some leaf) /\ load_chain db leaf = Ok chain /\
    (forall link, link ∈ chain -> view_revocation db (Grant.id link) = Ok None) /\
    (forall m es g, m !! id = Some (Running.mk (Grant.id <$> chain) false) -> Forall (keeps_entry id) es ->
       g ∈ Grant.id <$> chain -> Revoked g ∈ es ->
       foldl running_event m es !! id = Some (Running.mk (Grant.id <$> chain) true)).
Proof using Type.
  intros Hw db. apply bind_run in Hw as ([code|] & w1 & Hc & Hw); [done|]. clear Hw.
  injection Hc as Hc _. change (World.db (others _ _)) with db in Hc. unfold chain_status in Hc.
  apply bind_Ok in Hc as ([leaf|] & Hl%map_err_Ok & Hc); [|done].
  apply bind_Ok in Hc as ([chain|code link] & Hs%map_err_Ok & Hc); [|done].
  unfold check_chain in Hs. apply bind_Ok in Hs as (ch & Hlc & Hs). apply bind_Ok in Hs as (f & Hf & Hs).
  apply Ok_inj in Hs. destruct f as [[]|]; [done|]. injection Hs as ->. apply check_links_None in Hf.
  exists leaf, chain. split_and!; [done|done| |].
  - intros link Hin. rewrite Forall_forall in Hf. by destruct (Hf link Hin).
  - intros m es g Hm Hk Hg He. destruct (running_kept id es m _ Hm Hk) as (c & -> & Hfire).
    by rewrite (proj2 Hfire) by (right; exists g; done).
Qed.

(** ** Waiting for the producer *)

(** The instant of the forwarding task's next check, [j] steps into a wait
    that began at step [n]. *)
Fixpoint check_at (n j : nat) : Z :=
  match j with
  | O => Tick.instant (env n) + CHAIN_POLL
  | S j => next_check (n + j) (check_at n j)
  end.
(** Step [k] gives the forwarding task a reason to fire. *)
Definition stops (grant : GrantId) (deadline : Z) (w : World) (k : nat) : bool :=
  Tick.cancelled (env k) || woken k deadline ||
  chain_lost k (run (World.db w) (others_between (World.tick w) (S k))) grant
    (check_at (World.tick w) (k - World.tick w)).
Definition answer_of (answer : option (result ProducerError ProducerOutput)) : Produced :=
  match answer with
  | Some (Ok output) => Produced.Output output
  | Some (Err error) => Produced.Error error
  | None => Produced.Abandoned
  end.

Lemma others_between_next n k : (n <= k)%nat ->
  others_between n (S k) = others_between n k ++ Tick.others (env k).
Proof using Type.
  intros Hn. rewrite <- (others_between_app n k (S k)) by lia. f_equal. unfold others_between.
  replace (S k - k)%nat with 1%nat by lia. cbn. by rewrite app_nil_r.
Qed.

(** How a wait from [w] to [w'] ends at step [k], begun at the world [w0]. *)
Section wait.
Context (request : AcquireRequest) (grant : GrantId) (deadline : Z) (w0 : World).
Context (Hkeep : forall j, Forall (keeps_entry (AcquireRequest.invocation request)) (Tick.running (env j))).
Let id := AcquireRequest.invocation request.

Definition Signalled (chain : list GrantId) (n k : nat) : Prop :=
  (exists j, (n <= j <= k)%nat /\ revoked_in chain (Tick.running (env j))) \/
  (exists j, (n <= j < k)%nat /\ stops grant deadline w0 j = true).
Definition Waited (rounds : nat) (w : World) (out : result DaemonError Produced * World) (k : nat) : Prop :=
  (World.tick w <= k <= World.tick w + rounds)%nat /\
  out.1 = Ok (answer_of (Tick.acquired (env k) request)) /\
  (forall j, (World.tick w <= j < k)%nat -> Tick.acquired (env j) request = None) /\
  (Tick.acquired (env k) request = None -> k = (World.tick w + rounds)%nat) /\
  World.tick out.2 = S k /\
  World.db out.2 = run (World.db w0) (others_between (World.tick w0) (S k)).

Lemma stops_now w i :
  World.tick w = (World.tick w0 + i)%nat ->
  World.db w = run (World.db w0) (others_between (World.tick w0) (World.tick w)) ->
  stops grant deadline w0 (World.tick w) =
    Tick.cancelled (env (World.tick w)) || woken (World.tick w) deadline ||
    chain_lost (World.tick w) (World.db (others (env (World.tick w)) w)) grant (check_at (World.tick w0) i).
Proof using Type.
  intros Ht Hd. unfold stops. rewrite others_between_next by lia. unfold run. rewrite foldl_app.
  replace (World.tick w - World.tick w0)%nat with i by lia. cbn [World.db others]. by rewrite Hd.
Qed.
Lemma others_db w i :
  World.tick w = (World.tick w0 + i)%nat ->
  World.db w = run (World.db w0) (others_between (World.tick w0) (World.tick w)) ->
  World.db (others (env (World.tick w)) w) = run (World.db w0) (others_between (World.tick w0) (S (World.tick w))).
Proof using Type.
  intros Ht Hd. rewrite others_between_next by lia. unfold run. rewrite foldl_app. cbn [World.db others]. by rewrite Hd.
Qed.

(** What happens to the entry of the call. *)
Definition Entry (w w' : World) (n k : nat) (fired : bool) : Prop := forall chain c,
  World.running w !! id = Some (Running.mk chain c) -> (fired = true -> c = true) ->
  exists c', World.running w' !! id = Some (Running.mk chain c') /\ (c' = true <-> c = true \/ Signalled chain n k).

Lemma Signalled_split chain n k : (n < k)%nat ->
  Signalled chain n k <->
  revoked_in chain (Tick.running (env n)) \/ stops grant deadline w0 n = true \/ Signalled chain (S n) k.
Proof using Type.
  intros Hk. unfold Signalled. split.
  - intros [(j & Hj & Hr)|(j & Hj & Hs)]; (destruct (decide (j = n)) as [->|]; [by auto|]); right; right;
      [left|right]; exists j; (split; [lia|done]).
  - intros [Hr|[Hs|[(j & Hj & Hr)|(j & Hj & Hs)]]]; [left|right|left|right]; eexists; (split; [|done]); lia.
Qed.
Lemma running_others w chain c : World.running w !! id = Some (Running.mk chain c) -> exists c1,
  World.running (others (env (World.tick w)) w) !! id = Some (Running.mk chain c1) /\
  (c1 = true <-> c = true \/ revoked_in chain (Tick.running (env (World.tick w)))).
Proof using Hkeep. intros Hc. apply (running_kept id _ _ _ Hc (Hkeep (World.tick w))). Qed.

Lemma wait_ends rounds fired w i :
  World.tick w = (World.tick w0 + i)%nat ->
  World.db w = run (World.db w0) (others_between (World.tick w0) (World.tick w)) ->
  (Tick.acquired (env (World.tick w)) request = None -> rounds = 0%nat) ->
  let w' := others (env (World.tick w)) w in
  Waited rounds w (Ok (answer_of (Tick.acquired (env (World.tick w)) request)), w') (World.tick w) /\
  Entry w w' (World.tick w) (World.tick w) fired.
Proof using Hkeep.
  intros Ht Hd Hn w'. split.
  - split_and!; try done; try lia; [intros Ha%Hn; lia|by eapply others_db].
  - intros chain c Hc _. destruct (running_others w chain c Hc) as (c1 & Hc1 & Hiff). exists c1. split; [done|].
    rewrite Hiff. unfold Signalled. split.
    + intros [?|?]; [by left|right; left]. exists (World.tick w). split; [lia|done].
    + intros [?|[(j & Hj & ?)|(j & Hj & _)]]; [by left|right|lia]. by replace (World.tick w) with j by lia.
Qed.

Lemma wait_goes_on rounds w i k fired fired' out :
  World.tick w = (World.tick w0 + i)%nat -> Tick.acquired (env (World.tick w)) request = None ->
  let w' := others (env (World.tick w)) w in
  let w'' := if fired' && negb fired then fire_signal id w' else w' in
  fired' = fired || stops grant deadline w0 (World.tick w) ->
  Waited rounds w'' out k -> Entry w'' out.2 (World.tick w'') k fired' ->
  Waited (S rounds) w out k /\ Entry w out.2 (World.tick w) k fired.
Proof using Hkeep.
  intros Ht Hn w' w'' Hfired (Hk & Ho & Hb & Hl & Htk & Hdb) HE.
  assert (World.tick w'' = S (World.tick w)) as Ht'' by (unfold w''; by destruct (_ && _)).
  rewrite Ht'' in *. split.
  - split_and!; try done; try lia; [|intros Ha%Hl; lia].
    intros j Hj. destruct (decide (j = World.tick w)) as [->|]; [done|apply Hb; lia].
  - intros chain c Hc Hfc. destruct (running_others w chain c Hc) as (c1 & Hc1 & Hiff). fold w' in Hc1.
    assert (World.running w'' !! id = Some (Running.mk chain (c1 || (fired' && negb fired)))) as Hc''.
    { unfold w''. destruct (fired' && negb fired); [|by rewrite orb_false_r].
      cbn [World.running fire_signal]. rewrite lookup_alter_eq, Hc1. cbn. by rewrite orb_true_r. }
    destruct (HE _ _ Hc'') as (c' & Hc' & Hiff').
    { intros ->. destruct fired; [|by rewrite orb_true_r]. rewrite (proj2 Hiff); [done|]. left. by apply Hfc. }
    exists c'. split; [done|]. rewrite Hiff', (Signalled_split chain (World.tick w) k) by lia. rewrite orb_true_iff, Hiff.
    destruct fired; cbn in Hfired; subst fired'; cbn [andb negb].
    + specialize (Hfc eq_refl). naive_solver.
    + rewrite andb_true_r. naive_solver.
Qed.

Lemma produce_loop_waits rounds : forall forwarding w i,
  World.tick w = (World.tick w0 + i)%nat ->
  World.db w = run (World.db w0) (others_between (World.tick w0) (World.tick w)) ->
  (forwarding = None \/ forwarding = Some (check_at (World.tick w0) i)) ->
  exists k, Waited rounds w (produce_loop rounds request grant deadline forwarding w) k /\
    Entry w (produce_loop rounds request grant deadline forwarding w).2 (World.tick w) k
      (bool_decide (forwarding = None)).
Proof using Hkeep.
  induction rounds as [|rounds IH]; intros forwarding w i Ht Hd Hf; cbn [produce_loop];
    pose proof (fun r f => wait_ends r f w i Ht Hd) as Hend;
    destruct (Tick.acquired (env (World.tick w)) request) as [[o|e]|] eqn:Ea;
    try (eexists; apply Hend; done).
  pose proof (stops_now w i Ht Hd) as Hs. pose proof (others_db w i Ht Hd) as Hd'.
  assert (World.tick (others (env (World.tick w)) w) = (World.tick w0 + S i)%nat) as Ht' by (cbn; lia).
  destruct Hf as [->| ->].
  - destruct (IH None (others (env (World.tick w)) w) (S i) Ht' Hd' (or_introl eq_refl)) as (k & HW & HE).
    exists k. by apply (wait_goes_on rounds w i k true true).
  - rewrite <- Hs. destruct (stops grant deadline w0 (World.tick w)) eqn:Est.
    + destruct (IH None (fire_signal id (others (env (World.tick w)) w)) (S i) Ht' Hd' (or_introl eq_refl)) as (k & HW & HE).
      exists k. apply (wait_goes_on rounds w i k false true); try done; by rewrite Est.
    + destruct (IH (Some (next_check (World.tick w) (check_at (World.tick w0) i))) (others (env (World.tick w)) w)
        (S i) Ht' Hd') as (k & HW & HE); [right; cbn [check_at]; by rewrite Ht|].
      exists k. apply (wait_goes_on rounds w i k false false); try done; by rewrite Est.
Qed.
End wait.

(** C38. The wait for a producer. A capture waits for its producer until the
    first step at which it has an answer, and no longer than the step at which
    the timer of the deadline plus [PRODUCER_GRACE] fires: it ends, with that
    answer or with [Abandoned] exactly when there was none up to the backstop,
    and has changed nothing in the store. Meanwhile, as long as the other
    tasks leave the call registered, its producer's signal is fired exactly
    when a link of its chain is revoked, the caller cancels, the deadline's
    timer fires, or a check made every [CHAIN_POLL] finds the chain lost. *)
Theorem produce_exact (request : AcquireRequest) (grant : GrantId) (flight : Flight) (w : World)
    (chain : list GrantId) (c : bool) :
  let id := AcquireRequest.invocation request in
  let backstop := Flight.deadline flight + PRODUCER_GRACE in
  (forall j, Forall (keeps_entry id) (Tick.running (env j))) ->
  World.running w !! id = Some (Running.mk chain c) ->
  exists k w' c',
    (World.tick w <= k <= Nat.max (World.tick w) (wakes backstop))%nat /\
    produce request grant flight w = (Ok (answer_of (Tick.acquired (env k) request)), w') /\
    (forall j, (World.tick w <= j < k)%nat -> Tick.acquired (env j) request = None) /\
    (Tick.acquired (env k) request = None -> k = Nat.max (World.tick w) (wakes backstop)) /\
    World.db w' = run (World.db w) (others_between (World.tick w) (S k)) /\
    World.running w' !! id = Some (Running.mk chain c') /\
    (c' = true <-> c = true \/
       (exists j, (World.tick w <= j <= k)%nat /\ revoked_in chain (Tick.running (env j))) \/
       (exists j, (World.tick w <= j < k)%nat /\ stops grant (Flight.deadline flight) w j = true)).
Proof using Type.
  intros id backstop Hkeep Hc.
  destruct (produce_loop_waits request grant (Flight.deadline flight) w Hkeep (wakes backstop - World.tick w)
    (Some (Tick.instant (env (World.tick w)) + CHAIN_POLL)) w 0)
    as (k & (Hk & Ho & Hb & Hl & _ & Hd) & HE); [lia| |by right|].
  { unfold others_between. by rewrite Nat.sub_diag. }
  destruct (HE chain c Hc ltac:(done)) as (c' & Hc' & Hiff).
  unfold produce. fold backstop. destruct (produce_loop _ _ _ _ _ w) as [r w']. cbn in Ho. subst r. exists k, w', c'. split_and!; try done; try lia. intros Ha%Hl. lia.
Qed.
End replies.
