(* ===== verification/Stream.v ===== *)
(** * Streams: what a socket delivers, and the archives it carries

    The two ends of a connection, the daemon's server ([dioptron::server])
    and the client ([xenos]), read the same kind of stream: bytes, each at
    the instant the reading side gets it, and possibly an end or a failure.
    Reads may return any non-empty part of what is there; neither side's
    reading depends on how the bytes are grouped, so they come one by one.
    A read interrupted by a signal is retried by both sides and is not an
    arrival. Instants and durations are in milliseconds.

    The archive library (rkyv) is a parameter: an instance of [Archive] per
    message type. *)
From S2P Require Import Prelude Vocab Ids Payload Wire.
Local Open Scope Z_scope.

Module Arrival.
Inductive What : Set := Data (b : byte) | Eof | Reset | Broken.
Record Arrival : Set := mk { instant : Z; what : What }.
End Arrival.
Abbreviation Arrival := Arrival.Arrival.

(** Bytes that all arrive at [instant]. *)
Definition arriving (instant : Z) (b : bytes) : list Arrival := (fun c => Arrival.mk instant (Arrival.Data c)) <$> b.

(** How a timed read of one byte ends. *)
Module Byte.
Inductive Outcome : Set := Got (b : byte) | Eof | Reset | Broken | Late.
End Byte.

(** The next byte, if it arrives by [deadline]; a byte that comes later stays
    on the stream. *)
Definition next (deadline : Z) (s : list Arrival) : Byte.Outcome * list Arrival :=
  match s with
  | [] => (Byte.Late, s)
  | a :: rest =>
      if deadline <? Arrival.instant a then (Byte.Late, s)
      else match Arrival.what a with
           | Arrival.Data b => (Byte.Got b, rest)
           | Arrival.Eof => (Byte.Eof, s)
           | Arrival.Reset => (Byte.Reset, s)
           | Arrival.Broken => (Byte.Broken, s)
           end
  end.

(** At most [n] bytes by [deadline]: what came, how the read stopped when it
    is short, and what is left. *)
Fixpoint gather (deadline : Z) (n : nat) (s : list Arrival) : bytes * option Byte.Outcome * list Arrival :=
  match n with
  | O => ([], None, s)
  | S n =>
      match next deadline s with
      | (Byte.Got b, s) => let '(got, stop, s) := gather deadline n s in (b :: got, stop, s)
      | (stop, s) => ([], Some stop, s)
      end
  end.

(** ** Archives *)
Class Archive (T : Type) : Type := {
  to_bytes : T -> option bytes;
  access : bytes -> option T;
}.
#[global] Hint Mode Archive ! : typeclass_instances.

(** What the archive library documents: it deserializes what it serialized. *)
Class ArchiveLaws (T : Type) `{Archive T} : Prop :=
  access_to_bytes : forall (m : T) (b : bytes), to_bytes m = Some b -> access b = Some m.
#[global] Hint Mode ArchiveLaws ! - : typeclass_instances.

(** ** Facts about timed reads *)

Lemma next_arriving deadline instant b s :
  instant <= deadline -> next deadline (Arrival.mk instant (Arrival.Data b) :: s) = (Byte.Got b, s).
Proof. intros Hi. unfold next. cbn [Arrival.instant Arrival.what]. by destruct (Z.ltb_spec deadline instant); [lia|]. Qed.

Lemma gather_arriving deadline instant b s :
  instant <= deadline -> gather deadline (length b) (arriving instant b ++ s) = (b, None, s).
Proof.
  intros Hi. induction b as [|c b IH]; [done|]. cbn [arriving fmap list_fmap app length gather].
  rewrite next_arriving by done. unfold arriving in IH. by rewrite IH.
Qed.

Lemma gather_app deadline n m s :
  gather deadline (n + m) s =
  match gather deadline n s with
  | (got, None, s) => let '(more, stop, s) := gather deadline m s in (got ++ more, stop, s)
  | short => short
  end.
Proof.
  revert s. induction n as [|n IH]; intros s; cbn [gather Nat.add].
  { by destruct (gather deadline m s) as [[got [|]] s']. }
  destruct (next deadline s) as [[b| | | |] s'] eqn:E; try done. rewrite IH.
  destruct (gather deadline n s') as [[got [?|]] s''] eqn:E2; [done|].
  by destruct (gather deadline m s'') as [[more stop] s3].
Qed.

(** A full read has the bytes asked for; a short one stopped for a reason
    that is not a byte. *)
Lemma gather_length deadline n s got stop s' :
  gather deadline n s = (got, stop, s') ->
  match stop with None => length got = n | Some o => (length got < n)%nat /\ forall b, o <> Byte.Got b end.
Proof.
  revert s got stop s'. induction n as [|n IH]; intros s got stop s' Hg; cbn [gather] in Hg.
  { by injection Hg as <- <- <-. }
  destruct (next deadline s) as [[b| | | |] s1] eqn:E; cbn in Hg;
    try (injection Hg as <- <- <-; cbn; split; [lia|done]).
  destruct (gather deadline n s1) as [[got1 stop1] s2] eqn:E2. injection Hg as <- <- <-.
  apply IH in E2. destruct stop1; cbn; [destruct E2; split; [lia|done]|congruence].
Qed.
