(* ===== verification/Server.v ===== *)
(** * The server: limits, frames and the handshake ([dioptron::server])

    [Limits] and its clamping, why a connection ends ([Close]), the bounded
    and timed reading of one frame, and the handshake up to the identity an
    admitted connection acts under. A handshake is a program over a [Peer]:
    what arrives from the socket, how each write to it ends, and what was
    written. The signature scheme is a parameter. *)
From S2P Require Import Prelude Vocab Ids Payload Wire Records Store Daemon Stream.
Local Open Scope Z_scope.

(** ** Limits ([server/mod.rs]; durations in milliseconds) *)
Definition HANDSHAKE_TIMEOUT_MS : Z := 5000.
Definition MAX_DURATION : Z := 24 * 60 * 60 * 1000.
Definition FRAMES_PER_CONNECTION : Z := 7.

Module ServerLimits.
Record Limits : Set := mk {
  max_connections : Z; max_in_flight : Z; handshake_timeout : Z; frame_timeout : Z; idle_timeout : Z;
  max_deadline : Z; dispatch_grace : Z; shutdown_grace : Z; max_frame : Z }.
End ServerLimits.
Abbreviation ServerLimits := ServerLimits.Limits.

(** [Limits::default]. *)
Definition default_limits : ServerLimits :=
  ServerLimits.mk 16 9 HANDSHAKE_TIMEOUT_MS 10000 300000 120000 2000 5000 DEFAULT_MAX_BODY.
Definition DEFAULT_MEMORY_BUDGET : Z := 256 * 1024 * 1024.

(** Rust's [Ord::clamp] and [u64::saturating_mul]. *)
Definition clamp (low high x : Z) : Z := if x <? low then low else if high <? x then high else x.
Definition saturating_mul (max a b : Z) : Z := Z.min max (a * b).

(** [Limits::clamped]; [max_permits] is the runtime's [Semaphore::MAX_PERMITS]. *)
Definition clamped (max_permits : Z) (l : ServerLimits) : ServerLimits :=
  ServerLimits.mk
    (clamp 1 max_permits (ServerLimits.max_connections l))
    (Z.max (ServerLimits.max_in_flight l) 1)
    (Z.min (ServerLimits.handshake_timeout l) HANDSHAKE_TIMEOUT_MS)
    (Z.min (ServerLimits.frame_timeout l) MAX_DURATION)
    (Z.min (ServerLimits.idle_timeout l) MAX_DURATION)
    (Z.min (ServerLimits.max_deadline l) MAX_DURATION)
    (Z.min (ServerLimits.dispatch_grace l) MAX_DURATION)
    (Z.min (ServerLimits.shutdown_grace l) MAX_DURATION)
    (clamp PRE_AUTH_MAX_BODY HARD_MAX_BODY (ServerLimits.max_frame l)).
(** [Limits::worst_case_bytes]. *)
Definition worst_case_bytes (max_permits : Z) (l : ServerLimits) : Z :=
  let limits := clamped max_permits l in
  saturating_mul u64_max
    (saturating_mul u64_max (ServerLimits.max_connections limits)
       (saturating_add u64_max (ServerLimits.max_in_flight limits) FRAMES_PER_CONNECTION))
    (ServerLimits.max_frame limits).

(** ** Why a connection ends *)
Module IoError.
Inductive IoError : Set := UnexpectedEof | TimedOut | Other.
End IoError.
Abbreviation IoError := IoError.IoError.

Module Close.
Inductive Close : Set :=
| PeerClosed
| Io (error : IoError)
| Idle
| Shutdown
| Incompatible
| Internal (reason : string)
| Fault (failure : Failure) (reason : string).
End Close.
Abbreviation Close := Close.Close.
(** [Close::fault]. *)
Definition close_fault (c : Close) : option Failure :=
  match c with Close.Fault failure _ => Some failure | _ => None end.

(** ** Frames ([server/frame.rs]) *)
Module Frame.
Record Frame : Set := mk { header : FrameHeader; body : bytes }.
End Frame.
Abbreviation Frame := Frame.Frame.

Module ReadFail.
Inductive ReadFail : Set := Closed | Io (error : IoError) | Timeout | Header (error : SynthekeError).
End ReadFail.
Abbreviation ReadFail := ReadFail.ReadFail.
(** [ReadFail::into_close]. *)
Definition into_close (f : ReadFail) : Close :=
  match f with
  | ReadFail.Closed => Close.PeerClosed
  | ReadFail.Io error => Close.Io error
  | ReadFail.Timeout => Close.Fault Failure.ProtocolError "partial frame timed out"
  | ReadFail.Header _ => Close.Fault Failure.ProtocolError "invalid frame header"
  end.

(** How the wait for a frame stops: it failed, or the reader is dropped at
    its horizon (the handshake timer or a shutdown) while it still waits. *)
Module ReadStop.
Inductive ReadStop : Set := Fail (f : ReadFail) | Dropped.
End ReadStop.
Abbreviation ReadStop := ReadStop.ReadStop.

(** [read_exact] under [timeout_at(deadline)], by a reader that is dropped at
    [horizon]. *)
Definition read_exact (horizon : option Z) (deadline : Z) (n : nat) (s : list Arrival)
    : result ReadStop bytes * list Arrival :=
  let drop_first := match horizon with Some h => h <? deadline | None => false end in
  let limit := match horizon with Some h => Z.min h deadline | None => deadline end in
  match gather limit n s with
  | (got, None, s) => (Ok got, s)
  | (_, Some Byte.Eof, s) => (Err (ReadStop.Fail (ReadFail.Io IoError.UnexpectedEof)), s)
  | (_, Some Byte.Late, s) => (Err (if drop_first then ReadStop.Dropped else ReadStop.Fail ReadFail.Timeout), s)
  | (_, Some _, s) => (Err (ReadStop.Fail (ReadFail.Io IoError.Other)), s)
  end.

(** [read_frame]: the first byte has no timer of its own; the rest of the
    header and the body share one deadline; the length is checked against
    [cap] before the body is read. *)
Definition read_frame (horizon : option Z) (cap frame_timeout : Z) (s : list Arrival)
    : result ReadStop Frame * list Arrival :=
  match s with
  | [] => (Err ReadStop.Dropped, s)
  | a :: rest =>
      if match horizon with Some h => h <? Arrival.instant a | None => false end
      then (Err ReadStop.Dropped, s)
      else match Arrival.what a with
      | Arrival.Eof => (Err (ReadStop.Fail ReadFail.Closed), s)
      | Arrival.Reset | Arrival.Broken => (Err (ReadStop.Fail (ReadFail.Io IoError.Other)), s)
      | Arrival.Data first =>
          let deadline := Arrival.instant a + frame_timeout in
          let '(head, s) := read_exact horizon deadline (HEADER_LEN - 1) rest in
          match head with
          | Err e => (Err e, s)
          | Ok head =>
              match header_decode (first :: head) cap with
              | Err e => (Err (ReadStop.Fail (ReadFail.Header e)), s)
              | Ok header =>
                  let '(body, s) := read_exact horizon deadline (Z.to_nat (FrameHeader.len header)) s in
                  (body ← body; Ok (Frame.mk header body), s)
              end
          end
      end
  end.

(** ** The peer of a connection *)

(** How one [write_frame] ends: it went out, it failed or timed out, or the
    handshake timer dropped it. *)
Module Write.
Inductive Write : Set := Sent | Failed (error : IoError) | Dropped.
End Write.
Abbreviation Write := Write.Write.

Module Peer.
Record Peer : Set := mk { inbox : list Arrival; writes : list Write; written : list bytes }.
End Peer.
Abbreviation Peer := Peer.Peer.

(** How a program on a connection stops early. *)
Module Stop.
Inductive Stop : Set := Closing (c : Close) | Dropped.
End Stop.
Abbreviation Stop := Stop.Stop.

Definition Conn (A : Type) : Type := Peer -> result Stop A * Peer.
#[global] Instance Conn_ret : MRet Conn := fun A a p => (Ok a, p).
#[global] Instance Conn_bind : MBind Conn := fun A B f m p =>
  match m p with (Ok a, p) => f a p | (Err e, p) => (Err e, p) end.
Definition closing {A} (c : Close) : Conn A := fun p => (Err (Stop.Closing c), p).

(** [write_frame] in a program: only what went out is written. *)
Definition write_frame (b : bytes) : Conn unit := fun p =>
  match Peer.writes p with
  | Write.Sent :: ws => (Ok tt, Peer.mk (Peer.inbox p) ws (Peer.written p ++ [b]))
  | Write.Failed error :: ws => (Err (Stop.Closing (Close.Io error)), Peer.mk (Peer.inbox p) ws (Peer.written p))
  | Write.Dropped :: ws => (Err Stop.Dropped, Peer.mk (Peer.inbox p) ws (Peer.written p))
  | [] => (Err Stop.Dropped, p)
  end.

(** ** The handshake ([server/handshake.rs], [tenants.rs]) *)
Definition SERVER_VERSION_MIN : Z := WIRE_VERSION.
Definition SERVER_VERSION_MAX : Z := WIRE_VERSION.

Module Admission.
Record Admission : Set := mk { tenant : TenantId; version : Z }.
End Admission.
Abbreviation Admission := Admission.Admission.

Module TenantAuth.
Record TenantAuth : Set := mk { verifying_key : bytes; bound_uids : list Z }.
End TenantAuth.
Abbreviation TenantAuth := TenantAuth.TenantAuth.
(** The [TenantDirectory] trait, and the custody store as its
    implementation ([StoreTenants]). *)
Definition TenantDirectory : Type := TenantId -> option TenantAuth.
Definition store_tenants (db : Db) : TenantDirectory := fun tenant =>
  (fun entry => TenantAuth.mk (TenantEntry.verifying_key entry) (TenantEntry.bound_uids entry))
    <$> directory_tenant db tenant.

(** The Ed25519 library: keys parse and signatures verify, or not. *)
Class Signatures : Type := {
  verify_strict : bytes -> bytes -> bytes -> bool;   (* key, message, signature *)
}.

(** How the handshake part of a connection ends: the identity of the
    admitted connection, why it was closed, or a shutdown that came first. *)
Module Entry.
Inductive Entry : Set := Accepted (identity : ConnIdentity) | Closed (c : Close) | Stopped.
End Entry.
Abbreviation Entry := Entry.Entry.

Section server.
Context `{Signatures}.
Context `{!Archive ClientHello} `{!Archive ServerHello} `{!Archive Auth} `{!Archive AdmittedMsg}.
Context `{!Archive Fault}.

(** [fault_frame]. *)
Definition fault_frame (failure : Failure) : option bytes :=
  match encode_frame to_bytes (Fault.mk failure) PRE_AUTH_MAX_BODY with Ok b => Some b | Err _ => None end.

(** [Authenticator::authenticate]; [dummy_key] is the authenticator's state. *)
Definition authenticate (dummy_key : bytes) (directory : TenantDirectory) (tenant : TenantId) (uid : Z)
    (transcript signature : bytes) : bool :=
  let record := directory tenant in
  let known := bool_decide (is_Some record) in
  let '(key, bound_uids) := match record with
    | Some record => (TenantAuth.verifying_key record, TenantAuth.bound_uids record)
    | None => (dummy_key, [])
    end in
  let key_ok := verify_strict key transcript signature in
  let uid_ok := bool_decide (uid ∈ bound_uids) in
  known && key_ok && uid_ok.

(** [expect]: a request before authentication is an authentication failure. *)
Definition expect {T} (frame : Frame) (decode : Frame -> result SynthekeError T) : Conn T :=
  match FrameHeader.kind (Frame.header frame) with
  | FrameKind.Request | FrameKind.Cancel =>
      closing (Close.Fault Failure.AuthFailed "request before authentication")
  | _ =>
      match decode frame with
      | Ok m => mret m
      | Err _ => closing (Close.Fault Failure.ProtocolError "invalid handshake frame")
      end
  end.

(** [read] and [send] of the handshake. *)
Definition handshake_read (horizon : Z) (limits : ServerLimits) : Conn Frame := fun p =>
  let '(r, s) := read_frame (Some horizon) PRE_AUTH_MAX_BODY (ServerLimits.frame_timeout limits) (Peer.inbox p) in
  let p := Peer.mk s (Peer.writes p) (Peer.written p) in
  match r with
  | Ok frame => (Ok frame, p)
  | Err (ReadStop.Fail f) => (Err (Stop.Closing (into_close f)), p)
  | Err ReadStop.Dropped => (Err Stop.Dropped, p)
  end.
Definition handshake_send (encoded : result SynthekeError bytes) : Conn unit :=
  match encoded with
  | Ok b => write_frame b
  | Err _ => closing (Close.Internal "handshake frame did not encode")
  end.

Definition decode_as {T} `{Message T} `{Archive T} (frame : Frame) : result SynthekeError T :=
  decode_frame to_bytes access (Frame.header frame) (Frame.body frame) PRE_AUTH_MAX_BODY.

(** [fresh_nonce] on what the random source answered. *)
Definition fresh_nonce (random : option bytes) : Conn Nonce :=
  match random with
  | Some b => mret (Nonce_from_bytes b)
  | None => closing (Close.Internal "random source failed")
  end.

(** [handshake]. *)
Definition handshake (uid horizon : Z) (limits : ServerLimits) (directory : TenantDirectory)
    (dummy_key : bytes) (random : option bytes) : Conn Admission :=
  frame ← handshake_read horizon limits;
  hello ← expect (T := ClientHello) frame decode_as;
  server_nonce ← fresh_nonce random;
  let choice := negotiate_version (ClientHello.version_min hello) (ClientHello.version_max hello)
                  SERVER_VERSION_MIN SERVER_VERSION_MAX in
  let server_hello := ServerHello.mk choice server_nonce (ServerLimits.max_frame limits) in
  _ ← handshake_send (encode_frame to_bytes server_hello PRE_AUTH_MAX_BODY);
  match choice with
  | VersionChoice.Incompatible => closing Close.Incompatible
  | VersionChoice.Chosen version =>
      frame ← handshake_read horizon limits;
      auth ← expect (T := Auth) frame decode_as;
      let transcript := auth_transcript version (ClientHello.tenant hello) (ClientHello.client_nonce hello)
                          server_nonce in
      if negb (authenticate dummy_key directory (ClientHello.tenant hello) uid transcript
                 (Auth.signature auth))
      then closing (Close.Fault Failure.AuthFailed "authentication failed")
      else
        _ ← handshake_send (encode_frame to_bytes AdmittedMsg_unit PRE_AUTH_MAX_BODY);
        mret (Admission.mk (ClientHello.tenant hello) version)
  end.

(** [identity]. *)
Definition identity (admission : Admission) (uid : Z) (pid : option Z) (max_frame : Z) : ConnIdentity :=
  ConnIdentity.mk (Admission.tenant admission) uid pid (Admission.version admission) max_frame.

(** [close_handshake]: the single fault frame, if any; whether it goes out
    does not matter any more. *)
Definition close_handshake (c : Close) (p : Peer) : Peer :=
  match close_fault c ≫= fault_frame with
  | Some b => (write_frame b p).2
  | None => p
  end.

(** The handshake part of [connection::run]: the connection was accepted at
    [started], and the daemon shuts down at [shutdown], if it does. *)
Definition run_handshake (uid : Z) (pid : option Z) (started : Z) (shutdown : option Z) (limits : ServerLimits)
    (directory : TenantDirectory) (dummy_key : bytes) (random : option bytes) (p : Peer)
    : Entry * Peer :=
  let timer := started + ServerLimits.handshake_timeout limits in
  let stopped := match shutdown with Some at_shutdown => at_shutdown <? timer | None => false end in
  let horizon := match shutdown with Some at_shutdown => Z.min at_shutdown timer | None => timer end in
  match handshake uid horizon limits directory dummy_key random p with
  | (Ok admission, p) => (Entry.Accepted (identity admission uid pid (ServerLimits.max_frame limits)), p)
  | (Err (Stop.Closing c), p) => (Entry.Closed c, close_handshake c p)
  | (Err Stop.Dropped, p) =>
      if stopped then (Entry.Stopped, p)
      else let c := Close.Fault Failure.ProtocolError "handshake timed out" in
           (Entry.Closed c, close_handshake c p)
  end.
End server.
