(* ===== verification/Client.v ===== *)
(** * The client ([xenos])

    The client's own frame codec, written again from the contract and not
    shared with the server's, its deadline-bounded reads and writes, the
    handshake from the client's side, and requests and responses on an
    admitted connection. A client program runs on a [Socket]: what arrives,
    how each [write] call ends, and the bytes written so far. *)
From S2P Require Import Prelude Vocab Ids Payload Wire Stream Server.
Local Open Scope Z_scope.

(** ** Errors ([xenos::error]) *)
Module ClientError.
Inductive ClientError : Set :=
| Connect
| Io (error : IoError)
| Timeout
| Closed
| Truncated (expected received : nat)
| NotClosed
| BadMagic (found : bytes)
| UnknownFrameKind (kind : byte)
| UnknownFlags (flags : byte)
| NonzeroReserved (reserved : Z)
| FrameTooLarge (len cap : Z)
| Contract (source : SynthekeError)
| UnexpectedFrame (expected found : FrameKind)
| Incompatible (min max : Z)
| VersionOutOfRange (chosen min max : Z)
| AuthFailed
| Fault (failure : Failure)
| Random
| UnexpectedResponse (expected found : Z)
| Broken.
End ClientError.
Abbreviation ClientError := ClientError.ClientError.

(** ** The frame codec ([xenos/src/frame.rs]) *)

(** [header_bytes]. *)
Definition header_bytes (kind flags : byte) (reserved len : Z) : bytes :=
  MAGIC ++ [kind; flags] ++ to_le_bytes 2 reserved ++ to_le_bytes 4 len.

(** [parse_header] of twelve bytes. *)
Definition parse_header (b : bytes) (cap : Z) : result ClientError (FrameKind * Z) :=
  match b with
  | [m0; m1; m2; m3; kind; flags; r0; r1; l0; l1; l2; l3] =>
      let found := [m0; m1; m2; m3] in
      _ ← ensure (bool_decide (found = MAGIC)) (ClientError.BadMagic found);
      kind ← ok_or (kind_from_u8 (b2z kind)) (ClientError.UnknownFrameKind kind);
      _ ← ensure (Z.land (b2z flags) (Z.lnot FLAGS_KNOWN) =? 0) (ClientError.UnknownFlags flags);
      let reserved := from_le_bytes [r0; r1] in
      _ ← ensure (reserved =? 0) (ClientError.NonzeroReserved reserved);
      let len := from_le_bytes [l0; l1; l2; l3] in
      let cap := Z.min cap HARD_MAX_BODY in
      _ ← ensure (len <=? cap) (ClientError.FrameTooLarge len cap);
      Ok (kind, len)
  | _ => Err (ClientError.BadMagic (take 4 b))
  end.

Section codec.
Context {T : Type} `{Message T} `{!Archive T} `{!Archive Fault}.

(** [WireMessage::encode_body], [WireMessage::decode_body]. *)
Definition encode_body (message : T) : result ClientError bytes :=
  map_err ClientError.Contract (encode to_bytes message).
Definition decode_body (body : bytes) (cap : Z) : result ClientError T :=
  map_err ClientError.Contract (decode to_bytes access body cap).

(** [frame_bytes]. *)
Definition frame_bytes (message : T) (cap : Z) : result ClientError bytes :=
  body ← encode_body message;
  let cap := Z.min cap HARD_MAX_BODY in
  let fits := Z.of_nat (length body) in
  len ← ok_or (if (fits <=? u32_max) && (fits <=? cap) then Some fits else None)
          (ClientError.FrameTooLarge (len_u64 (length body)) cap);
  Ok (header_bytes (z2b (kind_to_u8 (KIND T))) (z2b 0) 0 len ++ body).
End codec.

(** A received frame whose header passed its checks. *)
Module Received.
Record Frame : Set := mk { kind : FrameKind; body : bytes }.
End Received.

(** [Frame::decode]: a fault where another message is expected is the error
    it reports. *)
Definition received_decode {T} `{Message T} `{!Archive T} `{!Archive Fault}
    (frame : Received.Frame) (cap : Z) : result ClientError T :=
  if bool_decide (Received.kind frame = FrameKind.Fault) && negb (bool_decide (KIND T = FrameKind.Fault)) then
    fault ← decode_body (T := Fault) (Received.body frame) cap;
    _ ← ensure (negb (bool_decide (Fault.failure fault = Failure.AuthFailed))) ClientError.AuthFailed;
    Err (ClientError.Fault (Fault.failure fault))
  else
    _ ← ensure (bool_decide (Received.kind frame = KIND T))
          (ClientError.UnexpectedFrame (KIND T) (Received.kind frame));
    decode_body (Received.body frame) cap.

(** ** Deadline-bounded input and output *)

(** One [write] call: when it is made and how it ends. *)
Module WriteCall.
Inductive What : Set := Wrote (count : nat) | Interrupted | TimedOut | Failed.
Record WriteCall : Set := mk { instant : Z; what : What }.
End WriteCall.
Abbreviation WriteCall := WriteCall.WriteCall.

Module Socket.
Record Socket : Set := mk { inbox : list Arrival; calls : list WriteCall; written : bytes }.
End Socket.
Abbreviation Socket := Socket.Socket.

Definition Cl (A : Type) : Type := Socket -> result ClientError A * Socket.
#[global] Instance Cl_ret : MRet Cl := fun A a s => (Ok a, s).
#[global] Instance Cl_bind : MBind Cl := fun A B f m s =>
  match m s with (Ok a, s) => f a s | (Err e, s) => (Err e, s) end.
Definition pure {A} (r : result ClientError A) : Cl A := fun s => (r, s).

Definition WRITE_SLICE : nat := 16 * 1024.

(** [write_all]: slices until nothing is left, each call before [deadline]. *)
Fixpoint write_calls (deadline : Z) (b : bytes) (calls : list WriteCall) (written : bytes)
    : result ClientError unit * list WriteCall * bytes :=
  match b, calls with
  | [], _ => (Ok tt, calls, written)
  | _, [] => (Err ClientError.Timeout, [], written)
  | _, call :: calls =>
      if deadline <=? WriteCall.instant call then (Err ClientError.Timeout, calls, written)
      else
        let slice := take WRITE_SLICE b in
        match WriteCall.what call with
        | WriteCall.Wrote n =>
            match Nat.min n (length slice) with
            | O => (Err (ClientError.Io IoError.Other), calls, written)
            | count => write_calls deadline (drop count b) calls (written ++ take count b)
            end
        | WriteCall.Interrupted => write_calls deadline b calls written
        | WriteCall.TimedOut => (Err ClientError.Timeout, calls, written)
        | WriteCall.Failed => (Err (ClientError.Io IoError.Other), calls, written)
        end
  end.
Definition write_all (b : bytes) (deadline : Z) : Cl unit := fun s =>
  let '(r, calls, written) := write_calls deadline b (Socket.calls s) (Socket.written s) in
  (r, Socket.mk (Socket.inbox s) calls written).

(** [fill]: [n] bytes before [deadline], or where it stopped; [now] is when
    the operation it is part of began. *)
Module Short.
Inductive Short : Set := Eof (received : nat) | Failed (error : ClientError).
End Short.
Abbreviation Short := Short.Short.
Definition fill_exact (n : nat) (now deadline : Z) (s : list Arrival) : result Short bytes * list Arrival :=
  if (0 <? n)%nat && (deadline <=? now) then (Err (Short.Failed ClientError.Timeout), s)
  else match gather deadline n s with
  | (got, None, s) => (Ok got, s)
  | (got, Some (Byte.Eof | Byte.Reset), s) => (Err (Short.Eof (length got)), s)
  | (_, Some Byte.Late, s) => (Err (Short.Failed ClientError.Timeout), s)
  | (_, Some _, s) => (Err (Short.Failed (ClientError.Io IoError.Other)), s)
  end.

(** [read_frame]. *)
Definition client_read_frame (cap now deadline : Z) : Cl Received.Frame := fun k =>
  let '(header, s) := fill_exact HEADER_LEN now deadline (Socket.inbox k) in
  let left s := Socket.mk s (Socket.calls k) (Socket.written k) in
  match header with
  | Err (Short.Eof O) => (Err ClientError.Closed, left s)
  | Err (Short.Eof received) => (Err (ClientError.Truncated HEADER_LEN received), left s)
  | Err (Short.Failed error) => (Err error, left s)
  | Ok header =>
      match parse_header header cap with
      | Err error => (Err error, left s)
      | Ok (kind, len) =>
          let '(body, s) := fill_exact (Z.to_nat len) now deadline s in
          match body with
          | Err (Short.Eof received) => (Err (ClientError.Truncated (Z.to_nat len) received), left s)
          | Err (Short.Failed error) => (Err error, left s)
          | Ok body => (Ok (Received.mk kind body), left s)
          end
      end
  end.

(** [await_close]. *)
Definition await_close (now deadline : Z) : Cl unit := fun k =>
  let '(r, s) := fill_exact 1 now deadline (Socket.inbox k) in
  (match r with
   | Err (Short.Eof _) => Ok tt
   | Ok _ => Err ClientError.NotClosed
   | Err (Short.Failed error) => Err error
   end, Socket.mk s (Socket.calls k) (Socket.written k)).

(** [deadline_after]: the last instant the clock can hold is that of 2^63 - 1
    seconds; a span that passes it counts as elapsed. *)
Definition INSTANT_MAX : Z := 2 ^ 63 * 1000 - 1.
Definition deadline_after (now span : Z) : Z := if now + span <=? INSTANT_MAX then now + span else now.

(** ** The raw connection ([xenos/src/raw.rs]) *)
Module RawConn.
Record RawConn : Set := mk { stream : Socket; timeout : Z }.
End RawConn.
Abbreviation RawConn := RawConn.RawConn.
(** An operation of the connection, at the instant it begins. *)
Definition Raw (A : Type) : Type := Z -> RawConn -> result ClientError A * RawConn.

(** [RawConn::from_stream], [RawConn::connect] (the stream, if the socket
    could be connected), [RawConn::set_timeout], [RawConn::into_stream]. *)
Definition from_stream (stream : Socket) (timeout : Z) : RawConn := RawConn.mk stream timeout.
Definition raw_connect (stream : option Socket) (timeout : Z) : result ClientError RawConn :=
  stream ← ok_or stream ClientError.Connect;
  Ok (from_stream stream timeout).
Definition set_timeout (timeout : Z) (conn : RawConn) : RawConn := RawConn.mk (RawConn.stream conn) timeout.
Definition into_stream (conn : RawConn) : Socket := RawConn.stream conn.

(** Runs [op] on the stream under the deadline [RawConn::deadline] gives. *)
Definition raw_deadline (now : Z) (conn : RawConn) : Z := deadline_after now (RawConn.timeout conn).
Definition on_stream {A} (op : Z -> Z -> Cl A) : Raw A := fun now conn =>
  let '(r, stream) := op now (raw_deadline now conn) (RawConn.stream conn) in
  (r, RawConn.mk stream (RawConn.timeout conn)).

(** [send_bytes], [send_frame], [send_message]. *)
Definition send_bytes (b : bytes) : Raw unit := on_stream (fun _ deadline => write_all b deadline).
Definition send_frame (header body : bytes) : Raw unit := send_bytes (header ++ body).
Definition raw_send_message {T} `{Message T} `{!Archive T} (message : T) (cap : Z) : Raw unit := fun now conn =>
  match frame_bytes message cap with
  | Err e => (Err e, conn)
  | Ok b => send_bytes b now conn
  end.
(** [read_frame], [read_message], [expect_close]. *)
Definition raw_read_frame (cap : Z) : Raw Received.Frame :=
  on_stream (fun now deadline => client_read_frame cap now deadline).
Definition read_message {T} `{Message T} `{!Archive T} `{!Archive Fault} (cap : Z) : Raw T := fun now conn =>
  match raw_read_frame cap now conn with
  | (Err e, conn) => (Err e, conn)
  | (Ok frame, conn) => (received_decode frame cap, conn)
  end.
Definition expect_close : Raw unit := on_stream await_close.
(** [shutdown_write]: once the sending half is closed no later [write]
    succeeds; [closed] is whether the call did. *)
Definition refused_call (call : WriteCall) : WriteCall := WriteCall.mk (WriteCall.instant call) WriteCall.Failed.
Definition shutdown_write (closed : bool) : Raw unit := fun _ conn =>
  if closed then
    let s := RawConn.stream conn in
    (Ok tt, RawConn.mk (Socket.mk (Socket.inbox s) (refused_call <$> Socket.calls s) (Socket.written s))
              (RawConn.timeout conn))
  else (Err (ClientError.Io IoError.Other), conn).

(** ** The admitted client ([xenos/src/client.rs]) *)
Module Timeouts.
Record Timeouts : Set := mk { handshake : Z; frame : Z }.
End Timeouts.
Abbreviation Timeouts := Timeouts.Timeouts.
Definition default_timeouts : Timeouts := Timeouts.mk HANDSHAKE_TIMEOUT_MS 60000.

Module Client.
Record Client : Set := mk { version : Z; max_frame : Z; timeouts : Timeouts; broken : bool }.
End Client.
Abbreviation Client := Client.Client.
Definition with_broken (broken : bool) (c : Client) : Client :=
  Client.mk (Client.version c) (Client.max_frame c) (Client.timeouts c) broken.

(** The version range of a handshake, [versions.start()..=versions.end()], and
    the range the crate speaks. *)
Definition supported_versions : Z * Z := (WIRE_VERSION, WIRE_VERSION).

Section client.
Context `{!Archive ClientHello} `{!Archive ServerHello} `{!Archive Auth} `{!Archive AdmittedMsg}.
Context `{!Archive Request} `{!Archive Cancel} `{!Archive Response} `{!Archive Fault}.

(** [RawConn::send_message_by]. *)
Definition send_message_by {T} `{Message T} `{!Archive T} (message : T) (cap deadline : Z) : Cl unit :=
  b ← pure (frame_bytes message cap);
  write_all b deadline.
(** [conn.read_frame_by(cap, deadline)?.decode(cap)]. *)
Definition read_message_by {T} `{Message T} `{!Archive T} (cap now deadline : Z) : Cl T :=
  frame ← client_read_frame cap now deadline;
  pure (received_decode frame cap).

(** [handshake_with]: [blocking] is whether the stream could be made
    blocking, [sign] the signing key, [random] what the nonce source
    answers. *)
Definition handshake_with (now : Z) (tenant : TenantId) (sign : bytes -> bytes) (versions : Z * Z)
    (timeouts : Timeouts) (blocking : bool) (random : option bytes) : Cl Client :=
  let deadline := deadline_after now (Timeouts.handshake timeouts) in
  _ ← pure (ensure blocking (ClientError.Io IoError.Other));
  let '(low, high) := versions in
  nonce ← pure (ok_or random ClientError.Random);
  let client_nonce := Nonce_from_bytes nonce in
  let hello := ClientHello.mk low high tenant client_nonce in
  _ ← send_message_by hello PRE_AUTH_MAX_BODY deadline;
  reply ← read_message_by (T := ServerHello) PRE_AUTH_MAX_BODY now deadline;
  match ServerHello.version reply with
  | VersionChoice.Incompatible => pure (Err (ClientError.Incompatible low high))
  | VersionChoice.Chosen version =>
      _ ← pure (ensure ((low <=? version) && (version <=? high)) (ClientError.VersionOutOfRange version low high));
      let transcript := auth_transcript version tenant client_nonce (ServerHello.server_nonce reply) in
      _ ← send_message_by (Auth.mk (sign transcript)) PRE_AUTH_MAX_BODY deadline;
      _ ← read_message_by (T := AdmittedMsg) PRE_AUTH_MAX_BODY now deadline;
      mret (Client.mk version (ServerHello.max_frame reply) timeouts false)
  end.

(** [Client::handshake] draws the nonce from the system's random source;
    [Client::connect] runs it on the stream it connected, if it did. *)
Definition client_handshake := handshake_with.
Definition client_connect (now : Z) (tenant : TenantId) (sign : bytes -> bytes) (versions : Z * Z)
    (timeouts : Timeouts) (blocking : bool) (random : option bytes) (stream : option Socket)
    : result ClientError (Client * Socket) :=
  stream ← ok_or stream ClientError.Connect;
  match client_handshake now tenant sign versions timeouts blocking random stream with
  | (Ok c, s) => Ok (c, s)
  | (Err e, _) => Err e
  end.

(** [guarded]: runs [op], and any failure of it breaks the client. *)
Definition guarded {A} (now : Z) (c : Client) (op : Z -> Z -> Cl A) (s : Socket)
    : result ClientError A * Client * Socket :=
  if Client.broken c then (Err ClientError.Broken, c, s)
  else
    let deadline := deadline_after now (Timeouts.frame (Client.timeouts c)) in
    let '(r, s) := op (Client.max_frame c) deadline s in
    (r, with_broken (negb (is_ok r)) c, s).

(** [send_message]: framed, and refused, before any byte is written. *)
Definition send_message {T} `{Message T} `{!Archive T} (now : Z) (c : Client) (message : T) (s : Socket)
    : result ClientError unit * Client * Socket :=
  if Client.broken c then (Err ClientError.Broken, c, s)
  else match frame_bytes message (Client.max_frame c) with
       | Err e => (Err e, c, s)
       | Ok b => guarded now c (fun _ deadline => write_all b deadline) s
       end.
(** [send_request], [cancel], [recv_response]. *)
Definition send_request (now : Z) (c : Client) (request : Request) (s : Socket)
    : result ClientError unit * Client * Socket := send_message now c request s.
Definition cancel (now : Z) (c : Client) (request_id : Z) (s : Socket)
    : result ClientError unit * Client * Socket := send_message now c (Cancel.mk request_id) s.
Definition recv_response (now : Z) (c : Client) (s : Socket) : result ClientError Response * Client * Socket :=
  guarded now c (fun cap deadline => read_message_by (T := Response) cap now deadline) s.

(** [call]: sent at [now], and waited for from [later]. *)
Definition call (now later : Z) (c : Client) (request : Request) (s : Socket)
    : result ClientError Response * Client * Socket :=
  match send_request now c request s with
  | (Err e, c, s) => (Err e, c, s)
  | (Ok _, c, s) =>
      match recv_response later c s with
      | (Err e, c, s) => (Err e, c, s)
      | (Ok response, c, s) =>
          let expected := Request.request_id request in
          if Response.request_id response =? expected then (Ok response, c, s)
          else (Err (ClientError.UnexpectedResponse expected (Response.request_id response)),
                with_broken true c, s)
      end
  end.
End client.
