(* ===== verification/Connection.v ===== *)
(** * An admitted connection ([server/connection.rs], [Server::serve])

    The reader that turns bytes into requests and cancels, the connection
    loop that starts, retires and answers them, and how it closes; then the
    accept loop with its connection bound. Each turn of the connection loop
    is a [Poll]: what of the things it waits for is ready at that instant,
    taken in the source's biased order. The dispatcher's work is an outcome a
    [Poll] delivers for a task that runs. *)
From S2P Require Import Prelude Vocab Ids Payload Wire Daemon Stream Server.
Local Open Scope Z_scope.

(** ** The reader *)
Module Inbound.
Inductive Inbound : Set := Request (r : Request) | Cancel (c : Cancel).
End Inbound.
Abbreviation Inbound := Inbound.Inbound.
Abbreviation Item := (result Close Inbound).

(** ** State ([struct Admitted]; a [CancelHandle] is whether it has fired) *)
Module Task.
Record Task : Set := mk { request : Request; deadline : Z; backstop : Z }.
End Task.
Abbreviation Task := Task.Task.

Module AdmittedConn.
Record AdmittedConn : Set := mk {
  identity : ConnIdentity; in_flight : gmap Z bool; task_ids : gmap nat Z; tasks : gmap nat Task;
  last_activity : Z }.
End AdmittedConn.
Abbreviation AdmittedConn := AdmittedConn.AdmittedConn.
(** [Admitted::new]. *)
Definition admitted_new (identity : ConnIdentity) (now : Z) : AdmittedConn :=
  AdmittedConn.mk identity ∅ ∅ ∅ now.

(** How a dispatch task ends: with the dispatcher's response, by its
    backstop, or by a panic. *)
Module Ended.
Inductive Ended : Set := Answered (response : Response) | Elapsed | Panicked.
End Ended.
Abbreviation Ended := Ended.Ended.

(** [tag], [failed]. *)
Definition tag (response : Response) (request_id : Z) : Response :=
  if Response.request_id response =? request_id then response
  else Response.mk request_id (Response.invocation response) (Response.body response).
Definition failed_response (request_id : Z) (failure : Failure) : Response :=
  Response.mk request_id None (ResponseBody.Failed failure).

(** What the spawned task of a request returns; [None] is a [JoinError]. *)
Definition task_output (request_id : Z) (ended : Ended) : option Response :=
  match ended with
  | Ended.Answered response => Some (tag response request_id)
  | Ended.Elapsed => Some (failed_response request_id Failure.DeadlineExceeded)
  | Ended.Panicked => None
  end.

(** One turn of the loop: the time, the shutdown signal, the task that
    ended, whether the reader's channel yields (its next item, or nothing when
    the reader is gone and has none left), how a write would end, and the id the runtime gives to a task spawned among others. *)
Module Poll.
Record Poll : Type := mk {
  now : Z; stop : bool; join : option (nat * Ended); ready : bool; write : option IoError;
  spawn : gmap nat Task -> nat }.
End Poll.
Abbreviation Poll := Poll.Poll.

(** The loop: the items the reader will forward, the connection, and what
    was written to it. *)
Module Loop.
Record Loop : Set := mk { items : list Item; conn : AdmittedConn; written : list bytes }.
End Loop.
Abbreviation Loop := Loop.Loop.

(** ** Operations on the connection *)

(** [start]: spawns the dispatch of one request. *)
Definition start (limits : ServerLimits) (now : Z) (spawn : gmap nat Task -> nat) (request : Request)
    (c : AdmittedConn) : result Close AdmittedConn :=
  let request_id := Request.request_id request in
  if bool_decide (is_Some (AdmittedConn.in_flight c !! request_id)) then
    Err (Close.Fault Failure.ProtocolError "duplicate in-flight request id")
  else if ServerLimits.max_in_flight limits <=? Z.of_nat (size (AdmittedConn.in_flight c)) then
    Err (Close.Fault Failure.ProtocolError "in-flight request bound exceeded")
  else
    let deadline := now + Z.min (Request.deadline_ms request) (ServerLimits.max_deadline limits) in
    let backstop := deadline + ServerLimits.dispatch_grace limits in
    let task := spawn (AdmittedConn.tasks c) in
    Ok (AdmittedConn.mk (AdmittedConn.identity c)
          (<[request_id := false]> (AdmittedConn.in_flight c))
          (<[task := request_id]> (AdmittedConn.task_ids c))
          (<[task := Task.mk request deadline backstop]> (AdmittedConn.tasks c))
          (AdmittedConn.last_activity c)).

(** [accept]: a cancel for an id that is not in flight is benign. *)
Definition accept (limits : ServerLimits) (now : Z) (spawn : gmap nat Task -> nat) (inbound : Inbound)
    (c : AdmittedConn) : result Close AdmittedConn :=
  match inbound with
  | Inbound.Request request => start limits now spawn request c
  | Inbound.Cancel (Cancel.mk request_id) =>
      Ok (AdmittedConn.mk (AdmittedConn.identity c)
            (alter (fun _ => true) request_id (AdmittedConn.in_flight c))
            (AdmittedConn.task_ids c) (AdmittedConn.tasks c) (AdmittedConn.last_activity c))
  end.

(** The join set yields a task that ended, and forgets it. *)
Definition join_next (task : nat) (c : AdmittedConn) : AdmittedConn :=
  AdmittedConn.mk (AdmittedConn.identity c) (AdmittedConn.in_flight c) (AdmittedConn.task_ids c)
    (delete task (AdmittedConn.tasks c)) (AdmittedConn.last_activity c).

(** [retire]: [outcome] is what the joined task returned. *)
Definition retire (task : nat) (outcome : option Response) (c : AdmittedConn)
    : option Response * AdmittedConn :=
  match AdmittedConn.task_ids c !! task with
  | None => (None, c)
  | Some request_id =>
      (Some (default (failed_response request_id Failure.UnknownEffect) outcome),
       AdmittedConn.mk (AdmittedConn.identity c) (delete request_id (AdmittedConn.in_flight c))
         (delete task (AdmittedConn.task_ids c)) (AdmittedConn.tasks c) (AdmittedConn.last_activity c))
  end.

Definition touch (now : Z) (c : AdmittedConn) : AdmittedConn :=
  AdmittedConn.mk (AdmittedConn.identity c) (AdmittedConn.in_flight c) (AdmittedConn.task_ids c)
    (AdmittedConn.tasks c) now.

(** [handle.cancel()] for every handle. *)
Definition cancel_all (c : AdmittedConn) : AdmittedConn :=
  AdmittedConn.mk (AdmittedConn.identity c) ((fun _ => true) <$> AdmittedConn.in_flight c)
    (AdmittedConn.task_ids c) (AdmittedConn.tasks c) (AdmittedConn.last_activity c).
(** [tasks.shutdown()]. *)
Definition abort_all (c : AdmittedConn) : AdmittedConn :=
  AdmittedConn.mk (AdmittedConn.identity c) (AdmittedConn.in_flight c) (AdmittedConn.task_ids c) ∅
    (AdmittedConn.last_activity c).

(** When the idle timer of the loop runs out, if it is armed. *)
Definition idle_at (limits : ServerLimits) (c : AdmittedConn) : option Z :=
  if bool_decide (AdmittedConn.in_flight c = ∅)
  then Some (AdmittedConn.last_activity c + ServerLimits.idle_timeout limits) else None.

(** ** The buffers of a connection

    [Admitted::run] and its reader are two tasks joined by a channel: the
    reader reads a frame, decodes it and sends it, waiting while the channel
    is full; the connection loop takes from the channel, and holds a frame
    while it writes one. [Loop.items] is what the channel holds here. *)

(** [mpsc::channel(1)]. *)
Definition CHANNEL : nat := 1.

Module FrameReader.
Inductive FrameReader : Set := Waiting | Decoding (frame : Frame) | Sending (item : Item) | Ended.
End FrameReader.
Abbreviation FrameReader := FrameReader.FrameReader.

(** What the loop is writing. *)
Module Writing.
Inductive Writing : Set := Nothing | Response (frame : bytes) | Fault (frame : bytes).
End Writing.
Abbreviation Writing := Writing.Writing.

(** Where [Admitted::run] is: in its loop, in the drain of [finish], or at
    its end. *)
Module ConnPhase.
Inductive ConnPhase : Set := Open | Draining (deliver : bool) (grace : Z) | Done.
End ConnPhase.
Abbreviation ConnPhase := ConnPhase.ConnPhase.

Module Pipe.
Record Pipe : Set := mk { inbox : list Arrival; reader : FrameReader; loop : Loop; writing : Writing; phase : ConnPhase }.
End Pipe.
Abbreviation Pipe := Pipe.Pipe.

(** Who moves next: the reader ([read_frame] returns, [decode_frame] returns,
    [send] returns, or the aborted reader is dropped), or the loop (one turn,
    or its write ends). *)
Module Move.
Inductive Move : Type := Read | Decode | Send | Drop | Turn (p : Poll) | Wrote.
End Move.
Abbreviation Move := Move.Move.

Section connection.
Context `{!Archive Request} `{!Archive Cancel} `{!Archive Response} `{!Archive Fault}.

(** [read_loop]: one frame as an item. *)
Definition inbound_of (cap : Z) (frame : Frame) : Item :=
  let decoded {T} `{Message T} `{Archive T} : result SynthekeError T :=
    decode_frame to_bytes access (Frame.header frame) (Frame.body frame) cap in
  match FrameHeader.kind (Frame.header frame) with
  | FrameKind.Request =>
      match decoded (T := Request) with
      | Ok request => Ok (Inbound.Request request)
      | Err _ => Err (Close.Fault Failure.ProtocolError "invalid request")
      end
  | FrameKind.Cancel =>
      match decoded (T := Cancel) with
      | Ok cancel => Ok (Inbound.Cancel cancel)
      | Err _ => Err (Close.Fault Failure.ProtocolError "invalid cancel")
      end
  | _ => Err (Close.Fault Failure.ProtocolError "frame kind not valid after admission")
  end.
(** [read_loop]: what it forwards, up to the first failure. Every frame takes
    a header of arrivals, so the length of the stream is enough fuel. *)
Fixpoint read_frames (fuel : nat) (cap frame_timeout : Z) (s : list Arrival) : list Item :=
  match fuel with
  | O => []
  | S fuel =>
      match read_frame None cap frame_timeout s with
      | (Err ReadStop.Dropped, _) => []
      | (Err (ReadStop.Fail f), _) => [Err (into_close f)]
      | (Ok frame, s) =>
          match inbound_of cap frame with
          | Ok inbound => Ok inbound :: read_frames fuel cap frame_timeout s
          | Err close => [Err close]
          end
      end
  end.
Definition read_loop (cap frame_timeout : Z) (s : list Arrival) : list Item :=
  read_frames (S (length s)) cap frame_timeout s.

(** [complete]: retires a finished dispatch and writes its response. *)
Definition complete (now : Z) (task : nat) (outcome : option Response) (write : option IoError) (l : Loop)
    : result Close unit * Loop :=
  match retire task outcome (Loop.conn l) with
  | (None, c) => (Ok tt, Loop.mk (Loop.items l) c (Loop.written l))
  | (Some response, c) =>
      match encode_frame to_bytes response (ConnIdentity.max_frame (AdmittedConn.identity c)) with
      | Err _ => (Err (Close.Fault Failure.ProtocolError "response does not fit the negotiated frame bound"),
                  Loop.mk (Loop.items l) c (Loop.written l))
      | Ok b =>
          match write with
          | Some error => (Err (Close.Io error), Loop.mk (Loop.items l) c (Loop.written l))
          | None => (Ok tt, Loop.mk (Loop.items l) (touch now c) (Loop.written l ++ [b]))
          end
      end
  end.

(** The task a turn joins: one that runs. *)
Definition joined (p : Poll) (c : AdmittedConn) : option (nat * option Response) :=
  '(task, ended) ← Poll.join p;
  t ← AdmittedConn.tasks c !! task;
  Some (task, task_output (Request.request_id (Task.request t)) ended).

(** One turn of [Admitted::run]'s loop: [Err close] breaks it. *)
Definition turn (limits : ServerLimits) (p : Poll) (l : Loop) : result Close unit * Loop :=
  if Poll.stop p then (Err Close.Shutdown, l)
  else match joined p (Loop.conn l) with
  | Some (task, outcome) =>
      complete (Poll.now p) task outcome (Poll.write p)
        (Loop.mk (Loop.items l) (join_next task (Loop.conn l)) (Loop.written l))
  | None =>
      match Poll.ready p, Loop.items l with
      | true, [] => (Err Close.PeerClosed, l)
      | true, Err close :: items => (Err close, Loop.mk items (Loop.conn l) (Loop.written l))
      | true, Ok inbound :: items =>
          let c := touch (Poll.now p) (Loop.conn l) in
          match accept limits (Poll.now p) (Poll.spawn p) inbound c with
          | Ok c => (Ok tt, Loop.mk items c (Loop.written l))
          | Err close => (Err close, Loop.mk items c (Loop.written l))
          end
      | false, _ =>
          match idle_at limits (Loop.conn l) with
          | Some timer => if timer <=? Poll.now p then (Err Close.Idle, l) else (Ok tt, l)
          | None => (Ok tt, l)
          end
      end
  end.

(** The loop of [Admitted::run], for as long as [polls] lasts. *)
Fixpoint run_loop (limits : ServerLimits) (polls : list Poll) (l : Loop) : option Close * Loop :=
  match polls with
  | [] => (None, l)
  | p :: polls =>
      match turn limits p l with
      | (Ok _, l) => run_loop limits polls l
      | (Err close, l) => (Some close, l)
      end
  end.

(** The drain of [finish]: tasks that end within the grace; their responses
    go out only when [deliver]. One turn of its loop, and whether there is
    another. *)
Definition drain_step (deliver : bool) (grace : Z) (p : Poll) (l : Loop) : bool * Loop :=
  if bool_decide (AdmittedConn.tasks (Loop.conn l) = ∅) || (grace <? Poll.now p) then (false, l)
  else match joined p (Loop.conn l) with
  | None => (true, l)
  | Some (task, outcome) =>
      let l := Loop.mk (Loop.items l) (join_next task (Loop.conn l)) (Loop.written l) in
      if deliver then
        match complete (Poll.now p) task outcome (Poll.write p) l with
        | (Ok _, l) => (true, l)
        | (Err _, l) => (false, l)
        end
      else (true, l)
  end.
Fixpoint drain (deliver : bool) (grace : Z) (polls : list Poll) (l : Loop) : Loop :=
  match polls with
  | [] => l
  | p :: polls =>
      match drain_step deliver grace p l with
      | (true, l) => drain deliver grace polls l
      | (false, l) => l
      end
  end.

(** [finish]: [fault_write] is how the write of the fault frame ends. *)
Definition finish (limits : ServerLimits) (now : Z) (close : Close) (fault_write : option IoError)
    (polls : list Poll) (l : Loop) : Loop :=
  let deliver := match close with Close.Shutdown => true | _ => false end in
  let written := match deliver, close_fault close ≫= fault_frame, fault_write with
    | false, Some b, None => Loop.written l ++ [b]
    | _, _, _ => Loop.written l
    end in
  let l := Loop.mk (Loop.items l) (cancel_all (Loop.conn l)) written in
  let l := drain deliver (now + ServerLimits.dispatch_grace limits) polls l in
  Loop.mk (Loop.items l) (abort_all (Loop.conn l)) (Loop.written l).

(** *** The moves of the two tasks *)
Definition pipe_new (id : ConnIdentity) (now : Z) (inbox : list Arrival) : Pipe :=
  Pipe.mk inbox FrameReader.Waiting (Loop.mk [] (admitted_new id now) []) Writing.Nothing ConnPhase.Open.

(** The response frame a turn writes, when it joins a task. *)
Definition outgoing (p : Poll) (c : AdmittedConn) : Writing :=
  match joined p c with
  | None => Writing.Nothing
  | Some (task, outcome) =>
      match retire task outcome (join_next task c) with
      | (None, _) => Writing.Nothing
      | (Some response, c) =>
          match encode_frame to_bytes response (ConnIdentity.max_frame (AdmittedConn.identity c)) with
          | Ok b => Writing.Response b
          | Err _ => Writing.Nothing
          end
      end
  end.
(** [inbound.recv()] returns when the channel has an item, or is closed. *)
Definition recv_ready (p : Poll) (reader : FrameReader) (items : list Item) : Poll :=
  let ready := match items, reader with
    | _ :: _, _ | [], FrameReader.Ended => Poll.ready p
    | [], _ => false
    end in
  Poll.mk (Poll.now p) (Poll.stop p) (Poll.join p) ready (Poll.write p) (Poll.spawn p).

Definition pipe_turn (limits : ServerLimits) (p : Poll) (P : Pipe) : Pipe :=
  let l := Pipe.loop P in
  match Pipe.phase P with
  | ConnPhase.Open =>
      let p := recv_ready p (Pipe.reader P) (Loop.items l) in
      let out := if Poll.stop p then Writing.Nothing else outgoing p (Loop.conn l) in
      match turn limits p l with
      | (Ok _, l) => Pipe.mk (Pipe.inbox P) (Pipe.reader P) l out ConnPhase.Open
      | (Err close, l) =>
          let deliver := match close with Close.Shutdown => true | _ => false end in
          let out := match close_fault close ≫= fault_frame with
            | Some b => Writing.Fault b | None => out end in
          let written := match close_fault close ≫= fault_frame, Poll.write p with
            | Some b, None => Loop.written l ++ [b] | _, _ => Loop.written l end in
          let l := Loop.mk (Loop.items l) (cancel_all (Loop.conn l)) written in
          Pipe.mk (Pipe.inbox P) (Pipe.reader P) l out
            (ConnPhase.Draining deliver (Poll.now p + ServerLimits.dispatch_grace limits))
      end
  | ConnPhase.Draining deliver grace =>
      match drain_step deliver grace p l with
      | (true, l') =>
          Pipe.mk (Pipe.inbox P) (Pipe.reader P) l'
            (if deliver then outgoing p (Loop.conn l) else Writing.Nothing) (ConnPhase.Draining deliver grace)
      | (false, l) =>
          Pipe.mk (Pipe.inbox P) (Pipe.reader P)
            (Loop.mk (Loop.items l) (abort_all (Loop.conn l)) (Loop.written l)) Writing.Nothing ConnPhase.Done
      end
  | ConnPhase.Done => P
  end.
Definition pipe_move (limits : ServerLimits) (P : Pipe) (m : Move) : Pipe :=
  let with_reader s r := Pipe.mk s r (Pipe.loop P) (Pipe.writing P) (Pipe.phase P) in
  let cap := ServerLimits.max_frame limits in
  match m with
  | Move.Read =>
      match Pipe.reader P with
      | FrameReader.Waiting =>
          match read_frame None cap (ServerLimits.frame_timeout limits) (Pipe.inbox P) with
          | (Ok frame, s) => with_reader s (FrameReader.Decoding frame)
          | (Err (ReadStop.Fail f), s) => with_reader s (FrameReader.Sending (Err (into_close f)))
          | (Err ReadStop.Dropped, _) => P
          end
      | _ => P
      end
  | Move.Decode =>
      match Pipe.reader P with
      | FrameReader.Decoding frame => with_reader (Pipe.inbox P) (FrameReader.Sending (inbound_of cap frame))
      | _ => P
      end
  | Move.Send =>
      match Pipe.reader P with
      | FrameReader.Sending item =>
          let l := Pipe.loop P in
          if (length (Loop.items l) <? CHANNEL)%nat then
            Pipe.mk (Pipe.inbox P) (if is_ok item then FrameReader.Waiting else FrameReader.Ended)
              (Loop.mk (Loop.items l ++ [item]) (Loop.conn l) (Loop.written l)) (Pipe.writing P) (Pipe.phase P)
          else P
      | _ => P
      end
  | Move.Drop =>
      match Pipe.phase P with
      | ConnPhase.Open => P
      | _ => with_reader (Pipe.inbox P) FrameReader.Ended
      end
  | Move.Turn p =>
      match Pipe.writing P with
      | Writing.Nothing => pipe_turn limits p P
      | _ => P
      end
  | Move.Wrote => Pipe.mk (Pipe.inbox P) (Pipe.reader P) (Pipe.loop P) Writing.Nothing (Pipe.phase P)
  end.

(** *** What they hold, in bytes of frame bodies

    A decoded message counts as its canonical encoding. *)
Definition message_bytes {T} `{!Archive T} (m : T) : Z :=
  match to_bytes m with Some b => Z.of_nat (length b) | None => 0 end.
Definition item_bytes (item : Item) : Z :=
  match item with
  | Ok (Inbound.Request r) => message_bytes r
  | Ok (Inbound.Cancel c) => message_bytes c
  | Err _ => 0
  end.
Definition body_bytes (frame : bytes) : Z := Z.of_nat (length frame - HEADER_LEN).
(** The body buffer [read_frame] has allocated: none before a header was
    accepted. *)
Definition announced_len (horizon : option Z) (cap frame_timeout : Z) (s : list Arrival) : Z :=
  match s with
  | Arrival.mk instant (Arrival.Data first) :: rest =>
      match read_exact horizon (instant + frame_timeout) (HEADER_LEN - 1) rest with
      | (Ok head, _) =>
          match header_decode (first :: head) cap with Ok header => FrameHeader.len header | Err _ => 0 end
      | (Err _, _) => 0
      end
  | _ => 0
  end.
(** Decoding holds the frame, its aligned copy, the value and its canonical
    encoding. *)
Definition decoding_bytes (frame : Frame) : Z := 4 * Z.of_nat (length (Frame.body frame)).
Definition reader_bytes (limits : ServerLimits) (P : Pipe) : Z :=
  match Pipe.reader P with
  | FrameReader.Waiting =>
      announced_len None (ServerLimits.max_frame limits) (ServerLimits.frame_timeout limits) (Pipe.inbox P)
  | FrameReader.Decoding frame => decoding_bytes frame
  | FrameReader.Sending item => item_bytes item
  | FrameReader.Ended => 0
  end.
(** A response being written is held as a value and in two encoded copies; a
    fault as the copies. *)
Definition writing_bytes (w : Writing) : Z :=
  match w with
  | Writing.Nothing => 0
  | Writing.Response b => 3 * body_bytes b
  | Writing.Fault b => 2 * body_bytes b
  end.
Definition task_bytes (t : Task) : Z := message_bytes (Task.request t).
Definition pipe_bytes (limits : ServerLimits) (P : Pipe) : Z :=
  reader_bytes limits P + foldr (fun item acc => item_bytes item + acc) 0 (Loop.items (Pipe.loop P)) +
  map_sum task_bytes (AdmittedConn.tasks (Loop.conn (Pipe.loop P))) + writing_bytes (Pipe.writing P).
End connection.

(** ** The accept loop ([Server::serve])

    A connection that is still in its handshake holds a permit but no
    admitted state: a frame it reads, or one it writes. *)
Module Shaking.
Inductive Shaking : Set :=
| Idle | Waiting (horizon : Z) (inbox : list Arrival) | Received (frame : Frame) | Sent (frame : bytes).
End Shaking.
Abbreviation Shaking := Shaking.Shaking.
Module Connection.
Inductive Connection : Set := Handshake (s : Shaking) | Serving (P : Pipe).
End Connection.
Abbreviation Connection := Connection.Connection.
Abbreviation Connections := (gmap nat Connection).

(** What the handshake sends. *)
Module Greeting.
Inductive Greeting : Set := Hello (m : ServerHello) | AdmittedFrame | Fault (f : Fault).
End Greeting.
Abbreviation Greeting := Greeting.Greeting.

Module ServerEvent.
Inductive ServerEvent : Type :=
| Accepted (id : nat)
| Awaits (id : nat) (horizon : Z) (inbox : list Arrival)
| Reads (id : nat)
| Writes (id : nat) (m : Greeting)
| Entered (id : nat) (admission : Admission) (uid : Z) (pid : option Z) (now : Z) (inbox : list Arrival)
| Moved (id : nat) (m : Move)
| Finished (id : nat).
End ServerEvent.
Abbreviation ServerEvent := ServerEvent.ServerEvent.

Section accept_loop.
Context `{!Archive Request} `{!Archive Cancel} `{!Archive Response} `{!Archive Fault}.
Context `{!Archive ServerHello} `{!Archive AdmittedMsg}.

Definition greeting_frame (m : Greeting) : result SynthekeError bytes :=
  match m with
  | Greeting.Hello m => encode_frame to_bytes m PRE_AUTH_MAX_BODY
  | Greeting.AdmittedFrame => encode_frame to_bytes AdmittedMsg_unit PRE_AUTH_MAX_BODY
  | Greeting.Fault f => encode_frame to_bytes f PRE_AUTH_MAX_BODY
  end.

(** A new connection is refused when no permit is free; it reads and writes
    the frames of its handshake one at a time, then serves; [Finished] is the
    end of a connection's task, which gives its permit back. *)
Definition server_event (limits : ServerLimits) (cs : Connections) (e : ServerEvent) : Connections :=
  match e with
  | ServerEvent.Accepted id =>
      if bool_decide (is_Some (cs !! id)) then cs
      else if Z.of_nat (size cs) <? ServerLimits.max_connections limits
      then <[id := Connection.Handshake Shaking.Idle]> cs else cs
  | ServerEvent.Awaits id horizon inbox =>
      match cs !! id with
      | Some (Connection.Handshake _) => <[id := Connection.Handshake (Shaking.Waiting horizon inbox)]> cs
      | _ => cs
      end
  | ServerEvent.Reads id =>
      match cs !! id with
      | Some (Connection.Handshake (Shaking.Waiting horizon inbox)) =>
          let held := match read_frame (Some horizon) PRE_AUTH_MAX_BODY (ServerLimits.frame_timeout limits) inbox with
            | (Ok frame, _) => Shaking.Received frame
            | (Err _, _) => Shaking.Idle
            end in
          <[id := Connection.Handshake held]> cs
      | _ => cs
      end
  | ServerEvent.Writes id m =>
      match cs !! id with
      | Some (Connection.Handshake _) =>
          let held := match greeting_frame m with Ok b => Shaking.Sent b | Err _ => Shaking.Idle end in
          <[id := Connection.Handshake held]> cs
      | _ => cs
      end
  | ServerEvent.Entered id admission uid pid now inbox =>
      match cs !! id with
      | Some (Connection.Handshake _) =>
          <[id := Connection.Serving
             (pipe_new (identity admission uid pid (ServerLimits.max_frame limits)) now inbox)]> cs
      | _ => cs
      end
  | ServerEvent.Moved id m =>
      match cs !! id with
      | Some (Connection.Serving P) => <[id := Connection.Serving (pipe_move limits P m)]> cs
      | _ => cs
      end
  | ServerEvent.Finished id => delete id cs
  end.

(** The bytes of frame bodies a connection holds. *)
Definition connection_bytes (limits : ServerLimits) (c : Connection) : Z :=
  match c with
  | Connection.Handshake Shaking.Idle => 0
  | Connection.Handshake (Shaking.Waiting horizon inbox) =>
      announced_len (Some horizon) PRE_AUTH_MAX_BODY (ServerLimits.frame_timeout limits) inbox
  | Connection.Handshake (Shaking.Received frame) => decoding_bytes frame
  | Connection.Handshake (Shaking.Sent b) => 3 * body_bytes b
  | Connection.Serving P => pipe_bytes limits P
  end.
End accept_loop.
