(* ===== verification/Handshake.v ===== *)
(** * What the handshake guarantees

    Only a peer that proves its tenant's key over this connection's nonce,
    from a bound user, is let in, and a peer that is not cannot tell why. *)
From S2P Require Import Prelude Vocab Ids Payload Wire Records Store Invocation Invariant Runs Custody.
From S2P Require Import Daemon Stream Server.
Local Open Scope Z_scope.

(** ** Reading *)

(** The arrivals [pre] are exactly the bytes [b], none after [limit]. *)
Definition carries (limit : Z) (pre : list Arrival) (b : bytes) : Prop :=
  Arrival.what <$> pre = Arrival.Data <$> b /\ Forall (fun a => Arrival.instant a <= limit) pre.

Lemma carries_app limit pre1 pre2 b1 b2 :
  carries limit pre1 b1 -> carries limit pre2 b2 -> carries limit (pre1 ++ pre2) (b1 ++ b2).
Proof. intros [H1 H2] [H3 H4]. split; [by rewrite !fmap_app, H1, H3|by apply Forall_app]. Qed.
Lemma carries_le limit limit' pre b : limit <= limit' -> carries limit pre b -> carries limit' pre b.
Proof. intros Hl [H1 H2]. split; [done|]. eapply Forall_impl; [done|]. cbn. lia. Qed.

Lemma gather_carries deadline n s got s' :
  gather deadline n s = (got, None, s') -> exists pre, s = pre ++ s' /\ carries deadline pre got.
Proof.
  revert s got s'. induction n as [|n IH]; intros s got s' Hg; cbn [gather] in Hg.
  { injection Hg as <- <-. by exists []. }
  destruct s as [|a s]; cbn [next] in Hg; [done|].
  destruct (Z.ltb_spec deadline (Arrival.instant a)); [done|].
  destruct (Arrival.what a) eqn:Ea; try done.
  destruct (gather deadline n s) as [[got1 stop1] s1] eqn:E. injection Hg as <- -> <-.
  destruct (IH _ _ _ E) as (pre & -> & Hp & Hf). exists (a :: pre).
  split; [done|]. split; [cbn; by rewrite Ea, Hp|by constructor].
Qed.

Lemma read_exact_Ok horizon deadline n s got s' :
  read_exact horizon deadline n s = (Ok got, s') ->
  length got = n /\ exists pre, s = pre ++ s' /\ carries deadline pre got /\
    (forall h, horizon = Some h -> carries h pre got).
Proof.
  unfold read_exact. set (limit := match horizon with Some h => Z.min h deadline | None => deadline end).
  destruct (gather limit n s) as [[got1 stop1] s1] eqn:E. intros Hr.
  destruct stop1 as [[]|]; try (by destruct horizon as [h|]; [destruct (h <? deadline)|]); [].
  injection Hr as <- <-. split; [by apply gather_length in E|].
  apply gather_carries in E as (pre & -> & Hp). exists pre. split; [done|].
  split; [|intros h ->]; eapply carries_le; [|done| |done]; subst limit; [destruct horizon|]; lia.
Qed.

(** A frame that was read is the encoding of its header, then its body, all
    within the frame timeout of its first byte. *)
Lemma read_frame_Ok horizon cap frame_timeout s f s' :
  read_frame horizon cap frame_timeout s = (Ok f, s') ->
  exists a pre, s = (a :: pre) ++ s' /\
    (0 <= frame_timeout -> carries (Arrival.instant a + frame_timeout) (a :: pre)
       (header_encode (Frame.header f) ++ Frame.body f)) /\
    (forall h, horizon = Some h -> carries h (a :: pre) (header_encode (Frame.header f) ++ Frame.body f)) /\
    Arrival.what <$> a :: pre = Arrival.Data <$> header_encode (Frame.header f) ++ Frame.body f /\
    FrameHeader.flags (Frame.header f) = FLAGS_NONE /\
    FrameHeader.len (Frame.header f) = Z.of_nat (length (Frame.body f)) /\
    FrameHeader.len (Frame.header f) <= clamp_cap cap.
Proof.
  unfold read_frame. destruct s as [|a s]; [done|].
  destruct (match horizon with Some h => h <? Arrival.instant a | None => false end) eqn:Eh; [done|].
  destruct (Arrival.what a) as [first| | |] eqn:Ea; try done.
  destruct (read_exact horizon _ (HEADER_LEN - 1) s) as [[head|] s1] eqn:E1; [|done].
  destruct (header_decode (first :: head) cap) as [header|] eqn:Ed; [|done].
  destruct (read_exact horizon _ _ s1) as [[body|] s2] eqn:E2; cbn [mbind result_bind]; [|done].
  injection 1 as <- <-.
  apply read_exact_Ok in E1 as (L1 & pre1 & -> & C1 & H1).
  apply read_exact_Ok in E2 as (L2 & pre2 & -> & C2 & H2).
  apply header_decode_Ok in Ed as (Ed & Hfl & [Hr _] & Hc).
  exists a, (pre1 ++ pre2). cbn [Frame.header Frame.body]. rewrite Ed.
  assert (forall l, Arrival.instant a <= l -> carries l pre1 head -> carries l pre2 body ->
            carries l (a :: pre1 ++ pre2) ((first :: head) ++ body)) as Hall.
  { intros l Hl Ha Hb. apply (carries_app l (a :: pre1) pre2); [|done]. destruct Ha as [Ha Ha'].
    split; [cbn; by rewrite Ea, Ha|by constructor]. }
  split_and!; try done; [by cbn; rewrite <- app_assoc| | | |rewrite L2; lia].
  - intros Ht. apply Hall; [lia|done..].
  - intros h ->. apply Z.ltb_ge in Eh. apply Hall; auto.
  - destruct C1 as [C1 _], C2 as [C2 _]. rewrite !fmap_cons, !fmap_app. cbn. by rewrite Ea, C1, C2.
Qed.

(** What decodes as a message is its one encoding. *)
Lemma decode_frame_encode {T} `{Message T} (to : T -> option bytes) (from : bytes -> option T) header body cap m :
  FrameHeader.flags header = FLAGS_NONE ->
  decode_frame to from header body cap = Ok m ->
  encode_frame to m cap = Ok (header_encode header ++ body).
Proof.
  intros Hf. unfold decode_frame. intros Hd. inv_ok. bool_simpl.
  match goal with H : decode _ _ _ _ = Ok _ |- _ => apply decode_Ok in H as (Hl & _ & Ht & Hc) end.
  unfold encode_frame, encode. rewrite Hc; cbn [mbind result_bind]. rewrite Ht; cbn [ok_or mbind result_bind].
  assert (clamp_cap cap <= u32_max) as Hu. { rewrite clamp_cap_spec. unfold HARD_MAX_BODY, u32_max. lia. }
  rewrite (proj2 (Z.leb_le (Z.of_nat (length body)) u32_max)), (proj2 (Z.leb_le _ (clamp_cap cap))) by lia.
  cbn [andb ok_or mbind result_bind]. destruct header as [k fl len]; cbn in *. subst. done.
Qed.

Lemma decode_frame_kind {T} `{Message T} (to : T -> option bytes) (from : bytes -> option T) header body cap m :
  decode_frame to from header body cap = Ok m -> FrameHeader.kind header = KIND T.
Proof. unfold decode_frame. intros Hd. inv_ok. by bool_simpl. Qed.

Section handshake.
Context `{Signatures}.
Context `{!Archive ClientHello} `{!Archive ServerHello} `{!Archive Auth} `{!Archive AdmittedMsg}.
Context `{!Archive Fault}.

(** [authenticate] is the three checks on a registered tenant. *)
Lemma authenticate_iff dummy directory tenant uid transcript signature :
  authenticate dummy directory tenant uid transcript signature = true <->
  exists record, directory tenant = Some record /\
    verify_strict (TenantAuth.verifying_key record) transcript signature = true /\
    uid ∈ TenantAuth.bound_uids record.
Proof using Type.
  unfold authenticate. destruct (directory tenant) as [record|]; cbn.
  - rewrite andb_true_iff, bool_decide_eq_true. naive_solver.
  - naive_solver.
Qed.

Lemma handshake_read_Ok horizon limits p f p' :
  handshake_read horizon limits p = (Ok f, p') ->
  exists pre, Peer.inbox p = pre ++ Peer.inbox p' /\
    carries horizon pre (header_encode (Frame.header f) ++ Frame.body f) /\
    FrameHeader.flags (Frame.header f) = FLAGS_NONE /\
    Peer.writes p' = Peer.writes p /\ Peer.written p' = Peer.written p.
Proof using Type.
  unfold handshake_read. destruct (read_frame _ _ _ _) as [[f1|[]] s] eqn:E; try done.
  intros [= -> <-]. apply read_frame_Ok in E as (a & pre & E & _ & Hh & _ & Hf & _).
  exists (a :: pre). by split_and!; auto.
Qed.

Lemma expect_Ok {T} frame (dec : Frame -> result SynthekeError T) p m p' :
  expect frame dec p = (Ok m, p') -> dec frame = Ok m /\ p' = p.
Proof using Type.
  unfold expect, closing. destruct (FrameHeader.kind _); try done;
    by (destruct (dec frame); [intros [= -> <-]|]).
Qed.

(** A handshake frame that was read and expected is the one encoding of the
    message, and all of it came before the horizon. *)
Lemma receive_Ok {T} `{Message T} `{!Archive T} horizon limits p f p' m p'' :
  handshake_read horizon limits p = (Ok f, p') -> expect (T := T) f decode_as p' = (Ok m, p'') ->
  p'' = p' /\ Peer.writes p' = Peer.writes p /\ Peer.written p' = Peer.written p /\
  exists pre b, Peer.inbox p = pre ++ Peer.inbox p' /\ carries horizon pre b /\
    encode_frame to_bytes m PRE_AUTH_MAX_BODY = Ok b.
Proof using Type.
  intros (pre & Hi & Hc & Hf & Hw & Hw')%handshake_read_Ok [Hd ->]%expect_Ok.
  split_and!; [done..|]. exists pre, (header_encode (Frame.header f) ++ Frame.body f).
  split_and!; [done..|]. by eapply decode_frame_encode.
Qed.

Lemma handshake_send_Ok encoded p u p' :
  handshake_send encoded p = (Ok u, p') ->
  exists b, encoded = Ok b /\ Peer.inbox p' = Peer.inbox p /\ Peer.written p' = Peer.written p ++ [b].
Proof using Type.
  destruct encoded as [b|]; cbn; [|done]. unfold write_frame.
  destruct (Peer.writes p) as [|[]]; try done. intros [= <- <-]. by exists b.
Qed.

Lemma conn_bind_Ok {A B} (m : Conn A) (f : A -> Conn B) p b p' :
  (m ≫= f) p = (Ok b, p') -> exists a p1, m p = (Ok a, p1) /\ f a p1 = (Ok b, p').
Proof using Type. unfold mbind, Conn_bind. destruct (m p) as [[a|] p1]; [eauto|done]. Qed.

(** What the tenant directory said of an admitted tenant. *)
Lemma run_handshake_directory uid pid started shutdown limits directory dummy random p id p' :
  run_handshake uid pid started shutdown limits directory dummy random p = (Entry.Accepted id, p') ->
  exists record, directory (ConnIdentity.tenant id) = Some record /\ uid ∈ TenantAuth.bound_uids record.
Proof using Type.
  unfold run_handshake. destruct (handshake _ _ _ _ _ _ _) as [[ad|[c|]] p1] eqn:E; [|done|].
  2: { intros Hx. destruct shutdown as [t|]; [case_in Hx|]; discriminate Hx. }
  intros [= <- _]. unfold handshake in E. do 4 apply conn_bind_Ok in E as (? & ? & _ & E).
  destruct (negotiate_version _ _ _ _) as [v|]; [|done]. do 2 apply conn_bind_Ok in E as (? & ? & _ & E).
  destruct (authenticate _ _ _ _ _ _) eqn:A; cbn [negb] in E; [|done].
  apply conn_bind_Ok in E as (? & ? & _ & E). injection E as <- _.
  apply authenticate_iff in A as (record & Hd & _ & Hu). eauto.
Qed.

(** C8. Only the holder of the tenant's key gets in. A connection is admitted
    only when, before the handshake timer, its peer sent exactly a
    [ClientHello] and then an [Auth] whose signature, by the key registered
    for the named tenant, covers the version, the tenant, the client's nonce
    and the nonce this server drew for this very connection, and the socket's
    user is one the tenant is bound to; the identity it acts under is that
    tenant, that user and the one version both sides speak, and what the peer
    got is the [ServerHello] with the nonce, then [Admitted]. *)
Theorem admission_authenticated (uid : Z) (pid : option Z) (started : Z) (shutdown : option Z)
    (limits : ServerLimits) (directory : TenantDirectory) (dummy_key : bytes) (random : option bytes)
    (p p' : Peer) (id : ConnIdentity) :
  run_handshake uid pid started shutdown limits directory dummy_key random p = (Entry.Accepted id, p') ->
  exists hello auth nonce record pre b1 b2 sh ad,
    random = Some nonce /\
    encode_frame to_bytes hello PRE_AUTH_MAX_BODY = Ok b1 /\ encode_frame to_bytes auth PRE_AUTH_MAX_BODY = Ok b2 /\
    Peer.inbox p = pre ++ Peer.inbox p' /\
    carries (started + ServerLimits.handshake_timeout limits) pre (b1 ++ b2) /\
    directory (ClientHello.tenant hello) = Some record /\ uid ∈ TenantAuth.bound_uids record /\
    verify_strict (TenantAuth.verifying_key record)
      (auth_transcript WIRE_VERSION (ClientHello.tenant hello) (ClientHello.client_nonce hello)
         (Nonce_from_bytes nonce)) (Auth.signature auth) = true /\
    ClientHello.version_min hello <= WIRE_VERSION <= ClientHello.version_max hello /\
    id = ConnIdentity.mk (ClientHello.tenant hello) uid pid WIRE_VERSION (ServerLimits.max_frame limits) /\
    encode_frame to_bytes (ServerHello.mk (VersionChoice.Chosen WIRE_VERSION) (Nonce_from_bytes nonce)
      (ServerLimits.max_frame limits)) PRE_AUTH_MAX_BODY = Ok sh /\
    encode_frame to_bytes AdmittedMsg_unit PRE_AUTH_MAX_BODY = Ok ad /\
    Peer.written p' = Peer.written p ++ [sh; ad].
Proof using Type.
  unfold run_handshake. set (timer := started + _).
  set (horizon := match shutdown with Some _ => _ | None => _ end).
  assert (horizon <= timer) as Hht by (subst horizon; destruct shutdown; lia).
  destruct (handshake _ _ _ _ _ _ _) as [[ad|[c|]] p1] eqn:E; [|done|].
  2: { intros Hx. destruct shutdown as [t|]; [destruct (t <? timer)|]; discriminate Hx. }
  intros [= <- <-]. unfold handshake in E.
  apply conn_bind_Ok in E as (f1 & q1 & R1 & E). apply conn_bind_Ok in E as (hello & q2 & X1 & E).
  destruct (receive_Ok _ _ _ _ _ _ _ R1 X1) as (-> & W1 & W1' & pre1 & b1 & I1 & C1 & E1).
  apply conn_bind_Ok in E as (nonce & q3 & N & E).
  destruct random as [nb|]; [|done]. injection N as <- <-.
  apply conn_bind_Ok in E as ([] & q4 & S1 & E). apply handshake_send_Ok in S1 as (sh & Hsh & I2 & W2).
  pose proof (negotiate_version_spec (ClientHello.version_min hello) (ClientHello.version_max hello)
    SERVER_VERSION_MIN SERVER_VERSION_MAX) as Hv.
  destruct (negotiate_version _ _ _ _) as [v|] eqn:Ev; [|done].
  assert (v = WIRE_VERSION) as -> by (unfold SERVER_VERSION_MIN, SERVER_VERSION_MAX in Hv; lia).
  apply conn_bind_Ok in E as (f2 & q5 & R2 & E). apply conn_bind_Ok in E as (auth & q6 & X2 & E).
  destruct (receive_Ok _ _ _ _ _ _ _ R2 X2) as (-> & W3 & W3' & pre2 & b2 & I3 & C3 & E3).
  destruct (authenticate _ _ _ _ _ _) eqn:A; cbn [negb] in E; [|done].
  apply authenticate_iff in A as (record & Hd & Hs & Hu).
  apply conn_bind_Ok in E as ([] & q7 & S2 & E). apply handshake_send_Ok in S2 as (adm & Hadm & I4 & W4).
  injection E as <- <-.
  exists hello, auth, nb, record, (pre1 ++ pre2), b1, b2, sh, adm. split_and!; try done; try lia.
  - rewrite <- app_assoc. congruence.
  - apply carries_app; by eapply carries_le.
  - rewrite W4, W3', W2, W1', <- app_assoc. done.
Qed.

(** C25. A refused peer learns nothing about why. Whatever tenants exist, with
    whatever keys and bound users, whichever user connects and whatever the
    stand-in key is: while the socket takes what is written to it, two
    handshakes that see the same frames and are both not admitted end the same
    way, having written the same bytes, so an unknown tenant, a wrong key, a
    replayed signature and an unbound user are one and the same
    [AuthFailed]. *)
Theorem auth_failures_indistinguishable (uid1 uid2 : Z) (pid : option Z) (started : Z)
    (shutdown : option Z) (limits : ServerLimits) (directory1 directory2 : TenantDirectory)
    (dummy1 dummy2 : bytes) (random : option bytes) (p : Peer) :
  let run uid directory dummy := run_handshake uid pid started shutdown limits directory dummy random p in
  is_ok (encode_frame to_bytes AdmittedMsg_unit PRE_AUTH_MAX_BODY) = true ->
  (exists ws, Peer.writes p = Write.Sent :: Write.Sent :: ws) ->
  (forall id, (run uid1 directory1 dummy1).1 <> Entry.Accepted id) ->
  (forall id, (run uid2 directory2 dummy2).1 <> Entry.Accepted id) ->
  run uid1 directory1 dummy1 = run uid2 directory2 dummy2.
Proof using Type.
  cbn zeta beta. unfold run_handshake.
  set (horizon := match shutdown with Some _ => Z.min _ _ | None => _ end).
  intros Had [ws Hw]. unfold handshake, mbind, Conn_bind.
  destruct (handshake_read horizon limits p) as [[f1|?] q1] eqn:R1; [|done].
  destruct (expect f1 decode_as q1) as [[hello|?] q2] eqn:X1; [|done].
  destruct random as [nonce|]; cbn [fresh_nonce mret Conn_ret closing]; [|done].
  destruct (handshake_send _ q2) as [[?|?] q4] eqn:S1; [|done].
  destruct (negotiate_version _ _ _ _) as [v|]; [|done].
  destruct (handshake_read horizon limits q4) as [[f2|?] q5] eqn:R2; [|done].
  destruct (expect f2 decode_as q5) as [[auth|?] q6] eqn:X2; [|done].
  assert (exists q7, handshake_send (encode_frame to_bytes AdmittedMsg_unit PRE_AUTH_MAX_BODY) q6 = (Ok tt, q7))
    as [q7 Hs].
  { apply handshake_read_Ok in R1 as (_ & _ & _ & _ & W1 & _). apply expect_Ok in X1 as [_ ->].
    apply handshake_read_Ok in R2 as (_ & _ & _ & _ & W2 & _). apply expect_Ok in X2 as [_ ->].
    destruct (encode_frame to_bytes AdmittedMsg_unit _) as [ad|]; [|done].
    destruct (encode_frame to_bytes (ServerHello.mk _ _ _) _) as [sh|]; [|done].
    cbn in S1 |- *. unfold write_frame in *. rewrite W1, Hw in S1. injection S1 as _ <-.
    rewrite W2. cbn [Peer.writes]. eauto. }
  destruct (authenticate dummy1 _ _ _ _ _), (authenticate dummy2 _ _ _ _ _); cbn [negb]; rewrite ?Hs; try done;
    intros H1 H2; [destruct (H1 _ eq_refl)|destruct (H1 _ eq_refl)|destruct (H2 _ eq_refl)].
Qed.
End handshake.

(** ** Who the store lets connect

    The handshake over the custody store's own tenant directory, in every run
    of the store. *)

Section access.
Context `{Hashes} `{Signatures}.
Context `{!Archive ClientHello} `{!Archive ServerHello} `{!Archive Auth} `{!Archive AdmittedMsg}.
Context `{!Archive Fault}.

(** Only a registered tenant connects, and an erased one never again.
    With the store as the tenant directory, after any run of it, an admitted
    connection acts for a tenant the store has registered, from a user its
    registration binds; and the tenant was not erased at any point of the
    run, so a key its agents still hold opens nothing. *)
Theorem only_registered_admitted (trace : list Event) (uid : Z) (pid : option Z) (started : Z)
    (shutdown : option Z) (limits : ServerLimits) (dummy_key : bytes) (random : option bytes) (p p' : Peer)
    (id : ConnIdentity) :
  Typed trace ->
  run_handshake uid pid started shutdown limits (store_tenants (run empty_db trace)) dummy_key random p
    = (Entry.Accepted id, p') ->
  exists rec, Db.tenants (run empty_db trace) !! ConnIdentity.tenant id = Some rec /\
    uid ∈ TenantRecord.bound_uids rec /\
    forall before after, trace = before ++ after ->
      Db.tombstones (run empty_db before) !! ConnIdentity.tenant id = None.
Proof using Type.
  intros HT (record & Hd & Hu)%run_handshake_directory. unfold store_tenants, directory_tenant in Hd.
  destruct (Db.tenants (run empty_db trace) !! ConnIdentity.tenant id) as [rec|] eqn:E; [|done].
  injection Hd as <-. exists rec. split; [done|]. split; [exact Hu|]. intros before after ->.
  destruct (Db.tombstones (run empty_db before) !! ConnIdentity.tenant id) as [tb|] eqn:Et; [|done].
  apply Forall_app in HT as [HTb HTa]. exfalso.
  pose proof (kept_tombstones _ _ (run_Kept _ after (run_Inv before HTb) HTa) _ _ Et) as Hk.
  unfold run in E, Hk. rewrite foldl_app in E.
  rewrite tombstone_no_tenant in E; [done| |eauto].
  rewrite <- foldl_app. apply (run_Inv (before ++ after)). by apply Forall_app.
Qed.
End access.
