(* ===== verification/Interop.v ===== *)
(** * The client and the server understand each other

    The client's codec and the contract's agree byte for byte, an honest
    client is admitted, a request arrives as it was sent and a response as it
    was written, and a client never speaks on a connection whose framing it
    has lost. *)
From S2P Require Import Prelude Vocab Ids Payload Wire Records Store Daemon Stream Server Client.
From S2P Require Import Connection Handshake.
Local Open Scope Z_scope.

(** ** The two codecs *)

(** The client's name for a header error of the contract. *)
Definition client_error (e : SynthekeError) : ClientError :=
  match e with
  | BadMagic found => ClientError.BadMagic found
  | UnknownFrameKind kind => ClientError.UnknownFrameKind kind
  | UnknownFlags flags => ClientError.UnknownFlags flags
  | NonzeroReserved reserved => ClientError.NonzeroReserved reserved
  | FrameTooLarge len cap => ClientError.FrameTooLarge len cap
  | e => ClientError.Contract e
  end.

Lemma parse_header_decode b cap :
  parse_header b cap =
  match header_decode b cap with
  | Ok h => Ok (FrameHeader.kind h, FrameHeader.len h)
  | Err e => Err (client_error e)
  end.
Proof.
  unfold parse_header, header_decode. rewrite <- clamp_cap_spec.
  destruct b as [|m0 [|m1 [|m2 [|m3 [|k [|f [|r0 [|r1 [|l0 [|l1 [|l2 [|l3 [|]]]]]]]]]]]]]; try done.
  destruct (bool_decide _); cbn [ensure mbind result_bind]; [|done].
  destruct (kind_from_u8 _) as [kind|]; cbn [ok_or mbind result_bind]; [|done].
  destruct (Z.land _ _ =? 0); cbn [ensure mbind result_bind]; [|done].
  destruct (from_le_bytes _ =? 0); cbn [ensure mbind result_bind]; [|done].
  by destruct (_ <=? _).
Qed.

Lemma header_bytes_encode kind len :
  header_bytes (z2b (kind_to_u8 kind)) (z2b 0) 0 len = header_encode (header_new kind len).
Proof. done. Qed.

Section codec.
Context {T : Type} `{Message T} `{!Archive T} `{!Archive Fault}.

Lemma frame_bytes_encode (m : T) cap :
  match frame_bytes m cap, encode_frame to_bytes m cap with
  | Ok b, Ok b' => b = b'
  | Err _, Err _ => True
  | _, _ => False
  end.
Proof using Type.
  unfold frame_bytes, encode_body, encode_frame. rewrite <- clamp_cap_spec.
  destruct (encode to_bytes m) as [body|]; cbn [map_err mbind result_bind]; [|done].
  by destruct (_ && _).
Qed.
Lemma frame_bytes_Ok (m : T) cap b : frame_bytes m cap = Ok b <-> encode_frame to_bytes m cap = Ok b.
Proof using Type.
  pose proof (frame_bytes_encode m cap) as Hf.
  destruct (frame_bytes m cap), (encode_frame to_bytes m cap); naive_solver.
Qed.

(** A frame that carries [m] under [cap]. *)
Lemma encode_frame_split (m : T) cap b :
  encode_frame to_bytes m cap = Ok b ->
  exists body, let header := header_new (KIND T) (Z.of_nat (length body)) in
    b = header_encode header ++ body /\ header_decode (header_encode header) cap = Ok header /\
    (ArchiveLaws T -> decode to_bytes access body cap = Ok m).
Proof using Type.
  unfold encode_frame. intros He. apply bind_Ok in He as (body & Hm & He). inv_ok.
  destruct (_ && _) eqn:Hb; [|done]. bool_simpl.
  match goal with Hx : Some _ = Some _ |- _ => injection Hx as <- end.
  unfold encode in Hm. inv_ok. exists body. split; [done|]. split.
  - rewrite header_decode_encode; [|done|split; cbn; lia]. cbn [FrameHeader.len header_new].
    by rewrite (proj2 (Z.leb_le _ _)).
  - intros Hlaws. apply decode_Ok. repeat match goal with u : () |- _ => destruct u end. split_and!; auto.
Qed.

(** The client's codec, written again from the contract, is the
    contract's. The client's parser accepts exactly the headers the server's
    does, with the same kind and length, and refuses the others for the same
    reason; it frames a message exactly when the server would and into the
    same bytes; and it decodes a received frame to the message the server's
    decoder would, a fault being reported as the failure it carries. *)
Theorem client_codec_agrees (b : bytes) (m : T) (header : FrameHeader) (cap : Z) :
  parse_header b cap =
    match header_decode b cap with
    | Ok h => Ok (FrameHeader.kind h, FrameHeader.len h)
    | Err e => Err (client_error e)
    end /\
  (frame_bytes m cap = Ok b <-> encode_frame to_bytes m cap = Ok b) /\
  (FrameHeader.len header = Z.of_nat (length b) ->
   received_decode (Received.mk (FrameHeader.kind header) b) cap = Ok m <->
   decode_frame to_bytes access header b cap = Ok m).
Proof using Type.
  split; [apply parse_header_decode|]. split; [apply frame_bytes_Ok|].
  intros Hl. unfold received_decode, decode_frame, decode_body. cbn [Received.kind Received.body].
  rewrite Hl, Z.eqb_refl. cbn [ensure].
  destruct (bool_decide (FrameHeader.kind header = FrameKind.Fault)) eqn:Ek,
    (bool_decide (KIND T = FrameKind.Fault)) eqn:Et; cbn [andb negb].
  all: try apply bool_decide_eq_true in Ek; try apply bool_decide_eq_false in Ek;
    try apply bool_decide_eq_true in Et; try apply bool_decide_eq_false in Et.
  2: { rewrite (bool_decide_eq_false_2 (FrameHeader.kind header = KIND T)) by congruence. split; [|done].
       intros Hd. inv_ok. }
  all: destruct (bool_decide (FrameHeader.kind header = KIND T)); cbn [ensure mbind result_bind]; [|done];
    destruct (decode to_bytes access b cap); cbn; naive_solver.
Qed.

(** ** Reading what was framed *)

Lemma length_arriving t b : length (arriving t b) = length b.
Proof using Type. apply length_fmap. Qed.

Lemma read_exact_arriving horizon deadline t b s :
  t <= deadline -> (forall h, horizon = Some h -> t <= h) ->
  read_exact horizon deadline (length b) (arriving t b ++ s) = (Ok b, s).
Proof using Type.
  intros Hd Hh. unfold read_exact. rewrite gather_arriving; [done|].
  destruct horizon as [h|]; [|done]. specialize (Hh h eq_refl). lia.
Qed.

Lemma read_frame_encoded (m : T) horizon cap frame_timeout t b s :
  ArchiveLaws T -> encode_frame to_bytes m cap = Ok b ->
  0 <= frame_timeout -> (forall h, horizon = Some h -> t <= h) ->
  exists f, read_frame horizon cap frame_timeout (arriving t b ++ s) = (Ok f, s) /\
    FrameHeader.kind (Frame.header f) = KIND T /\
    decode_frame to_bytes access (Frame.header f) (Frame.body f) cap = Ok m.
Proof using Type.
  intros Hlaws (body & -> & Hd & Hm)%encode_frame_split Ht Hh. specialize (Hm Hlaws).
  set (header := header_new _ _) in *. exists (Frame.mk header body). split.
  - pose proof (length_header_encode header) as Hl.
    destruct (header_encode header) as [|first head]; [done|]. injection Hl as Hl.
    unfold read_frame. cbn [app arriving fmap list_fmap Arrival.instant Arrival.what].
    assert (match horizon with Some h => h <? t | None => false end = false) as ->.
    { destruct horizon as [h|]; [|done]. apply Z.ltb_ge. by apply Hh. }
    rewrite fmap_app, <- app_assoc. fold (arriving t head) (arriving t body).
    change (HEADER_LEN - 1)%nat with 11%nat. rewrite <- Hl.
    rewrite read_exact_arriving by (done || lia). rewrite Hd.
    change (FrameHeader.len header) with (Z.of_nat (length body)). rewrite Nat2Z.id.
    rewrite read_exact_arriving by (done || lia). done.
  - split; [done|]. unfold decode_frame. cbn [Frame.header Frame.body].
    change (FrameHeader.kind header) with (KIND T). change (FrameHeader.len header) with (Z.of_nat (length body)).
    rewrite bool_decide_eq_true_2, Z.eqb_refl by done. done.
Qed.

Lemma client_read_encoded (m : T) cap now deadline t b s calls written :
  ArchiveLaws T -> KIND T <> FrameKind.Fault -> encode_frame to_bytes m cap = Ok b -> now < deadline -> t <= deadline ->
  read_message_by (T := T) cap now deadline (Socket.mk (arriving t b ++ s) calls written) =
    (Ok m, Socket.mk s calls written).
Proof using Type.
  intros Hlaws Hk (body & -> & Hd & Hm)%encode_frame_split Hn Ht. specialize (Hm Hlaws).
  set (header := header_new _ _) in *. unfold read_message_by, client_read_frame, mbind, Cl_bind, fill_exact.
  rewrite (proj2 (Z.leb_gt _ _)) by done. rewrite !andb_false_r.
  cbn [Socket.inbox Socket.calls Socket.written]. unfold arriving. rewrite fmap_app, <- app_assoc.
  fold (arriving t (header_encode header)) (arriving t body). rewrite <- (length_header_encode header).
  rewrite gather_arriving by done. rewrite parse_header_decode, Hd.
  change (FrameHeader.len header) with (Z.of_nat (length body)). rewrite Nat2Z.id, andb_false_r, gather_arriving by done.
  unfold pure, received_decode, decode_body. cbn [Received.kind Received.body].
  change (FrameHeader.kind header) with (KIND T).
  rewrite (bool_decide_eq_false_2 (KIND T = FrameKind.Fault)), bool_decide_eq_true_2 by done.
  cbn [andb ensure mbind result_bind]. by rewrite Hm.
Qed.
End codec.

(** ** Writing *)

(** Whatever the calls do, what went out is a prefix of what was to be sent,
    once and in order, and all of it when the write succeeds. *)
Lemma write_calls_prefix deadline calls : forall b written r calls' written',
  write_calls deadline b calls written = (r, calls', written') ->
  exists n, written' = written ++ take n b /\ (r = Ok tt -> take n b = b).
Proof.
  induction calls as [|call calls IH]; intros b written r calls' written'.
  { destruct b; cbn; intros [= <- _ <-]; exists O; by rewrite app_nil_r. }
  destruct b as [|c b]; [cbn; intros [= <- _ <-]; exists O; by rewrite app_nil_r|].
  cbn [write_calls]. set (whole := c :: b).
  assert (forall e, (Err e, calls, written) = (r, calls', written') ->
    exists n, written' = written ++ take n whole /\ (r = Ok tt -> take n whole = whole)) as Hstop.
  { intros e [= <- _ <-]. exists O. split; [by rewrite app_nil_r|done]. }
  destruct (_ <=? _); [apply Hstop|].
  destruct (WriteCall.what call) as [n| | |]; [|apply IH|apply Hstop..].
  destruct (Nat.min n _) as [|count]; [apply Hstop|]. intros (k & Hk & Hr)%IH.
  exists (S count + k)%nat. rewrite Hk, <- app_assoc, take_take_drop. split; [done|].
  intros Hok. specialize (Hr Hok). rewrite <- take_take_drop, Hr. apply take_drop.
Qed.

(** While every call is made in time and takes something, as many calls as
    there are bytes are enough. *)
Definition takes (deadline : Z) (call : WriteCall) : Prop :=
  WriteCall.instant call < deadline /\ exists n, WriteCall.what call = WriteCall.Wrote (S n).
Lemma write_calls_takes deadline calls : forall b written,
  Forall (takes deadline) calls -> (length b <= length calls)%nat ->
  exists calls', write_calls deadline b calls written = (Ok tt, calls', written ++ b) /\
    Forall (takes deadline) calls' /\ (length calls <= length calls' + length b)%nat.
Proof.
  induction calls as [|call calls IH]; intros b written Hc Hl.
  { destruct b; [|cbn in Hl; lia]. exists []. rewrite app_nil_r. by split_and!. }
  destruct b as [|c b]; [eexists; rewrite app_nil_r; split_and!; [done|done|cbn; lia]|].
  apply Forall_cons in Hc as [[Hi [n Hn]] Hc]. cbn [write_calls]. rewrite (proj2 (Z.leb_gt _ _)) by done.
  rewrite Hn. set (whole := c :: b) in *.
  assert (exists k, Nat.min (S n) (length (take WRITE_SLICE whole)) = S k) as [k Hk].
  { rewrite length_take. change (length whole) with (S (length b)). unfold WRITE_SLICE.
    exists (Nat.pred (Nat.min (S n) (Nat.min (16 * 1024) (S (length b))))). lia. }
  rewrite Hk. destruct (IH (drop (S k) whole) (written ++ take (S k) whole)) as (calls' & E & Hc' & Hl').
  { done. }
  { rewrite length_drop. change (length whole) with (S (length b)) in *. cbn [length] in Hl. lia. }
  exists calls'. rewrite E, <- app_assoc, take_drop. split_and!; [done..|].
  rewrite length_drop in Hl'. change (length whole) with (S (length b)) in *. cbn [length]. lia.
Qed.

(** ** The raw connection *)

Lemma deadline_elapsed now span : INSTANT_MAX < now + span -> deadline_after now span = now.
Proof. intros Hm. unfold deadline_after. by rewrite (proj2 (Z.leb_gt _ _)). Qed.
Lemma write_calls_elapsed now b calls written :
  b <> [] -> Forall (fun call => now <= WriteCall.instant call) calls ->
  exists calls', write_calls now b calls written = (Err ClientError.Timeout, calls', written).
Proof.
  intros Hb Hc. destruct b as [|c b]; [done|]. destruct calls as [|call calls]; [by exists []|].
  apply Forall_cons in Hc as [Hi _]. cbn [write_calls]. rewrite (proj2 (Z.leb_le _ _)) by done. by exists calls.
Qed.
Lemma write_calls_refused deadline b calls written r calls' written' :
  write_calls deadline b (refused_call <$> calls) written = (r, calls', written') -> written' = written.
Proof.
  destruct b as [|c b]; [by destruct calls; intros [= _ _ <-]|].
  destruct calls as [|call calls]; [by intros [= _ _ <-]|]. cbn. by destruct (_ <=? _); intros [= _ _ <-].
Qed.

(** A timeout too large for the clock does not wait: every operation of the
    connection fails at once with [Timeout], and nothing is sent or read. *)
Theorem raw_timeout_fails_closed (now cap : Z) (b : bytes) (conn : RawConn) :
  INSTANT_MAX < now + RawConn.timeout conn -> b <> [] ->
  Forall (fun call => now <= WriteCall.instant call) (Socket.calls (RawConn.stream conn)) ->
  raw_read_frame cap now conn = (Err ClientError.Timeout, conn) /\
  expect_close now conn = (Err ClientError.Timeout, conn) /\
  exists conn', send_bytes b now conn = (Err ClientError.Timeout, conn') /\
  Socket.written (RawConn.stream conn') = Socket.written (RawConn.stream conn) /\
  Socket.inbox (RawConn.stream conn') = Socket.inbox (RawConn.stream conn).
Proof.
  intros Hm Hb Hc. destruct conn as [[inbox calls written] timeout]. cbn in Hm, Hc.
  unfold raw_read_frame, expect_close, send_bytes, on_stream, raw_deadline. cbn [RawConn.stream RawConn.timeout].
  rewrite deadline_elapsed by done. unfold client_read_frame, await_close, fill_exact. rewrite Z.leb_refl. split; [done|].
  split; [done|]. unfold write_all. cbn [Socket.inbox Socket.calls Socket.written].
  destruct (write_calls_elapsed now b calls written Hb Hc) as [calls' ->]. by eexists.
Qed.
(** Once the sending half is closed, nothing more goes out. *)
Theorem raw_shutdown_silences (now now' : Z) (b : bytes) (conn conn' conn'' : RawConn) (r : result ClientError unit) :
  shutdown_write true now conn = (Ok tt, conn') -> send_bytes b now' conn' = (r, conn'') ->
  Socket.written (RawConn.stream conn'') = Socket.written (RawConn.stream conn).
Proof.
  destruct conn as [[inbox calls written] timeout]. cbn. intros [= <-].
  unfold send_bytes, on_stream, write_all. cbn [RawConn.stream RawConn.timeout Socket.inbox Socket.calls Socket.written].
  destruct (write_calls _ b _ _) as [[r' calls'] written'] eqn:E. apply write_calls_refused in E. by intros [= <- <-].
Qed.

(** ** The two ends together *)
Section interop.
Context `{Signatures}.
Context `{!Archive ClientHello} `{!Archive ServerHello} `{!Archive Auth} `{!Archive AdmittedMsg}.
Context `{!Archive Request} `{!Archive Cancel} `{!Archive Response} `{!Archive Fault}.

Lemma handshake_receive {T} `{Message T} `{!Archive T} `{!ArchiveLaws T} (m : T) horizon limits t b rest ws wr
    {A} (k : T -> Conn A) :
  KIND T <> FrameKind.Request -> KIND T <> FrameKind.Cancel ->
  encode_frame to_bytes m PRE_AUTH_MAX_BODY = Ok b -> 0 <= ServerLimits.frame_timeout limits -> t <= horizon ->
  (frame ← handshake_read horizon limits; m ← expect frame decode_as; k m)
    (Peer.mk (arriving t b ++ rest) ws wr) = k m (Peer.mk rest ws wr).
Proof using Type.
  intros Hr Hc He Hf Ht. unfold mbind, Conn_bind, handshake_read. cbn [Peer.inbox Peer.writes Peer.written].
  destruct (read_frame_encoded m (Some horizon) PRE_AUTH_MAX_BODY (ServerLimits.frame_timeout limits) t b rest)
    as (f & -> & Hk & Hd); try done; [by intros h [= <-]|].
  unfold expect, decode_as. rewrite Hk, Hd. by destruct (KIND T).
Qed.

Lemma client_send {T} `{Message T} `{!Archive T} (m : T) cap deadline b k {A} (f : Cl A) :
  encode_frame to_bytes m cap = Ok b -> Forall (takes deadline) (Socket.calls k) ->
  (length b <= length (Socket.calls k))%nat ->
  exists calls', Forall (takes deadline) calls' /\ (length (Socket.calls k) <= length calls' + length b)%nat /\
    (_ ← send_message_by m cap deadline; f) k = f (Socket.mk (Socket.inbox k) calls' (Socket.written k ++ b)).
Proof using Type.
  intros Hb%frame_bytes_Ok Hc Hl.
  destruct (write_calls_takes deadline (Socket.calls k) b (Socket.written k) Hc Hl) as (calls' & E & Hc' & Hl').
  exists calls'. split_and!; [done..|]. unfold send_message_by, write_all, mbind, Cl_bind, pure. by rewrite Hb, E.
Qed.

Context `{!ArchiveLaws ClientHello} `{!ArchiveLaws ServerHello} `{!ArchiveLaws Auth} `{!ArchiveLaws AdmittedMsg}.

(** C24. An honest client is admitted. A client that offers the current
    version, signs with the key the server has registered for its tenant and
    connects as a bound user completes the handshake with the server, when
    each side gets the other's frames in time and the socket takes what is
    written: both succeed on exactly each other's bytes, and agree on the
    version, the tenant and the frame bound. *)
Theorem handshake_interop (uid : Z) (pid : option Z) (started now : Z) (limits : ServerLimits)
    (directory : TenantDirectory) (dummy_key snonce cnonce : bytes) (tenant : TenantId) (record : TenantAuth)
    (sign : bytes -> bytes) (low high : Z) (timeouts : Timeouts) (h a sh ad : bytes) (t1 t2 t3 t4 : Z)
    (calls : list WriteCall) (ws : list Write) (rest rest' : list Arrival) :
  let deadline := deadline_after now (Timeouts.handshake timeouts) in
  let timer := started + ServerLimits.handshake_timeout limits in
  let transcript := auth_transcript WIRE_VERSION tenant (Nonce_from_bytes cnonce) (Nonce_from_bytes snonce) in
  directory tenant = Some record -> uid ∈ TenantAuth.bound_uids record ->
  (forall message, verify_strict (TenantAuth.verifying_key record) message (sign message) = true) ->
  low <= WIRE_VERSION <= high ->
  encode_frame to_bytes (ClientHello.mk low high tenant (Nonce_from_bytes cnonce)) PRE_AUTH_MAX_BODY = Ok h ->
  encode_frame to_bytes (Auth.mk (sign transcript)) PRE_AUTH_MAX_BODY = Ok a ->
  encode_frame to_bytes (ServerHello.mk (VersionChoice.Chosen WIRE_VERSION) (Nonce_from_bytes snonce)
    (ServerLimits.max_frame limits)) PRE_AUTH_MAX_BODY = Ok sh ->
  encode_frame to_bytes AdmittedMsg_unit PRE_AUTH_MAX_BODY = Ok ad ->
  0 <= ServerLimits.frame_timeout limits ->
  t1 <= timer -> t2 <= timer -> now < deadline -> t3 <= deadline -> t4 <= deadline ->
  Forall (takes deadline) calls -> (length h + length a <= length calls)%nat ->
  run_handshake uid pid started None limits directory dummy_key (Some snonce)
      (Peer.mk (arriving t1 h ++ arriving t2 a ++ rest) (Write.Sent :: Write.Sent :: ws) []) =
    (Entry.Accepted (ConnIdentity.mk tenant uid pid WIRE_VERSION (ServerLimits.max_frame limits)),
     Peer.mk rest ws [sh; ad]) /\
  exists calls', handshake_with now tenant sign (low, high) timeouts true (Some cnonce)
      (Socket.mk (arriving t3 sh ++ arriving t4 ad ++ rest') calls []) =
    (Ok (Client.mk WIRE_VERSION (ServerLimits.max_frame limits) timeouts false),
     Socket.mk rest' calls' (h ++ a)).
Proof using All.
  intros deadline timer transcript Hd Hu Hv Hr Hh Ha Hsh Had Hf H1 H2 H0 H3 H4 Hc Hl.
  assert (negotiate_version low high SERVER_VERSION_MIN SERVER_VERSION_MAX = VersionChoice.Chosen WIRE_VERSION)
    as Hn.
  { pose proof (negotiate_version_spec low high SERVER_VERSION_MIN SERVER_VERSION_MAX) as Hs.
    unfold SERVER_VERSION_MIN, SERVER_VERSION_MAX in *. destruct (negotiate_version _ _ _ _) as [v|].
    - f_equal. lia.
    - destruct (Hs WIRE_VERSION). lia. }
  split.
  - unfold run_handshake. fold timer. unfold handshake. 
    rewrite (handshake_receive (ClientHello.mk low high tenant (Nonce_from_bytes cnonce)) timer limits t1 h) by done.
    unfold mbind at 1, Conn_bind at 1. cbn [fresh_nonce mret Conn_ret ClientHello.version_min ClientHello.version_max].
    rewrite Hn. unfold mbind at 1, Conn_bind at 1. rewrite Hsh.
    cbn [handshake_send write_frame Peer.writes Peer.inbox Peer.written app].
    rewrite (handshake_receive (Auth.mk (sign transcript)) timer limits t2 a) by done.
    cbn [ClientHello.tenant ClientHello.client_nonce Auth.signature].
    rewrite (proj2 (authenticate_iff dummy_key directory tenant uid transcript (sign transcript)));
      [|exists record; auto].
    cbn [negb]. rewrite Had. done.
  - assert (KIND ServerHello <> FrameKind.Fault) as Hk1 by done.
    assert (KIND AdmittedMsg <> FrameKind.Fault) as Hk2 by done.
    unfold handshake_with. unfold mbind at 1, Cl_bind at 1. cbn [ensure pure]. unfold mbind at 1, Cl_bind at 1. cbn [ok_or pure].
    fold deadline.
    match goal with |- context [(send_message_by _ _ _ ≫= fun _ => ?f) ?k] =>
      destruct (client_send _ _ _ _ k f Hh Hc) as (c1 & Hc1 & Hl1 & ->) end; [cbn; lia|].
    cbn [Socket.inbox Socket.calls Socket.written app] in *. unfold mbind at 1, Cl_bind at 1.
    rewrite (client_read_encoded (ServerHello.mk (VersionChoice.Chosen WIRE_VERSION) (Nonce_from_bytes snonce)
      (ServerLimits.max_frame limits)) PRE_AUTH_MAX_BODY now deadline t3 sh _ _ _ _ Hk1 Hsh H0 H3). cbn [ServerHello.version].
    unfold mbind at 1, Cl_bind at 1. rewrite !(proj2 (Z.leb_le _ _)) by lia. cbn [andb ensure pure].
    cbn [ServerHello.server_nonce ServerHello.max_frame]. fold transcript.
    match goal with |- context [(send_message_by _ _ _ ≫= fun _ => ?f) ?k] =>
      destruct (client_send _ _ _ _ k f Ha Hc1) as (c2 & Hc2 & Hl2 & ->) end; [cbn; lia|].
    cbn [Socket.inbox Socket.calls Socket.written app] in *. unfold mbind at 1, Cl_bind at 1.
    rewrite (client_read_encoded AdmittedMsg_unit PRE_AUTH_MAX_BODY now deadline t4 ad _ _ _ _ Hk2 Had H0 H4).
    by exists c2.
Qed.


(** ** Requests and responses *)

Lemma read_frame_shorter horizon cap frame_timeout s f s' :
  read_frame horizon cap frame_timeout s = (Ok f, s') -> (length s' < length s)%nat.
Proof using Type. intros (a & pre & -> & _)%read_frame_Ok. rewrite length_app. cbn. lia. Qed.

(** The length of the stream is enough fuel. *)
Lemma read_frames_enough cap frame_timeout fuel1 : forall fuel2 s,
  (length s < fuel1)%nat -> (length s < fuel2)%nat ->
  read_frames fuel1 cap frame_timeout s = read_frames fuel2 cap frame_timeout s.
Proof using Type.
  induction fuel1 as [|fuel1 IH]; intros [|fuel2] s H1 H2; try lia. cbn [read_frames].
  destruct (read_frame None cap frame_timeout s) as [[f|[]] s'] eqn:E; try done.
  apply read_frame_shorter in E. destruct (inbound_of cap f); [|done]. f_equal. apply IH; lia.
Qed.

Lemma read_loop_request `{!ArchiveLaws Request} (request : Request) cap frame_timeout t b more :
  encode_frame to_bytes request cap = Ok b -> 0 <= frame_timeout ->
  read_loop cap frame_timeout (arriving t b ++ more) =
    Ok (Inbound.Request request) :: read_loop cap frame_timeout more.
Proof using Type.
  intros He Ht. unfold read_loop at 1. cbn [read_frames].
  destruct (read_frame_encoded request None cap frame_timeout t b more) as (f & E & Hk & Hd); try done.
  rewrite E. unfold inbound_of. rewrite Hk. cbn [KIND Request_message]. rewrite Hd. f_equal.
  apply read_frame_shorter in E. apply read_frames_enough; lia.
Qed.

(** C33. A call is answered with what the dispatcher returned. A request an
    unbroken client sends arrives on the admitted connection as that very
    request; when its dispatch ends, however it ends, the connection writes
    exactly one frame, which the client reads as the response to its call:
    the dispatcher's own response under the request's id, [DeadlineExceeded]
    when the dispatcher missed its backstop, [UnknownEffect] when it
    panicked. Nothing else of the stream is touched. *)
Theorem call_answered `{!ArchiveLaws Request} `{!ArchiveLaws Response}
    (now later opened : Z) (c : Client) (request : Request) (id : ConnIdentity) (limits : ServerLimits)
    (ended : Ended) (p1 p2 : Poll) (b rb : bytes) (t t' : Z) (calls : list WriteCall)
    (more rest : list Arrival) :
  let cap := Client.max_frame c in
  let rid := Request.request_id request in
  let response := default (failed_response rid Failure.UnknownEffect) (task_output rid ended) in
  Client.broken c = false -> ConnIdentity.max_frame id = cap ->
  1 <= ServerLimits.max_in_flight limits -> 0 <= ServerLimits.frame_timeout limits ->
  encode_frame to_bytes request cap = Ok b -> encode_frame to_bytes response cap = Ok rb ->
  Poll.stop p1 = false -> Poll.join p1 = None -> Poll.ready p1 = true ->
  Poll.stop p2 = false -> Poll.join p2 = Some (Poll.spawn p1 ∅, ended) -> Poll.write p2 = None ->
  later < deadline_after later (Timeouts.frame (Client.timeouts c)) ->
  t' <= deadline_after later (Timeouts.frame (Client.timeouts c)) ->
  Forall (takes (deadline_after now (Timeouts.frame (Client.timeouts c)))) calls -> (length b <= length calls)%nat ->
  (exists l, run_loop limits [p1; p2]
     (Loop.mk (read_loop cap (ServerLimits.frame_timeout limits) (arriving t b ++ more))
        (admitted_new id opened) []) = (None, l) /\
     Loop.written l = [rb] /\ Loop.items l = read_loop cap (ServerLimits.frame_timeout limits) more /\
     AdmittedConn.in_flight (Loop.conn l) = ∅ /\ AdmittedConn.tasks (Loop.conn l) = ∅) /\
  exists calls', call now later c request (Socket.mk (arriving t' rb ++ rest) calls []) =
    (Ok response, c, Socket.mk rest calls' b).
Proof using Type.
  intros cap rid response Hc Hid Hm Hf Hb Hr S1 J1 R1 S2 J2 W2 Hlater Ht Hcalls Hl. split.
  - rewrite read_loop_request with (1 := Hb) by done. cbn [run_loop].
    unfold turn at 1, joined at 1. rewrite S1, J1, R1. cbn [mbind option_bind Loop.items Loop.conn Loop.written].
    cbn [accept]. unfold start. cbn [touch admitted_new AdmittedConn.in_flight AdmittedConn.tasks AdmittedConn.identity
      AdmittedConn.task_ids AdmittedConn.last_activity].
    rewrite lookup_empty, bool_decide_eq_false_2 by (by intros [? ?]).
    rewrite map_size_empty, (proj2 (Z.leb_gt _ _)) by lia.
    unfold turn, joined. rewrite S2, J2. cbn [mbind option_bind Loop.conn Loop.items Loop.written AdmittedConn.tasks].
    rewrite lookup_insert_eq. cbn [mbind option_bind Task.request]. unfold complete, retire.
    cbn [Loop.conn join_next AdmittedConn.task_ids AdmittedConn.in_flight AdmittedConn.tasks AdmittedConn.identity].
    rewrite lookup_insert_eq. fold rid response. cbn [AdmittedConn.identity]. rewrite Hid, Hr, W2.
    eexists. split; [done|]. cbn. rewrite !delete_insert_id by apply lookup_empty. done.
  - unfold call, send_request, send_message. rewrite Hc. fold cap.
    rewrite (proj2 (frame_bytes_Ok request cap b) Hb). unfold guarded. rewrite Hc.
    unfold write_all. cbn [Socket.inbox Socket.calls Socket.written].
    destruct (write_calls_takes _ calls b [] Hcalls Hl) as (calls' & -> & _). cbn [is_ok negb app].
    assert (with_broken false c = c) as Hwb. { unfold with_broken. by rewrite <- Hc; destruct c. }
    rewrite Hwb. unfold recv_response, guarded. rewrite Hc. fold cap.
    assert (KIND Response <> FrameKind.Fault) as Hk by done.
    rewrite (client_read_encoded response cap later _ t' rb _ _ _ _ Hk Hr Hlater Ht). cbn [is_ok negb]. rewrite Hwb.
    assert (Response.request_id response = rid) as ->.
    { subst response. destruct ended as [r| |]; cbn; [|done|done]. unfold tag.
      by destruct (Z.eqb_spec (Response.request_id r) rid). }
    fold rid. rewrite Z.eqb_refl. by exists calls'.
Qed.

(** A client never speaks on a connection whose framing it has lost. A
    call on a broken client fails and touches nothing; one the contract or
    the frame bound refuses fails before a byte is written and leaves the
    client as it was; any other writes its frame once and in order: either
    all of it went out, the response to this very request came back and the
    client goes on, or the client is broken from then on. *)
Theorem client_framing_kept (now later : Z) (c c' : Client) (request : Request) (s s' : Socket)
    (r : result ClientError Response) :
  call now later c request s = (r, c', s') ->
  if Client.broken c then r = Err ClientError.Broken /\ c' = c /\ s' = s
  else match frame_bytes request (Client.max_frame c) with
       | Err e => r = Err e /\ c' = c /\ s' = s
       | Ok b => exists n, Socket.written s' = Socket.written s ++ take n b /\
           match r with
           | Ok response => c' = c /\ take n b = b /\
               Response.request_id response = Request.request_id request
           | Err _ => Client.broken c' = true
           end
       end.
Proof using Type.
  unfold call, send_request, send_message.
  destruct (Client.broken c) eqn:Hb; [by intros [= <- <- <-]|].
  destruct (frame_bytes request (Client.max_frame c)) as [b|e]; [|by intros [= <- <- <-]].
  unfold guarded at 1. rewrite Hb. unfold write_all.
  destruct (write_calls _ b _ _) as [[r1 calls1] written1] eqn:E.
  apply write_calls_prefix in E as (n & -> & Hn).
  destruct r1 as [[]|e]; cbn [is_ok negb]; [|intros [= <- <- <-]; by exists n].
  assert (with_broken false c = c) as Hwb. { unfold with_broken. by rewrite <- Hb; destruct c. }
  rewrite Hwb. unfold recv_response, guarded. rewrite Hb.
  destruct (read_message_by (T := Response) _ _ _ _) as [r2 s2] eqn:E2.
  assert (Socket.written s2 = Socket.written s ++ take n b) as Hw.
  { apply (f_equal (Socket.written ∘ snd)) in E2. cbn in E2. rewrite <- E2.
    unfold read_message_by, client_read_frame, mbind, Cl_bind.
    destruct (fill_exact HEADER_LEN _ _ _) as [[h|[[]|]] s3]; try done.
    destruct (parse_header _ _) as [[k len]|]; [|done].
    by destruct (fill_exact _ _ _ s3) as [[h'|[]] s4]. }
  destruct r2 as [response|e]; cbn [is_ok negb]; [|intros [= <- <- <-]; by exists n]. rewrite Hwb.
  destruct (Z.eqb_spec (Response.request_id response) (Request.request_id request));
    intros [= <- <- <-]; exists n; auto.
Qed.
End interop.
