(* ===== verification/Serving.v ===== *)
(** * What an admitted connection guarantees

    The loop's bookkeeping is consistent and bounded, every request is
    answered once, a connection closes cleanly, and the frame memory of all
    connections stays within the bound the server announces. *)
From S2P Require Import Prelude Vocab Ids Payload Wire Daemon Stream Server Connection Handshake Interop.
Local Open Scope Z_scope.

(** ** The connection's invariant *)

(** Tasks, their request ids and the requests in flight are the same set, one
    task per request id, and never more than the bound. *)
Record Conn_ok (limits : ServerLimits) (c : AdmittedConn) : Prop := {
  ok_tasks : forall k rid, AdmittedConn.task_ids c !! k = Some rid <->
    exists t, AdmittedConn.tasks c !! k = Some t /\ Request.request_id (Task.request t) = rid;
  ok_in_flight : forall rid, is_Some (AdmittedConn.in_flight c !! rid) <->
    exists k, AdmittedConn.task_ids c !! k = Some rid;
  ok_inj : forall i j rid, AdmittedConn.task_ids c !! i = Some rid -> AdmittedConn.task_ids c !! j = Some rid -> i = j;
  ok_size : Z.of_nat (size (AdmittedConn.in_flight c)) <= ServerLimits.max_in_flight limits;
}.

(** The runtime's task ids are unique among the running tasks. *)
Definition fresh_ids (p : Poll) : Prop := forall ts : gmap nat Task, ts !! Poll.spawn p ts = None.

(** The requests whose dispatch runs. *)
Definition pending (c : AdmittedConn) : list Request :=
  (fun kt : nat * Task => Task.request kt.2) <$> map_to_list (AdmittedConn.tasks c).

Lemma conn_ok_new limits id now : 0 <= ServerLimits.max_in_flight limits -> Conn_ok limits (admitted_new id now).
Proof.
  intros Hm. split; cbn.
  - intros k rid. rewrite lookup_empty. naive_solver.
  - intros rid. rewrite lookup_empty. split; [by intros [? ?]|naive_solver].
  - intros i j rid. by rewrite lookup_empty.
  - by rewrite map_size_empty.
Qed.

Lemma conn_ok_touch limits now c : Conn_ok limits c -> Conn_ok limits (touch now c).
Proof. by intros [H1 H2 H3 H4]; split. Qed.

Lemma conn_ok_alter limits rid c :
  Conn_ok limits c ->
  Conn_ok limits (AdmittedConn.mk (AdmittedConn.identity c) (alter (fun _ => true) rid (AdmittedConn.in_flight c))
    (AdmittedConn.task_ids c) (AdmittedConn.tasks c) (AdmittedConn.last_activity c)).
Proof.
  intros [H1 H2 H3 H4]; split; cbn; try done.
  - intros rid'. rewrite <- H2, lookup_alter_is_Some. done.
  - rewrite <- size_dom, dom_alter_L, size_dom. done.
Qed.

Lemma conn_ok_start limits now p request c c' :
  Conn_ok limits c -> fresh_ids p -> start limits now (Poll.spawn p) request c = Ok c' ->
  Conn_ok limits c' /\ AdmittedConn.identity c' = AdmittedConn.identity c /\ pending c' ≡ₚ request :: pending c.
Proof.
  intros [H1 H2 H3 H4] Hf. unfold start. case_bool_decide as Hin; [done|].
  destruct (Z.leb_spec (ServerLimits.max_in_flight limits) (Z.of_nat (size (AdmittedConn.in_flight c)))); [done|].
  intros [= <-]. specialize (Hf (AdmittedConn.tasks c)). set (k := Poll.spawn p _) in *.
  assert (AdmittedConn.task_ids c !! k = None) as Hk.
  { destruct (AdmittedConn.task_ids c !! k) eqn:E; [|done]. apply H1 in E as (t & Ht & _). congruence. }
  assert (AdmittedConn.in_flight c !! Request.request_id request = None) as Hr by (by apply eq_None_not_Some).
  split; [split; cbn|split; [done|]].
  - intros i rid. rewrite lookup_insert_Some, H1. setoid_rewrite lookup_insert_Some. split.
    + intros [[<- <-]|[? (t & Ht & <-)]]; [eexists; split; [by left|done]|]. exists t. auto.
    + intros (t & [[<- <-]|[? Ht]] & <-); [by left|]. right. eauto.
  - intros rid. rewrite lookup_insert_is_Some, H2. split.
    + intros [<-|[? [i Hi]]]; [exists k; apply lookup_insert_eq|]. exists i.
      rewrite lookup_insert_ne; [done|]. intros <-. congruence.
    + intros [i [[<- <-]|[? Hi]]%lookup_insert_Some]; [by left|]. right. split; [|eauto]. intros E.
      apply Hin, H2. exists i. by rewrite E.
  - intros i j rid [[<- <-]|[? Hi]]%lookup_insert_Some [[<- E]|[? Hj]]%lookup_insert_Some; try done.
    + destruct Hin. apply H2. eauto.
    + subst. destruct Hin. apply H2. eauto.
    + eauto.
  - rewrite map_size_insert_None by done. lia.
  - unfold pending. cbn. by rewrite map_to_list_insert by done.
Qed.

(** Joining and retiring a task leaves the others. *)
Lemma conn_ok_retire limits k t outcome c :
  Conn_ok limits c -> AdmittedConn.tasks c !! k = Some t ->
  exists c', retire k outcome (join_next k c) =
      (Some (default (failed_response (Request.request_id (Task.request t)) Failure.UnknownEffect) outcome), c') /\
    Conn_ok limits c' /\ AdmittedConn.identity c' = AdmittedConn.identity c /\
    pending c ≡ₚ Task.request t :: pending c'.
Proof.
  intros [H1 H2 H3 H4] Hk. set (rid := Request.request_id (Task.request t)).
  assert (AdmittedConn.task_ids c !! k = Some rid) as Hid by (apply H1; eauto).
  unfold retire. cbn [join_next AdmittedConn.task_ids]. rewrite Hid. eexists. split; [done|].
  split; [split; cbn|split; [done|]].
  - intros i r. rewrite lookup_delete_Some, H1. setoid_rewrite lookup_delete_Some. naive_solver.
  - intros r. rewrite lookup_delete_is_Some, H2. split.
    + intros [Hr [i Hi]]. exists i. rewrite lookup_delete_ne; [done|]. intros <-. congruence.
    + intros [i [Hi Hi']%lookup_delete_Some]. split; [|eauto]. intros <-. destruct Hi. eauto.
  - intros i j r [_ Hi]%lookup_delete_Some [_ Hj]%lookup_delete_Some. eauto.
  - assert (is_Some (AdmittedConn.in_flight c !! rid)) as [x Hx] by (apply H2; eauto).
    rewrite map_size_delete_Some by eauto. lia.
  - unfold pending. cbn. by rewrite <- (map_to_list_delete _ k t Hk).
Qed.

(** The pending requests are within the bound and have distinct ids. *)
Lemma pending_ok limits c :
  Conn_ok limits c ->
  Z.of_nat (length (pending c)) <= ServerLimits.max_in_flight limits /\
  NoDup (Request.request_id <$> pending c).
Proof.
  intros [H1 H2 H3 H4].
  assert (NoDup (Request.request_id <$> pending c)) as Hnd.
  { unfold pending. rewrite <- list_fmap_compose. apply NoDup_fmap_2_strong; [|apply NoDup_map_to_list].
    intros [i t] [j u] Hi%elem_of_map_to_list Hj%elem_of_map_to_list Hij. cbn in Hij.
    assert (i = j) as -> by (eapply H3; apply H1; eauto). congruence. }
  split; [|done]. etrans; [|exact H4]. apply Nat2Z.inj_le.
  rewrite <- (length_fmap Request.request_id), <- size_dom, <- (size_list_to_set (C := gset Z)) by done.
  apply subseteq_size. intros rid. rewrite elem_of_list_to_set, elem_of_dom, H2, list_elem_of_fmap.
  intros (q & -> & Hq). unfold pending in Hq. apply list_elem_of_fmap in Hq as ([k t] & -> & Hk%elem_of_map_to_list).
  exists k. apply H1. eauto.
Qed.

(** ** Every request is answered once *)

(** The requests among what the reader forwarded. *)
Definition requests (items : list Item) : list Request :=
  omap (fun i : Item => match i with Ok (Inbound.Request r) => Some r | _ => None end) items.

Lemma requests_app a b : requests (a ++ b) = requests a ++ requests b.
Proof. apply omap_app. Qed.

(** The response of a request whose dispatch ended as [ended]. *)
Definition outcome_for (request : Request) (ended : Ended) : Response :=
  default (failed_response (Request.request_id request) Failure.UnknownEffect)
    (task_output (Request.request_id request) ended).

Lemma outcome_for_id request ended :
  Response.request_id (outcome_for request ended) = Request.request_id request.
Proof.
  unfold outcome_for. destruct ended as [r| |]; cbn; [|done|done]. unfold tag.
  by destruct (Z.eqb_spec (Response.request_id r) (Request.request_id request)).
Qed.

Section serving.
Context `{!Archive Request} `{!Archive Cancel} `{!Archive Response} `{!Archive Fault}.

(** [frames] are the responses [answered], encoded for the connection. *)
Definition sent_as (id : ConnIdentity) (answered : list (Request * Response)) (frames : list bytes) : Prop :=
  Forall2 (fun qr b => encode_frame to_bytes qr.2 (ConnIdentity.max_frame id) = Ok b) answered frames.
(** Each response is what the dispatch of its request ended as, in a turn of
    [polls]. *)
Definition ended_in (polls : list Poll) (qr : Request * Response) : Prop :=
  exists p k ended, p ∈ polls /\ Poll.join p = Some (k, ended) /\ qr.2 = outcome_for qr.1 ended.

(** The state of a connection whose reader forwarded [items], after the turns
    [polls]: what was taken from the reader, accepted, answered, and lost to
    a write that failed; a connection that is still open lost nothing. *)
Record Ledger (limits : ServerLimits) (id : ConnIdentity) (items : list Item) (polls : list Poll) (open : bool)
    (l : Loop) (accepted : list Request) (answered : list (Request * Response)) (lost : list Request) : Prop := {
  led_taken : exists taken, items = taken ++ Loop.items l /\ accepted `prefix_of` requests taken /\
    (open = true -> accepted = requests taken);
  led_once : accepted ≡ₚ answered.*1 ++ lost ++ pending (Loop.conn l);
  led_lost : (length lost <= 1)%nat /\ (open = true -> lost = []);
  led_sent : sent_as id answered (Loop.written l);
  led_ended : Forall (ended_in polls) answered;
  led_id : AdmittedConn.identity (Loop.conn l) = id;
  led_ok : Conn_ok limits (Loop.conn l);
}.

Lemma ended_in_mono polls more qr : ended_in polls qr -> ended_in (polls ++ more) qr.
Proof using Type. intros (p & k & e & Hp & ?). exists p, k, e. split; [set_solver|done]. Qed.

(** A turn that neither takes nor answers anything. *)
Lemma ledger_same limits id items polls more open open' l acc ans lost :
  (open' = true -> open = true) ->
  Ledger limits id items polls open l acc ans lost -> Ledger limits id items (polls ++ more) open' l acc ans lost.
Proof using Type.
  intros Ho [(tk & H1 & H1' & H1'') H2 [H3 H3'] H4 H5 H6 H7].
  split; try done; [naive_solver|naive_solver|]. eapply Forall_impl; [done|]. intros qr. apply ended_in_mono.
Qed.

Lemma ledger_join limits id items polls l acc ans p k outcome r l' :
  Ledger limits id items polls true l acc ans [] ->
  joined p (Loop.conn l) = Some (k, outcome) ->
  complete (Poll.now p) k outcome (Poll.write p)
    (Loop.mk (Loop.items l) (join_next k (Loop.conn l)) (Loop.written l)) = (r, l') ->
  exists ans' lost', Ledger limits id items (polls ++ [p]) (is_ok r) l' acc ans' lost'.
Proof using Type.
  intros [(tk & T1 & T2 & T3) H2 _ H4 H5 H6 H7] Hj. unfold joined in Hj.
  destruct (Poll.join p) as [[k' ended]|] eqn:Ej; [|done]. cbn in Hj.
  destruct (AdmittedConn.tasks (Loop.conn l) !! k') as [t|] eqn:Ek; [|done]. cbn in Hj. injection Hj as <- <-.
  destruct (conn_ok_retire limits k' t (task_output (Request.request_id (Task.request t)) ended) _ H7 Ek)
    as (c' & Er & Hok & Hid & Hp).
  unfold complete. cbn [Loop.conn Loop.items Loop.written]. rewrite Er.
  fold (outcome_for (Task.request t) ended). rewrite Hid, H6. set (resp := outcome_for _ _).
  assert (Forall (ended_in (polls ++ [p])) ans) as Hend.
  { eapply Forall_impl; [done|]. intros qr. apply ended_in_mono. }
  assert (forall e, (Err e, Loop.mk (Loop.items l) c' (Loop.written l)) = (r, l') ->
    exists ans' lost', Ledger limits id items (polls ++ [p]) (is_ok r) l' acc ans' lost') as Hlost.
  { intros e [= <- <-]. exists ans, [Task.request t]. split; cbn; try done.
    - exists tk. split_and!; auto.
    - by rewrite H2, Hp.
    - by rewrite Hid. }
  destruct (encode_frame to_bytes resp _) as [b|e] eqn:Ee; [|apply Hlost].
  destruct (Poll.write p); [apply Hlost|]. intros [= <- <-].
  exists (ans ++ [(Task.request t, resp)]), []. split; cbn; try done; [| |by split; [lia|]| | | |].
  - exists tk. split_and!; auto.
  - rewrite H2, Hp, fmap_app, <- app_assoc. done.
  - apply Forall2_app; [done|]. by constructor.
  - apply Forall_app. split; [done|]. constructor; [|done]. exists p, k', ended. split; [set_solver|]. by split.
  - by rewrite Hid.
  - by apply conn_ok_touch.
Qed.

Lemma ledger_accept limits id items polls l acc ans p inbound rest r :
  Ledger limits id items polls true l acc ans [] -> fresh_ids p -> Loop.items l = Ok inbound :: rest ->
  let c := touch (Poll.now p) (Loop.conn l) in
  accept limits (Poll.now p) (Poll.spawn p) inbound c = r ->
  exists acc', Ledger limits id items (polls ++ [p]) (is_ok r)
    (Loop.mk rest (match r with Ok c => c | Err _ => c end) (Loop.written l)) acc' ans [].
Proof using Type.
  intros [(tk & T1 & T2 & T3) H2 H3 H4 H5 H6 H7] Hf Hi c Ha. rewrite Hi in T1. specialize (T3 eq_refl).
  assert (items = (tk ++ [Ok inbound]) ++ rest) as Hit by (by rewrite <- app_assoc).
  assert (Forall (ended_in (polls ++ [p])) ans) as Hend.
  { eapply Forall_impl; [done|]. intros qr. apply ended_in_mono. }
  pose proof (conn_ok_touch limits (Poll.now p) _ H7) as Hc. destruct inbound as [request|[rid]]; cbn [accept] in Ha.
  - destruct (start limits _ _ request c) as [c'|e] eqn:Es; subst r; cbn [is_ok].
    + destruct (conn_ok_start limits (Poll.now p) p request c c' Hc Hf Es) as (Hok & Hid & Hp).
      exists (acc ++ [request]). split; cbn; try done.
      * exists (tk ++ [Ok (Inbound.Request request)]). rewrite requests_app, T3. by split_and!.
      * rewrite Hp, H2. change (pending c) with (pending (Loop.conn l)). cbn. solve_Permutation.
      * by rewrite Hid.
    + exists acc. split; cbn; try done; [|by split; [lia|]].
      exists (tk ++ [Ok (Inbound.Request request)]). rewrite requests_app, T3. split_and!; try done.
      by apply prefix_app_r.
  - subst r. exists acc. split; cbn; try done.
    + exists (tk ++ [Ok (Inbound.Cancel (Cancel.mk rid))]). rewrite requests_app, T3. cbn.
      rewrite app_nil_r. by split_and!.
    + apply (conn_ok_alter limits rid (touch (Poll.now p) (Loop.conn l))). done.
Qed.

Lemma ledger_turn limits id items polls l acc ans p r l' :
  Ledger limits id items polls true l acc ans [] -> fresh_ids p -> turn limits p l = (r, l') ->
  exists acc' ans' lost', Ledger limits id items (polls ++ [p]) (is_ok r) l' acc' ans' lost'.
Proof using Type.
  intros HL Hf. unfold turn.
  destruct (Poll.stop p); [intros [= <- <-]; exists acc, ans, []; by eapply ledger_same|].
  destruct (joined p (Loop.conn l)) as [[k outcome]|] eqn:Ej.
  { intros Hc. destruct (ledger_join _ _ _ _ _ _ _ _ _ _ _ _ HL Ej Hc) as (ans' & lost' & ?). eauto. }
  assert (forall r : result Close (), (r, l) = (r, l') -> exists acc' ans' lost',
    Ledger limits id items (polls ++ [p]) (is_ok r) l' acc' ans' lost') as Hsame.
  { intros r' [= <-]. exists acc, ans, []. by eapply ledger_same. }
  assert (match idle_at limits (Loop.conn l) with
    | Some timer => if timer <=? Poll.now p then (Err Close.Idle, l) else (Ok tt, l) | None => (Ok tt, l) end = (r, l') ->
    exists acc' ans' lost', Ledger limits id items (polls ++ [p]) (is_ok r) l' acc' ans' lost') as Hidle.
  { destruct (idle_at limits (Loop.conn l)) as [timer|]; [destruct (timer <=? Poll.now p)|];
      intros [= <- <-]; exact (Hsame _ eq_refl). }
  destruct (Poll.ready p); [|exact Hidle].
  destruct (Loop.items l) as [|[inbound|close] rest] eqn:Ei; [intros [= <- <-]; exact (Hsame _ eq_refl)| |].
  - destruct (accept limits _ _ inbound _) as [c|close] eqn:Ea; intros [= <- <-];
      destruct (ledger_accept _ _ _ _ _ _ _ _ _ _ _ HL Hf Ei Ea) as [acc' ?]; eauto.
  - intros [= <- <-]. destruct HL as [(tk & T1 & T2 & T3) H2 H3 H4 H5 H6 H7]. exists acc, ans, [].
    split; cbn; try done; [|by split; [lia|]|].
    + exists (tk ++ [Err close]). rewrite requests_app, T1, Ei, <- app_assoc. cbn. by rewrite app_nil_r.
    + eapply Forall_impl; [done|]. intros qr. apply ended_in_mono.
Qed.

Lemma ledger_run limits id items polls : forall seen l acc ans stop l',
  Forall fresh_ids polls -> Ledger limits id items seen true l acc ans [] ->
  run_loop limits polls l = (stop, l') ->
  exists acc' ans' lost', Ledger limits id items (seen ++ polls) (match stop with None => true | _ => false end)
    l' acc' ans' lost'.
Proof using Type.
  induction polls as [|p polls IH]; intros seen l acc ans stop l' Hf HL.
  { intros [= <- <-]. rewrite app_nil_r. eauto. }
  apply Forall_cons in Hf as [Hp Hf]. cbn [run_loop]. destruct (turn limits p l) as [r l1] eqn:Et.
  destruct (ledger_turn _ _ _ _ _ _ _ _ _ _ HL Hp Et) as (acc1 & ans1 & lost1 & HL1).
  destruct r as [[]|close]; cbn [is_ok] in HL1.
  - pose proof (proj2 (led_lost _ _ _ _ _ _ _ _ _ HL1) eq_refl) as ->. intros Hr.
    destruct (IH _ _ _ _ _ _ Hf HL1 Hr) as (acc' & ans' & lost' & HL').
    exists acc', ans', lost'. by rewrite <- app_assoc in HL'.
  - intros [= <- <-]. exists acc1, ans1, lost1. change (p :: polls) with ([p] ++ polls).
    rewrite app_assoc. by apply (ledger_same _ _ _ _ _ false).
Qed.

(** C10. Every request is answered exactly once. Of the requests the reader
    forwards, those the connection takes up are accepted in order, and at any
    moment each of them is either still being dispatched or was answered, by
    one frame that carries its own id and what its dispatch ended as, in the
    order the dispatches ended; a frame is lost only when the write that ends
    the connection fails. The requests in flight never exceed the bound, and
    no two share an id. *)
Theorem answered_exactly_once (limits : ServerLimits) (id : ConnIdentity) (now : Z) (items : list Item)
    (polls : list Poll) (stop : option Close) (l : Loop) :
  0 <= ServerLimits.max_in_flight limits -> Forall fresh_ids polls ->
  run_loop limits polls (Loop.mk items (admitted_new id now) []) = (stop, l) ->
  exists taken accepted answered lost,
    items = taken ++ Loop.items l /\ accepted `prefix_of` requests taken /\
    accepted ≡ₚ answered.*1 ++ lost ++ pending (Loop.conn l) /\ (length lost <= 1)%nat /\
    (stop = None -> accepted = requests taken /\ lost = []) /\
    Forall2 (fun qr b => encode_frame to_bytes qr.2 (ConnIdentity.max_frame id) = Ok b) answered (Loop.written l) /\
    Forall (fun qr : Request * Response => Response.request_id qr.2 = Request.request_id qr.1 /\
      exists p k ended, p ∈ polls /\ Poll.join p = Some (k, ended) /\ qr.2 = outcome_for qr.1 ended) answered /\
    Z.of_nat (length (pending (Loop.conn l))) <= ServerLimits.max_in_flight limits /\
    NoDup (Request.request_id <$> pending (Loop.conn l)).
Proof using Type.
  intros Hm Hf Hr.
  assert (Ledger limits id items [] true (Loop.mk items (admitted_new id now) []) [] [] []) as HL.
  { split; cbn; try done; [by exists []|by split; [lia|]|by constructor|by apply conn_ok_new]. }
  destruct (ledger_run _ _ _ _ _ _ _ _ _ _ Hf HL Hr) as (acc & ans & lost & HL').
  destruct HL' as [(tk & T1 & T2 & T3) H2 [H3 H3'] H4 H5 H6 H7].
  exists tk, acc, ans, lost. destruct (pending_ok limits _ H7) as [P1 P2].
  split_and!; try done.
  - intros ->. auto.
  - eapply Forall_impl; [done|]. intros [q r] (p & k & e & ? & ? & Hq). cbn in *. subst r.
    split; [apply outcome_for_id|]. by exists p, k, e.
Qed.

(** ** Closing *)

Lemma drain_ok grace polls : forall limits id l,
  Conn_ok limits (Loop.conn l) -> AdmittedConn.identity (Loop.conn l) = id ->
  exists answered rest frames, pending (Loop.conn l) ≡ₚ answered.*1 ++ rest /\ sent_as id answered frames /\
    Forall (ended_in polls) answered /\
    Loop.written (drain true grace polls l) = Loop.written l ++ frames.
Proof using Type.
  induction polls as [|p polls IH]; intros limits id l Hok Hid; cbn [drain]; unfold drain_step.
  { exists [], (pending (Loop.conn l)), []. rewrite app_nil_r. by split_and!; [|constructor|constructor|]. }
  assert (exists answered rest frames, pending (Loop.conn l) ≡ₚ answered.*1 ++ rest /\ sent_as id answered frames /\
    Forall (ended_in (p :: polls)) answered /\ Loop.written l = Loop.written l ++ frames) as Hstop.
  { exists [], (pending (Loop.conn l)), []. rewrite app_nil_r. by split_and!; [|constructor|constructor|]. }
  destruct (_ || _); [exact Hstop|].
  assert (forall qr, ended_in polls qr -> ended_in (p :: polls) qr) as Hmono.
  { intros qr (p' & k' & e & Hp & ?). exists p', k', e. split; [set_solver|done]. }
  destruct (joined p (Loop.conn l)) as [[k outcome]|] eqn:Ej.
  2: { destruct (IH _ _ _ Hok Hid) as (a & r & f & ? & ? & Ha & ?). exists a, r, f. split_and!; try done.
       eapply Forall_impl; [exact Ha|exact Hmono]. }
  unfold joined in Ej. destruct (Poll.join p) as [[k' ended]|] eqn:Ejo; [|done]. cbn in Ej.
  destruct (AdmittedConn.tasks (Loop.conn l) !! k') as [t|] eqn:Ek; [|done]. cbn in Ej. injection Ej as <- <-.
  destruct (conn_ok_retire limits k' t (task_output (Request.request_id (Task.request t)) ended) _ Hok Ek)
    as (c' & Er & Hok' & Hid' & Hp).
  unfold complete. cbn [Loop.conn Loop.items Loop.written]. rewrite Er.
  fold (outcome_for (Task.request t) ended). rewrite Hid', Hid.
  destruct (encode_frame to_bytes (outcome_for _ _) _) as [b|e] eqn:Ee; [|exact Hstop].
  destruct (Poll.write p); [exact Hstop|].
  destruct (IH limits id (Loop.mk (Loop.items l) (touch (Poll.now p) c') (Loop.written l ++ [b])))
    as (a & r & f & Hp' & Hs & Ha & ->); [by apply conn_ok_touch|by cbn; rewrite Hid'|].
  exists ((Task.request t, outcome_for (Task.request t) ended) :: a), r, (b :: f). split_and!.
  - rewrite Hp. cbn. by rewrite <- Hp'.
  - by constructor.
  - constructor; [|by eapply Forall_impl]. exists p, k', ended. split; [set_solver|done].
  - cbn. by rewrite <- app_assoc.
Qed.

Lemma drain_silent grace polls : forall l, Loop.written (drain false grace polls l) = Loop.written l.
Proof using Type.
  induction polls as [|p polls IH]; intros l; cbn [drain]; [done|]. unfold drain_step.
  destruct (_ || _); [done|]. destruct (joined p (Loop.conn l)) as [[k outcome]|]; by rewrite IH.
Qed.

(** Every handle that is left has fired. *)
Definition all_fired (c : AdmittedConn) : Prop := forall rid fired, AdmittedConn.in_flight c !! rid = Some fired -> fired = true.

Lemma drain_fired deliver grace polls : forall l,
  all_fired (Loop.conn l) -> all_fired (Loop.conn (drain deliver grace polls l)).
Proof using Type.
  induction polls as [|p polls IH]; intros l Hl; cbn [drain]; [done|]. unfold drain_step.
  destruct (_ || _); [done|]. destruct (joined p (Loop.conn l)) as [[k outcome]|]; [|auto].
  destruct deliver; [|by apply IH]. unfold complete, retire. cbn [Loop.conn join_next AdmittedConn.task_ids].
  destruct (AdmittedConn.task_ids (Loop.conn l) !! k) as [rid|]; [|by apply IH].
  assert (forall c, AdmittedConn.in_flight c = delete rid (AdmittedConn.in_flight (Loop.conn l)) -> all_fired c) as Hd.
  { intros c Hc rid' fired. rewrite Hc. intros [_ ?]%lookup_delete_Some. eauto. }
  destruct (encode_frame _ _ _); [destruct (Poll.write p)|]; [by apply Hd|apply IH; by apply Hd|by apply Hd].
Qed.

Lemma conn_ok_cancel_all limits c : Conn_ok limits c -> Conn_ok limits (cancel_all c).
Proof using Type.
  intros [H1 H2 H3 H4]. split; cbn [cancel_all AdmittedConn.in_flight AdmittedConn.tasks AdmittedConn.task_ids]; try done.
  - intros rid. rewrite <- H2, lookup_fmap, fmap_is_Some. done.
  - by rewrite map_size_fmap.
Qed.

(** A connection closes cleanly. When the loop ends, every request still
    in flight has its cancellation fired before anything else, and no task
    outlives the connection. Unless the daemon is shutting down, the last
    thing the peer gets is the one fault frame of the reason, or nothing for
    a reason that has none: no response follows it. On a shutdown there is no
    fault, and the only frames that still go out are the responses of
    requests that were in flight, each once. *)
Theorem connection_closes_cleanly (limits : ServerLimits) (now : Z) (close : Close) (fault_write : option IoError)
    (polls : list Poll) (l : Loop) :
  Conn_ok limits (Loop.conn l) ->
  let l' := finish limits now close fault_write polls l in
  AdmittedConn.tasks (Loop.conn l') = ∅ /\
  (forall rid fired, AdmittedConn.in_flight (Loop.conn l') !! rid = Some fired -> fired = true) /\
  (close <> Close.Shutdown ->
   Loop.written l' = Loop.written l ++
     match close_fault close ≫= fault_frame, fault_write with Some b, None => [b] | _, _ => [] end) /\
  (close = Close.Shutdown ->
   exists answered rest frames, pending (Loop.conn l) ≡ₚ answered.*1 ++ rest /\
     Loop.written l' = Loop.written l ++ frames /\
     Forall2 (fun qr b => encode_frame to_bytes qr.2
       (ConnIdentity.max_frame (AdmittedConn.identity (Loop.conn l))) = Ok b) answered frames /\
     Forall (fun qr : Request * Response => exists p k ended,
       p ∈ polls /\ Poll.join p = Some (k, ended) /\ qr.2 = outcome_for qr.1 ended) answered).
Proof using Type.
  intros Hok. cbn zeta. unfold finish. cbn [Loop.conn Loop.written abort_all AdmittedConn.tasks AdmittedConn.in_flight].
  split; [done|]. split.
  { apply drain_fired. intros rid fired. cbn [Loop.conn cancel_all AdmittedConn.in_flight]. rewrite lookup_fmap. by intros (? & _ & ->)%fmap_Some. }
  split.
  - intros Hc.
    assert (match close with Close.Shutdown => true | _ => false end = false) as -> by (by destruct close).
    rewrite drain_silent. cbn [Loop.written].
    destruct (close_fault close ≫= fault_frame), fault_write; by rewrite ?app_nil_r.
  - intros ->. cbn [close_fault mbind option_bind].
    destruct (drain_ok (now + ServerLimits.dispatch_grace limits) polls limits
      (AdmittedConn.identity (Loop.conn l)) (Loop.mk (Loop.items l) (cancel_all (Loop.conn l)) (Loop.written l)))
      as (a & r & f & Hp & Hs & Ha & Hw); [by apply conn_ok_cancel_all|done|].
    exists a, r, f. split_and!; done.
Qed.

(** ** The whole server *)

Lemma turn_ok limits p l : Conn_ok limits (Loop.conn l) -> fresh_ids p -> Conn_ok limits (Loop.conn (turn limits p l).2).
Proof using Type.
  intros Hok Hf. unfold turn. destruct (Poll.stop p); [done|].
  destruct (joined p (Loop.conn l)) as [[k outcome]|] eqn:Ej.
  { unfold joined in Ej. destruct (Poll.join p) as [[k' ended]|]; [|done]. cbn in Ej.
    destruct (AdmittedConn.tasks (Loop.conn l) !! k') as [t|] eqn:Ek; [|done]. cbn in Ej. injection Ej as <- <-.
    destruct (conn_ok_retire limits k' t (task_output (Request.request_id (Task.request t)) ended) _ Hok Ek)
      as (c' & Er & Hok' & _).
    unfold complete. cbn [Loop.conn Loop.items Loop.written]. rewrite Er.
    destruct (encode_frame _ _ _); [destruct (Poll.write p)|]; [done|by apply conn_ok_touch|done]. }
  assert (Conn_ok limits (Loop.conn (match idle_at limits (Loop.conn l) with
    | Some timer => if timer <=? Poll.now p then (@Err Close () Close.Idle, l) else (Ok tt, l) | None => (Ok tt, l) end).2)) as Hidle.
  { by destruct (idle_at limits (Loop.conn l)) as [timer|]; [destruct (timer <=? Poll.now p)|]. }
  destruct (Poll.ready p); [|done]. destruct (Loop.items l) as [|[[request|[rid]]|close] rest]; try done; cbn [accept].
  - destruct (start _ _ _ _ _) as [c'|] eqn:Es; cbn; [|by apply conn_ok_touch].
    by apply conn_ok_start in Es as (? & _); [|apply conn_ok_touch|].
  - apply (conn_ok_alter limits rid (touch (Poll.now p) (Loop.conn l))). by apply conn_ok_touch.
Qed.

(** *** Every buffer is bounded by the frame it holds *)

Lemma clamp_cap_le cap : clamp_cap cap <= cap.
Proof using Type. rewrite clamp_cap_spec. lia. Qed.
(** The length of a body is checked before it is read. *)
Lemma read_frame_body horizon cap frame_timeout s f s' :
  read_frame horizon cap frame_timeout s = (Ok f, s') -> Z.of_nat (length (Frame.body f)) <= cap.
Proof using Type.
  unfold read_frame. destruct s as [|[i [first| | |]] rest]; [done| | | |];
    (destruct (match horizon with Some h => h <? _ | None => false end); [done|]); try done. cbn [Arrival.instant Arrival.what].
  destruct (read_exact _ _ _ rest) as [[head|] s1]; [|done].
  destruct (header_decode (first :: head) cap) as [header|] eqn:Eh; [|done].
  destruct (read_exact horizon _ (Z.to_nat (FrameHeader.len header)) s1) as [[body|] s2] eqn:Eb; [|done].
  intros [= <- _]. cbn. apply read_exact_Ok in Eb as [-> _].
  apply header_decode_Ok in Eh as (_ & _ & [Hl _] & Hc). pose proof (clamp_cap_le cap). lia.
Qed.
Lemma announced_len_le horizon cap frame_timeout s : 0 <= cap -> announced_len horizon cap frame_timeout s <= cap.
Proof using Type.
  intros Hc. unfold announced_len. destruct s as [|[i [first| | |]] rest]; [done| |done..].
  destruct (read_exact _ _ _ rest) as [[head|] s1]; [|done].
  destruct (header_decode (first :: head) cap) as [header|] eqn:Eh; [|done].
  apply header_decode_Ok in Eh as (_ & _ & _ & Hl). pose proof (clamp_cap_le cap). lia.
Qed.
Lemma decoded_bytes {T} `{Message T} `{!Archive T} header body cap (m : T) :
  decode_frame to_bytes access header body cap = Ok m -> message_bytes m <= cap.
Proof using Type.
  intros Hd. unfold decode_frame in Hd. inv_ok.
  match goal with H : decode _ _ _ _ = Ok _ |- _ => apply decode_Ok in H as (Hl & _ & Ht & _) end.
  unfold message_bytes. rewrite Ht. pose proof (clamp_cap_le cap). lia.
Qed.
Lemma inbound_bytes cap frame : 0 <= cap -> item_bytes (inbound_of cap frame) <= cap.
Proof using Type.
  intros Hc. unfold inbound_of. destruct (FrameHeader.kind _); try done.
  - destruct (decode_frame _ _ _ _ _) as [m|] eqn:E; [|done]. by apply decoded_bytes in E.
  - destruct (decode_frame _ _ _ _ _) as [m|] eqn:E; [|done]. by apply decoded_bytes in E.
Qed.
Lemma encoded_bytes {T} `{Message T} `{!Archive T} (m : T) cap b :
  encode_frame to_bytes m cap = Ok b -> body_bytes b <= cap.
Proof using Type.
  unfold encode_frame. intros He. apply bind_Ok in He as (body & _ & He). apply bind_Ok in He as (len & Hl & He).
  apply Ok_inj in He. subst b. destruct (_ && _) eqn:Ef; [|done]. apply andb_true_iff in Ef as [_ Ef%Z.leb_le].
  unfold body_bytes. rewrite length_app, length_header_encode. pose proof (clamp_cap_le cap). lia.
Qed.

(** *** What a connection can hold *)
Record Pipe_ok (limits : ServerLimits) (P : Pipe) : Prop := {
  po_queue : (length (Loop.items (Pipe.loop P)) <= CHANNEL)%nat;
  po_items : Forall (fun item => item_bytes item <= ServerLimits.max_frame limits) (Loop.items (Pipe.loop P));
  po_reader : match Pipe.reader P with
    | FrameReader.Decoding frame => Z.of_nat (length (Frame.body frame)) <= ServerLimits.max_frame limits
    | FrameReader.Sending item => item_bytes item <= ServerLimits.max_frame limits
    | _ => True
    end;
  po_tasks : map_Forall (fun _ t => task_bytes t <= ServerLimits.max_frame limits)
    (AdmittedConn.tasks (Loop.conn (Pipe.loop P)));
  po_slots : Z.of_nat (size (AdmittedConn.tasks (Loop.conn (Pipe.loop P)))) +
    match Pipe.writing P with Writing.Response _ => 1 | _ => 0 end <= ServerLimits.max_in_flight limits;
  po_writing : match Pipe.writing P with
    | Writing.Nothing => True
    | Writing.Response b | Writing.Fault b => body_bytes b <= ServerLimits.max_frame limits
    end;
  po_open : Pipe.phase P = ConnPhase.Open -> Conn_ok limits (Loop.conn (Pipe.loop P));
  po_id : ConnIdentity.max_frame (AdmittedConn.identity (Loop.conn (Pipe.loop P))) = ServerLimits.max_frame limits;
}.

(** The tasks after a turn: at most one more, for a request it took, or one
    less, for a response it writes. *)
Lemma tasks_size limits c : Conn_ok limits c ->
  Z.of_nat (size (AdmittedConn.tasks c)) <= ServerLimits.max_in_flight limits.
Proof using Type.
  intros Hc. destruct (pending_ok limits c Hc) as [Hp _]. unfold pending in Hp.
  by rewrite length_fmap, length_map_to_list in Hp.
Qed.
Lemma complete_shape now k outcome write l r l' :
  complete now k outcome write l = (r, l') ->
  Loop.items l' = Loop.items l /\ AdmittedConn.tasks (Loop.conn l') = AdmittedConn.tasks (Loop.conn l) /\
  AdmittedConn.identity (Loop.conn l') = AdmittedConn.identity (Loop.conn l).
Proof using Type.
  unfold complete, retire. destruct (AdmittedConn.task_ids _ !! k); [|by intros [= _ <-]].
  destruct (encode_frame _ _ _); [destruct write|]; by intros [= _ <-].
Qed.
Lemma joined_task p c k outcome : joined p c = Some (k, outcome) -> is_Some (AdmittedConn.tasks c !! k).
Proof using Type.
  unfold joined. destruct (Poll.join p) as [[k' ended]|]; [|done]. cbn.
  destruct (AdmittedConn.tasks c !! k') eqn:E; [|done]. intros [= <- _]. eauto.
Qed.
Lemma outgoing_bytes p c : match outgoing p c with
  | Writing.Response b => body_bytes b <= ConnIdentity.max_frame (AdmittedConn.identity c) /\
      exists k outcome, joined p c = Some (k, outcome)
  | w => w = Writing.Nothing
  end.
Proof using Type.
  unfold outgoing. destruct (joined p c) as [[k outcome]|]; [|done]. unfold retire. cbn [join_next AdmittedConn.task_ids].
  destruct (AdmittedConn.task_ids c !! k); [|done]. cbn [AdmittedConn.identity].
  destruct (encode_frame _ _ _) as [b|] eqn:E; [|done]. apply encoded_bytes in E. eauto.
Qed.
(** What a turn does to the buffers. *)
Lemma turn_buffers limits p l r l' bound :
  turn limits p l = (r, l') -> Forall (fun item => item_bytes item <= bound) (Loop.items l) ->
  map_Forall (fun _ t => task_bytes t <= bound) (AdmittedConn.tasks (Loop.conn l)) ->
  Loop.items l' `suffix_of` Loop.items l /\
  map_Forall (fun _ t => task_bytes t <= bound) (AdmittedConn.tasks (Loop.conn l')) /\
  AdmittedConn.identity (Loop.conn l') = AdmittedConn.identity (Loop.conn l) /\
  (forall k outcome, Poll.stop p = false -> joined p (Loop.conn l) = Some (k, outcome) ->
     AdmittedConn.tasks (Loop.conn l') = delete k (AdmittedConn.tasks (Loop.conn l))).
Proof using Type.
  unfold turn. destruct (Poll.stop p); [by intros [= <- <-]|].
  destruct (joined p (Loop.conn l)) as [[k outcome]|] eqn:Ej.
  { intros (Hi & Ht & Hid)%complete_shape Hit Hta. cbn [Loop.items Loop.conn join_next AdmittedConn.tasks] in *.
    rewrite Hi, Ht, Hid. split_and!; [done|by apply map_Forall_delete|done|]. by intros k' o' _ [= <- <-]. }
  destruct (Poll.ready p).
  2: { destruct (idle_at limits (Loop.conn l)) as [timer|]; [destruct (timer <=? Poll.now p)|];
         by intros [= <- <-]. }
  destruct (Loop.items l) as [|[inbound|close] rest] eqn:Ei; [by intros [= <- <-]; rewrite ?Ei| |].
  2: { intros [= <- <-] _ Hta. split_and!; try done. by exists [Err close]. }
  destruct (accept limits _ _ inbound _) as [c|close] eqn:Ea; intros [= <- <-] [Hb _]%Forall_cons Hta.
  2: { split_and!; try done. by exists [Ok inbound]. }
  cbn [Loop.items Loop.conn]. destruct inbound as [request|[rid]]; cbn [accept] in Ea.
  - unfold start in Ea. case_bool_decide; [done|]. destruct (_ <=? _); [done|]. injection Ea as <-.
    split_and!; try done; [by exists [Ok (Inbound.Request request)]|]. cbn. by apply map_Forall_insert_2.
  - injection Ea as <-. split_and!; try done. by exists [Ok (Inbound.Cancel (Cancel.mk rid))].
Qed.

Section pipe.
Context (limits : ServerLimits).
Context (Hframe : PRE_AUTH_MAX_BODY <= ServerLimits.max_frame limits).

Lemma suffix_buffers (a b : list Item) bound :
  a `suffix_of` b -> (length b <= CHANNEL)%nat -> Forall (fun item => item_bytes item <= bound) b ->
  (length a <= CHANNEL)%nat /\ Forall (fun item => item_bytes item <= bound) a.
Proof using Type. intros [pre ->] Hl [_ Hf]%Forall_app. rewrite length_app in Hl. split; [lia|done]. Qed.
Lemma fault_frame_bytes close b : close_fault close ≫= fault_frame = Some b ->
  body_bytes b <= ServerLimits.max_frame limits.
Proof using Hframe.
  intros Hb. destruct (close_fault close) as [f|]; [|done]. cbn in Hb. unfold fault_frame in Hb.
  destruct (encode_frame _ _ _) as [b'|] eqn:E; [|done]. injection Hb as ->. apply encoded_bytes in E. lia.
Qed.

Lemma open_turn_ok p P :
  Pipe_ok limits P -> fresh_ids p -> Pipe.phase P = ConnPhase.Open -> Pipe.writing P = Writing.Nothing ->
  Pipe_ok limits (pipe_turn limits p P).
Proof using Hframe.
  intros [Hq Hi Hr Ht Hs Hw Ho Hid] Hp Hph Hwr. unfold pipe_turn. rewrite Hph.
  set (p' := recv_ready p (Pipe.reader P) (Loop.items (Pipe.loop P))).
  assert (fresh_ids p') as Hp' by done. specialize (Ho Hph).
  pose proof (turn_ok limits p' (Pipe.loop P) Ho Hp') as Hok.
  destruct (turn limits p' (Pipe.loop P)) as [r l'] eqn:Et. cbn [snd] in Hok.
  destruct (turn_buffers _ _ _ _ _ _ Et Hi Ht) as (Hsuf & Ht' & Hid' & Hjoin).
  destruct (suffix_buffers _ _ _ Hsuf Hq Hi) as [Hq' Hi'].
  set (out := if Poll.stop p' then Writing.Nothing else outgoing p' (Loop.conn (Pipe.loop P))).
  assert (match out with Writing.Nothing => True
    | Writing.Response b | Writing.Fault b => body_bytes b <= ServerLimits.max_frame limits end /\
    Z.of_nat (size (AdmittedConn.tasks (Loop.conn l'))) +
      match out with Writing.Response _ => 1 | _ => 0 end <= ServerLimits.max_in_flight limits) as [Hout Hslots].
  { unfold out. destruct (Poll.stop p') eqn:Est; [split; [done|]; pose proof (tasks_size _ _ Hok); lia|].
    pose proof (outgoing_bytes p' (Loop.conn (Pipe.loop P))) as Hb.
    destruct (outgoing p' (Loop.conn (Pipe.loop P))) as [|b|b]; [split; [done|]; pose proof (tasks_size _ _ Hok); lia| |done].
    destruct Hb as [Hb (k & o & Hj)]. rewrite Hid in Hb. split; [done|]. rewrite (Hjoin k o eq_refl Hj).
    destruct (joined_task _ _ _ _ Hj) as [t Hk]. rewrite map_size_delete_Some by eauto.
    assert (size (AdmittedConn.tasks (Loop.conn (Pipe.loop P))) <> 0)%nat
      by (intros H0%map_size_empty_inv; by rewrite H0 in Hk). rewrite Hwr in Hs. lia. }
  destruct r as [[]|close].
  - split; cbn; try done; by rewrite Hid'.
  - split; cbn; try done; [| |by rewrite Hid'].
    + destruct (close_fault close ≫= fault_frame) as [b|]; [|done]. destruct out; lia.
    + destruct (close_fault close ≫= fault_frame) as [b|] eqn:Eb; [|done]. by eapply fault_frame_bytes.
Qed.

Lemma drain_turn_ok p P deliver grace :
  Pipe_ok limits P -> Pipe.phase P = ConnPhase.Draining deliver grace -> Pipe.writing P = Writing.Nothing ->
  Pipe_ok limits (pipe_turn limits p P).
Proof using Type.
  intros [Hq Hi Hr Ht Hs Hw Ho Hid] Hph Hwr. unfold pipe_turn, drain_step. rewrite Hph. rewrite Hwr in Hs.
  assert (Pipe_ok limits (Pipe.mk (Pipe.inbox P) (Pipe.reader P)
    (Loop.mk (Loop.items (Pipe.loop P)) (abort_all (Loop.conn (Pipe.loop P))) (Loop.written (Pipe.loop P)))
    Writing.Nothing ConnPhase.Done)) as Hdone.
  { split; cbn; try done. rewrite map_size_empty. lia. }
  destruct (_ || _); [done|].
  pose proof (outgoing_bytes p (Loop.conn (Pipe.loop P))) as Hb. rewrite Hid in Hb.
  destruct (joined p (Loop.conn (Pipe.loop P))) as [[k outcome]|] eqn:Ej.
  2: { assert ((if deliver then outgoing p (Loop.conn (Pipe.loop P)) else Writing.Nothing) = Writing.Nothing) as ->.
       { destruct deliver; [|done]. destruct (outgoing _ _) as [|b|b]; [done| |done]. by destruct Hb as [_ (? & ? & ?)]. }
       by split; cbn. }
  destruct (joined_task _ _ _ _ Ej) as [t Hk].
  assert (Z.of_nat (size (delete k (AdmittedConn.tasks (Loop.conn (Pipe.loop P))))) + 1
    <= ServerLimits.max_in_flight limits) as Hsz.
  { rewrite map_size_delete_Some by eauto.
    assert (size (AdmittedConn.tasks (Loop.conn (Pipe.loop P))) <> 0)%nat
      by (intros H0%map_size_empty_inv; by rewrite H0 in Hk). lia. }
  destruct deliver.
  2: { split; cbn; try done; [by apply map_Forall_delete|lia]. }
  destruct (complete _ _ _ _ _) as [r l'] eqn:Ec. apply complete_shape in Ec as (Hi' & Ht' & Hid').
  cbn [Loop.items Loop.conn join_next AdmittedConn.tasks AdmittedConn.identity] in *.
  destruct r as [[]|e].
  - split; cbn; rewrite ?Hi', ?Ht', ?Hid'; try done; [by apply map_Forall_delete| |].
    + destruct (outgoing _ _); lia.
    + destruct (outgoing _ _) as [|b|b]; [done|by destruct Hb|done].
  - split; cbn; rewrite ?Hi', ?Hid'; try done. rewrite map_size_empty. lia.
Qed.

Lemma pipe_move_ok P m :
  Pipe_ok limits P -> (forall p, m = Move.Turn p -> fresh_ids p) -> Pipe_ok limits (pipe_move limits P m).
Proof using Hframe.
  intros HP Hf. assert (0 <= ServerLimits.max_frame limits) as H0 by (unfold PRE_AUTH_MAX_BODY in Hframe; lia).
  destruct m as [| | | |p|]; cbn [pipe_move].
  - destruct (Pipe.reader P) eqn:Er; [|done..].
    destruct (read_frame _ _ _ _) as [[frame|[f|]] s] eqn:Ef; [|by destruct HP; split; cbn..|done].
    apply read_frame_body in Ef. by destruct HP; split; cbn.
  - destruct (Pipe.reader P) eqn:Er; [done| |done..]. destruct HP; split; cbn; try done. by apply inbound_bytes.
  - destruct (Pipe.reader P) as [| |item|] eqn:Er; [done..| |done].
    destruct (Nat.ltb_spec (length (Loop.items (Pipe.loop P))) CHANNEL) as [Hl|]; [|done].
    destruct HP as [Hq Hi Hr Ht Hs Hw Ho Hid]. rewrite Er in Hr. split; cbn; try done.
    + rewrite length_app. cbn. lia.
    + apply Forall_app. by split; [|constructor].
    + by destruct (is_ok item).
  - destruct (Pipe.phase P) eqn:Eph; [done|..]; by destruct HP; split; cbn.
  - destruct (Pipe.writing P) eqn:Ew; [|done..]. destruct (Pipe.phase P) as [|deliver grace|] eqn:Eph.
    + apply open_turn_ok; auto.
    + by eapply drain_turn_ok.
    + unfold pipe_turn. by rewrite Eph.
  - destruct HP as [Hq Hi Hr Ht Hs Hw Ho Hid]. split; cbn; try done. destruct (Pipe.writing P); lia.
Qed.

(** Four frames for the decoder or fewer for a reader that waits, one in the
    channel, one per request being dispatched or answered, and two more
    copies of what is written. *)
Lemma pipe_bytes_le P : Pipe_ok limits P ->
  pipe_bytes limits P <= (ServerLimits.max_in_flight limits + FRAMES_PER_CONNECTION) * ServerLimits.max_frame limits.
Proof using Hframe.
  intros [Hq Hi Hr Ht Hs Hw Ho Hid]. unfold pipe_bytes. set (M := ServerLimits.max_frame limits) in *.
  assert (0 <= M) as H0 by (unfold PRE_AUTH_MAX_BODY in Hframe; lia).
  assert (reader_bytes limits P <= 4 * M) as H1.
  { unfold reader_bytes. destruct (Pipe.reader P); unfold decoding_bytes; [|lia..].
    etrans; [by apply announced_len_le|]. fold M. lia. }
  assert (foldr (fun item acc => item_bytes item + acc) 0 (Loop.items (Pipe.loop P)) <= M) as H2.
  { destruct (Loop.items (Pipe.loop P)) as [|item [|]]; cbn in *; [done| |unfold CHANNEL in Hq; lia].
    apply Forall_cons in Hi as [? _]. lia. }
  pose proof (map_sum_le task_bytes (AdmittedConn.tasks (Loop.conn (Pipe.loop P))) M Ht) as H3.
  unfold FRAMES_PER_CONNECTION, writing_bytes. destruct (Pipe.writing P); nia.
Qed.
End pipe.

Definition event_fresh (e : ServerEvent) : Prop :=
  match e with ServerEvent.Moved _ (Move.Turn p) => fresh_ids p | _ => True end.

Lemma worst_case_exact max_permits config :
  let limits := clamped max_permits config in
  1 <= max_permits -> worst_case_bytes max_permits config < u64_max ->
  worst_case_bytes max_permits config =
  ServerLimits.max_connections limits * (ServerLimits.max_in_flight limits + FRAMES_PER_CONNECTION)
    * ServerLimits.max_frame limits.
Proof using Type.
  intros limits Hp. unfold worst_case_bytes. fold limits.
  assert (1 <= ServerLimits.max_connections limits) as H1.
  { cbn. unfold clamp. destruct (Z.ltb_spec (ServerLimits.max_connections config) 1); [lia|].
    by destruct (Z.ltb_spec max_permits (ServerLimits.max_connections config)). }
  assert (1 <= ServerLimits.max_frame limits) as H2.
  { cbn. unfold clamp, PRE_AUTH_MAX_BODY, HARD_MAX_BODY.
    destruct (Z.ltb_spec (ServerLimits.max_frame config) (4 * 1024)); [lia|].
    destruct (Z.ltb_spec (4 * 1024 * 1024) (ServerLimits.max_frame config)); lia. }
  unfold saturating_mul, saturating_add. clearbody limits. unfold u64_max.
  set (i := ServerLimits.max_in_flight limits + FRAMES_PER_CONNECTION).
  set (M := 18446744073709551615). assert (0 < M) as HM by done. clearbody M. intros H.
  assert (Z.min M (ServerLimits.max_connections limits * Z.min M i) * ServerLimits.max_frame limits < M) by lia.
  assert (ServerLimits.max_connections limits * Z.min M i < M) by nia.
  assert (i < M) by nia. rewrite (Z.min_r M i) in * by lia.
  rewrite (Z.min_r M (_ * i)) in * by lia. rewrite Z.min_r; lia.
Qed.

(** *** The two tasks together are the loop

    The channel and the reader together hold what [read_loop] still has to
    forward; the interleaved tasks do what the loop does on all of it. *)
Definition unread (limits : ServerLimits) (P : Pipe) : list Item :=
  let rest := read_loop (ServerLimits.max_frame limits) (ServerLimits.frame_timeout limits) (Pipe.inbox P) in
  let forward (item : Item) := item :: (if is_ok item then rest else []) in
  match Pipe.reader P with
  | FrameReader.Waiting => rest
  | FrameReader.Decoding frame => forward (inbound_of (ServerLimits.max_frame limits) frame)
  | FrameReader.Sending item => forward item
  | FrameReader.Ended => []
  end.
Definition extend (rest : list Item) (l : Loop) : Loop :=
  Loop.mk (Loop.items l ++ rest) (Loop.conn l) (Loop.written l).

Lemma turn_extend limits p rest l :
  (Poll.ready p = true -> Loop.items l <> [] \/ rest = []) ->
  turn limits p (extend rest l) = ((turn limits p l).1, extend rest (turn limits p l).2).
Proof using Type.
  intros Hr. unfold turn. destruct (Poll.stop p); [done|]. cbn [Loop.conn Loop.items Loop.written extend].
  destruct (joined p (Loop.conn l)) as [[k outcome]|].
  { unfold complete. cbn [Loop.conn Loop.items Loop.written]. destruct (retire k outcome _) as [[response|] c]; [|done].
    destruct (encode_frame _ _ _); [destruct (Poll.write p)|]; done. }
  destruct (Poll.ready p).
  - specialize (Hr eq_refl). destruct l as [[|[inbound|close] items] c w]; cbn [Loop.items app] in *.
    + by destruct Hr as [|Hr]; [|rewrite Hr].
    + unfold extend. cbn. by destruct (accept _ _ _ _ _).
    + done.
  - destruct (idle_at limits (Loop.conn l)) as [timer|]; [destruct (timer <=? Poll.now p)|]; done.
Qed.
Lemma run_loop_snoc limits polls p l :
  run_loop limits (polls ++ [p]) l =
  match run_loop limits polls l with
  | (None, l) => match turn limits p l with (Ok _, l) => (None, l) | (Err close, l) => (Some close, l) end
  | closed => closed
  end.
Proof using Type.
  revert l. induction polls as [|q polls IH]; intros l; cbn [run_loop app]; [done|].
  destruct (turn limits q l) as [[[]|close] l1]; [apply IH|done].
Qed.

(** What is left to forward does not change while the reader moves. *)
Lemma reader_move_unread limits P m :
  Pipe.phase P = ConnPhase.Open -> (forall p, m <> Move.Turn p) ->
  let P' := pipe_move limits P m in
  Pipe.phase P' = ConnPhase.Open /\
  extend (unread limits P') (Pipe.loop P') = extend (unread limits P) (Pipe.loop P).
Proof using Type.
  intros Hph Hm. destruct m as [| | | |p|]; cbn [pipe_move]; [| | | |by destruct (Hm p)|done].
  - destruct (Pipe.reader P) eqn:Er; [|done..]. unfold unread at 2. rewrite Er. unfold read_loop. cbn [read_frames].
    destruct (read_frame _ _ _ _) as [[frame|[f|]] s] eqn:Ef;
      [|by split|split; [done|]; unfold unread; rewrite Er; unfold read_loop; cbn [read_frames]; by rewrite Ef].
    split; [done|]. unfold unread. cbn [Pipe.reader Pipe.inbox Pipe.loop]. apply read_frame_shorter in Ef. f_equal.
    destruct (inbound_of _ frame); cbn [is_ok]; [|done]. f_equal. apply read_frames_enough; lia.
  - destruct (Pipe.reader P) eqn:Er; [done| |done..]. split; [done|]. unfold unread. by rewrite Er.
  - destruct (Pipe.reader P) as [| |item|] eqn:Er; [done..| |done]. destruct (_ <? _)%nat; [|done].
    split; [done|]. unfold extend, unread. cbn [Pipe.reader Pipe.inbox Pipe.loop Loop.items Loop.conn Loop.written].
    rewrite Er, <- app_assoc. by destruct item.
  - by rewrite Hph.
Qed.

(** The turns among the moves, and what one of them is on the channel as it
    then is: the same instant, signals, ended task and write. *)
Definition turns (moves : list Move) : list Poll :=
  omap (fun m => match m with Move.Turn p => Some p | _ => None end) moves.
Definition readied (p q : Poll) : Prop := exists ready, (ready = true -> Poll.ready p = true) /\
  q = Poll.mk (Poll.now p) (Poll.stop p) (Poll.join p) ready (Poll.write p) (Poll.spawn p).
Lemma turns_snoc moves m : turns (moves ++ [m]) = turns moves ++ turns [m].
Proof using Type. apply omap_app. Qed.
Lemma complete_written now task outcome write l :
  Loop.written l `prefix_of` Loop.written (complete now task outcome write l).2.
Proof using Type.
  unfold complete. destruct (retire _ _ _) as [[response|] c]; [|done].
  destruct (encode_frame _ _ _); [|done]. destruct write; [done|]. by eexists.
Qed.
(** A connection that is closing stays so, and writes after what it wrote. *)
Lemma pipe_move_closing limits P m : Pipe.phase P <> ConnPhase.Open ->
  Pipe.phase (pipe_move limits P m) <> ConnPhase.Open /\
  Loop.written (Pipe.loop P) `prefix_of` Loop.written (Pipe.loop (pipe_move limits P m)).
Proof using Type.
  intros Hne. destruct m as [| | | |p|]; cbn [pipe_move]; [repeat case_match; done..| |done].
  destruct (Pipe.writing P); [|done..]. unfold pipe_turn. destruct (Pipe.phase P) as [|deliver grace|] eqn:Eph; [done| |].
  - assert (Loop.written (Pipe.loop P) `prefix_of` Loop.written (drain_step deliver grace p (Pipe.loop P)).2) as Hp.
    { unfold drain_step. destruct (_ || _); [done|]. destruct (joined _ _) as [[task outcome]|]; [|done].
      destruct deliver; [|done]. set (l := Loop.mk _ _ _). pose proof (complete_written (Poll.now p) task outcome (Poll.write p) l) as Hp.
      by destruct (complete _ _ _ _ _) as [[]]. }
    by destruct (drain_step _ _ _ _) as [[] l].
  - by rewrite Eph.
Qed.

(** C28. The reader, the channel and the loop together are the loop. Whatever
    the order in which the two tasks move, what they do is what [run_loop]
    does with everything the reader will ever forward, on the turns among
    those moves: while the connection is open, the same connection and the
    same frames written, with exactly the channel's and the reader's items
    left to read; once it is closing, the loop has closed too, and what it
    wrote is what was written first. *)
Theorem pipe_refines_loop (limits : ServerLimits) (id : ConnIdentity) (now : Z) (inbox : list Arrival)
    (moves : list Move) :
  let P := foldl (pipe_move limits) (pipe_new id now inbox) moves in
  let items := read_loop (ServerLimits.max_frame limits) (ServerLimits.frame_timeout limits) inbox in
  exists taken polls stop l,
    taken `sublist_of` turns moves /\ Forall2 readied taken polls /\
    run_loop limits polls (Loop.mk items (admitted_new id now) []) = (stop, l) /\
    (Pipe.phase P = ConnPhase.Open <-> stop = None) /\
    (stop = None -> l = extend (unread limits P) (Pipe.loop P)) /\
    Loop.written l `prefix_of` Loop.written (Pipe.loop P).
Proof using Type.
  intros P items. subst P. induction moves as [|m moves IH] using rev_ind.
  { exists [], [], None. eexists. cbn. split_and!; done. }
  rewrite foldl_app, turns_snoc. cbn [foldl]. set (P := foldl _ _ moves) in *.
  destruct IH as (taken & polls & stop & l & Ht & Hf & Hr & Hs & Hl & Hw).
  assert (forall ps, taken `sublist_of` turns moves ++ ps) as Ht' by (intros ps; by apply sublist_inserts_r).
  assert (Pipe.phase P = ConnPhase.Open \/ Pipe.phase P <> ConnPhase.Open) as [Eph|Hne] by (destruct (Pipe.phase P); auto).
  2: { destruct (pipe_move_closing limits P m Hne) as [Hne' Hw']. exists taken, polls, stop, l.
       split_and!; [done|done|done|naive_solver|naive_solver|by etransitivity]. }
  assert (stop = None) as -> by naive_solver. specialize (Hl eq_refl). subst l. clear Hw.
  assert ((exists p, m = Move.Turn p /\ Pipe.writing P = Writing.Nothing) \/
          (forall p, m = Move.Turn p -> Pipe.writing P <> Writing.Nothing)) as [(p & -> & Hw)|Hm].
  { destruct m as [| | | |p|]; try (by right). destruct (Pipe.writing P); [left; by exists p|by right..]. }
  - cbn [pipe_move]. rewrite Hw. unfold pipe_turn. rewrite Eph.
    set (p' := recv_ready p (Pipe.reader P) (Loop.items (Pipe.loop P))).
    exists (taken ++ [p]), (polls ++ [p']). rewrite run_loop_snoc, Hr, turn_extend.
    + destruct (turn limits p' (Pipe.loop P)) as [[[]|close] l']; do 2 eexists.
      all: split; [by apply sublist_app|]; split; [apply Forall2_app; [done|]; apply Forall2_cons; split; [|done]|].
      1,3: eexists; split; [|reflexivity]; by destruct (Loop.items _), (Pipe.reader P).
      all: split; [reflexivity|]; split_and!; try done.
      cbn. destruct (close_fault close ≫= fault_frame); [destruct (Poll.write p)|]; try done. by eexists.
    + unfold p', recv_ready. cbn. destruct (Loop.items (Pipe.loop P)); [|by left].
      unfold unread. destruct (Pipe.reader P); try done. by right.
  - exists taken, polls, None. eexists. split; [done|]. split; [done|]. split; [exact Hr|].
    assert (Pipe.phase (pipe_move limits P m) = ConnPhase.Open /\
      extend (unread limits (pipe_move limits P m)) (Pipe.loop (pipe_move limits P m))
      = extend (unread limits P) (Pipe.loop P)) as [H1 H2].
    { destruct m as [| | | |p|]; [by apply reader_move_unread..| |by apply reader_move_unread].
      cbn [pipe_move]. destruct (Pipe.writing P) eqn:Ew; [|done..]. by destruct (Hm p eq_refl). }
    rewrite <- H2. by split_and!.
Qed.

Section server.
Context `{!Archive ServerHello} `{!Archive AdmittedMsg}.

Definition Connection_ok (limits : ServerLimits) (c : Connection) : Prop :=
  match c with
  | Connection.Serving P => Pipe_ok limits P
  | Connection.Handshake (Shaking.Received frame) => Z.of_nat (length (Frame.body frame)) <= PRE_AUTH_MAX_BODY
  | Connection.Handshake (Shaking.Sent b) => body_bytes b <= PRE_AUTH_MAX_BODY
  | Connection.Handshake _ => True
  end.
Definition Server_ok (limits : ServerLimits) (cs : Connections) : Prop :=
  Z.of_nat (size cs) <= ServerLimits.max_connections limits /\ map_Forall (fun _ => Connection_ok limits) cs.

Lemma server_update_ok limits cs id c :
  Server_ok limits cs -> is_Some (cs !! id) -> Connection_ok limits c -> Server_ok limits (<[id := c]> cs).
Proof using Type.
  intros [Hs Hc] Hid Hok. split; [by rewrite map_size_insert_Some|]. by apply map_Forall_insert_2.
Qed.
Lemma pipe_new_ok limits id now inbox :
  1 <= ServerLimits.max_in_flight limits -> ConnIdentity.max_frame id = ServerLimits.max_frame limits ->
  Pipe_ok limits (pipe_new id now inbox).
Proof using Type.
  intros Hm Hid. split; cbn; try done; [lia|rewrite map_size_empty; lia|]. intros _. apply conn_ok_new. lia.
Qed.
Lemma greeting_bytes m b : greeting_frame m = Ok b -> body_bytes b <= PRE_AUTH_MAX_BODY.
Proof using Type. destruct m; apply encoded_bytes. Qed.

Lemma server_event_ok limits cs e :
  1 <= ServerLimits.max_in_flight limits -> PRE_AUTH_MAX_BODY <= ServerLimits.max_frame limits ->
  Server_ok limits cs -> event_fresh e -> Server_ok limits (server_event limits cs e).
Proof using Type.
  intros Hm Hf HS He. assert (forall id c, cs !! id = Some c -> Connection_ok limits c) as Hc by apply HS.
  destruct e as [id|id horizon inbox|id|id m|id admission uid pid now inbox|id m|id]; cbn.
  - case_bool_decide as Hid; [done|]. apply eq_None_not_Some in Hid.
    destruct (Z.ltb_spec (Z.of_nat (size cs)) (ServerLimits.max_connections limits)); [|done].
    destruct HS as [Hs Hok]. split; [rewrite map_size_insert_None by done; lia|]. by apply map_Forall_insert_2.
  - destruct (cs !! id) as [[]|] eqn:E; [|done..]. by apply server_update_ok.
  - destruct (cs !! id) as [[[|horizon inbox| |]|]|] eqn:E; try done. apply server_update_ok; [done|by eauto|].
    destruct (read_frame _ _ _ _) as [[frame|] s'] eqn:Er; [|done]. by apply read_frame_body in Er.
  - destruct (cs !! id) as [[]|] eqn:E; [|done..]. apply server_update_ok; [done|by eauto|].
    destruct (greeting_frame m) as [b|] eqn:Eg; [|done]. by apply greeting_bytes in Eg.
  - destruct (cs !! id) as [[]|] eqn:E; [|done..]. apply server_update_ok; [done|by eauto|]. by apply pipe_new_ok.
  - destruct (cs !! id) as [[|P]|] eqn:E; [done| |done]. apply server_update_ok; [done|by eauto|].
    apply pipe_move_ok; [done|exact (Hc _ _ E)|]. by intros p ->.
  - destruct HS as [Hs Hok]. split; [|by apply map_Forall_delete].
    etrans; [|exact Hs]. apply Nat2Z.inj_le, map_subseteq_size, delete_subseteq.
Qed.

Lemma connection_bytes_le limits c :
  1 <= ServerLimits.max_in_flight limits -> PRE_AUTH_MAX_BODY <= ServerLimits.max_frame limits ->
  Connection_ok limits c ->
  connection_bytes limits c <=
    (ServerLimits.max_in_flight limits + FRAMES_PER_CONNECTION) * ServerLimits.max_frame limits.
Proof using Type.
  intros Hm Hf Hc. assert (0 <= PRE_AUTH_MAX_BODY) as H0 by done.
  assert (4 * PRE_AUTH_MAX_BODY <=
    (ServerLimits.max_in_flight limits + FRAMES_PER_CONNECTION) * ServerLimits.max_frame limits) as H4
    by (unfold FRAMES_PER_CONNECTION; nia).
  destruct c as [[|horizon inbox|frame|b]|P]; cbn [connection_bytes Connection_ok] in *; [lia| | | |].
  - pose proof (announced_len_le (Some horizon) PRE_AUTH_MAX_BODY (ServerLimits.frame_timeout limits) inbox H0). lia.
  - unfold decoding_bytes. lia.
  - lia.
  - by apply pipe_bytes_le.
Qed.

(** C36. The memory bound the server announces holds. Under any configuration
    whose announced worst case does not saturate, and whatever peers connect,
    send and leave, and however the reader, the loop and the writer of each
    connection interleave, the connections never exceed the connection bound,
    and the frame bodies they hold at any moment never exceed
    [worst_case_bytes]: the body being read or its four copies while it is
    decoded, the decoded frames sent and queued in the channel, the requests
    being dispatched, and the copies of the response or fault being written.
    For the default limits that is exactly the 256 MiB budget. *)
Theorem memory_bounded (max_permits : Z) (config : ServerLimits) (events : list ServerEvent) :
  1 <= max_permits -> worst_case_bytes max_permits config < u64_max -> Forall event_fresh events ->
  let limits := clamped max_permits config in
  let cs := foldl (server_event limits) ∅ events in
  Z.of_nat (size cs) <= ServerLimits.max_connections limits /\
  map_sum (connection_bytes limits) cs <= worst_case_bytes max_permits config /\
  (16 <= max_permits -> worst_case_bytes max_permits default_limits = DEFAULT_MEMORY_BUDGET).
Proof using Type.
  intros Hp Hw He limits cs.
  assert (1 <= ServerLimits.max_in_flight limits) as Hm by (cbn; lia).
  assert (1 <= ServerLimits.max_connections limits) as Hc.
  { cbn. unfold clamp. destruct (Z.ltb_spec (ServerLimits.max_connections config) 1); [lia|].
    by destruct (Z.ltb_spec max_permits (ServerLimits.max_connections config)). }
  assert (PRE_AUTH_MAX_BODY <= ServerLimits.max_frame limits) as Hf.
  { cbn. unfold clamp, PRE_AUTH_MAX_BODY, HARD_MAX_BODY.
    destruct (Z.ltb_spec (ServerLimits.max_frame config) (4 * 1024)); [lia|].
    destruct (Z.ltb_spec (4 * 1024 * 1024) (ServerLimits.max_frame config)); lia. }
  assert (Server_ok limits cs) as [Hs Hok].
  { subst cs. assert (Server_ok limits ∅) as H0 by (split; [by rewrite map_size_empty; lia|done]). revert H0.
    generalize (∅ : Connections). induction He as [|e events He1 He IH]; intros cs0 H0; cbn; [done|].
    apply IH. by apply server_event_ok. }
  split; [done|]. split.
  - rewrite (worst_case_exact max_permits config Hp Hw). fold limits.
    etrans; [apply (map_sum_le _ _ _ (fun id c Hl => connection_bytes_le limits c Hm Hf (Hok id c Hl)))|].
    unfold FRAMES_PER_CONNECTION, PRE_AUTH_MAX_BODY in *. nia.
  - intros H16. unfold worst_case_bytes. cbn [clamped default_limits ServerLimits.max_connections
      ServerLimits.max_in_flight ServerLimits.max_frame]. unfold clamp at 1.
    destruct (Z.ltb_spec max_permits 16); [lia|]. reflexivity.
Qed.
End server.

End serving.
