(* ===== verification/Keys.v ===== *)
(** * The key hierarchy ([phylake::crypto], [crypto::keys])

    The store's subkeys come from the root key and a salt by HKDF, a tenant's
    from its data key; the key check decides whether a root key is the
    store's own. The primitives are parameters: [Kdf] is what the code calls
    of the HKDF and HMAC crates, [KdfLaws] what they document. Random draws
    come from [Entropy], one answer per draw. *)
From S2P Require Import Prelude Vocab Ids Epitrope View Lifecycle Records Store Seal RecordKey.
Local Open Scope Z_scope.

(** ** The primitives *)

(** [hmac::Hmac] ([None]: the key is rejected), [Hkdf::extract] and
    [Hkdf::expand] ([None]: the output is too long). *)
Class Kdf : Type := {
  hmac : bytes -> bytes -> option bytes;
  extract : option bytes -> bytes -> bytes;
  expand : bytes -> bytes -> nat -> option bytes;
}.
(** HMAC accepts a key of any length and returns 32 bytes; HKDF expands to any
    length up to 255 blocks. *)
Class KdfLaws `{Kdf} : Prop := {
  hmac_total k m : exists t, hmac k m = Some t /\ length t = 32%nat;
  expand_total prk info n : (n <= 255 * 32)%nat -> exists okm, expand prk info n = Some okm /\ length okm = n;
}.

(** The random source: the bytes of draw [i] when [n] are asked for. *)
Class Entropy : Type := fill : nat -> nat -> option bytes.
(** A source that never fails. *)
Definition healthy `{Entropy} : Prop := forall i n, exists b, fill i n = Some b /\ length b = n.

(** ** Drawing

    A computation that may draw: the number of draws made is its state. *)
Definition Draws (A : Type) : Type := nat -> result StoreError A * nat.
#[global] Instance Draws_ret : MRet Draws := fun A a i => (Ok a, i).
#[global] Instance Draws_bind : MBind Draws := fun A B f m i =>
  match m i with (Ok a, i) => f a i | (Err e, i) => (Err e, i) end.
Definition lift {A} (r : result StoreError A) : Draws A := fun i => (r, i).
(** A [for] loop whose body may draw and may return early. *)
Fixpoint for_each {A S} (f : S -> A -> Draws S) (s : S) (l : list A) : Draws S :=
  match l with
  | [] => mret s
  | a :: l => s ← f s a; for_each f s l
  end.

Section crypto.
Context `{Kdf} `{Entropy} `{Aead}.

(** [random_secret_array] and [random_array]. *)
Definition random_array (n : nat) : Draws bytes := fun i =>
  (match fill i n with
   | None => Err StoreError.Entropy
   | Some b => if Nat.eqb (length b) n then Ok b
               else Err (StoreError.Malformed "entropy draw" (Z.of_nat (length b)))
   end, S i).
(** Draws the nonce of [f], which fails with [Entropy] where it needs one it
    is not given; an error raised before the draw comes first. *)
Definition with_nonce (f : option bytes -> result StoreError bytes) : Draws bytes := fun i =>
  match random_array NONCE_LEN i with
  | (Ok nonce, i) => (f (Some nonce), i)
  | (Err e, i) => (match f None with Err StoreError.Entropy => Err e | r => r end, i)
  end.

(** [hmac_sha256], over the concatenation of [parts]. *)
Definition hmac_sha256 (key : bytes) (parts : list bytes) : result StoreError bytes :=
  ok_or (hmac key (concat parts)) (StoreError.KeyMaterial "hmac-sha256").
(** [hmac_sha256_verify]: a tag of the wrong length does not match. *)
Definition hmac_sha256_verify (key msg tag : bytes) : result StoreError bool :=
  mac ← ok_or (hmac key msg) (StoreError.KeyMaterial "hmac-sha256");
  Ok (bool_decide (mac = tag)).
(** [hkdf_extract] and [hkdf_expand]. *)
Definition hkdf_extract (salt : option bytes) (ikm : bytes) : bytes := extract salt ikm.
Definition hkdf_expand (hk info : bytes) (len : nat) : result StoreError bytes :=
  ok_or (expand hk info len) (StoreError.KeyMaterial "hkdf-sha256 expand").

(** [SubKey::derive] and [SubKey::keyed_hash]; a subkey is its bytes. *)
Definition subkey_derive (hk info : bytes) : result StoreError bytes := hkdf_expand hk info KEY_LEN.
Definition keyed_hash (subkey input : bytes) : result StoreError bytes := hmac_sha256 subkey [input].

(** [StoreSalt::generate_with]. *)
Definition salt_generate : Draws bytes := random_array 32.
End crypto.

(** ** The labels *)
Definition label_BLOB : bytes := lit "dioptron/v1/blob".
Definition label_META : bytes := lit "dioptron/v1/meta".
Definition label_AUDIT : bytes := lit "dioptron/v1/audit".
Definition label_INDEX : bytes := lit "dioptron/v1/index".
Definition label_KEK : bytes := lit "dioptron/v1/kek".
Definition label_CHECK : bytes := lit "dioptron/v1/check".
Definition label_TENANT_BLOB : bytes := lit "dioptron/v1/tenant/blob".
Definition label_TENANT_BLOB_ADDR : bytes := lit "dioptron/v1/tenant/blob-addr".
Definition label_TENANT_META : bytes := lit "dioptron/v1/tenant/meta".
Definition label_TENANT_AUDIT : bytes := lit "dioptron/v1/tenant/audit".
Definition label_TENANT_INDEX : bytes := lit "dioptron/v1/tenant/index".
Definition KEY_CHECK_MESSAGE : bytes := lit "dioptron-key-check".

(** ** [StoreKeys] *)
Module StoreKeys.
Record StoreKeys : Set := mk {
  root_key_id : Z;
  blob : SealingKey;
  meta : SealingKey;
  audit : SealingKey;
  index : bytes;
  kek : bytes;
  check : bytes;
}.
End StoreKeys.
Abbreviation StoreKeys := StoreKeys.StoreKeys.
(** What wrapping uses of them. *)
Definition store_kek (keys : StoreKeys) : StoreKek :=
  StoreKek.mk (StoreKeys.root_key_id keys) (StoreKeys.kek keys).

(** ** [TenantKeys] and its two parts *)
Module TenantKeys.
Record TenantKeys : Set := mk {
  key_id : Z;
  blob : SealingKey;
  blob_addr : bytes;
  meta : SealingKey;
  audit : SealingKey;
  index : bytes;
}.
End TenantKeys.
Abbreviation TenantKeys := TenantKeys.TenantKeys.
Module TenantSealingKeys.
Record TenantSealingKeys : Set := mk { key_id : Z; blob : SealingKey; meta : SealingKey; audit : SealingKey }.
End TenantSealingKeys.
Abbreviation TenantSealingKeys := TenantSealingKeys.TenantSealingKeys.

Section derive.
Context `{Kdf} `{Entropy}.

(** [StoreKeys::derive]. *)
Definition store_derive (root : bytes) (root_key_id : Z) (salt : bytes) : result StoreError StoreKeys :=
  let hk := hkdf_extract (Some salt) root in
  let sealing info := key ← subkey_derive hk info; Ok (SealingKey.mk root_key_id key) in
  blob ← sealing label_BLOB;
  meta ← sealing label_META;
  audit ← sealing label_AUDIT;
  index ← subkey_derive hk label_INDEX;
  kek ← subkey_derive hk label_KEK;
  check ← subkey_derive hk label_CHECK;
  Ok (StoreKeys.mk root_key_id blob meta audit index kek check).
(** [StoreKeys::unlock]. *)
Definition store_unlock (root : bytes) (root_key_id : Z) (salt stored_check : bytes)
    : result StoreError StoreKeys :=
  keys ← store_derive root root_key_id salt;
  same ← hmac_sha256_verify (StoreKeys.check keys) KEY_CHECK_MESSAGE stored_check;
  _ ← ensure same StoreError.StoreLocked;
  Ok keys.
(** [StoreKeys::key_check]. *)
Definition key_check (keys : StoreKeys) : result StoreError bytes :=
  hmac_sha256 (StoreKeys.check keys) [KEY_CHECK_MESSAGE].

(** [TenantDataKey::generate_with]. *)
Definition data_key_generate (id : Z) : Draws TenantDataKey :=
  drawn ← random_array KEY_LEN; mret (TenantDataKey.mk id drawn).
(** [TenantDataKey::derive]. *)
Definition tenant_derive (key : TenantDataKey) : result StoreError TenantKeys :=
  let hk := hkdf_extract None (TenantDataKey.bytes_ key) in
  let sealing info := k ← subkey_derive hk info; Ok (SealingKey.mk (TenantDataKey.id key) k) in
  blob ← sealing label_TENANT_BLOB;
  blob_addr ← subkey_derive hk label_TENANT_BLOB_ADDR;
  meta ← sealing label_TENANT_META;
  audit ← sealing label_TENANT_AUDIT;
  index ← subkey_derive hk label_TENANT_INDEX;
  Ok (TenantKeys.mk (TenantDataKey.id key) blob blob_addr meta audit index).
(** [TenantKeys::split]. *)
Definition tenant_split (k : TenantKeys) : TenantSealingKeys * AddressKeys :=
  (TenantSealingKeys.mk (TenantKeys.key_id k) (TenantKeys.blob k) (TenantKeys.meta k) (TenantKeys.audit k),
   AddressKeys.mk (TenantKeys.index k) (TenantKeys.blob_addr k)).
(** [AddressKeys::blob_address]. *)
Definition address_blob_address (k : AddressKeys) (plaintext : bytes) : result StoreError bytes :=
  hmac_sha256 (AddressKeys.blob_addr k) [plaintext].

(** [record_key::keyed] and the functions of its two modules: the key of a
    slot under an index subkey. *)
Definition slot_key (index : bytes) (s : Slot) : result StoreError bytes :=
  keyed_hash index (keyed_input (domain s) (parts s)).
End derive.

(** ** Lemmas *)

Lemma Draws_bind_Ok {A B} (m : Draws A) (f : A -> Draws B) i b j :
  (m ≫= f) i = (Ok b, j) <-> exists a k, m i = (Ok a, k) /\ f a k = (Ok b, j).
Proof.
  unfold mbind, Draws_bind. destruct (m i) as [[a|e] k]; split.
  - intros Hf. by exists a, k.
  - by intros (? & ? & [= <- <-] & Hf).
  - done.
  - by intros (? & ? & ? & _).
Qed.
Lemma Draws_bind_eq {A B} (m : Draws A) (f : A -> Draws B) i a k : m i = (Ok a, k) -> (m ≫= f) i = f a k.
Proof. unfold mbind, Draws_bind. by intros ->. Qed.
Lemma lift_Ok {A} (r : result StoreError A) i a j : lift r i = (Ok a, j) <-> r = Ok a /\ j = i.
Proof. unfold lift. naive_solver. Qed.

Section lemmas.
Context `{KdfLaws}.

Lemma hmac_sha256_Ok key parts : exists t, hmac_sha256 key parts = Ok t /\ length t = 32%nat.
Proof using Type*.
  unfold hmac_sha256. destruct (hmac_total key (concat parts)) as (t & -> & Hl). by exists t.
Qed.
Lemma slot_key_Ok index s : exists k, slot_key index s = Ok k /\ length k = 32%nat.
Proof using Type*. apply hmac_sha256_Ok. Qed.
Lemma subkey_derive_Ok hk info : exists k, subkey_derive hk info = Ok k /\ length k = KEY_LEN.
Proof using Type*.
  unfold subkey_derive, hkdf_expand. destruct (expand_total hk info KEY_LEN) as (k & -> & Hk); [unfold KEY_LEN; lia|].
  by exists k.
Qed.

(** The keys a root key gives. *)
Record StoreKeysOk (id : Z) (keys : StoreKeys) : Prop := {
  sk_id : StoreKeys.root_key_id keys = id;
  sk_meta_id : SealingKey.id (StoreKeys.meta keys) = id;
  sk_meta : length (SealingKey.key (StoreKeys.meta keys)) = KEY_LEN;
  sk_kek : length (StoreKeys.kek keys) = KEY_LEN;
}.
Lemma store_derive_Ok root id salt : exists keys, store_derive root id salt = Ok keys /\ StoreKeysOk id keys.
Proof using Type*.
  unfold store_derive. set (hk := hkdf_extract _ _).
  destruct (subkey_derive_Ok hk label_BLOB) as (b & -> & _), (subkey_derive_Ok hk label_META) as (m & -> & Hm),
    (subkey_derive_Ok hk label_AUDIT) as (a & -> & _), (subkey_derive_Ok hk label_INDEX) as (x & -> & _),
    (subkey_derive_Ok hk label_KEK) as (k & -> & Hk), (subkey_derive_Ok hk label_CHECK) as (c & -> & _).
  cbn [mbind result_bind]. eexists. split; [reflexivity|]. by split.
Qed.
Lemma key_check_Ok keys : exists c, key_check keys = Ok c /\ length c = 32%nat.
Proof using Type*. apply hmac_sha256_Ok. Qed.

(** Exactly the root key whose check value is stored unlocks the store. *)
Lemma store_unlock_spec root id salt check keys c :
  store_derive root id salt = Ok keys -> key_check keys = Ok c ->
  store_unlock root id salt check = if bool_decide (c = check) then Ok keys else Err StoreError.StoreLocked.
Proof using Type.
  intros Hd Hc. unfold store_unlock. rewrite Hd. cbn [mbind result_bind].
  unfold key_check, hmac_sha256 in Hc. cbn [concat] in Hc. rewrite app_nil_r in Hc. apply ok_or_Ok in Hc.
  unfold hmac_sha256_verify. rewrite Hc. cbn [ok_or mbind result_bind]. by case_bool_decide.
Qed.
End lemmas.

Section healthy.
Context `{Entropy}.
Lemma random_array_Ok n i : healthy -> exists b, random_array n i = (Ok b, S i) /\ length b = n.
Proof using Type.
  intros Hh. destruct (Hh i n) as (b & Hf & Hl). exists b. split; [|done].
  unfold random_array. by rewrite Hf, Hl, Nat.eqb_refl.
Qed.
Lemma with_nonce_Ok f i : healthy ->
  exists nonce, length nonce = NONCE_LEN /\ with_nonce f i = (f (Some nonce), S i).
Proof using Type.
  intros Hh. destruct (random_array_Ok NONCE_LEN i Hh) as (b & Hb & Hl). exists b. split; [done|].
  unfold with_nonce. by rewrite Hb.
Qed.
End healthy.
