(* ===== verification/Disk.v ===== *)
(** * The physical store ([phylake::store], [store::codec], [store::meta])

    What the database holds: byte keys and sealed byte values in the fifteen
    keyspaces, each a finite map, and the plaintext [meta] keyspace. A write
    transaction is a staged copy of the disk, which a commit puts in place
    whole. The record codec is a parameter, one instance per record type
    ([rkyv] behind the trait [StoredRecord]). *)
From stdpp Require Import finite.
From S2P Require Import Prelude Vocab Ids Epitrope View Lifecycle Records Store Seal RecordKey Keys.
Local Open Scope Z_scope.

(** One keyspace's entries. *)
Abbreviation Table := (gmap bytes bytes).

Definition SCHEMA_VERSION : Z := 1.
Definition FORMAT : bytes := lit "dioptron-custody/fjall3".
Definition field_SCHEMA_VERSION : str := lit "schema_version".
Definition field_FORMAT : str := lit "format".
Definition field_ROOT_KEY_ID : str := lit "active_root_key_id".
Definition field_KDF_SALT : str := lit "kdf_salt".
Definition field_KEY_CHECK : str := lit "key_check".

Module Meta.
Record Meta : Set := mk { root_key_id : Z; salt : bytes; check : bytes }.
End Meta.
Abbreviation Meta := Meta.Meta.

(** [write]: stages every field, in the source's order. *)
Definition meta_write (m : Meta) (t : Table) : Table :=
  let t := <[field_SCHEMA_VERSION := to_le_bytes 4 SCHEMA_VERSION]> t in
  let t := <[field_FORMAT := FORMAT]> t in
  let t := <[field_ROOT_KEY_ID := to_le_bytes 4 (Meta.root_key_id m)]> t in
  let t := <[field_KDF_SALT := Meta.salt m]> t in
  <[field_KEY_CHECK := Meta.check m]> t.

(** [field_bytes] and [fixed]. *)
Definition field_bytes (t : Table) (name : str) : result StoreError bytes :=
  ok_or (t !! name) (StoreError.StoreMissing name).
Definition fixed (n : nat) (t : Table) (name : str) : result StoreError bytes :=
  b ← field_bytes t name;
  _ ← ensure (Nat.eqb (length b) n) (StoreError.MetaMalformed name);
  Ok b.

(** [read]. *)
Definition meta_read (t : Table) : result StoreError Meta :=
  format ← field_bytes t field_FORMAT;
  _ ← ensure (bool_decide (format = FORMAT)) (StoreError.MetaMalformed field_FORMAT);
  v ← fixed 4 t field_SCHEMA_VERSION;
  let found := from_le_bytes v in
  _ ← ensure (found <=? SCHEMA_VERSION) (StoreError.SchemaTooNew found SCHEMA_VERSION);
  _ ← ensure (found =? SCHEMA_VERSION) (StoreError.MigrationRequired found SCHEMA_VERSION);
  id ← fixed 4 t field_ROOT_KEY_ID;
  salt ← fixed 32 t field_KDF_SALT;
  check ← fixed 32 t field_KEY_CHECK;
  Ok (Meta.mk (from_le_bytes id) salt check).

(** The widths of the fields. *)
Record meta_wf (m : Meta) : Prop := {
  mw_id : in_range u32_max (Meta.root_key_id m);
  mw_salt : length (Meta.salt m) = 32%nat;
  mw_check : length (Meta.check m) = 32%nat;
}.

(** ** Lemmas *)

Lemma field_bytes_Some t name b : t !! name = Some b -> field_bytes t name = Ok b.
Proof. unfold field_bytes. by intros ->. Qed.
Lemma fixed_Ok n t name b : fixed n t name = Ok b <-> t !! name = Some b /\ length b = n.
Proof.
  unfold fixed, field_bytes. split.
  - intros Hf. inv_ok. by match goal with H : Nat.eqb _ _ = true |- _ => apply Nat.eqb_eq in H end.
  - intros [-> <-]. cbn [ok_or mbind result_bind]. by rewrite Nat.eqb_refl.
Qed.

(** What a written table holds. *)
Record Written (m : Meta) (t : Table) : Prop := {
  wr_format : t !! field_FORMAT = Some FORMAT;
  wr_schema : t !! field_SCHEMA_VERSION = Some (to_le_bytes 4 SCHEMA_VERSION);
  wr_id : t !! field_ROOT_KEY_ID = Some (to_le_bytes 4 (Meta.root_key_id m));
  wr_salt : t !! field_KDF_SALT = Some (Meta.salt m);
  wr_check : t !! field_KEY_CHECK = Some (Meta.check m);
}.
Lemma meta_write_Written m t : Written m (meta_write m t).
Proof.
  unfold meta_write. split; repeat (rewrite lookup_insert_ne by done); apply lookup_insert_eq.
Qed.
Lemma Written_inj m m' t : meta_wf m -> meta_wf m' -> Written m t -> Written m' t -> m = m'.
Proof.
  intros [Hi _ _] [Hi' _ _] [_ _ Hr Hs Hc] [_ _ Hr' Hs' Hc'].
  rewrite Hr in Hr'. rewrite Hs in Hs'. rewrite Hc in Hc'. apply (inj Some), le_u32_inj in Hr'; [|done..].
  apply (inj Some) in Hs', Hc'. destruct m, m'. by f_equal.
Qed.

(** [read] accepts exactly the tables a complete [write] of this build leaves,
    and returns what was written. *)
Lemma meta_read_iff t m : meta_read t = Ok m <-> meta_wf m /\ Written m t.
Proof.
  unfold meta_read. split.
  - intros Hr. inv_ok. repeat match goal with H : fixed _ _ _ = Ok _ |- _ => apply fixed_Ok in H as [? ?] end.
    match goal with H : field_bytes _ _ = Ok _ |- _ => apply ok_or_Ok in H end. bool_simpl. subst.
    assert (forall b : bytes, length b = 4%nat -> to_le_bytes 4 (from_le_bytes b) = b) as Hb
      by (intros b Hl; rewrite <- Hl at 1; apply to_from_le_bytes).
    match goal with H : from_le_bytes ?b = SCHEMA_VERSION |- _ => assert (b = to_le_bytes 4 SCHEMA_VERSION) as -> by (rewrite <- H; symmetry; by apply Hb) end.
    split; [|split; cbn [Meta.root_key_id Meta.salt Meta.check]; try done; by rewrite Hb].
    split; try done. cbn [Meta.root_key_id]. match goal with |- in_range _ (from_le_bytes ?b) => pose proof (from_le_bytes_range b) as Hrg; assert (length b = 4%nat) as Hl4 by done end.
    rewrite Hl4 in Hrg. unfold in_range, u32_max. lia.
  - intros [[Hi Hs Hc] [Wf Wv Wi Ws Wc]]. rewrite (field_bytes_Some _ _ _ Wf). cbn [mbind result_bind].
    rewrite bool_decide_eq_true_2 by done. cbn [ensure mbind result_bind].
    rewrite (proj2 (fixed_Ok _ _ _ _) (conj Wv (length_to_le_bytes _ _))). cbn [mbind result_bind].
    rewrite from_to_le_u32 by done. cbn [Z.leb Z.eqb ensure].
    rewrite (proj2 (fixed_Ok _ _ _ _) (conj Wi (length_to_le_bytes _ _))), (proj2 (fixed_Ok _ _ _ _) (conj Ws Hs)),
      (proj2 (fixed_Ok _ _ _ _) (conj Wc Hc)). cbn [mbind result_bind]. rewrite from_to_le_u32 by done. by destruct m.
Qed.

Lemma meta_read_write m t : meta_wf m -> meta_read (meta_write m t) = Ok m.
Proof. intros Hm. apply meta_read_iff. split; [done|apply meta_write_Written]. Qed.

(** ** The keyspaces *)

(** ** Keyspaces *)

(** [ALL_KEYSPACES]. *)
Definition ALL_KEYSPACES : list Keyspace :=
  [Keyspace.Meta; Keyspace.Keys; Keyspace.Tenants; Keyspace.Grants; Keyspace.Revocations; Keyspace.Sessions;
   Keyspace.Invocations; Keyspace.Idem; Keyspace.Ledgers; Keyspace.Artifacts; Keyspace.Blobs;
   Keyspace.SessionIndex; Keyspace.Audit; Keyspace.AuditStub; Keyspace.Rekey].
Lemma ALL_KEYSPACES_complete k : k ∈ ALL_KEYSPACES.
Proof. destruct k; unfold ALL_KEYSPACES; set_solver. Qed.
#[global] Instance Keyspace_finite : Finite Keyspace.
Proof.
  refine {| enum := ALL_KEYSPACES |}; [|apply ALL_KEYSPACES_complete].
  apply (bool_decide_eq_true_1 (NoDup ALL_KEYSPACES)). vm_compute. reflexivity.
Defined.

(** The keyspaces that exist, with their entries. *)
Abbreviation Disk := (gmap Keyspace (gmap (list byte) (list byte))).
Definition table (d : Disk) (ks : Keyspace) : Table := default ∅ (d !! ks).
Definition disk_get (d : Disk) (ks : Keyspace) (key : bytes) : option bytes := table d ks !! key.
(** [tx.insert] and [tx.remove]. *)
Definition disk_insert (ks : Keyspace) (key value : bytes) (d : Disk) : Disk :=
  <[ks := <[key := value]> (table d ks)]> d.
Definition disk_remove (ks : Keyspace) (key : bytes) (d : Disk) : Disk :=
  <[ks := delete key (table d ks)]> d.
(** [Store::entries]. The database yields them in key order; the order here
    is the map's own. *)
Definition entries (d : Disk) (ks : Keyspace) : list (bytes * bytes) := map_to_list (table d ks).
(** [Keyspaces::open]: creates the absent ones. *)
Definition keyspaces_open (d : Disk) : Disk :=
  foldl (fun d ks => match d !! ks with Some _ => d | None => <[ks := ∅]> d end) d ALL_KEYSPACES.

(** ** Slots: where a record lives *)
Module RecordSlot.
Record RecordSlot : Set := mk { keyspace : Keyspace; kind : Z }.
End RecordSlot.
Abbreviation RecordSlot := RecordSlot.RecordSlot.

(** [records::kind]. *)
Definition kind_TENANT : Z := 1.
Definition kind_GRANT : Z := 3.
Definition kind_REVOCATION : Z := 4.
Definition kind_SESSION : Z := 5.
Definition kind_INVOCATION : Z := 6.
Definition kind_IDEM : Z := 7.
Definition kind_LEDGER : Z := 8.
Definition kind_ARTIFACT : Z := 9.
Definition kind_PENDING_ARTIFACT : Z := 10.
Definition kind_LOCATOR : Z := 11.
Definition kind_BLOB : Z := 12.
Definition kind_SESSION_INDEX : Z := 13.
Definition kind_AUDIT : Z := 14.
Definition kind_AUDIT_STUB : Z := 15.
Definition kind_REKEY : Z := 16.
Definition kind_TOMBSTONE : Z := 17.
(** The module [slot]. *)
Definition slot_TENANT : RecordSlot := RecordSlot.mk Keyspace.Tenants kind_TENANT.
Definition slot_GRANT : RecordSlot := RecordSlot.mk Keyspace.Grants kind_GRANT.
Definition slot_REVOCATION : RecordSlot := RecordSlot.mk Keyspace.Revocations kind_REVOCATION.
Definition slot_SESSION : RecordSlot := RecordSlot.mk Keyspace.Sessions kind_SESSION.
Definition slot_INVOCATION : RecordSlot := RecordSlot.mk Keyspace.Invocations kind_INVOCATION.
Definition slot_IDEM : RecordSlot := RecordSlot.mk Keyspace.Idem kind_IDEM.
Definition slot_LEDGER : RecordSlot := RecordSlot.mk Keyspace.Ledgers kind_LEDGER.
Definition slot_ARTIFACT : RecordSlot := RecordSlot.mk Keyspace.Artifacts kind_ARTIFACT.
Definition slot_PENDING_ARTIFACT : RecordSlot := RecordSlot.mk Keyspace.Artifacts kind_PENDING_ARTIFACT.
Definition slot_LOCATOR : RecordSlot := RecordSlot.mk Keyspace.Artifacts kind_LOCATOR.
Definition slot_BLOB : RecordSlot := RecordSlot.mk Keyspace.Blobs kind_BLOB.
Definition slot_SESSION_INDEX : RecordSlot := RecordSlot.mk Keyspace.SessionIndex kind_SESSION_INDEX.
Definition slot_AUDIT : RecordSlot := RecordSlot.mk Keyspace.Audit kind_AUDIT.
Definition slot_AUDIT_STUB : RecordSlot := RecordSlot.mk Keyspace.AuditStub kind_AUDIT_STUB.
Definition slot_REKEY : RecordSlot := RecordSlot.mk Keyspace.Rekey kind_REKEY.
Definition slot_TOMBSTONE : RecordSlot := RecordSlot.mk Keyspace.Tenants kind_TOMBSTONE.

(** The seal's context of a record. *)
Definition seal_context (sl : RecordSlot) (key : bytes) : SealContext :=
  SealContext.mk SCHEMA_VERSION (RecordSlot.keyspace sl) (RecordSlot.kind sl) key.

(** ** The codec *)
Class StoredRecord (T : Type) : Type := {
  to_archive : T -> option bytes;
  from_archive : bytes -> option T;
}.
Class StoredRecordLaws (T : Type) `{StoredRecord T} : Prop := {
  archive_round_trip (r : T) b : to_archive r = Some b -> from_archive b = Some r;
}.
Definition encode {T} `{StoredRecord T} (r : T) : result StoreError bytes :=
  ok_or (to_archive r) StoreError.Encode.
Definition decode {T} `{StoredRecord T} (b : bytes) (keyspace : str) : result StoreError T :=
  ok_or (from_archive b) (StoreError.Decode keyspace).

(** ** Reading and writing records *)
Section records.
Context `{Kdf} `{Entropy} `{Aead}.

(** [Store::seal_bytes] and [Store::open_bytes]. *)
Definition seal_bytes (key : SealingKey) (sl : RecordSlot) (record_key plaintext : bytes) : Draws bytes :=
  with_nonce (seal_with key (seal_context sl record_key) plaintext).
Definition open_bytes (keys : list SealingKey) (sl : RecordSlot) (record_key sealed : bytes)
    : result StoreError bytes :=
  open keys (seal_context sl record_key) sealed.

(** [Store::get] and [Store::put]. *)
Definition get {T} `{StoredRecord T} (d : Disk) (sl : RecordSlot) (record_key : bytes) (keys : list SealingKey)
    : result StoreError (option T) :=
  match disk_get d (RecordSlot.keyspace sl) record_key with
  | None => Ok None
  | Some sealed =>
      plain ← open_bytes keys sl record_key sealed;
      r ← decode plain (Keyspace.name (RecordSlot.keyspace sl));
      Ok (Some r)
  end.
Definition put {T} `{StoredRecord T} (tx : Disk) (sl : RecordSlot) (record_key : bytes) (key : SealingKey)
    (value : T) : Draws Disk :=
  encoded ← lift (encode value);
  sealed ← seal_bytes key sl record_key encoded;
  mret (disk_insert (RecordSlot.keyspace sl) record_key sealed tx).
(** [Store::get_global] and [Store::put_global]. *)
Definition get_global {T} `{StoredRecord T} (keys : StoreKeys) (d : Disk) (sl : RecordSlot) (record_key : bytes)
    : result StoreError (option T) := get d sl record_key [StoreKeys.meta keys].
Definition put_global {T} `{StoredRecord T} (keys : StoreKeys) (tx : Disk) (sl : RecordSlot)
    (record_key : bytes) (value : T) : Draws Disk := put tx sl record_key (StoreKeys.meta keys) value.
End records.

(** ** Lemmas *)

Lemma table_insert d ks t ks' : table (<[ks := t]> d) ks' = if bool_decide (ks' = ks) then t else table d ks'.
Proof.
  unfold table. case_bool_decide as Hk; [subst; by rewrite lookup_insert_eq|by rewrite lookup_insert_ne].
Qed.
Lemma disk_get_insert ks key v d ks' key' :
  disk_get (disk_insert ks key v d) ks' key' =
  if bool_decide (ks' = ks /\ key' = key) then Some v else disk_get d ks' key'.
Proof.
  unfold disk_get, disk_insert. rewrite table_insert. case_bool_decide as Hk; [subst|by rewrite bool_decide_eq_false_2 by tauto].
  destruct (decide (key' = key)) as [->|Hne].
  - rewrite bool_decide_eq_true_2 by done. apply lookup_insert_eq.
  - rewrite bool_decide_eq_false_2 by tauto. by apply lookup_insert_ne.
Qed.
Lemma disk_get_remove ks key d ks' key' :
  disk_get (disk_remove ks key d) ks' key' =
  if bool_decide (ks' = ks /\ key' = key) then None else disk_get d ks' key'.
Proof.
  unfold disk_get, disk_remove. rewrite table_insert. case_bool_decide as Hk; [subst|by rewrite bool_decide_eq_false_2 by tauto].
  destruct (decide (key' = key)) as [->|Hne].
  - rewrite bool_decide_eq_true_2 by done. apply lookup_delete_eq.
  - rewrite bool_decide_eq_false_2 by tauto. by apply lookup_delete_ne.
Qed.
Lemma entries_elem d ks key v : (key, v) ∈ entries d ks <-> disk_get d ks key = Some v.
Proof. unfold entries, disk_get. apply elem_of_map_to_list. Qed.

(** The cipher accepts every key, nonce and message of the right size. *)
Class AeadTotal `{Aead} : Prop := {
  aead_total k n a m : length k = KEY_LEN -> length n = NONCE_LEN ->
    Z.of_nat (length m) <= MAX_PLAINTEXT_LEN -> exists c, aead_encrypt k n a m = Some c;
}.

(** A record key is at most 40 bytes long: a hash, and 8 bytes of sequence. *)
Lemma aad_Ok ctx id : (length (SealContext.record_key ctx) <= 40)%nat -> exists a, aad ctx id = Ok a.
Proof.
  intros Hl. unfold aad, push_prefixed.
  assert ((Z.of_nat (length (Keyspace.name (SealContext.keyspace ctx))) <=? u16_max) = true) as ->
    by (destruct (SealContext.keyspace ctx); reflexivity).
  cbn [ensure mbind result_bind]. rewrite (proj2 (Z.leb_le _ _)) by (unfold u16_max; lia). cbn [ensure mbind result_bind].
  eauto.
Qed.

Section seal.
Context `{AeadLaws} `{!AeadTotal}.

Lemma seal_with_total key ctx plain nonce :
  length (SealingKey.key key) = KEY_LEN -> (length (SealContext.record_key ctx) <= 40)%nat ->
  Z.of_nat (length plain) <= MAX_PLAINTEXT_LEN -> length nonce = NONCE_LEN ->
  exists sealed, seal_with key ctx plain (Some nonce) = Ok sealed.
Proof using Type*.
  intros Hk Hr Hp Hn. unfold seal_with, check_plaintext_len, encrypt. rewrite (proj2 (Z.leb_le _ _) Hp).
  cbn [ensure mbind result_bind]. destruct (aad_Ok ctx (SealingKey.id key) Hr) as (a & ->).
  cbn [mbind result_bind ok_or]. destruct (aead_total (SealingKey.key key) nonce a plain Hk Hn Hp) as (c & ->).
  cbn [ok_or mbind result_bind]. eauto.
Qed.
Lemma seal_with_len key ctx plain nonce sealed :
  seal_with key ctx plain nonce = Ok sealed -> Z.of_nat (length plain) <= MAX_PLAINTEXT_LEN.
Proof using Type.
  unfold seal_with, check_plaintext_len. intros Hs. apply bind_Ok in Hs as ([] & Hl%ensure_Ok & _). by bool_simpl.
Qed.
(** What was sealed opens in its place. *)
Lemma open_sealed_in_place key ctx plain nonce sealed :
  in_range u32_max (SealingKey.id key) -> length nonce = NONCE_LEN ->
  seal_with key ctx plain (Some nonce) = Ok sealed -> open [key] ctx sealed = Ok plain.
Proof using H H0.
  intros Hid Hn (a & ct & Ha & He & ->)%seal_with_Ok. destruct (aead_correct _ _ _ _ _ He) as [Hd Hl].
  rewrite open_parsed by (done || lia). cbn [List.find]. rewrite Z.eqb_refl. cbn [ok_or mbind result_bind].
  rewrite Ha. cbn [mbind result_bind]. by rewrite Hd.
Qed.
End seal.
