(* ===== verification/RootRotation.v ===== *)
(** * Root key rotation ([phylake::store::root_rotation])

    [rotate_root] moves the store-sealed scope of a disk from the subkeys of
    one root key to those of another. [Rep keys disk db material] says what a
    disk holds: each store-sealed record of the logical store [db] sealed
    under the store's metadata key at its key under the index subkey, each
    tenant data key and each tenant's addressing subkeys wrapped, and nothing
    else in those keyspaces. Tenant-sealed records are opaque here. *)
From S2P Require Import Prelude Vocab Ids Payload Epitrope View Lifecycle Records Store Seal RecordKey.
From S2P Require Import Keys Disk.
Local Open Scope Z_scope.

(** ** Moves and owners *)
Module Moves.
Record Moves : Type := mk {
  removes : list (Keyspace * bytes);
  inserts : list (Keyspace * bytes * bytes);
}.
Definition default : Moves := mk [] [].
Definition push (keyspace : Keyspace) (old new value : bytes) (m : Moves) : Moves :=
  mk (removes m ++ [(keyspace, old)]) (inserts m ++ [(keyspace, new, value)]).
(** [apply]: every removal, then every insertion. *)
Definition apply (m : Moves) (tx : Disk) : Disk :=
  let tx := foldl (fun tx '(ks, key) => disk_remove ks key tx) tx (removes m) in
  foldl (fun tx '(ks, key, value) => disk_insert ks key value tx) tx (inserts m).
End Moves.
Abbreviation Moves := Moves.Moves.

Module Owners.
Record Owners : Type := mk {
  tenants : list TenantRecord;
  shredded : list TenantId;
  rekeys : list RekeyRecord;
  ledgers : gset LedgerRef;
}.
Definition default : Owners := mk [] [] [] ∅.
End Owners.
Abbreviation Owners := Owners.Owners.
Definition add_ledger (l : LedgerRef) (o : Owners) : Owners :=
  Owners.mk (Owners.tenants o) (Owners.shredded o) (Owners.rekeys o) ({[l]} ∪ Owners.ledgers o).
Definition add_tenant (r : TenantRecord) (o : Owners) : Owners :=
  Owners.mk (Owners.tenants o ++ [r]) (Owners.shredded o) (Owners.rekeys o) (Owners.ledgers o).
Definition add_shredded (t : TenantId) (o : Owners) : Owners :=
  Owners.mk (Owners.tenants o) (Owners.shredded o ++ [t]) (Owners.rekeys o) (Owners.ledgers o).
Definition with_rekeys (l : list RekeyRecord) (o : Owners) : Owners :=
  Owners.mk (Owners.tenants o) (Owners.shredded o) l (Owners.ledgers o).

(** The codec of every store-sealed record type. *)
Class StoreCodec : Type := {
  tenant_codec :: StoredRecord TenantRecord;
  tombstone_codec :: StoredRecord TombstoneRecord;
  grant_codec :: StoredRecord GrantRecord;
  revocation_codec :: StoredRecord RevocationRecord;
  session_codec :: StoredRecord SessionRecord;
  invocation_codec :: StoredRecord InvocationRecord;
  ledger_codec :: StoredRecord LedgerRecord;
  locator_codec :: StoredRecord LocatorRecord;
  audit_stub_codec :: StoredRecord AuditStubRecord;
  rekey_codec :: StoredRecord RekeyRecord;
}.

Section rotation.
Context `{Kdf} `{Entropy} `{Aead} `{StoreCodec}.

(** [try_open]: [None] when the value does not authenticate as that kind. *)
Definition try_open (current : StoreKeys) (sl : RecordSlot) (key sealed : bytes)
    : result StoreError (option bytes) :=
  match open_bytes [StoreKeys.meta current] sl key sealed with
  | Ok plain => Ok (Some plain)
  | Err (StoreError.Open _) | Err (StoreError.UnknownKeyId _) => Ok None
  | Err error => Err error
  end.
(** [stage_move]. *)
Definition stage_move (next : StoreKeys) (sl : RecordSlot) (old new plain : bytes) (moves : Moves)
    : Draws Moves :=
  sealed ← seal_bytes (StoreKeys.meta next) sl new plain;
  mret (Moves.push (RecordSlot.keyspace sl) old new sealed moves).

(** [move_tenants]: tenant records and tombstones share a keyspace. *)
Definition move_tenant_entry (current next : StoreKeys) (acc : Moves * Owners) (entry : bytes * bytes)
    : Draws (Moves * Owners) :=
  let '(moves, owners) := acc in
  let '(key, sealed) := entry in
  opened ← lift (try_open current slot_TENANT key sealed);
  match opened with
  | Some plain =>
      record ← lift (decode (T := TenantRecord) plain (Keyspace.name Keyspace.Tenants));
      new ← lift (slot_key (StoreKeys.index next) (Slot.Tenant (TenantRecord.id record)));
      moves ← stage_move next slot_TENANT key new plain moves;
      mret (moves, add_tenant record (add_ledger (LedgerRef.Tenant (TenantRecord.id record)) owners))
  | None =>
      opened ← lift (try_open current slot_TOMBSTONE key sealed);
      plain ← lift (ok_or opened (StoreError.Inconsistent "a tenants record opens as no known kind"));
      record ← lift (decode (T := TombstoneRecord) plain (Keyspace.name Keyspace.Tenants));
      new ← lift (slot_key (StoreKeys.index next) (Slot.Tombstone (TombstoneRecord.tenant record)));
      moves ← stage_move next slot_TOMBSTONE key new plain moves;
      mret (moves, add_shredded (TombstoneRecord.tenant record)
                     (add_ledger (LedgerRef.Tenant (TombstoneRecord.tenant record)) owners))
  end.
Definition move_tenants (current next : StoreKeys) (tx : Disk) (moves : Moves) (owners : Owners)
    : Draws (Moves * Owners) :=
  for_each (move_tenant_entry current next) (moves, owners) (entries tx Keyspace.Tenants).

(** [move_all]: a keyspace that holds one kind of record. *)
Definition move_entry {T} `{StoredRecord T} (current next : StoreKeys) (sl : RecordSlot)
    (new_key : T -> bytes -> result StoreError bytes) (acc : Moves * list T) (entry : bytes * bytes)
    : Draws (Moves * list T) :=
  let '(moves, records) := acc in
  let '(key, sealed) := entry in
  opened ← lift (try_open current sl key sealed);
  plain ← lift (ok_or opened
                  (StoreError.Inconsistent "a store-sealed record does not open under the root key"));
  record ← lift (decode plain (Keyspace.name (RecordSlot.keyspace sl)));
  new ← lift (new_key record (StoreKeys.index next));
  moves ← stage_move next sl key new plain moves;
  mret (moves, records ++ [record]).
Definition move_all {T} `{StoredRecord T} (current next : StoreKeys) (tx : Disk) (sl : RecordSlot)
    (moves : Moves) (new_key : T -> bytes -> result StoreError bytes) : Draws (Moves * list T) :=
  for_each (move_entry current next sl new_key) (moves, []) (entries tx (RecordSlot.keyspace sl)).

(** [move_locators]: the other records of [artifacts] stay put. *)
Definition move_locator_entry (current next : StoreKeys) (moves : Moves) (entry : bytes * bytes)
    : Draws Moves :=
  let '(key, sealed) := entry in
  opened ← lift (try_open current slot_LOCATOR key sealed);
  match opened with
  | Some plain =>
      record ← lift (decode (T := LocatorRecord) plain (Keyspace.name Keyspace.Artifacts));
      new ← lift (slot_key (StoreKeys.index next) (Slot.Locator (LocatorRecord.artifact record)));
      stage_move next slot_LOCATOR key new plain moves
  | None => mret moves
  end.
Definition move_locators (current next : StoreKeys) (tx : Disk) (moves : Moves) : Draws Moves :=
  for_each (move_locator_entry current next) moves (entries tx Keyspace.Artifacts).

(** [move_ledgers]: each ledger is found from its possible owners, in any
    order; the state is what is left of the keyspace. *)
Definition move_ledger (current next : StoreKeys) (acc : Moves * Table) (ledger : LedgerRef)
    : Draws (Moves * Table) :=
  let '(moves, ledgers) := acc in
  old ← lift (slot_key (StoreKeys.index current) (Slot.Ledger ledger));
  match ledgers !! old with
  | None => mret (moves, ledgers)
  | Some sealed =>
      opened ← lift (try_open current slot_LEDGER old sealed);
      plain ← lift (ok_or opened (StoreError.Inconsistent "a ledger does not open under the root key"));
      new ← lift (slot_key (StoreKeys.index next) (Slot.Ledger ledger));
      moves ← stage_move next slot_LEDGER old new plain moves;
      mret (moves, delete old ledgers)
  end.
Definition move_ledgers (current next : StoreKeys) (tx : Disk) (moves : Moves) (owners : gset LedgerRef)
    : Draws Moves :=
  '(moves, remaining) ← for_each (move_ledger current next) (moves, table tx Keyspace.Ledgers) (elements owners);
  _ ← lift (ensure (bool_decide (remaining = ∅))
              (StoreError.Inconsistent "a ledger has no grant, session, or tenant"));
  mret moves.

(** [move_wrapped_keys]. *)
Definition move_data_key (current next : StoreKeys) (tenant : TenantId) (acc : Moves * Table) (key_id : Z)
    : Draws (Moves * Table) :=
  let '(moves, wrapped) := acc in
  old ← lift (slot_key (StoreKeys.index current) (Slot.DataKey tenant key_id));
  sealed ← lift (ok_or (wrapped !! old) (StoreError.Inconsistent "tenant data key is missing"));
  data_key ← lift (unwrap_tenant_key (store_kek current) (TenantId_to_bytes tenant) sealed);
  rewrapped ← with_nonce (wrap_tenant_key_with (store_kek next) (TenantId_to_bytes tenant) data_key);
  new ← lift (slot_key (StoreKeys.index next) (Slot.DataKey tenant key_id));
  mret (Moves.push Keyspace.Keys old new rewrapped moves, delete old wrapped).
Definition move_address_keys (current next : StoreKeys) (tenant : TenantId) (acc : Moves * Table)
    : Draws (Moves * Table) :=
  let '(moves, wrapped) := acc in
  old ← lift (slot_key (StoreKeys.index current) (Slot.AddressKeys tenant));
  match wrapped !! old with
  | None => mret (moves, wrapped)
  | Some sealed =>
      address ← lift (unwrap_address_keys (store_kek current) (TenantId_to_bytes tenant) sealed);
      rewrapped ← with_nonce (wrap_address_keys_with (store_kek next) (TenantId_to_bytes tenant) address);
      new ← lift (slot_key (StoreKeys.index next) (Slot.AddressKeys tenant));
      mret (Moves.push Keyspace.Keys old new rewrapped moves, delete old wrapped)
  end.
(** The key ids a tenant's rotations still retire. *)
Definition retiring_ids (rekeys : list RekeyRecord) (tenant : TenantId) : list Z :=
  RekeyRecord.from_key_id <$>
    List.filter (fun r => bool_decide (RekeyRecord.tenant r = tenant) && negb (RekeyRecord.is_done r)) rekeys.
Definition move_tenant_keys (current next : StoreKeys) (rekeys : list RekeyRecord) (acc : Moves * Table)
    (tenant : TenantRecord) : Draws (Moves * Table) :=
  let id := TenantRecord.id tenant in
  acc ← for_each (move_data_key current next id) acc (TenantRecord.data_key_id tenant :: retiring_ids rekeys id);
  move_address_keys current next id acc.
Definition move_wrapped_keys (current next : StoreKeys) (tx : Disk) (moves : Moves) (owners : Owners)
    : Draws Moves :=
  '(moves, remaining) ← for_each (move_tenant_keys current next (Owners.rekeys owners))
                     (moves, table tx Keyspace.Keys) (Owners.tenants owners);
  _ ← lift (ensure (bool_decide (remaining = ∅)) (StoreError.Inconsistent "a wrapped key names no live tenant"));
  mret moves.

(** [stage_root_moves]. *)
Definition stage_root_moves (current next : StoreKeys) (tx : Disk) (moves : Moves) : Draws Moves :=
  '(moves, owners) ← move_tenants current next tx moves Owners.default;
  '(moves, grants) ← move_all current next tx slot_GRANT moves
     (fun (r : GrantRecord) i => slot_key i (Slot.Grant (GrantRecord.id r)));
  let owners := foldl (fun o g => add_ledger (LedgerRef.Grant (GrantRecord.id g)) o) owners grants in
  '(moves, _) ← move_all current next tx slot_REVOCATION moves
     (fun (r : RevocationRecord) i => slot_key i (Slot.Revocation (RevocationRecord.grant r)));
  '(moves, sessions) ← move_all current next tx slot_SESSION moves
     (fun (r : SessionRecord) i => slot_key i (Slot.Session (SessionRecord.id r)));
  let owners := foldl (fun o s => add_ledger (LedgerRef.Session (SessionRecord.id s)) o) owners sessions in
  '(moves, _) ← move_all current next tx slot_INVOCATION moves
     (fun (r : InvocationRecord) i => slot_key i (Slot.Invocation (InvocationRecord.id r)));
  '(moves, _) ← move_all current next tx slot_AUDIT_STUB moves
     (fun (r : AuditStubRecord) _ => Ok (to_be_bytes 8 (AuditStubRecord.seq r)));
  '(moves, rekeys) ← move_all current next tx slot_REKEY moves
     (fun (r : RekeyRecord) i => slot_key i (Slot.Rekey (RekeyRecord.tenant r)));
  let owners := with_rekeys rekeys owners in
  moves ← move_locators current next tx moves;
  moves ← move_ledgers current next tx moves (Owners.ledgers owners);
  move_wrapped_keys current next tx moves owners.

(** [Store::rotate_root] up to the commit: the new keys and the staged disk. *)
Definition stage_rotation (keys : StoreKeys) (disk : Disk) (current next : bytes) : Draws (StoreKeys * Disk) :=
  stored ← lift (meta_read (table disk Keyspace.Meta));
  _ ← lift (store_unlock current (Meta.root_key_id stored) (Meta.salt stored) (Meta.check stored));
  next_id ← lift (ok_or (checked_add u32_max (Meta.root_key_id stored) 1)
                    (StoreError.Inconsistent "root key ids are exhausted"));
  salt ← salt_generate;
  next_keys ← lift (store_derive next next_id salt);
  check ← lift (key_check next_keys);
  moves ← stage_root_moves keys next_keys disk Moves.default;
  let tx := Moves.apply moves disk in
  let tx := <[Keyspace.Meta := meta_write (Meta.mk next_id salt check) (table tx Keyspace.Meta)]> tx in
  mret (next_keys, tx).
(** [Store::rotate_root]: the result, the disk and the handle's keys after it,
    which change only once the commit has returned. *)
Definition rotate_root (fp : Failpoint) (keys : StoreKeys) (disk : Disk) (current next : bytes) (draws : nat)
    : result StoreError Z * Disk * StoreKeys :=
  match fst (stage_rotation keys disk current next draws) with
  | Err e => (Err e, disk, keys)
  | Ok (next_keys, tx) =>
      match commit fp disk tx (Some Boundary.RootRotation) (StoreKeys.root_key_id next_keys) with
      | (Ok next_id, disk) => (Ok next_id, disk, next_keys)
      | (Err e, disk) => (Err e, disk, keys)
      end
  end.
End rotation.
