(* ===== verification/RootRep.v ===== *)
(** * What a disk holds, and what root rotation stages

    [Rep] relates a disk to the logical store; the lemmas follow one call of
    [stage_root_moves] stage by stage: every store-sealed record and wrapped
    key gets exactly its move, from its old key to its new one. *)
From S2P Require Import Prelude Vocab Ids Payload Epitrope View Lifecycle Records Store Seal RecordKey.
From S2P Require Import Keys Disk RootRotation.
Local Open Scope Z_scope.

(** ** Cells: the store-sealed records and the wrapped keys *)
Module Cell.
Inductive Cell : Set :=
| Tenant (t : TenantId)
| Tombstone (t : TenantId)
| Grant (g : GrantId)
| Revocation (g : GrantId)
| Session (s : SessionId)
| Invocation (i : InvocationId)
| AuditStub (seq : AuditSeq)
| Rekey (t : TenantId)
| Locator (a : ArtifactRef)
| Ledger (l : LedgerRef)
| DataKey (t : TenantId) (key_id : Z)
| AddressKeys (t : TenantId).
End Cell.
Abbreviation Cell := Cell.Cell.

(** The record slot of a cell; wrapped keys live in [keys]. *)
Definition cell_slot (c : Cell) : RecordSlot :=
  match c with
  | Cell.Tenant _ => slot_TENANT
  | Cell.Tombstone _ => slot_TOMBSTONE
  | Cell.Grant _ => slot_GRANT
  | Cell.Revocation _ => slot_REVOCATION
  | Cell.Session _ => slot_SESSION
  | Cell.Invocation _ => slot_INVOCATION
  | Cell.AuditStub _ => slot_AUDIT_STUB
  | Cell.Rekey _ => slot_REKEY
  | Cell.Locator _ => slot_LOCATOR
  | Cell.Ledger _ => slot_LEDGER
  | Cell.DataKey _ _ | Cell.AddressKeys _ => RecordSlot.mk Keyspace.Keys 0
  end.
Definition cell_ks (c : Cell) : Keyspace := RecordSlot.keyspace (cell_slot c).
(** The keyspaces that hold nothing but cells; [artifacts] also holds
    tenant-sealed records. *)
Definition store_keyspaces : list Keyspace :=
  [Keyspace.Keys; Keyspace.Tenants; Keyspace.Grants; Keyspace.Revocations; Keyspace.Sessions;
   Keyspace.Invocations; Keyspace.Ledgers; Keyspace.AuditStub; Keyspace.Rekey].
Definition tenant_keyspaces : list Keyspace :=
  [Keyspace.Idem; Keyspace.Blobs; Keyspace.SessionIndex; Keyspace.Audit].

(** The secret key material: each tenant data key, and each tenant's
    addressing subkeys. *)
Record Material : Type := { data_key_of : TenantId -> Z -> bytes; address_keys_of : TenantId -> AddressKeys }.

(** Whether the logical store has the cell. *)
Definition present (db : Db) (c : Cell) : Prop :=
  match c with
  | Cell.Tenant t => is_Some (Db.tenants db !! t)
  | Cell.Tombstone t => is_Some (Db.tombstones db !! t)
  | Cell.Grant g => is_Some (Db.grants db !! g)
  | Cell.Revocation g => is_Some (Db.revocations db !! g)
  | Cell.Session s => is_Some (Db.sessions db !! s)
  | Cell.Invocation i => is_Some (Db.invocations db !! i)
  | Cell.AuditStub seq => is_Some (Db.audit_stub db !! seq)
  | Cell.Rekey t => is_Some (Db.rekey db !! t)
  | Cell.Locator a => is_Some (Db.locators db !! a)
  | Cell.Ledger l => is_Some (Db.ledgers db !! l)
  | Cell.DataKey t id => (t, id) ∈ Db.data_keys db
  | Cell.AddressKeys t => t ∈ Db.address_keys db
  end.

(** A record that can own the ledger exists. *)
Definition owned (db : Db) (l : LedgerRef) : Prop :=
  match l with
  | LedgerRef.Grant g => is_Some (Db.grants db !! g)
  | LedgerRef.Session s => is_Some (Db.sessions db !! s)
  | LedgerRef.Tenant t => is_Some (Db.tenants db !! t) \/ is_Some (Db.tombstones db !! t)
  end.
(** The cells a rotation looks up: also ledgers and addressing subkeys whose
    owner may have none. *)
Definition asked (db : Db) (c : Cell) : Prop :=
  present db c \/
  match c with
  | Cell.Ledger l => owned db l
  | Cell.AddressKeys t => is_Some (Db.tenants db !! t)
  | _ => False
  end.

Section rep.
Context `{Kdf} `{Aead} `{StoreCodec}.

Definition cell_key (index : bytes) (c : Cell) : result StoreError bytes :=
  match c with
  | Cell.Tenant t => slot_key index (Slot.Tenant t)
  | Cell.Tombstone t => slot_key index (Slot.Tombstone t)
  | Cell.Grant g => slot_key index (Slot.Grant g)
  | Cell.Revocation g => slot_key index (Slot.Revocation g)
  | Cell.Session s => slot_key index (Slot.Session s)
  | Cell.Invocation i => slot_key index (Slot.Invocation i)
  | Cell.AuditStub seq => Ok (to_be_bytes 8 seq)
  | Cell.Rekey t => slot_key index (Slot.Rekey t)
  | Cell.Locator a => slot_key index (Slot.Locator a)
  | Cell.Ledger l => slot_key index (Slot.Ledger l)
  | Cell.DataKey t id => slot_key index (Slot.DataKey t id)
  | Cell.AddressKeys t => slot_key index (Slot.AddressKeys t)
  end.

(** The bytes [p] are the record [r], if there is one. *)
Definition archived {T} `{StoredRecord T} (r : option T) (p : bytes) : Prop := r <> None /\ from_archive p = r.
Definition content (db : Db) (c : Cell) (p : bytes) : Prop :=
  match c with
  | Cell.Tenant t => archived (Db.tenants db !! t) p
  | Cell.Tombstone t => archived (Db.tombstones db !! t) p
  | Cell.Grant g => archived (Db.grants db !! g) p
  | Cell.Revocation g => archived (Db.revocations db !! g) p
  | Cell.Session s => archived (Db.sessions db !! s) p
  | Cell.Invocation i => archived (Db.invocations db !! i) p
  | Cell.AuditStub seq => archived (Db.audit_stub db !! seq) p
  | Cell.Rekey t => archived (Db.rekey db !! t) p
  | Cell.Locator a => archived (Db.locators db !! a) p
  | Cell.Ledger l => archived (Db.ledgers db !! l) p
  | Cell.DataKey _ _ | Cell.AddressKeys _ => False
  end.

Definition sealed_as (keys : StoreKeys) (sl : RecordSlot) (k v p : bytes) : Prop :=
  exists nonce, length nonce = NONCE_LEN /\
    seal_with (StoreKeys.meta keys) (seal_context sl k) p (Some nonce) = Ok v.

(** The value [v] at key [k] holds the cell. *)
Definition holds (keys : StoreKeys) (db : Db) (mat : Material) (c : Cell) (k v : bytes) : Prop :=
  match c with
  | Cell.DataKey t id => exists nonce, length nonce = NONCE_LEN /\
      wrap_tenant_key_with (store_kek keys) (TenantId_to_bytes t)
        (TenantDataKey.mk id (data_key_of mat t id)) (Some nonce) = Ok v
  | Cell.AddressKeys t => exists nonce, length nonce = NONCE_LEN /\
      wrap_address_keys_with (store_kek keys) (TenantId_to_bytes t) (address_keys_of mat t) (Some nonce) = Ok v
  | _ => exists p, sealed_as keys (cell_slot c) k v p /\ content db c p
  end.

(** Distinct cells have distinct keys, and no locator's key is that of a
    tenant-sealed artifact: the hash does not collide on the store's keys. *)
Record Distinct (index : bytes) (db : Db) (rest : Disk) : Prop := {
  di_cells : forall c c' k, present db c -> asked db c' -> cell_ks c = cell_ks c' ->
    cell_key index c = Ok k -> cell_key index c' = Ok k -> c = c';
  di_artifacts : forall a k, present db (Cell.Locator a) -> cell_key index (Cell.Locator a) = Ok k ->
    disk_get rest Keyspace.Artifacts k = None;
}.

(** The disk holds the logical store [db] under [keys], and the tenant-sealed
    records [rest]. *)
Record Rep (keys : StoreKeys) (disk : Disk) (db : Db) (mat : Material) (rest : Disk) : Prop := {
  rep_cell : forall c, present db c -> exists k v,
    cell_key (StoreKeys.index keys) c = Ok k /\ disk_get disk (cell_ks c) k = Some v /\ holds keys db mat c k v;
  rep_entry : forall ks k v, ks ∈ store_keyspaces -> disk_get disk ks k = Some v ->
    exists c, present db c /\ cell_ks c = ks /\ cell_key (StoreKeys.index keys) c = Ok k;
  rep_artifact : forall k v, disk_get disk Keyspace.Artifacts k = Some v ->
    (exists a, present db (Cell.Locator a) /\ cell_key (StoreKeys.index keys) (Cell.Locator a) = Ok k) \/
    disk_get rest Keyspace.Artifacts k = Some v;
  rep_rest : forall k v, disk_get rest Keyspace.Artifacts k = Some v -> disk_get disk Keyspace.Artifacts k = Some v;
  rep_tenant : forall ks, ks ∈ tenant_keyspaces -> table disk ks = table rest ks;
  rep_distinct : Distinct (StoreKeys.index keys) db rest;
}.

(** No value authenticates as what it is not: a tombstone as a tenant
    record, a tenant-sealed artifact as a locator under the store's key. *)
Record Authentic (keys : StoreKeys) (disk : Disk) (db : Db) (rest : Disk) : Prop := {
  au_tombstone : forall t k v, present db (Cell.Tombstone t) ->
    cell_key (StoreKeys.index keys) (Cell.Tombstone t) = Ok k -> disk_get disk Keyspace.Tenants k = Some v ->
    try_open keys slot_TENANT k v = Ok None;
  au_artifact : forall k v, disk_get rest Keyspace.Artifacts k = Some v -> try_open keys slot_LOCATOR k v = Ok None;
}.
End rep.

(** ** What rotation needs of the logical store *)

(** Every record names the key it is filed under, every ledger has an owner,
    and the wrapped keys are exactly those the live tenants name. *)
Record RootReady (db : Db) : Prop := {
  rr_tenant : forall t r, Db.tenants db !! t = Some r -> TenantRecord.id r = t;
  rr_tombstone : forall t r, Db.tombstones db !! t = Some r -> TombstoneRecord.tenant r = t;
  rr_grant : forall g r, Db.grants db !! g = Some r -> GrantRecord.id r = g;
  rr_revocation : forall g r, Db.revocations db !! g = Some r -> RevocationRecord.grant r = g;
  rr_session : forall s r, Db.sessions db !! s = Some r -> SessionRecord.id r = s;
  rr_invocation : forall i r, Db.invocations db !! i = Some r -> InvocationRecord.id r = i;
  rr_stub : forall q r, Db.audit_stub db !! q = Some r -> AuditStubRecord.seq r = q;
  rr_rekey : forall t r, Db.rekey db !! t = Some r -> RekeyRecord.tenant r = t;
  rr_locator : forall a r, Db.locators db !! a = Some r -> LocatorRecord.artifact r = a;
  rr_ledger : forall l, is_Some (Db.ledgers db !! l) -> owned db l;
  rr_active : forall t r, Db.tenants db !! t = Some r ->
    (t, TenantRecord.data_key_id r) ∈ Db.data_keys db /\
    forall id, rekey_retiring db t = Some id -> (t, id) ∈ Db.data_keys db /\ id <> TenantRecord.data_key_id r;
  rr_keys : forall t id, (t, id) ∈ Db.data_keys db -> in_range u32_max id /\
    exists r, Db.tenants db !! t = Some r /\ (id = TenantRecord.data_key_id r \/ rekey_retiring db t = Some id);
  rr_address : forall t, t ∈ Db.address_keys db -> is_Some (Db.tenants db !! t);
}.
(** Every secret has its length. *)
Record MaterialOk (db : Db) (mat : Material) : Prop := {
  ma_data : forall t id, (t, id) ∈ Db.data_keys db -> length (data_key_of mat t id) = KEY_LEN;
  ma_index : forall t, t ∈ Db.address_keys db -> length (AddressKeys.index (address_keys_of mat t)) = KEY_LEN;
  ma_addr : forall t, t ∈ Db.address_keys db -> length (AddressKeys.blob_addr (address_keys_of mat t)) = KEY_LEN;
}.

(** ** Applying moves *)

(** One move: a cell, its two keys and its new value. *)
Record Moved : Set := { m_cell : Cell; m_old : bytes; m_new : bytes; m_val : bytes }.
Definition moves_of (ms : list Moved) : Moves :=
  Moves.mk ((fun m => (cell_ks (m_cell m), m_old m)) <$> ms)
           ((fun m => (cell_ks (m_cell m), m_new m, m_val m)) <$> ms).

Lemma moves_of_push ms c old new v :
  Moves.push (cell_ks c) old new v (moves_of ms) = moves_of (ms ++ [Build_Moved c old new v]).
Proof. unfold moves_of, Moves.push. cbn [Moves.removes Moves.inserts]. by rewrite !fmap_app. Qed.

Lemma removes_get l : forall tx ks k,
  disk_get (foldl (fun tx '(ks, key) => disk_remove ks key tx) tx l) ks k =
  if bool_decide ((ks, k) ∈ l) then None else disk_get tx ks k.
Proof.
  induction l as [|[ks0 k0] l IH]; intros tx ks k; cbn [foldl].
  - by rewrite bool_decide_eq_false_2 by apply not_elem_of_nil.
  - rewrite IH. destruct (decide ((ks, k) ∈ l)) as [Hin|Hin].
    + by rewrite !bool_decide_eq_true_2 by set_solver.
    + rewrite (bool_decide_eq_false_2 _ Hin), disk_get_remove. 
      rewrite (bool_decide_ext ((ks, k) ∈ (ks0, k0) :: l) (ks = ks0 /\ k = k0)); [done|].
      rewrite elem_of_cons. naive_solver.
Qed.
Lemma inserts_get l : forall tx ks k,
  let d := foldl (fun tx '(ks, key, value) => disk_insert ks key value tx) tx l in
  (exists v, (ks, k, v) ∈ l /\ disk_get d ks k = Some v) \/
  ((forall v, (ks, k, v) ∉ l) /\ disk_get d ks k = disk_get tx ks k).
Proof.
  induction l as [|[[ks0 k0] v0] l IH] using rev_ind; intros tx ks k d.
  - right. split; [intros v; apply not_elem_of_nil|done].
  - unfold d. rewrite foldl_app. cbn [foldl]. rewrite disk_get_insert. case_bool_decide as Hk.
    + destruct Hk as [-> ->]. left. exists v0. set_solver.
    + destruct (IH tx ks k) as [(v & Hv & He)|[Hv He]]; rewrite He.
      * left. exists v. set_solver.
      * right. split; [|done]. intros v [Hin|Hin]%elem_of_app; [by apply (Hv v)|].
        apply list_elem_of_singleton in Hin. naive_solver.
Qed.
(** Whether a move takes the entry away, or brings one to the key. *)
Definition taken (ms : list Moved) (ks : Keyspace) (k : bytes) : Prop :=
  exists m, m ∈ ms /\ cell_ks (m_cell m) = ks /\ m_old m = k.
Definition brought (ms : list Moved) (ks : Keyspace) (k v : bytes) : Prop :=
  exists m, m ∈ ms /\ cell_ks (m_cell m) = ks /\ m_new m = k /\ m_val m = v.
Lemma apply_get ms disk ks k :
  let d := Moves.apply (moves_of ms) disk in
  (exists v, brought ms ks k v /\ disk_get d ks k = Some v) \/
  ((forall v, ~ brought ms ks k v) /\
   ((taken ms ks k /\ disk_get d ks k = None) \/ (~ taken ms ks k /\ disk_get d ks k = disk_get disk ks k))).
Proof.
  intros d. unfold d, Moves.apply. set (tx := foldl _ disk _).
  assert (forall v, (ks, k, v) ∈ Moves.inserts (moves_of ms) <-> brought ms ks k v) as Hin.
  { intros v. cbn [moves_of Moves.inserts]. rewrite list_elem_of_fmap. unfold brought. naive_solver. }
  assert ((ks, k) ∈ Moves.removes (moves_of ms) <-> taken ms ks k) as Hrm.
  { cbn [moves_of Moves.removes]. rewrite list_elem_of_fmap. unfold taken. naive_solver. }
  destruct (inserts_get (Moves.inserts (moves_of ms)) tx ks k) as [(v & Hv & He)|[Hv He]]; rewrite He.
  - left. exists v. by rewrite <- Hin.
  - right. split; [intros v; rewrite <- Hin; apply Hv|]. unfold tx. rewrite removes_get. case_bool_decide as Hd.
    + left. tauto.
    + right. tauto.
Qed.
Lemma apply_table ms disk ks :
  (forall m, m ∈ ms -> cell_ks (m_cell m) <> ks) -> table (Moves.apply (moves_of ms) disk) ks = table disk ks.
Proof.
  intros Hks. apply map_eq. intros k. fold (disk_get (Moves.apply (moves_of ms) disk) ks k) (disk_get disk ks k).
  destruct (apply_get ms disk ks k) as [(v & (m & Hm & He & _) & _)|[_ [[(m & Hm & He & _) _]|[_ He]]]]; [| |done];
    by destruct (Hks m Hm).
Qed.
