(* ===== verification/RootStage.v ===== *)
(** * The stages of a root rotation

    From a disk that represents a ready store, each stage of
    [stage_root_moves] succeeds and adds the moves of its own cells. *)
From S2P Require Import Prelude Vocab Ids Payload Epitrope View Lifecycle Records Store Seal RecordKey.
From S2P Require Import Keys Disk RootRotation RootRep.
Local Open Scope Z_scope.

(** A loop keeps an invariant over the elements done so far. *)
Lemma for_each_inv {A S} (f : S -> A -> Draws S) (P : list A -> S -> Prop) l s i :
  P [] s ->
  (forall done a todo s i, l = done ++ a :: todo -> P done s -> exists s' j, f s a i = (Ok s', j) /\ P (done ++ [a]) s') ->
  exists s' j, for_each f s l i = (Ok s', j) /\ P l s'.
Proof.
  intros H0 Hstep.
  assert (forall todo done s i, l = done ++ todo -> P done s ->
    exists s' j, for_each f s todo i = (Ok s', j) /\ P l s') as Hgen; [|by apply (Hgen l [])].
  induction todo as [|a todo IH]; intros done s' i' Hl Hp; cbn [for_each].
  - rewrite app_nil_r in Hl. subst. by eexists _, _.
  - destruct (Hstep done a todo s' i' Hl Hp) as (s1 & j & Hf & Hp1). rewrite (Draws_bind_eq _ _ _ _ _ Hf).
    apply (IH (done ++ [a])); [by rewrite <- app_assoc|done].
Qed.

Lemma lift_bind {A B} (r : result StoreError A) (f : A -> Draws B) i a : r = Ok a -> (lift r ≫= f) i = f a i.
Proof. intros ->. done. Qed.
Lemma lift_decode {T B} `{StoredRecord T} p ks (f : T -> Draws B) i r :
  from_archive p = Some r -> (lift (decode p ks) ≫= f) i = f r i.
Proof. intros Hr. apply lift_bind. unfold decode. by rewrite Hr. Qed.

Lemma length_to_be_bytes n z : length (to_be_bytes n z) = n.
Proof. unfold to_be_bytes. by rewrite length_reverse, length_to_le_bytes. Qed.

Definition is_tenant_cell (c : Cell) : bool := match c with Cell.Tenant _ => true | _ => false end.
(** Collecting the ledgers of grants and sessions. *)
Lemma add_ledgers_spec {T} (f : T -> LedgerRef) l : forall o,
  let o' := foldl (fun o x => add_ledger (f x) o) o l in
  Owners.tenants o' = Owners.tenants o /\
  forall r, r ∈ Owners.ledgers o' <-> r ∈ Owners.ledgers o \/ r ∈ f <$> l.
Proof.
  induction l as [|x l IH]; intros o; cbn [foldl].
  - split; [done|]. intros r. cbn. rewrite elem_of_nil. tauto.
  - destruct (IH (add_ledger (f x) o)) as [Ht Hl]. split; [done|]. intros r. rewrite Hl. cbn. rewrite elem_of_cons. set_solver.
Qed.
Lemma tenant_cells_NoDup (tenants : list TenantRecord) cells :
  (fun r => Cell.Tenant (TenantRecord.id r)) <$> tenants = List.filter is_tenant_cell cells ->
  NoDup cells -> NoDup (TenantRecord.id <$> tenants).
Proof.
  intros He Hnd. apply (NoDup_fmap_1 Cell.Tenant). rewrite <- list_fmap_compose. unfold compose. rewrite He.
  apply NoDup_ListNoDup, List.NoDup_filter, NoDup_ListNoDup, Hnd.
Qed.
Lemma tenant_cells_cover (tenants : list TenantRecord) cells t :
  (fun r => Cell.Tenant (TenantRecord.id r)) <$> tenants = List.filter is_tenant_cell cells ->
  Cell.Tenant t ∈ cells -> t ∈ TenantRecord.id <$> tenants.
Proof.
  intros He Hin.
  assert (Cell.Tenant t ∈ (fun r => Cell.Tenant (TenantRecord.id r)) <$> tenants) as (r & [= ->] & Hr)%list_elem_of_fmap.
  - rewrite He. apply list_elem_of_In, List.filter_In. split; [by apply list_elem_of_In|done].
  - by apply list_elem_of_fmap_2.
Qed.

(** A tenant's running rotation, found among all the rotation records. *)
Lemma retiring_ids_spec (db : Db) rekeys t :
  NoDup (RekeyRecord.tenant <$> rekeys) -> Forall (fun r => Db.rekey db !! RekeyRecord.tenant r = Some r) rekeys ->
  (forall r, Db.rekey db !! t = Some r -> t ∈ RekeyRecord.tenant <$> rekeys) ->
  retiring_ids rekeys t = option_list (rekey_retiring db t).
Proof.
  unfold retiring_ids, rekey_retiring. intros Hnd Hf Hc.
  assert (t ∉ RekeyRecord.tenant <$> rekeys -> forall l, l ⊆ rekeys ->
    List.filter (fun r => bool_decide (RekeyRecord.tenant r = t) && negb (RekeyRecord.is_done r)) l = []) as Hnone.
  { intros Hn l. induction l as [|r l IH]; intros Hs; [done|]. cbn [List.filter]. rewrite bool_decide_eq_false_2; cbn [andb].
    - apply IH. set_solver.
    - intros <-. apply Hn, list_elem_of_fmap_2. set_solver. }
  destruct (Db.rekey db !! t) as [rk|] eqn:Hrk.
  2: { rewrite Hnone; [done| |done]. intros (r & -> & Hr)%list_elem_of_fmap. rewrite Forall_forall in Hf.
       specialize (Hf r Hr). congruence. }
  specialize (Hc rk eq_refl). clear Hnone. induction rekeys as [|r rekeys IH]; [by apply elem_of_nil in Hc|].
  apply Forall_cons in Hf as [Hr Hf]. cbn [fmap list_fmap] in Hnd, Hc. apply NoDup_cons in Hnd as [Hn Hnd]. cbn [List.filter].
  destruct (decide (RekeyRecord.tenant r = t)) as [Ht|Ht].
  - rewrite bool_decide_eq_true_2 by done. assert (r = rk) as -> by congruence. cbn [andb].
    assert (List.filter (fun r => bool_decide (RekeyRecord.tenant r = t) && negb (RekeyRecord.is_done r)) rekeys = []) as Hnil.
    { clear -Hn Ht. induction rekeys as [|r rekeys IH]; [done|]. cbn in *. rewrite bool_decide_eq_false_2 by set_solver.
      apply IH. set_solver. }
    destruct (RekeyRecord.is_done rk); cbn [negb]; by rewrite Hnil.
  - rewrite bool_decide_eq_false_2 by done. apply IH; try done. set_solver.
Qed.

Section wrap.
Context `{AL : AeadLaws} `{AT : !AeadTotal}.

Lemma wrap_tenant_key_total kek t key nonce :
  length (StoreKek.kek kek) = KEY_LEN -> length (TenantDataKey.bytes_ key) = KEY_LEN -> length nonce = NONCE_LEN ->
  exists w, wrap_tenant_key_with kek t key (Some nonce) = Ok w.
Proof using Type*.
  intros Hk Hb Hn. unfold wrap_tenant_key_with, encrypt. cbn [ok_or mbind result_bind].
  edestruct (aead_total (StoreKek.kek kek) nonce) as (c & ->); [done|done| |cbn [ok_or mbind result_bind]; eauto].
  rewrite Hb. unfold KEY_LEN, MAX_PLAINTEXT_LEN. lia.
Qed.
Lemma wrap_address_keys_total kek t keys nonce :
  length (StoreKek.kek kek) = KEY_LEN -> length (AddressKeys.index keys) = KEY_LEN ->
  length (AddressKeys.blob_addr keys) = KEY_LEN -> length nonce = NONCE_LEN ->
  exists w, wrap_address_keys_with kek t keys (Some nonce) = Ok w.
Proof using Type*.
  intros Hk Hi Hb Hn. unfold wrap_address_keys_with, encrypt. cbn [ok_or mbind result_bind].
  edestruct (aead_total (StoreKek.kek kek) nonce) as (c & ->); [done|done| |cbn [ok_or mbind result_bind]; eauto].
  rewrite length_app, Hi, Hb. unfold KEY_LEN, MAX_PLAINTEXT_LEN. lia.
Qed.
Lemma unwrap_wrapped_address kek t keys nonce w :
  in_range u32_max (StoreKek.root_key_id kek) -> length (AddressKeys.index keys) = KEY_LEN ->
  length (AddressKeys.blob_addr keys) = KEY_LEN -> length nonce = NONCE_LEN ->
  wrap_address_keys_with kek t keys (Some nonce) = Ok w -> unwrap_address_keys kek t w = Ok keys.
Proof using AL.
  intros Hr Hi Hb Hn Hw. unfold wrap_address_keys_with, encrypt in Hw.
  apply bind_Ok in Hw as (n & [= <-]%ok_or_Ok & Hw). apply bind_Ok in Hw as (ct & He%ok_or_Ok & Hw).
  apply Ok_inj in Hw. destruct (aead_correct _ _ _ _ _ He) as [Hd Hl].
  assert (length w = WRAPPED_ADDRESS_LEN) as Hw'.
  { rewrite <- Hw, !length_app, !length_to_le_bytes, Hn, Hl, length_app, Hi, Hb. done. }
  unfold unwrap_address_keys. rewrite Hw', Nat.eqb_refl. cbn [ensure mbind result_bind]. rewrite <- Hw.
  do 2 (rewrite split_first_chunk_app by apply length_to_le_bytes; cbn [ok_or mbind result_bind]).
  rewrite split_first_chunk_app by done. cbn [ok_or mbind result_bind].
  rewrite from_to_le_u16 by done. rewrite !from_to_le_u32 by done. rewrite Z.eqb_refl. cbn [Z.eqb ensure mbind result_bind].
  rewrite Hd. cbn [ok_or mbind result_bind]. rewrite split_first_chunk_app by done. cbn [ok_or mbind result_bind].
  rewrite Hb, Nat.eqb_refl. cbn [ensure mbind result_bind]. by destruct keys.
Qed.
End wrap.

Section stages.
Context `{KL : KdfLaws} `{Entropy} `{AL : AeadLaws} `{AT : !AeadTotal} `{StoreCodec}.
Context (cur next : StoreKeys) (disk : Disk) (db : Db) (mat : Material) (rest : Disk).
Context (cur_id next_id : Z) (Hcur : StoreKeysOk cur_id cur) (Hnext : StoreKeysOk next_id next).
Context (Hcid : in_range u32_max cur_id) (Hnid : in_range u32_max next_id).
Context (HR : Rep cur disk db mat rest) (HA : Authentic cur disk db rest) (HD : RootReady db).
Context (HM : MaterialOk db mat) (Hh : healthy).

Lemma cell_key_len index c : exists k, cell_key index c = Ok k /\ (length k <= 40)%nat.
Proof using KL.
  assert (forall s, exists k, slot_key index s = Ok k /\ (length k <= 40)%nat) as Hs.
  { intros s. destruct (slot_key_Ok index s) as (k & -> & Hl). exists k. split; [done|lia]. }
  destruct c; cbn [cell_key]; auto. eexists. split; [reflexivity|]. rewrite length_to_be_bytes. lia.
Qed.

(** A good move: of a present cell, from its old key to its new one, with a
    value that holds it under the new keys. *)
Record Good (m : Moved) : Prop := {
  gd_present : present db (m_cell m);
  gd_old : cell_key (StoreKeys.index cur) (m_cell m) = Ok (m_old m);
  gd_new : cell_key (StoreKeys.index next) (m_cell m) = Ok (m_new m);
  gd_holds : holds next db mat (m_cell m) (m_new m) (m_val m);
}.

Lemma try_open_sealed sl k v p : sealed_as cur sl k v p -> try_open cur sl k v = Ok (Some p).
Proof using Hcur Hcid AL.
  intros (n & Hn & Hs). unfold try_open, open_bytes.
  by erewrite open_sealed_in_place; [reflexivity| |exact Hn|exact Hs]; rewrite (sk_meta_id _ _ Hcur).
Qed.

(** A cell of the current disk: what it opens to. *)
Definition sealed_cell (c : Cell) : Prop :=
  match c with Cell.DataKey _ _ | Cell.AddressKeys _ => False | _ => True end.
Lemma open_cell c k v :
  sealed_cell c -> present db c -> cell_key (StoreKeys.index cur) c = Ok k -> disk_get disk (cell_ks c) k = Some v ->
  exists p, try_open cur (cell_slot c) k v = Ok (Some p) /\ content db c p /\ Z.of_nat (length p) <= MAX_PLAINTEXT_LEN.
Proof using HR Hcur Hcid AL.
  intros Hc Hp Hk Hv. destruct (rep_cell _ _ _ _ _ HR c Hp) as (k' & v' & Hk' & Hv' & Hh').
  assert (k' = k) as -> by congruence. assert (v' = v) as -> by congruence.
  assert (exists p, sealed_as cur (cell_slot c) k v p /\ content db c p) as (p & Hs & Hcont) by (destruct c; done).
  exists p. split; [by apply try_open_sealed|]. split; [done|]. destruct Hs as (n & _ & Hs). by apply seal_with_len in Hs.
Qed.

(** Re-sealing a cell stages its good move. *)
Lemma stage_move_good c k new p ms i :
  sealed_cell c -> present db c -> cell_key (StoreKeys.index cur) c = Ok k ->
  cell_key (StoreKeys.index next) c = Ok new ->
  content db c p -> Z.of_nat (length p) <= MAX_PLAINTEXT_LEN ->
  exists v j, stage_move next (cell_slot c) k new p (moves_of ms) i = (Ok (moves_of (ms ++ [Build_Moved c k new v])), j) /\
    Good (Build_Moved c k new v).
Proof using Hnext Hh KL AL AT.
  intros Hc Hp Hk Hn Hcont Hl. destruct (cell_key_len (StoreKeys.index next) c) as (k2 & Hk2 & Hlen).
  assert (k2 = new) as -> by congruence. unfold stage_move, seal_bytes.
  destruct (with_nonce_Ok (seal_with (StoreKeys.meta next) (seal_context (cell_slot c) new) p) i Hh) as (n & Hnl & Hw).
  destruct (seal_with_total (StoreKeys.meta next) (seal_context (cell_slot c) new) p n) as (v & Hv);
    [apply Hnext|done|done|done|].
  rewrite Hv in Hw. exists v, (S i). rewrite (Draws_bind_eq _ _ _ _ _ Hw). cbn [mret Draws_ret].
  fold (cell_ks c). rewrite moves_of_push. split; [done|]. split; cbn [m_cell m_old m_new m_val]; try done.
  assert (exists p, sealed_as next (cell_slot c) new v p /\ content db c p) by (exists p; split; [by exists n|done]).
  destruct c; done.
Qed.

(** The moves [ms] of one keyspace, one for each of the entries done. *)
Record Walked (ks : Keyspace) (keys : list bytes) (ms : list Moved) : Prop := {
  wk_good : Forall Good ms;
  wk_ks : Forall (fun m => cell_ks (m_cell m) = ks) ms;
  wk_old : m_old <$> ms = keys;
}.
Lemma Walked_nil ks : Walked ks [] [].
Proof using Type. by split. Qed.
Lemma Walked_snoc ks keys ms m :
  Walked ks keys ms -> Good m -> cell_ks (m_cell m) = ks -> Walked ks (keys ++ [m_old m]) (ms ++ [m]).
Proof using Type.
  intros [Hg Hk Ho] Hm Hc. split; [by rewrite Forall_app, Forall_singleton..|].
  by rewrite fmap_app, Ho.
Qed.
Lemma Walked_cover ks ms c :
  Walked ks (fst <$> entries disk ks) ms -> present db c -> cell_ks c = ks -> c ∈ m_cell <$> ms.
Proof using HR.
  intros [Hg Hk Ho] Hp Hc. destruct (rep_cell _ _ _ _ _ HR c Hp) as (k & v & Hck & Hv & _).
  rewrite Hc in Hv. apply entries_elem in Hv. apply (list_elem_of_fmap_2 fst) in Hv. rewrite <- Ho in Hv.
  apply list_elem_of_fmap in Hv as (m & Hm & Hin). cbn [fst] in Hm. apply list_elem_of_fmap. exists m. split; [|done].
  rewrite Forall_forall in Hg, Hk. destruct (Hg m Hin) as [Hp' Ho' _ _].
  apply (di_cells _ _ _ (rep_distinct _ _ _ _ _ HR) c (m_cell m) k); try done;
    [by left|by rewrite (Hk m Hin)|congruence].
Qed.
Lemma Walked_NoDup ks ms : Walked ks (fst <$> entries disk ks) ms -> NoDup (m_cell <$> ms).
Proof using Type.
  intros [Hg _ Ho]. assert (NoDup (m_old <$> ms)) as Hnd by (rewrite Ho; apply NoDup_fst_map_to_list).
  clear Ho. induction Hg as [|m ms Hm Hg IH]; [constructor|]. cbn [fmap list_fmap] in *.
  apply NoDup_cons in Hnd as [Hn Hnd]. apply NoDup_cons. split; [|by apply IH].
  intros (m' & He & Hin)%list_elem_of_fmap. apply Hn, list_elem_of_fmap. exists m'. split; [|done].
  rewrite Forall_forall in Hg. destruct Hm as [_ Ho _ _], (Hg m' Hin) as [_ Ho' _ _]. congruence.
Qed.

(** *** [move_all] *)
Lemma move_all_good {T} `{StoredRecord T} sl new_key (cell_of : T -> Cell) (P : T -> Prop) ms i :
  RecordSlot.keyspace sl ∈ store_keyspaces ->
  (forall c, cell_ks c = RecordSlot.keyspace sl -> cell_slot c = sl /\ sealed_cell c) ->
  (forall r index, new_key r index = cell_key index (cell_of r)) ->
  (forall c p, cell_slot c = sl -> content db c p -> exists r, from_archive p = Some r /\ cell_of r = c /\ P r) ->
  exists ms' rs j, move_all cur next disk sl (moves_of ms) new_key i = (Ok (moves_of (ms ++ ms'), rs), j) /\
    Walked (RecordSlot.keyspace sl) (fst <$> entries disk (RecordSlot.keyspace sl)) ms' /\
    m_cell <$> ms' = cell_of <$> rs /\ Forall P rs.
Proof using All.
  intros Hks Hsl Hnew Hdec. set (ks := RecordSlot.keyspace sl) in *. unfold move_all. fold ks.
  destruct (for_each_inv (move_entry cur next sl new_key)
    (fun done acc => exists ms', acc.1 = moves_of (ms ++ ms') /\ Walked ks (fst <$> done) ms' /\
       m_cell <$> ms' = cell_of <$> acc.2 /\ Forall P acc.2) (entries disk ks) (moves_of ms, []) i)
    as ([m rs] & j & He & ms' & Hm & Hw & Hc & HP); [|intros done [k v] todo [m rs] i' Hl (ms' & Hm & Hw & Hc & HP)|].
  - exists []. by rewrite app_nil_r.
  - assert (disk_get disk ks k = Some v) as Hv by (apply entries_elem; rewrite Hl; set_solver).
    destruct (rep_entry _ _ _ _ _ HR ks k v Hks Hv) as (c & Hp & Hck & Hk). destruct (Hsl c Hck) as [Hslc Hsc].
    destruct (open_cell c k v Hsc Hp Hk) as (p & Ho & Hcont & Hlen); [by rewrite Hck|].
    destruct (Hdec c p Hslc Hcont) as (r & Hr & Hcr & HPr).
    destruct (cell_key_len (StoreKeys.index next) c) as (new & Hn & _).
    destruct (stage_move_good c k new p (ms ++ ms') i' Hsc Hp Hk Hn Hcont Hlen) as (v' & j & Hst & Hg).
    rewrite Hslc in Ho, Hst. cbn [fst] in Hm. subst m.
    exists (moves_of ((ms ++ ms') ++ [Build_Moved c k new v']), rs ++ [r]), j. split.
    + unfold move_entry. rewrite (lift_bind _ _ _ _ Ho), (lift_bind _ _ _ p), (lift_decode _ _ _ _ _ Hr) by done.
      rewrite (lift_bind _ _ _ new) by (by rewrite Hnew, Hcr). by rewrite (Draws_bind_eq _ _ _ _ _ Hst).
    + exists (ms' ++ [Build_Moved c k new v']). cbn [fst snd]. rewrite <- app_assoc, !fmap_app, Hc. split_and!; try done.
      * by apply (Walked_snoc ks (fst <$> done) ms' (Build_Moved c k new v')).
      * cbn. by rewrite Hcr.
      * by rewrite Forall_app, Forall_singleton.
  - exists ms', rs, j. cbn [fst snd] in *. subst m. done.
Qed.

(** The records of one kind, each in its place. *)
Ltac one_kind named :=
  let c := fresh in let p := fresh in let Hc := fresh in let Hne := fresh in let Hr := fresh in
  intros c p Hc; destruct c; try discriminate Hc; intros [Hne Hr];
  match type of Hne with
  | ?x <> None => let r := fresh in let E := fresh in
      destruct x as [r|] eqn:E; [exists r; pose proof (named db HD _ _ E); by subst|done]
  end.

(** *** [move_tenants] *)
Lemma move_tenant_entry_good ms o k v i :
  disk_get disk Keyspace.Tenants k = Some v ->
  exists m o' j, move_tenant_entry cur next (moves_of ms, o) (k, v) i = (Ok (moves_of (ms ++ [m]), o'), j) /\
    Good m /\ cell_ks (m_cell m) = Keyspace.Tenants /\ m_old m = k /\
    ((exists r, m_cell m = Cell.Tenant (TenantRecord.id r) /\ Db.tenants db !! TenantRecord.id r = Some r /\
        o' = add_tenant r (add_ledger (LedgerRef.Tenant (TenantRecord.id r)) o)) \/
     (exists t, m_cell m = Cell.Tombstone t /\ o' = add_shredded t (add_ledger (LedgerRef.Tenant t) o))).
Proof using All.
  intros Hv. destruct (rep_entry _ _ _ _ _ HR Keyspace.Tenants k v) as (c & Hp & Hck & Hk); [set_solver|done|].
  assert (sealed_cell c) as Hsc by (by destruct c).
  destruct (open_cell c k v Hsc Hp Hk) as (p & Ho & Hcont & Hlen); [by rewrite Hck|].
  destruct (cell_key_len (StoreKeys.index next) c) as (new & Hn & _).
  destruct (stage_move_good c k new p ms i Hsc Hp Hk Hn Hcont Hlen) as (v' & j & Hst & Hg).
  exists (Build_Moved c k new v').
  destruct c as [t|t| | | | | | | | | | ]; try discriminate Hck; destruct Hcont as [Hne Hr]; cbn [cell_slot] in Ho, Hst;
    unfold move_tenant_entry.
  - destruct (Db.tenants db !! t) as [r|] eqn:Ht; [|done]. pose proof (rr_tenant _ HD t r Ht) as Hid.
    exists (add_tenant r (add_ledger (LedgerRef.Tenant (TenantRecord.id r)) o)), j.
    split; [|split_and!; [done|done|done|left; exists r; split_and!; [by rewrite Hid|by rewrite Hid|done]]].
    rewrite (lift_bind _ _ _ _ Ho), (lift_decode _ _ _ _ _ Hr). rewrite (lift_bind _ _ _ new) by (by rewrite Hid).
    by rewrite (Draws_bind_eq _ _ _ _ _ Hst).
  - destruct (Db.tombstones db !! t) as [r|] eqn:Ht; [|done]. pose proof (rr_tombstone _ HD t r Ht) as Hid.
    exists (add_shredded t (add_ledger (LedgerRef.Tenant t) o)), j.
    split; [|split_and!; [done|done|done|right; by exists t]].
    rewrite (lift_bind _ _ _ None) by (by apply (au_tombstone _ _ _ _ HA t)).
    rewrite (lift_bind _ _ _ _ Ho), (lift_bind _ _ _ p), (lift_decode _ _ _ _ _ Hr) by done.
    rewrite (lift_bind _ _ _ new) by (by rewrite Hid). rewrite (Draws_bind_eq _ _ _ _ _ Hst). by rewrite Hid.
Qed.

(** What [move_tenants] collects. *)
Record TenantsDone (ms : list Moved) (o : Owners) : Prop := {
  td_records : Forall (fun r => Db.tenants db !! TenantRecord.id r = Some r) (Owners.tenants o);
  td_cells : (fun r => Cell.Tenant (TenantRecord.id r)) <$> Owners.tenants o = List.filter is_tenant_cell (m_cell <$> ms);
  td_ledgers : forall c t, c ∈ m_cell <$> ms -> c = Cell.Tenant t \/ c = Cell.Tombstone t ->
    LedgerRef.Tenant t ∈ Owners.ledgers o;
  td_owned : forall l, l ∈ Owners.ledgers o -> owned db l;
}.
Lemma move_tenants_good ms i :
  exists ms' o j, move_tenants cur next disk (moves_of ms) Owners.default i = (Ok (moves_of (ms ++ ms'), o), j) /\
    Walked Keyspace.Tenants (fst <$> entries disk Keyspace.Tenants) ms' /\ TenantsDone ms' o.
Proof using All.
  unfold move_tenants.
  destruct (for_each_inv (move_tenant_entry cur next)
    (fun done acc => exists ms', acc.1 = moves_of (ms ++ ms') /\ Walked Keyspace.Tenants (fst <$> done) ms' /\
       TenantsDone ms' acc.2) (entries disk Keyspace.Tenants) (moves_of ms, Owners.default) i)
    as ([m o] & j & He & ms' & Hm & Hw & Ht); [|intros done [k v] todo [m o] i' Hl (ms' & Hm & Hw & Ht)|].
  - exists []. rewrite app_nil_r. split; [done|]. split; [apply Walked_nil|]. split; [constructor|done| |set_solver].
    intros c t Hc. by apply elem_of_nil in Hc.
  - assert (disk_get disk Keyspace.Tenants k = Some v) as Hv by (apply entries_elem; rewrite Hl; set_solver).
    cbn [fst snd] in Hm, Ht. subst m.
    destruct (move_tenant_entry_good (ms ++ ms') o k v i' Hv) as (m & o' & j & Hst & Hg & Hks & Hold & Ho').
    exists (moves_of ((ms ++ ms') ++ [m]), o'), j. split; [done|]. exists (ms' ++ [m]). cbn [fst snd].
    rewrite <- app_assoc, fmap_app. split; [done|]. split.
    { cbn [fmap list_fmap fst]. rewrite <- Hold. by apply Walked_snoc. }
    destruct Ht as [Hrec Hcells Hled Hown]. destruct Ho' as [(r & Hc & Hr & ->)|(t & Hc & ->)].
    + split; cbn [add_tenant add_ledger Owners.tenants Owners.ledgers].
      * by rewrite Forall_app, Forall_singleton.
      * rewrite !fmap_app, Hcells, List.filter_app. cbn. by rewrite Hc.
      * intros c t. rewrite fmap_app, elem_of_app. cbn. rewrite Hc. intros [Hin|Hin] Hct; [set_solver|].
        apply list_elem_of_singleton in Hin. destruct Hct; simplify_eq. set_solver.
      * intros l [Hl'|Hl']%elem_of_union; [|by apply Hown]. apply elem_of_singleton in Hl'. subst l. left. by rewrite Hr.
    + split; cbn [add_shredded add_ledger Owners.tenants Owners.ledgers]; [done| | |].
      * rewrite Hcells, fmap_app, List.filter_app. cbn. rewrite Hc. cbn. by rewrite app_nil_r.
      * intros c t'. rewrite fmap_app, elem_of_app. cbn. rewrite Hc. intros [Hin|Hin] Hct; [set_solver|].
        apply list_elem_of_singleton in Hin. destruct Hct; simplify_eq. set_solver.
      * intros l [Hl'|Hl']%elem_of_union; [|by apply Hown]. apply elem_of_singleton in Hl'. subst l. right.
        pose proof (gd_present _ Hg) as Hp. by rewrite Hc in Hp.
  - exists ms', o, j. cbn [fst snd] in *. by subst m.
Qed.

(** *** [move_locators] *)
Lemma move_locators_good ms i :
  exists ms' j, move_locators cur next disk (moves_of ms) i = (Ok (moves_of (ms ++ ms')), j) /\
    Forall Good ms' /\ forall a, present db (Cell.Locator a) -> Cell.Locator a ∈ m_cell <$> ms'.
Proof using All.
  unfold move_locators.
  destruct (for_each_inv (move_locator_entry cur next)
    (fun done m => exists ms', m = moves_of (ms ++ ms') /\ Forall Good ms' /\
       forall a k, present db (Cell.Locator a) -> cell_key (StoreKeys.index cur) (Cell.Locator a) = Ok k ->
         k ∈ fst <$> done -> Cell.Locator a ∈ m_cell <$> ms') (entries disk Keyspace.Artifacts) (moves_of ms) i)
    as (m & j & He & ms' & Hm & Hg & Hc); [|intros done [k v] todo m i' Hl (ms' & -> & Hg & Hc)|].
  - exists []. rewrite app_nil_r. split_and!; [done|constructor|]. intros a k _ _ Hk. by apply elem_of_nil in Hk.
  - assert (disk_get disk Keyspace.Artifacts k = Some v) as Hv by (apply entries_elem; rewrite Hl; set_solver).
    unfold move_locator_entry. destruct (rep_artifact _ _ _ _ _ HR k v Hv) as [(a & Hp & Hk)|Hrest].
    + destruct (open_cell (Cell.Locator a) k v I Hp Hk Hv) as (p & Ho & Hcont & Hlen).
      destruct (cell_key_len (StoreKeys.index next) (Cell.Locator a)) as (new & Hn & _).
      destruct (stage_move_good (Cell.Locator a) k new p (ms ++ ms') i' I Hp Hk Hn Hcont Hlen) as (v' & j & Hst & Hgm).
      destruct Hcont as [Hne Hr]. destruct (Db.locators db !! a) as [r|] eqn:Ha; [|done].
      rewrite (lift_bind _ _ _ _ Ho), (lift_decode _ _ _ _ _ Hr).
      rewrite (lift_bind _ _ _ new) by (by rewrite (rr_locator _ HD a r Ha)). eexists _, _. split; [exact Hst|].
      exists (ms' ++ [Build_Moved (Cell.Locator a) k new v']). rewrite <- app_assoc. split; [done|].
      split; [by rewrite Forall_app, Forall_singleton|]. intros a' k' Hp' Hk'. rewrite !fmap_app, !elem_of_app.
      intros [Hin|Hin]; [left; by apply (Hc a' k')|right]. apply list_elem_of_singleton in Hin. cbn in Hin |- *. subst k'.
      apply list_elem_of_singleton. apply (di_cells _ _ _ (rep_distinct _ _ _ _ _ HR) _ _ k); try done. by left.
    + rewrite (lift_bind _ _ _ _ (au_artifact _ _ _ _ HA k v Hrest)). eexists _, _. split; [reflexivity|].
      exists ms'. split_and!; [done|done|]. intros a' k' Hp' Hk'. rewrite fmap_app, elem_of_app.
      intros [Hin|Hin]; [by apply (Hc a' k')|]. apply list_elem_of_singleton in Hin. cbn in Hin. subst k'.
      by rewrite (di_artifacts _ _ _ (rep_distinct _ _ _ _ _ HR) a' k Hp' Hk') in Hrest.
  - exists ms', j. subst m. split_and!; try done. intros a Hp.
    destruct (rep_cell _ _ _ _ _ HR _ Hp) as (k & v & Hk & Hv & _). apply (Hc a k Hp Hk).
    apply (list_elem_of_fmap_2 fst _ (k, v)). by apply entries_elem.
Qed.

(** *** Emptying a keyspace cell by cell *)

(** The cells [done] of a keyspace have been looked up in it: what is left,
    and the moves of those present. *)
Definition ckey (c : Cell) : bytes :=
  match cell_key (StoreKeys.index cur) c with Ok k => k | Err _ => [] end.
Lemma ckey_Ok c : cell_key (StoreKeys.index cur) c = Ok (ckey c).
Proof using KL. unfold ckey. by destruct (cell_key_len (StoreKeys.index cur) c) as (k & -> & _). Qed.
Record Emptied (ks : Keyspace) (done : list Cell) (remaining : Table) (ms : list Moved) : Prop := {
  em_good : Forall Good ms;
  em_asked : Forall (fun c => asked db c /\ cell_ks c = ks) done;
  em_left : forall k v, remaining !! k = Some v <-> disk_get disk ks k = Some v /\ k ∉ ckey <$> done;
  em_moved : forall c, c ∈ done -> present db c -> c ∈ m_cell <$> ms;
}.
Lemma Emptied_nil ks : Emptied ks [] (table disk ks) [].
Proof using Type.
  split; [constructor|constructor| |].
  - intros k v. unfold disk_get. cbn. rewrite elem_of_nil. tauto.
  - intros c Hc. by apply elem_of_nil in Hc.
Qed.
Lemma Distinct_ckey c c' :
  present db c -> asked db c' -> cell_ks c = cell_ks c' -> ckey c = ckey c' -> c = c'.
Proof using HR KL.
  intros Hp Ha Hk He. apply (di_cells _ _ _ (rep_distinct _ _ _ _ _ HR) c c' (ckey c)); try done; [apply ckey_Ok|].
  rewrite He. apply ckey_Ok.
Qed.
(** A present cell not yet looked up is still there. *)
Lemma Emptied_present ks done remaining ms c :
  Emptied ks done remaining ms -> cell_ks c = ks -> present db c -> c ∉ done ->
  exists v, remaining !! ckey c = Some v /\ holds cur db mat c (ckey c) v.
Proof using HR KL.
  intros He Hks Hp Hn. destruct (rep_cell _ _ _ _ _ HR c Hp) as (k & v & Hk & Hv & Hho). rewrite ckey_Ok in Hk.
  apply Ok_inj in Hk. subst k. exists v. split; [|done]. apply (em_left _ _ _ _ He). rewrite Hks in Hv.
  split; [done|]. intros (c' & Hc' & Hin)%list_elem_of_fmap. apply Hn.
  pose proof (em_asked _ _ _ _ He) as Ha. rewrite Forall_forall in Ha. destruct (Ha c' Hin) as [Ha' Hks'].
  by rewrite (Distinct_ckey c c' Hp Ha' (eq_trans Hks (eq_sym Hks')) Hc').
Qed.
(** What is found at the key of a cell looked up is that cell. *)
Lemma Emptied_found ks done remaining ms c v :
  Emptied ks done remaining ms -> ks ∈ store_keyspaces -> cell_ks c = ks -> asked db c ->
  remaining !! ckey c = Some v -> present db c /\ disk_get disk ks (ckey c) = Some v /\ holds cur db mat c (ckey c) v.
Proof using HR KL.
  intros He Hin Hks Ha Hl. apply (em_left _ _ _ _ He) in Hl as [Hv _].
  destruct (rep_entry _ _ _ _ _ HR ks (ckey c) v Hin Hv) as (c' & Hp' & Hks' & Hk').
  rewrite ckey_Ok in Hk'. apply Ok_inj in Hk'.
  assert (c' = c) as -> by (apply Distinct_ckey; try done; by rewrite Hks').
  split; [done|]. split; [done|]. destruct (rep_cell _ _ _ _ _ HR c Hp') as (k & v' & Hk & Hv' & Hho).
  rewrite ckey_Ok in Hk. apply Ok_inj in Hk. subst k. rewrite Hks in Hv'. by assert (v' = v) as -> by congruence.
Qed.
Lemma Emptied_skip ks done remaining ms c :
  Emptied ks done remaining ms -> cell_ks c = ks -> asked db c -> remaining !! ckey c = None ->
  Emptied ks (done ++ [c]) remaining ms.
Proof using HR KL.
  intros He Hks Ha Hl. split; [apply He|rewrite Forall_app, Forall_singleton; split; [apply He|done]| |].
  - intros k v. rewrite (em_left _ _ _ _ He), fmap_app, elem_of_app. cbn. rewrite list_elem_of_singleton.
    split; [|tauto]. intros [Hv Hk]. split; [done|]. intros [Hk'| ->]; [done|].
    assert (remaining !! ckey c = Some v) by (by apply (em_left _ _ _ _ He)). congruence.
  - intros c' [Hin|Hin]%elem_of_app Hp; [by apply (em_moved _ _ _ _ He)|].
    apply list_elem_of_singleton in Hin. subst c'.
    destruct (decide (ckey c ∈ ckey <$> done)) as [(c' & Hc' & Hin)%list_elem_of_fmap|Hn].
    + pose proof (em_asked _ _ _ _ He) as Has. rewrite Forall_forall in Has. destruct (Has c' Hin) as [Ha' Hks'].
      rewrite (Distinct_ckey c c' Hp Ha' (eq_trans Hks (eq_sym Hks')) Hc') in Hp |- *. by apply (em_moved _ _ _ _ He).
    + destruct (Emptied_present _ _ _ _ c He Hks Hp) as (v & Hv & _); [|congruence].
      intros Hin. by apply Hn, (list_elem_of_fmap_2 ckey).
Qed.
Lemma Emptied_take ks done remaining ms m :
  Emptied ks done remaining ms -> Good m -> cell_ks (m_cell m) = ks ->
  Emptied ks (done ++ [m_cell m]) (delete (ckey (m_cell m)) remaining) (ms ++ [m]).
Proof using Type.
  intros He Hg Hks. split.
  - rewrite Forall_app, Forall_singleton. split; [apply He|done].
  - rewrite Forall_app, Forall_singleton. split; [apply He|]. split; [left; apply Hg|done].
  - intros k v. rewrite lookup_delete_Some, (em_left _ _ _ _ He), fmap_app, elem_of_app. cbn.
    rewrite list_elem_of_singleton. naive_solver.
  - intros c. rewrite fmap_app, !elem_of_app. intros [Hin|Hin] Hp; [left; by apply (em_moved _ _ _ _ He)|].
    apply list_elem_of_singleton in Hin. subst c. right. cbn. by apply list_elem_of_singleton.
Qed.
Lemma Emptied_all ks done remaining ms :
  Emptied ks done remaining ms -> ks ∈ store_keyspaces ->
  (forall c, present db c -> cell_ks c = ks -> c ∈ done) -> remaining = ∅.
Proof using HR KL.
  intros He Hin Hall. apply map_empty. intros k. destruct (remaining !! k) as [v|] eqn:Hk; [|done].
  apply (em_left _ _ _ _ He) in Hk as [Hv Hn]. destruct Hn.
  destruct (rep_entry _ _ _ _ _ HR ks k v Hin Hv) as (c & Hp & Hks & Hck). rewrite ckey_Ok in Hck. apply Ok_inj in Hck.
  subst k. apply list_elem_of_fmap_2. by apply Hall.
Qed.

(** *** [move_ledgers] *)
Lemma move_ledgers_good ms (owners : gset LedgerRef) i :
  (forall l, present db (Cell.Ledger l) -> l ∈ owners) -> (forall l, l ∈ owners -> owned db l) ->
  exists ms' j, move_ledgers cur next disk (moves_of ms) owners i = (Ok (moves_of (ms ++ ms')), j) /\
    Forall Good ms' /\ forall l, present db (Cell.Ledger l) -> Cell.Ledger l ∈ m_cell <$> ms'.
Proof using All.
  intros Hcov Hown. unfold move_ledgers.
  destruct (for_each_inv (move_ledger cur next)
    (fun done acc => exists ms', acc.1 = moves_of (ms ++ ms') /\
       Emptied Keyspace.Ledgers (Cell.Ledger <$> done) acc.2 ms')
    (elements owners) (moves_of ms, table disk Keyspace.Ledgers) i)
    as ([m left'] & j & Hf & ms' & Hm & He); [|intros done l todo [m left'] i' Hl (ms' & Hm & He)|].
  - exists []. rewrite app_nil_r. split; [done|]. apply Emptied_nil.
  - cbn [fst snd] in Hm, He. subst m. set (c := Cell.Ledger l).
    assert (asked db c) as Ha by (right; apply Hown, elem_of_elements; rewrite Hl; set_solver).
    unfold move_ledger. rewrite (lift_bind _ _ _ (ckey c)) by apply (ckey_Ok c). rewrite fmap_app. cbn [fmap list_fmap].
    destruct (left' !! ckey c) as [v|] eqn:Hv.
    + destruct (Emptied_found _ _ _ _ c v He) as (Hp & Hd & _); [set_solver|done|done|done|].
      destruct (open_cell c (ckey c) v I Hp (ckey_Ok c) Hd) as (p & Ho & Hcont & Hlen).
      destruct (cell_key_len (StoreKeys.index next) c) as (new & Hn & _).
      destruct (stage_move_good c (ckey c) new p (ms ++ ms') i' I Hp (ckey_Ok c) Hn Hcont Hlen) as (v' & j & Hst & Hg).
      rewrite (lift_bind _ _ _ _ Ho), (lift_bind _ _ _ p), (lift_bind _ _ _ _ Hn) by done.
      rewrite (Draws_bind_eq _ _ _ _ _ Hst). eexists _, _. split; [reflexivity|].
      exists (ms' ++ [Build_Moved c (ckey c) new v']). cbn [fst snd]. rewrite <- app_assoc. split; [done|].
      by apply (Emptied_take _ _ _ _ (Build_Moved c (ckey c) new v') He Hg).
    + eexists _, _. split; [reflexivity|]. exists ms'. split; [done|]. by apply Emptied_skip.
  - cbn [fst snd] in Hm, He. subst m. exists ms', j.
    assert (forall c, present db c -> cell_ks c = Keyspace.Ledgers -> c ∈ Cell.Ledger <$> elements owners) as Hall.
    { intros c Hp Hks. destruct c; try discriminate Hks. apply list_elem_of_fmap_2, elem_of_elements. by apply Hcov. }
    rewrite (Draws_bind_eq _ _ _ _ _ Hf). cbn beta iota.
    rewrite (lift_bind _ _ _ tt) by (by rewrite bool_decide_eq_true_2 by (apply (Emptied_all _ _ _ _ He); [set_solver|done])).
    split; [done|]. split; [apply He|]. intros l Hp. apply (em_moved _ _ _ _ He); [by apply Hall|done].
Qed.

(** *** [move_wrapped_keys] *)
Lemma cur_kek : in_range u32_max (StoreKek.root_key_id (store_kek cur)).
Proof using Hcur Hcid. cbn. by rewrite (sk_id _ _ Hcur). Qed.
Lemma move_data_key_good t id done left' ms ms' i :
  Emptied Keyspace.Keys done left' ms' -> (t, id) ∈ Db.data_keys db -> Cell.DataKey t id ∉ done ->
  exists ms2 left2 j, move_data_key cur next t (moves_of (ms ++ ms'), left') id i = (Ok (moves_of (ms ++ ms2), left2), j) /\
    Emptied Keyspace.Keys (done ++ [Cell.DataKey t id]) left2 ms2.
Proof using All.
  intros He Hp Hn. set (c := Cell.DataKey t id) in *.
  destruct (Emptied_present _ _ _ _ c He eq_refl Hp Hn) as (v & Hv & n & Hnl & Hw).
  destruct (rr_keys _ HD t id Hp) as [Hid _]. pose proof (ma_data _ _ HM t id Hp) as Hkl.
  set (key := TenantDataKey.mk id (data_key_of mat t id)) in *.
  destruct (wrapped_key_unwraps_only_in_place (store_kek cur) (TenantId_to_bytes t) (TenantId_to_bytes t) n v key key
    cur_kek Hid Hkl Hnl Hw) as [Hun _].
  destruct (cell_key_len (StoreKeys.index next) c) as (new & Hnew & _).
  destruct (with_nonce_Ok (wrap_tenant_key_with (store_kek next) (TenantId_to_bytes t) key) i Hh) as (n2 & Hn2 & Hw2).
  destruct (wrap_tenant_key_total (store_kek next) (TenantId_to_bytes t) key n2) as (w & Hw3); [apply Hnext|done|done|]. rewrite Hw3 in Hw2.
  exists (ms' ++ [Build_Moved c (ckey c) new w]), (delete (ckey c) left'), (S i). split.
  - unfold move_data_key. rewrite (lift_bind _ _ _ (ckey c)) by apply (ckey_Ok c).
    rewrite (lift_bind _ _ _ v) by (by rewrite Hv). rewrite (lift_bind _ _ _ _ Hun), (Draws_bind_eq _ _ _ _ _ Hw2).
    rewrite (lift_bind _ _ _ _ Hnew). change Keyspace.Keys with (cell_ks c). by rewrite moves_of_push, <- app_assoc.
  - apply (Emptied_take _ _ _ _ (Build_Moved c (ckey c) new w) He); [|done].
    split; cbn [m_cell m_old m_new m_val]; [done|apply ckey_Ok|done|by exists n2].
Qed.
Lemma move_address_keys_good t done left' ms ms' i :
  Emptied Keyspace.Keys done left' ms' -> is_Some (Db.tenants db !! t) ->
  exists ms2 left2 j, move_address_keys cur next t (moves_of (ms ++ ms'), left') i = (Ok (moves_of (ms ++ ms2), left2), j) /\
    Emptied Keyspace.Keys (done ++ [Cell.AddressKeys t]) left2 ms2.
Proof using All.
  intros He Ht. set (c := Cell.AddressKeys t) in *. assert (asked db c) as Ha by (by right).
  unfold move_address_keys. rewrite (lift_bind _ _ _ (ckey c)) by apply (ckey_Ok c).
  destruct (left' !! ckey c) as [v|] eqn:Hv.
  2: { eexists ms', left', i. split; [done|]. by apply Emptied_skip. }
  destruct (Emptied_found _ _ _ _ c v He) as (Hp & _ & n & Hnl & Hw); [set_solver|done|done|done|].
  pose proof (ma_index _ _ HM t Hp) as Hil. pose proof (ma_addr _ _ HM t Hp) as Hal.
  pose proof (unwrap_wrapped_address _ _ _ _ _ cur_kek Hil Hal Hnl Hw) as Hun.
  destruct (cell_key_len (StoreKeys.index next) c) as (new & Hnew & _).
  destruct (with_nonce_Ok (wrap_address_keys_with (store_kek next) (TenantId_to_bytes t) (address_keys_of mat t)) i Hh)
    as (n2 & Hn2 & Hw2).
  destruct (wrap_address_keys_total (store_kek next) (TenantId_to_bytes t) (address_keys_of mat t) n2)
    as (w & Hw3); [apply Hnext|done|done|done|]. rewrite Hw3 in Hw2.
  exists (ms' ++ [Build_Moved c (ckey c) new w]), (delete (ckey c) left'), (S i). split.
  - rewrite (lift_bind _ _ _ _ Hun), (Draws_bind_eq _ _ _ _ _ Hw2), (lift_bind _ _ _ _ Hnew).
    change Keyspace.Keys with (cell_ks c). by rewrite moves_of_push, <- app_assoc.
  - apply (Emptied_take _ _ _ _ (Build_Moved c (ckey c) new w) He); [|done].
    split; cbn [m_cell m_old m_new m_val]; [done|apply ckey_Ok|done|by exists n2].
Qed.

(** The cells a tenant's step looks up. *)
Definition tenant_cells (r : TenantRecord) : list Cell :=
  let t := TenantRecord.id r in
  (Cell.DataKey t <$> TenantRecord.data_key_id r :: option_list (rekey_retiring db t)) ++ [Cell.AddressKeys t].
Lemma move_tenant_keys_good rekeys r done left' ms ms' i :
  Emptied Keyspace.Keys done left' ms' -> Db.tenants db !! TenantRecord.id r = Some r ->
  retiring_ids rekeys (TenantRecord.id r) = option_list (rekey_retiring db (TenantRecord.id r)) ->
  (forall id, Cell.DataKey (TenantRecord.id r) id ∉ done) ->
  exists ms2 left2 j, move_tenant_keys cur next rekeys (moves_of (ms ++ ms'), left') r i = (Ok (moves_of (ms ++ ms2), left2), j) /\
    Emptied Keyspace.Keys (done ++ tenant_cells r) left2 ms2.
Proof using All.
  intros He Hr Hret Hn. set (t := TenantRecord.id r) in *. destruct (rr_active _ HD t r Hr) as [Hact Hret'].
  set (ids := TenantRecord.data_key_id r :: option_list (rekey_retiring db t)).
  assert (NoDup ids /\ forall id, id ∈ ids -> (t, id) ∈ Db.data_keys db) as [Hnd Hids].
  { unfold ids. destruct (rekey_retiring db t) as [id|]; cbn [option_list].
    - destruct (Hret' id eq_refl) as [Hin Hne]. split; [|set_solver]. repeat constructor; set_solver.
    - split; [repeat constructor; set_solver|set_solver]. }
  unfold move_tenant_keys. fold t. rewrite Hret. fold ids.
  destruct (for_each_inv (move_data_key cur next t)
    (fun d acc => exists ms2, acc.1 = moves_of (ms ++ ms2) /\ Emptied Keyspace.Keys (done ++ (Cell.DataKey t <$> d)) acc.2 ms2)
    ids (moves_of (ms ++ ms'), left') i)
    as ([m left2] & j & Hf & ms2 & Hm & He2); [|intros d id todo [m left2] i' Hl (ms2 & Hm & He2)|].
  - exists ms'. by rewrite app_nil_r.
  - cbn [fst snd] in Hm, He2. subst m. rewrite Hl in Hnd. apply NoDup_app in Hnd as (_ & Hd & _).
    destruct (move_data_key_good t id _ left2 ms ms2 i' He2) as (ms3 & left3 & j & Hst & He3).
    + apply Hids. rewrite Hl. set_solver.
    + rewrite elem_of_app. intros [Hin|(x & [= ->] & Hin)%list_elem_of_fmap]; [by apply (Hn id)|]. apply (Hd x Hin). set_solver.
    + eexists _, _. split; [exact Hst|]. exists ms3. split; [done|]. cbn [snd]. by rewrite fmap_app, app_assoc.
  - cbn [fst snd] in Hm, He2. subst m. rewrite (Draws_bind_eq _ _ _ _ _ Hf).
    destruct (move_address_keys_good t _ left2 ms ms2 j He2) as (ms3 & left3 & j' & Hst & He3); [by rewrite Hr|].
    exists ms3, left3, j'. split; [done|]. unfold tenant_cells. fold t. fold ids. by rewrite app_assoc.
Qed.

Lemma tenant_cells_key l t id :
  Cell.DataKey t id ∈ l ≫= tenant_cells -> t ∈ TenantRecord.id <$> l.
Proof using Type.
  rewrite list_elem_of_bind. intros (r & Hin & Hr). apply list_elem_of_fmap. exists r. split; [|done].
  unfold tenant_cells in Hin. apply elem_of_app in Hin as [(x & Hx & _)%list_elem_of_fmap|Hin%list_elem_of_singleton]; congruence.
Qed.
Lemma move_wrapped_keys_good ms o i :
  Forall (fun r => Db.tenants db !! TenantRecord.id r = Some r) (Owners.tenants o) ->
  NoDup (TenantRecord.id <$> Owners.tenants o) ->
  (forall t, is_Some (Db.tenants db !! t) -> t ∈ TenantRecord.id <$> Owners.tenants o) ->
  (forall t, retiring_ids (Owners.rekeys o) t = option_list (rekey_retiring db t)) ->
  exists ms' j, move_wrapped_keys cur next disk (moves_of ms) o i = (Ok (moves_of (ms ++ ms')), j) /\
    Forall Good ms' /\ forall c, present db c -> cell_ks c = Keyspace.Keys -> c ∈ m_cell <$> ms'.
Proof using All.
  intros Hrec Hnd Hcov Hret. unfold move_wrapped_keys. rewrite Forall_forall in Hrec.
  destruct (for_each_inv (move_tenant_keys cur next (Owners.rekeys o))
    (fun d acc => exists ms', acc.1 = moves_of (ms ++ ms') /\ Emptied Keyspace.Keys (d ≫= tenant_cells) acc.2 ms')
    (Owners.tenants o) (moves_of ms, table disk Keyspace.Keys) i)
    as ([m left'] & j & Hf & ms' & Hm & He); [|intros d r todo [m left'] i' Hl (ms' & Hm & He)|].
  - exists []. rewrite app_nil_r. split; [done|]. apply Emptied_nil.
  - cbn [fst snd] in Hm, He. subst m. rewrite Hl, fmap_app in Hnd. apply NoDup_app in Hnd as (_ & Hd & _).
    destruct (move_tenant_keys_good (Owners.rekeys o) r _ left' ms ms' i' He) as (ms2 & left2 & j & Hst & He2); [|done| |].
    + apply Hrec. rewrite Hl. set_solver.
    + intros id Hin%tenant_cells_key. apply (Hd _ Hin). set_solver.
    + eexists _, _. split; [exact Hst|]. exists ms2. split; [done|]. cbn [snd]. rewrite bind_app. cbn [mbind list_bind].
      by rewrite app_nil_r.
  - cbn [fst snd] in Hm, He. subst m. exists ms', j.
    assert (forall c, present db c -> cell_ks c = Keyspace.Keys -> c ∈ Owners.tenants o ≫= tenant_cells) as Hall.
    { intros c Hp Hks. assert (exists t, is_Some (Db.tenants db !! t) /\ forall r, TenantRecord.id r = t ->
        Db.tenants db !! t = Some r -> c ∈ tenant_cells r) as (t & Ht & Hin).
      { destruct c as [| | | | | | | | | |t id|t]; try discriminate Hks.
        - destruct (rr_keys _ HD t id Hp) as (_ & r & Hr & Hid). exists t. split; [by rewrite Hr|].
          intros r' <- Hr'. assert (r' = r) as -> by congruence. unfold tenant_cells. apply elem_of_app. left.
          apply list_elem_of_fmap_2. destruct Hid as [->|Hid]; [left|]. right. rewrite Hid. left.
        - exists t. split; [by apply (rr_address _ HD)|]. intros r <- _. apply elem_of_app. right. left. }
      pose proof (Hcov t Ht) as (r & -> & Hr)%list_elem_of_fmap. apply list_elem_of_bind. exists r. split; [|done].
      apply Hin; [done|by apply Hrec]. }
    rewrite (Draws_bind_eq _ _ _ _ _ Hf). cbn beta iota.
    rewrite (lift_bind _ _ _ tt) by (by rewrite bool_decide_eq_true_2 by (apply (Emptied_all _ _ _ _ He); [set_solver|done])).
    split; [done|]. split; [apply He|]. intros c Hp Hks. apply (em_moved _ _ _ _ He); [by apply Hall|done].
Qed.

(** *** [stage_root_moves] *)
Lemma stage_root_moves_good i :
  exists ms j, stage_root_moves cur next disk Moves.default i = (Ok (moves_of ms), j) /\
    Forall Good ms /\ forall c, present db c -> c ∈ m_cell <$> ms.
Proof using All.
  unfold stage_root_moves. change Moves.default with (moves_of []).
  destruct (move_tenants_good [] i) as (mt & o & i1 & Ht & Wt & [Hrec Hcells Hled Hown]).
  rewrite (Draws_bind_eq _ _ _ _ _ Ht). cbn beta iota.
  destruct (move_all_good slot_GRANT (fun (r : GrantRecord) i => slot_key i (Slot.Grant (GrantRecord.id r)))
    (fun r => Cell.Grant (GrantRecord.id r)) (fun r => Db.grants db !! GrantRecord.id r = Some r) mt i1)
    as (mg & gs & i2 & Hg & Wg & Cg & Pg); [set_solver|by intros []|done|one_kind rr_grant|].
  rewrite (Draws_bind_eq _ _ _ _ _ Hg). cbn beta iota.
  destruct (move_all_good slot_REVOCATION (fun (r : RevocationRecord) i => slot_key i (Slot.Revocation (RevocationRecord.grant r)))
    (fun r => Cell.Revocation (RevocationRecord.grant r)) (fun _ => True) (mt ++ mg) i2)
    as (mr & rs & i3 & Hr & Wr & _ & _); [set_solver|by intros []|done|one_kind rr_revocation|].
  rewrite (Draws_bind_eq _ _ _ _ _ Hr). cbn beta iota.
  destruct (move_all_good slot_SESSION (fun (r : SessionRecord) i => slot_key i (Slot.Session (SessionRecord.id r)))
    (fun r => Cell.Session (SessionRecord.id r)) (fun r => Db.sessions db !! SessionRecord.id r = Some r) ((mt ++ mg) ++ mr) i3)
    as (ms & ss & i4 & Hs & Ws & Cs & Ps); [set_solver|by intros []|done|one_kind rr_session|].
  rewrite (Draws_bind_eq _ _ _ _ _ Hs). cbn beta iota.
  destruct (move_all_good slot_INVOCATION (fun (r : InvocationRecord) i => slot_key i (Slot.Invocation (InvocationRecord.id r)))
    (fun r => Cell.Invocation (InvocationRecord.id r)) (fun _ => True) (((mt ++ mg) ++ mr) ++ ms) i4)
    as (mi & ivs & i5 & Hi & Wi & _ & _); [set_solver|by intros []|done|one_kind rr_invocation|].
  rewrite (Draws_bind_eq _ _ _ _ _ Hi). cbn beta iota.
  destruct (move_all_good slot_AUDIT_STUB (fun (r : AuditStubRecord) _ => Ok (to_be_bytes 8 (AuditStubRecord.seq r)))
    (fun r => Cell.AuditStub (AuditStubRecord.seq r)) (fun _ => True) ((((mt ++ mg) ++ mr) ++ ms) ++ mi) i5)
    as (ma & stubs & i6 & Ha & Wa & _ & _); [set_solver|by intros []|done|one_kind rr_stub|].
  rewrite (Draws_bind_eq _ _ _ _ _ Ha). cbn beta iota.
  destruct (move_all_good slot_REKEY (fun (r : RekeyRecord) i => slot_key i (Slot.Rekey (RekeyRecord.tenant r)))
    (fun r => Cell.Rekey (RekeyRecord.tenant r)) (fun r => Db.rekey db !! RekeyRecord.tenant r = Some r)
    (((((mt ++ mg) ++ mr) ++ ms) ++ mi) ++ ma) i6)
    as (mk & ks & i7 & Hk & Wk & Ck & Pk); [set_solver|by intros []|done|one_kind rr_rekey|].
  rewrite (Draws_bind_eq _ _ _ _ _ Hk). cbn beta iota.
  set (m7 := ((((((mt ++ mg) ++ mr) ++ ms) ++ mi) ++ ma) ++ mk)) in *.
  destruct (move_locators_good m7 i7) as (ml & i8 & Hl & Gl & Cl). rewrite (Draws_bind_eq _ _ _ _ _ Hl).
  destruct (add_ledgers_spec (fun g => LedgerRef.Grant (GrantRecord.id g)) gs o) as [Eo1 El1].
  set (o1 := foldl _ o gs) in *.
  destruct (add_ledgers_spec (fun s => LedgerRef.Session (SessionRecord.id s)) ss o1) as [Eo2 El2].
  set (o2 := foldl _ o1 ss) in *.
  assert (forall r, r ∈ Owners.ledgers o2 -> owned db r) as Hown2.
  { rewrite Forall_forall in Pg. rewrite Forall_forall in Ps. intros r. rewrite El2, El1. intros [[Hin|Hin]|Hin]; [by apply Hown| |];
      apply list_elem_of_fmap in Hin as (x & -> & Hx); cbn [owned]; [by rewrite (Pg x Hx)|by rewrite (Ps x Hx)]. }
  assert (forall c, present db c -> cell_ks c = Keyspace.Tenants -> c ∈ m_cell <$> mt) as Ct
    by (intros; by eapply Walked_cover).
  assert (forall r, present db (Cell.Ledger r) -> r ∈ Owners.ledgers o2) as Hcov2.
  { intros r Hp. pose proof (rr_ledger _ HD r Hp) as Ho. rewrite El2, El1. destruct r as [g|s|t]; cbn [owned] in Ho.
    - left. right. assert (Cell.Grant g ∈ m_cell <$> mg) as Hin by (by eapply Walked_cover). rewrite Cg in Hin.
      apply list_elem_of_fmap in Hin as (x & [= ->] & Hx). by apply (list_elem_of_fmap_2 (fun g => LedgerRef.Grant (GrantRecord.id g))).
    - right. assert (Cell.Session s ∈ m_cell <$> ms) as Hin by (by eapply Walked_cover). rewrite Cs in Hin.
      apply list_elem_of_fmap in Hin as (x & [= ->] & Hx). by apply (list_elem_of_fmap_2 (fun s => LedgerRef.Session (SessionRecord.id s))).
    - left. left. destruct Ho as [Ho|Ho];
        [apply (Hled (Cell.Tenant t)); [by apply Ct|by left]|apply (Hled (Cell.Tombstone t)); [by apply Ct|by right]]. }
  destruct (move_ledgers_good (m7 ++ ml) (Owners.ledgers (with_rekeys ks o2)) i8) as (me & i9 & He & Ge & Ce); [done|done|].
  rewrite (Draws_bind_eq _ _ _ _ _ He).
  destruct (move_wrapped_keys_good ((m7 ++ ml) ++ me) (with_rekeys ks o2) i9) as (mw & i10 & Hw & Gw & Cw);
    cbn [with_rekeys Owners.tenants Owners.rekeys]; rewrite ?Eo2, ?Eo1; [done| | | |].
  - eapply tenant_cells_NoDup; [done|by eapply Walked_NoDup].
  - intros t Hp. eapply tenant_cells_cover; [done|]. by apply Ct.
  - intros t. apply retiring_ids_spec; [|done|].
    + apply (NoDup_fmap_1 Cell.Rekey). rewrite <- list_fmap_compose. change (Cell.Rekey ∘ RekeyRecord.tenant)
        with (fun r => Cell.Rekey (RekeyRecord.tenant r)). rewrite <- Ck. by eapply Walked_NoDup.
    + intros r Hrk. assert (Cell.Rekey t ∈ m_cell <$> mk) as Hin by (eapply Walked_cover; [done|by eexists|done]).
      rewrite Ck in Hin. apply list_elem_of_fmap in Hin as (x & [= ->] & Hx). by apply list_elem_of_fmap_2.
  - exists (((m7 ++ ml) ++ me) ++ mw), i10. split; [done|]. split.
    { unfold m7. rewrite !Forall_app. split_and!; try done; by eapply wk_good. }
    intros c Hp. unfold m7. rewrite !fmap_app, !elem_of_app. destruct c.
    1-2: pose proof (Ct _ Hp eq_refl).
    3: pose proof (Walked_cover _ _ _ Wg Hp eq_refl).
    4: pose proof (Walked_cover _ _ _ Wr Hp eq_refl).
    5: pose proof (Walked_cover _ _ _ Ws Hp eq_refl).
    6: pose proof (Walked_cover _ _ _ Wi Hp eq_refl).
    7: pose proof (Walked_cover _ _ _ Wa Hp eq_refl).
    8: pose proof (Walked_cover _ _ _ Wk Hp eq_refl).
    9: pose proof (Cl _ Hp).
    10: pose proof (Ce _ Hp).
    11-12: pose proof (Cw _ Hp eq_refl).
    all: tauto.
Qed.
End stages.
