(* ===== verification/RootGuarantees.v ===== *)
(** * What a root rotation guarantees *)
From S2P Require Import Prelude Vocab Ids Payload Epitrope View Lifecycle Records Store Seal RecordKey.
From S2P Require Import Keys Disk RootRotation RootRep RootStage.
Local Open Scope Z_scope.

Lemma cell_ks_cases c : (cell_ks c ∈ store_keyspaces \/ exists a, c = Cell.Locator a) /\
  cell_ks c <> Keyspace.Meta /\ cell_ks c ∉ tenant_keyspaces.
Proof.
  destruct c; (split; [first [right; by eexists|left; unfold store_keyspaces, cell_ks; cbn; set_solver]|]);
    (split; [done|]); unfold tenant_keyspaces, cell_ks; cbn; set_solver.
Qed.

Lemma meta_apart : (Keyspace.Meta ∉ store_keyspaces) /\ (Keyspace.Meta ∉ tenant_keyspaces).
Proof. unfold store_keyspaces, tenant_keyspaces. set_solver. Qed.

Section guarantees.
Context `{KL : KdfLaws} `{Entropy} `{AL : AeadLaws} `{AT : !AeadTotal} `{StoreCodec}.

(** Good moves that cover every cell turn a disk that holds the store under
    one set of keys into one that holds it under the other. *)
Lemma apply_Rep cur next disk db mat rest ms :
  Rep cur disk db mat rest -> Distinct (StoreKeys.index next) db rest -> Forall (Good cur next db mat) ms ->
  (forall c, present db c -> c ∈ m_cell <$> ms) ->
  Rep next (Moves.apply (moves_of ms) disk) db mat rest.
Proof using Type.
  intros HR HDn Hg Hc. rewrite Forall_forall in Hg.
  assert (forall ks k v, brought ms ks k v -> exists c, present db c /\ cell_ks c = ks /\
    cell_key (StoreKeys.index next) c = Ok k /\ holds next db mat c k v) as Hbr.
  { intros ks k v (m & Hm & <- & <- & <-). destruct (Hg m Hm) as [Hp _ Hn Hh]. by exists (m_cell m). }
  assert (forall ks k, taken ms ks k -> exists c, present db c /\ cell_ks c = ks /\
    cell_key (StoreKeys.index cur) c = Ok k) as Htk.
  { intros ks k (m & Hm & <- & <-). destruct (Hg m Hm) as [Hp Ho _ _]. by exists (m_cell m). }
  assert (forall c k, present db c -> cell_key (StoreKeys.index cur) c = Ok k -> taken ms (cell_ks c) k) as Htaken.
  { intros c k Hp Hk. pose proof (Hc c Hp) as (m & -> & Hm)%list_elem_of_fmap. exists m. split_and!; try done.
    destruct (Hg m Hm) as [_ Ho _ _]. congruence. }
  split.
  - intros c Hp. pose proof (Hc c Hp) as (m & -> & Hm)%list_elem_of_fmap. destruct (Hg m Hm) as [_ _ Hn _].
    exists (m_new m). destruct (apply_get ms disk (cell_ks (m_cell m)) (m_new m)) as [(v & Hb & Hv)|[Hb _]].
    + exists v. split_and!; try done. destruct (Hbr _ _ _ Hb) as (c' & Hp' & Hks' & Hk' & Hh').
      by rewrite (di_cells _ _ _ HDn (m_cell m) c' (m_new m) Hp (or_introl Hp') (eq_sym Hks') Hn Hk').
    + destruct (Hb (m_val m)). by exists m.
  - intros ks k v Hks Hv. destruct (apply_get ms disk ks k) as [(v' & Hb & _)|[_ [[_ Hn]|[Ht He]]]].
    + destruct (Hbr _ _ _ Hb) as (c & ? & ? & ? & _). by exists c.
    + congruence.
    + rewrite He in Hv. destruct (rep_entry _ _ _ _ _ HR ks k v Hks Hv) as (c & Hp & <- & Hk). by destruct Ht; apply Htaken.
  - intros k v Hv. destruct (apply_get ms disk Keyspace.Artifacts k) as [(v' & Hb & _)|[_ [[_ Hn]|[Ht He]]]].
    + left. destruct (Hbr _ _ _ Hb) as (c & Hp & Hks & Hk & _).
      destruct c as [| | | | | | | |a| | | ]; try discriminate Hks. by exists a.
    + congruence.
    + rewrite He in Hv. destruct (rep_artifact _ _ _ _ _ HR k v Hv) as [(a & Hp & Hk)|Hr]; [|by right].
      by destruct Ht; apply (Htaken (Cell.Locator a)).
  - intros k v Hr. pose proof (rep_rest _ _ _ _ _ HR k v Hr) as Hv.
    destruct (apply_get ms disk Keyspace.Artifacts k) as [(v' & Hb & _)|[_ [[Ht _]|[_ ->]]]]; [| |done].
    + destruct (Hbr _ _ _ Hb) as (c & Hp & Hks & Hk & _). destruct c as [| | | | | | | |a| | | ]; try discriminate Hks.
      by rewrite (di_artifacts _ _ _ HDn a k Hp Hk) in Hr.
    + destruct (Htk _ _ Ht) as (c & Hp & Hks & Hk). destruct c as [| | | | | | | |a| | | ]; try discriminate Hks.
      by rewrite (di_artifacts _ _ _ (rep_distinct _ _ _ _ _ HR) a k Hp Hk) in Hr.
  - intros ks Hks. rewrite <- (rep_tenant _ _ _ _ _ HR ks Hks). apply apply_table. intros m Hm He.
    destruct (cell_ks_cases (m_cell m)) as (_ & _ & Hn). by rewrite He in Hn.
  - done.
Qed.
(** The metadata is no part of what [Rep] says. *)
Lemma Rep_meta keys disk db mat rest t : Rep keys disk db mat rest -> Rep keys (<[Keyspace.Meta := t]> disk) db mat rest.
Proof using Type.
  intros [Hc He Ha Hr Ht Hd].
  assert (forall ks, ks <> Keyspace.Meta -> table (<[Keyspace.Meta := t]> disk) ks = table disk ks) as Htab
    by (intros ks Hks; rewrite table_insert; by rewrite bool_decide_eq_false_2).
  assert (forall ks k, ks <> Keyspace.Meta -> disk_get (<[Keyspace.Meta := t]> disk) ks k = disk_get disk ks k) as Hg
    by (intros ks k Hks; unfold disk_get; by rewrite Htab).
  split.
  - intros c Hp. destruct (Hc c Hp) as (k & v & Hk & Hv & Hh). exists k, v. split_and!; try done.
    rewrite Hg; [done|]. by apply cell_ks_cases.
  - intros ks k v Hin. rewrite Hg; [by apply He|]. intros ->. by apply meta_apart in Hin.
  - intros k v. rewrite Hg by done. apply Ha.
  - intros k v. rewrite Hg by done. apply Hr.
  - intros ks Hin. rewrite Htab; [by apply Ht|]. intros ->. by apply meta_apart in Hin.
  - done.
Qed.

(** [stage_rotation] on a store its own root key opens. *)
Lemma stage_rotation_good keys disk db mat rest current next meta salt next_keys i :
  healthy -> meta_read (table disk Keyspace.Meta) = Ok meta ->
  store_unlock current (Meta.root_key_id meta) (Meta.salt meta) (Meta.check meta) = Ok keys ->
  Meta.root_key_id meta < u32_max ->
  Rep keys disk db mat rest -> Authentic keys disk db rest -> RootReady db -> MaterialOk db mat ->
  fill i 32 = Some salt -> store_derive next (Meta.root_key_id meta + 1) salt = Ok next_keys ->
  Distinct (StoreKeys.index next_keys) db rest ->
  exists check disk' j, key_check next_keys = Ok check /\
    stage_rotation keys disk current next i = (Ok (next_keys, disk'), j) /\
    meta_read (table disk' Keyspace.Meta) = Ok (Meta.mk (Meta.root_key_id meta + 1) salt check) /\
    Rep next_keys disk' db mat rest.
Proof using All.
  intros Hh Hm Hu Hid HR HA HD HM Hf Hn HDn. pose proof Hm as [[Hrange _ _] _]%meta_read_iff.
  assert (in_range u32_max (Meta.root_key_id meta + 1)) as Hrange' by (unfold in_range in *; lia).
  unfold store_unlock in Hu. apply bind_Ok in Hu as (keys' & Hd & Hu).
  apply bind_Ok in Hu as (b & Hb & Hu). apply bind_Ok in Hu as ([] & ->%ensure_Ok & Hu). apply Ok_inj in Hu. subst keys'.
  destruct (store_derive_Ok current (Meta.root_key_id meta) (Meta.salt meta)) as (k1 & Hk1 & Hok).
  assert (k1 = keys) as -> by congruence.
  destruct (store_derive_Ok next (Meta.root_key_id meta + 1) salt) as (k2 & Hk2 & Hok2).
  assert (k2 = next_keys) as -> by congruence. destruct (key_check_Ok next_keys) as (check & Hc & Hcl).
  destruct (Hh i 32%nat) as (s' & Hs' & Hsl). rewrite Hf in Hs'. injection Hs' as <-.
  destruct (stage_root_moves_good keys next_keys disk db mat rest _ _ Hok Hok2 Hrange Hrange' HR HA HD HM Hh (S i))
    as (ms & j & Hst & Hg & Hcov).
  exists check, (let tx := Moves.apply (moves_of ms) disk in
    <[Keyspace.Meta := meta_write (Meta.mk (Meta.root_key_id meta + 1) salt check) (table tx Keyspace.Meta)]> tx), j.
  split; [done|]. split; [|split].
  - unfold stage_rotation. rewrite (lift_bind _ _ _ _ Hm). unfold store_unlock. rewrite Hd. cbn [mbind result_bind].
    rewrite Hb. cbn [mbind result_bind ensure]. rewrite (lift_bind _ _ _ _ eq_refl).
    rewrite (lift_bind _ _ _ (Meta.root_key_id meta + 1)) by (unfold checked_add; by rewrite (proj2 (Z.leb_le _ _)) by lia).
    rewrite (Draws_bind_eq _ _ _ salt (S i)) by (unfold salt_generate, random_array; by rewrite Hf, Hsl).
    rewrite (lift_bind _ _ _ _ Hn), (lift_bind _ _ _ _ Hc), (Draws_bind_eq _ _ _ _ _ Hst). done.
  - cbv zeta. rewrite table_insert, bool_decide_eq_true_2 by done. apply meta_read_write. by split.
  - apply Rep_meta. by apply (apply_Rep keys).
Qed.
End guarantees.

(** ** Properties *)
Section properties.
Context `{KL : KdfLaws} `{Entropy} `{AL : AeadLaws} `{AT : !AeadTotal} `{StoreCodec}.

(** C9. Root rotation hands the whole store over, atomically. On a store that
    [current] opens, rotating to [next] succeeds; the disk it commits holds
    exactly the same logical store, the same key material and the same
    tenant-sealed records under the keys of [next], opens with [next] under
    the following root key id, and is locked to [current] unless the check
    values of the two roots collide. A crash before the commit leaves the old
    disk and a crash after it leaves the new one; nothing in between. *)
Theorem rotate_root_hands_over (fp : Failpoint) (keys next_keys : StoreKeys) (disk : Disk) (db : Db)
    (mat : Material) (rest : Disk) (current next salt : bytes) (meta : Meta) (draws : nat) :
  healthy -> meta_read (table disk Keyspace.Meta) = Ok meta ->
  store_unlock current (Meta.root_key_id meta) (Meta.salt meta) (Meta.check meta) = Ok keys ->
  Meta.root_key_id meta < u32_max ->
  Rep keys disk db mat rest -> Authentic keys disk db rest -> RootReady db -> MaterialOk db mat ->
  fill draws 32 = Some salt -> store_derive next (Meta.root_key_id meta + 1) salt = Ok next_keys ->
  Distinct (StoreKeys.index next_keys) db rest ->
  let id := Meta.root_key_id meta + 1 in
  exists check disk',
    meta_read (table disk' Keyspace.Meta) = Ok (Meta.mk id salt check) /\
    store_unlock next id salt check = Ok next_keys /\
    Rep next_keys disk' db mat rest /\
    (store_unlock current id salt check = Err StoreError.StoreLocked \/
     exists old, store_derive current id salt = Ok old /\ key_check old = key_check next_keys) /\
    rotate_root fp keys disk current next draws =
      if Failpoint.before_commit fp Boundary.RootRotation
      then (Err (StoreError.InjectedCrash Boundary.RootRotation Phase.BeforeCommit), disk, keys)
      else if Failpoint.after_commit fp Boundary.RootRotation
      then (Err (StoreError.InjectedCrash Boundary.RootRotation Phase.AfterCommit), disk', keys)
      else (Ok id, disk', next_keys).
Proof using All.
  intros Hh Hm Hu Hid HR HA HD HM Hf Hn HDn id.
  destruct (stage_rotation_good keys disk db mat rest current next meta salt next_keys draws)
    as (check & disk' & j & Hc & Hst & Hm' & HR'); try done.
  exists check, disk'. split; [done|]. split; [|split; [done|split]].
  - rewrite (store_unlock_spec _ _ _ _ _ _ Hn Hc). by rewrite bool_decide_eq_true_2.
  - destruct (store_derive_Ok current id salt) as (old & Ho & _), (key_check_Ok old) as (c & Hco & _).
    rewrite (store_unlock_spec _ _ _ _ _ _ Ho Hco). case_bool_decide as He; [right|by left].
    exists old. split; [done|]. congruence.
  - unfold rotate_root. rewrite Hst. cbn [fst commit]. fold id in Hn.
    destruct (store_derive_Ok next id salt) as (k2 & Hk2 & Hok2). assert (k2 = next_keys) as -> by congruence.
    rewrite (sk_id _ _ Hok2). destruct (Failpoint.before_commit _ _); [done|]. by destruct (Failpoint.after_commit _ _).
Qed.
End properties.
