(* ===== verification/Owned.v ===== *)
(** * Every reachable store can be rotated

    [RootReady], what a root rotation needs of the logical store, holds along
    every run: records are filed under the ids they carry, a ledger has a
    grant, session or tenant to belong to, and no key outlives its tenant. *)
From S2P Require Import Prelude Vocab Ids Payload Epitrope Origin View Chain Issue Budget Decision.
From S2P Require Import Lifecycle Records Store StoreAudit Invocation Transition Directory Claim.
From S2P Require Import Shred Recovery Rekey Invariant Steps StoreRun RekeyInv Runs.
From S2P Require Import Ceiling Guarantees Seal RecordKey Keys Disk RootRotation RootRep.
Local Open Scope Z_scope.

(** What the invariant of the store does not already say. *)
Record Owned (db : Db) : Prop := {
  ow_tombstone : forall t r, Db.tombstones db !! t = Some r -> TombstoneRecord.tenant r = t;
  ow_revocation : forall g r, Db.revocations db !! g = Some r -> RevocationRecord.grant r = g;
  ow_locator : forall a r, Db.locators db !! a = Some r -> LocatorRecord.artifact r = a;
  ow_stub : forall q r, Db.audit_stub db !! q = Some r -> AuditStubRecord.seq r = q;
  ow_ledger : forall l, is_Some (Db.ledgers db !! l) -> owned db l;
  ow_record : forall i r, Db.invocations db !! i = Some r -> Forall (owned db) (InvocationRecord.ledgers r);
  ow_address : forall t, t ∈ Db.address_keys db -> is_Some (Db.tenants db !! t);
}.

(** What one step may do to those records. *)
Record Named (db db' : Db) : Prop := {
  nm_tombstone : forall t r, Db.tombstones db' !! t = Some r ->
    Db.tombstones db !! t = Some r \/ TombstoneRecord.tenant r = t;
  nm_revocation : forall g r, Db.revocations db' !! g = Some r ->
    Db.revocations db !! g = Some r \/ RevocationRecord.grant r = g;
  nm_locator : forall a r, Db.locators db' !! a = Some r ->
    Db.locators db !! a = Some r \/ LocatorRecord.artifact r = a;
  nm_stub : forall q r, Db.audit_stub db' !! q = Some r ->
    Db.audit_stub db !! q = Some r \/ AuditStubRecord.seq r = q;
  nm_owned : forall l, owned db l -> owned db' l;
  nm_ledger : forall l, is_Some (Db.ledgers db' !! l) -> is_Some (Db.ledgers db !! l) \/ owned db' l;
  nm_record : forall i r, Db.invocations db' !! i = Some r ->
    Db.invocations db !! i = Some r \/ Forall (owned db') (InvocationRecord.ledgers r);
  nm_address : forall t, t ∈ Db.address_keys db' -> is_Some (Db.tenants db' !! t) \/
    (t ∈ Db.address_keys db /\ (is_Some (Db.tenants db !! t) -> is_Some (Db.tenants db' !! t)));
}.
#[global] Instance Named_preorder : PreOrder Named.
Proof.
  split.
  - intros db. split; auto.
  - intros a b c [T1 R1 L1 S1 O1 G1 I1 A1] [T2 R2 L2 S2 O2 G2 I2 A2]. split.
    + intros t r Hr. destruct (T2 t r Hr); auto.
    + intros t r Hr. destruct (R2 t r Hr); auto.
    + intros t r Hr. destruct (L2 t r Hr); auto.
    + intros t r Hr. destruct (S2 t r Hr); auto.
    + auto.
    + intros l Hl. destruct (G2 l Hl) as [Hb|]; [|by right]. destruct (G1 l Hb); auto.
    + intros i r Hr. destruct (I2 i r Hr) as [Hb|]; [|by right]. destruct (I1 i r Hb) as [|Hf]; [by left|right].
      eapply Forall_impl; [exact Hf|]. auto.
    + intros t Ht. destruct (A2 t Ht) as [|[Hb Hk]]; [by left|]. destruct (A1 t Hb) as [|[Ha Hk1]]; [left; auto|right; auto].
Qed.
Lemma Named_Owned db db' : Named db db' -> Owned db -> Owned db'.
Proof.
  intros [T R L S O G I A] [T1 R1 L1 S1 G1 I1 A1]. split.
  - intros t r Hr. destruct (T t r Hr); auto.
  - intros t r Hr. destruct (R t r Hr); auto.
  - intros t r Hr. destruct (L t r Hr); auto.
  - intros t r Hr. destruct (S t r Hr); auto.
  - intros l Hl. destruct (G l Hl); auto.
  - intros i r Hr. destruct (I i r Hr) as [Hb|]; [|done]. eapply Forall_impl; [by apply (I1 i)|]. auto.
  - intros t Ht. destruct (A t Ht) as [|[Hb Hk]]; auto.
Qed.
Lemma Owned_empty : Owned empty_db.
Proof.
  split; cbn; intros *; rewrite ?lookup_empty; try done; by intros [].
Qed.

(** Changes to the keyspaces that hold none of these records. *)
Lemma Named_same db db' :
  Db.tombstones db' = Db.tombstones db -> Db.revocations db' = Db.revocations db ->
  Db.locators db' = Db.locators db -> Db.audit_stub db' = Db.audit_stub db -> Db.ledgers db' = Db.ledgers db ->
  Db.invocations db' = Db.invocations db -> Db.address_keys db' = Db.address_keys db ->
  Db.tenants db' = Db.tenants db -> Db.grants db' = Db.grants db -> Db.sessions db' = Db.sessions db -> Named db db'.
Proof.
  intros Et Er El Es Ed Ei Ea En Eg Ess.
  assert (forall l, owned db l -> owned db' l) as Ho by (intros []; unfold owned; by rewrite ?Eg, ?Ess, ?En, ?Et).
  split; rewrite ?Et, ?Er, ?El, ?Es, ?Ed, ?Ei, ?Ea, ?En; auto.
Qed.
Lemma Named_stub db q stub : AuditStubRecord.seq stub = q -> Named db (set_audit_stub <[q := stub]> db).
Proof.
  intros Hq. split; try (by auto). intros q' r. cbn. rewrite lookup_insert_Some. naive_solver.
Qed.
Lemma Named_append_audit now db entry seq db' : append_audit now db entry = Ok (seq, db') -> Named db db'.
Proof.
  intros (_ & _ & ks & stub & rec & _ & Hs & _ & _ & _ & _ & _ & ->)%append_audit_Ok.
  etransitivity; [by apply Named_stub|]. by apply Named_same.
Qed.
Lemma Named_put_invocation db r : Forall (owned db) (InvocationRecord.ledgers r) -> Named db (put_invocation r db).
Proof.
  intros Hr. split; try (by auto). intros i r'. unfold put_invocation. cbn. rewrite lookup_insert_Some.
  intros [[_ <-]|[_ Hi]]; [by right|by left].
Qed.
Lemma Named_put_ledger db l c : owned db l -> Named db (put_ledger l c db).
Proof.
  intros Ho. split; try (by auto). intros l'. unfold put_ledger. cbn. destruct (decide (l = l')) as [<-|Hne]; [by right|].
  rewrite lookup_insert_ne by done. by left.
Qed.
Lemma Named_release_all db ls amount db' :
  release_all db ls amount = Ok db' -> Forall (owned db) ls -> Named db db'.
Proof.
  revert db; induction ls as [|l ls IH]; intros db Hr Hf; cbn [release_all] in Hr; [by apply Ok_inj in Hr; subst|].
  apply bind_Ok in Hr as (used & _ & Hr). apply Forall_cons in Hf as [Hl Hf].
  pose proof (Named_put_ledger db l used Hl) as Hn. etransitivity; [exact Hn|]. apply IH; [done|].
  eapply Forall_impl; [exact Hf|]. apply Hn.
Qed.
Lemma Named_debit_all db ids amount ls db' :
  debit_all db ((fun l => (l, amount)) <$> ids) = Ok (ls, db') ->
  (forall i l, i ∈ ids -> from_ledger_id i = Some l -> owned db l) -> Named db db' /\ Forall (owned db') ls.
Proof.
  revert db ls db'; induction ids as [|i ids IH]; intros db ls db' Hd Ho; cbn [debit_all fmap list_fmap] in Hd.
  - apply Ok_inj in Hd. injection Hd as <- <-. split; [done|constructor].
  - apply bind_Ok in Hd as ([l db1] & H1 & Hd). apply bind_Ok in Hd as ([ls' db2] & H2 & Hd).
    apply Ok_inj in Hd. injection Hd as <- <-. unfold debit_one in H1.
    apply bind_Ok in H1 as (l' & Hl%ok_or_Ok & H1). apply bind_Ok in H1 as (used & _ & H1).
    apply Ok_inj in H1. injection H1 as <- <-. assert (owned db l') as Hl' by (apply (Ho i); [left|done]).
    pose proof (Named_put_ledger db l' used Hl') as Hn. destruct (IH _ _ _ H2) as [Hn2 Hf].
    { intros j k Hj Hk. apply Hn. apply (Ho j); [by right|done]. }
    split; [by etransitivity|]. constructor; [|done]. by apply Hn2, Hn.
Qed.

(** The ledgers an allowed call reserves on all have an owner. *)
Lemma Faithful_owned db st l : Faithful db st -> from_ledger_id (LedgerState.id st) = Some l -> owned db l.
Proof.
  intros Hf Hl. destruct (Hf l Hl) as [_ Hc]. destruct l as [g|s|t]; cbn in Hc |- *; [| |left];
    by match type of Hc with (_ <$> ?x) = _ => destruct x end.
Qed.
Lemma allowed_ledgers `{Hashes} db request now chain reservation keys :
  Inv db -> tenant_keys db (AuthzRequest.tenant request) = Ok keys ->
  authorize db request now = Ok (Decision.Allowed chain reservation) ->
  exists lds, reservation = ReservationPlan.mk (AuthzRequest.declared request) (LedgerState.id <$> lds) /\
    Forall (Faithful db) lds.
Proof.
  intros HI Hk Hauth.
  apply authorize_inv in Hauth as (_ & ch & deb & lds & Hdc & _ & Hsess & _ & Hl & [-> Hcov]%plan_reservation_Fits & _).
  apply designated_chain_Ok in Hdc as (leaf & Hv & Hid & _ & HL & _ & _); [|apply Inv_view_u8, HI].
  destruct (Linked_links db leaf ch HL) as [Hall Hnd]; [by rewrite Hid|]. exists lds. split; [done|].
  apply (ledger_states_Faithful db (AuthzRequest.tenant request) ch deb lds); [|done| | |done].
  - eapply Forall_impl; [exact Hall|]. by intros g [? _].
  - by apply tenant_keys_Some in Hk as (rec & -> & _).
  - intros s owner ->. unfold SessionOk in Hsess. destruct (AuthzRequest.session request) as [s'|]; [|by destruct Hsess].
    destruct Hsess as (_ & o & Ho & _ & [= <- <-]). cbn in Ho. destruct (Db.sessions db !! s); [eauto|done].
Qed.

Section ops.
Context `{Hashes}.

(** What a transition stages. *)
Definition StageNamed (db : Db) (apply : Apply) : Prop := forall r r' db',
  apply db r = Ok (r', db') -> Forall (owned db) (InvocationRecord.ledgers r) ->
  Named db db' /\ InvocationRecord.ledgers r' = InvocationRecord.ledgers r.
Lemma transition_Named fp now db id step b apply :
  Owned db -> StageNamed db apply -> Named db (snd (transition fp now db id step b apply)).
Proof using Type.
  intros HO Hst. apply (with_tx_cases fp db _ (Named db)); [done|]. intros b' a db' Ht. unfold transition_tx in Ht.
  apply bind_Ok in Ht as (r & Hr & Ht). unfold existing_invocation, invocation_record in Hr. apply ok_or_Ok in Hr.
  pose proof (ow_record _ HO id r Hr) as Hown. apply bind_Ok in Ht as (next & _ & Ht).
  apply bind_Ok in Ht as ([r1 db1] & Ha & Ht). destruct (Hst r r1 db1 Ha Hown) as [Hn Hl].
  apply bind_Ok in Ht as (db2 & H2 & Ht). apply Ok_inj in Ht. injection Ht as _ _ <-.
  assert (Named db db2) as Hn2.
  { destruct (is_terminal next); [|by apply Ok_inj in H2; subst]. apply bind_Ok in H2 as (e & _ & H2).
    apply bind_Ok in H2 as ([q db3] & Hap & H2). apply Ok_inj in H2. subst db3.
    etransitivity; [exact Hn|]. by eapply Named_append_audit. }
  etransitivity; [exact Hn2|]. apply Named_put_invocation. cbn. rewrite Hl. eapply Forall_impl; [exact Hown|]. apply Hn2.
Qed.

Lemma stage_transfer_Named db transfer : StageNamed db (stage_transfer transfer).
Proof using Type.
  intros r r' db' Ha _. unfold stage_transfer in Ha. apply bind_Ok in Ha as (keys & _ & Ha).
  apply bind_Ok in Ha as (db1 & Hb & Ha). apply Ok_inj in Ha. injection Ha as <- <-. split; [|done].
  assert (Named db db1) as Hn.
  { destruct (Db.blobs db !! _); [by apply Ok_inj in Hb; subst|]. apply bind_Ok in Hb as ([] & _ & Hb).
    apply Ok_inj in Hb. subst db1. by apply Named_same. }
  etransitivity; [exact Hn|]. by apply Named_same.
Qed.
Lemma stage_publish_Named now db : StageNamed db (stage_publish now).
Proof using Type.
  intros r r' db' Ha _. unfold stage_publish in Ha. apply bind_Ok in Ha as (keys & _ & Ha).
  apply bind_Ok in Ha as (p & _ & Ha). apply bind_Ok in Ha as (a & _ & Ha). apply bind_Ok in Ha as ([] & _ & Ha).
  set (db1 := set_locators _ _) in Ha. apply bind_Ok in Ha as (db2 & Hi & Ha). apply Ok_inj in Ha. injection Ha as <- <-.
  split; [|done]. assert (Named db db1) as Hn.
  { split; try (by auto). intros a' l. cbn. rewrite lookup_insert_Some. intros [[<- <-]|[_ Hl]]; [by right|by left]. }
  etransitivity; [exact Hn|]. unfold stage_index in Hi. destruct (InvocationRecord.session r); [|by apply Ok_inj in Hi; subst].
  apply bind_Ok in Hi as (found & _ & Hi). apply bind_Ok in Hi as (k & _ & Hi). apply Ok_inj in Hi. subst. by apply Named_same.
Qed.
Lemma apply_settlement_Named settlement db r r' db' :
  apply_settlement settlement db r = Ok (r', db') -> Forall (owned db) (InvocationRecord.ledgers r) ->
  Named db db' /\ InvocationRecord.ledgers r' = InvocationRecord.ledgers r.
Proof using Type.
  unfold apply_settlement. intros Ha Ho. apply bind_Ok in Ha as (db1 & Hr & Ha). apply Ok_inj in Ha. injection Ha as <- <-.
  split; [|done]. by apply Named_release_all in Hr.
Qed.
Lemma stage_settle_Named db outcome : StageNamed db (stage_settle outcome).
Proof using Type.
  intros r r' db' Ha Ho. unfold stage_settle in Ha. apply bind_Ok in Ha as ([actual failure] & _ & Ha).
  apply bind_Ok in Ha as (s & _ & Ha). by apply apply_settlement_Named in Ha.
Qed.
Lemma stage_release_Named db reason : StageNamed db (stage_release reason).
Proof using Type. intros r r' db' Ha Ho. by apply apply_settlement_Named in Ha. Qed.
Lemma stage_unknown_Named db : StageNamed db stage_unknown_effect.
Proof using Type. intros r r' db' Ha Ho. by apply apply_settlement_Named in Ha. Qed.

Lemma persist_Named now db keys intent chain reservation b a db' :
  Inv db -> tenant_keys db (AuthzRequest.tenant (Intent.authz intent)) = Ok keys ->
  authorize db (Intent.authz intent) now = Ok (Decision.Allowed chain reservation) ->
  persist now db keys intent chain reservation = Ok (Committed b a db') -> Named db db'.
Proof using Type.
  intros HI Hk Hauth Hp. unfold persist, intent_record, debit_reservation in Hp.
  apply bind_Ok in Hp as ([r db2] & Hi & Hp). apply Ok_inj in Hp. injection Hp as _ _ <-.
  apply bind_Ok in Hi as ([ls db1] & Hd & Hi). apply Ok_inj in Hi. injection Hi as Hr <-.
  destruct (allowed_ledgers db (Intent.authz intent) now chain reservation keys HI Hk Hauth) as (lds & -> & Hfaith).
  unfold debits in Hd. cbn [ReservationPlan.ledgers ReservationPlan.cost] in Hd.
  apply Named_debit_all in Hd as [Hn Hf].
  - transitivity (put_invocation r db1); [|by apply Named_same]. transitivity db1; [done|].
    apply Named_put_invocation. by rewrite <- Hr.
  - intros i l (st & -> & Hst)%list_elem_of_fmap Hl. rewrite Forall_forall in Hfaith. apply Faithful_owned with st; auto.
Qed.

Lemma begin_Named fp now db intent : Inv db -> Named db (snd (begin fp now db intent)).
Proof using Type.
  intros HI. apply (with_tx_cases fp db _ (Named db)); [done|]. intros b a db' Hb. unfold begin_tx in Hb.
  assert (forall failure, refuse now db intent failure = Ok (Committed b a db') -> Named db db') as Hrefuse.
  { intros f Hr. unfold refuse in Hr. apply bind_Ok in Hr as ([seq db1] & Ha & Hr).
    apply Ok_inj in Hr. injection Hr as _ _ <-. by apply Named_append_audit in Ha. }
  apply bind_Ok in Hb as (keys & Hk & Hb). apply bind_Ok in Hb as (idem & _ & Hb).
  destruct idem as [idem|].
  { unfold replay in Hb. case_in Hb; [done|]. by apply bind_Ok in Hb as (r & _ & Hb). }
  apply bind_Ok in Hb as ([] & _ & Hb). apply bind_Ok in Hb as (d & Hd%map_err_Ok & Hb).
  destruct d as [chain res|code|dim|]; try (by apply Hrefuse in Hb).
  destruct (session_owner_shredded _ _); [by apply Hrefuse in Hb|].
  by apply (persist_Named _ _ _ _ _ _ _ _ _ HI Hk Hd) in Hb.
Qed.

Lemma recover_one_Named fp now db report id action :
  Inv db -> Owned db -> Named db (snd (recover_one fp now db report id action)).
Proof using Type.
  intros HI HO. unfold recover_one. destruct report, action.
  - pose proof (transition_Named fp now db id (Step.Release ReleaseReason.Abandoned) Boundary.Terminal _ HO
      (stage_release_Named db ReleaseReason.Abandoned)) as HN.
    fold (release fp now db id ReleaseReason.Abandoned) in HN. by destruct (release _ _ _ _ _).
  - pose proof (transition_Named fp now db id Step.MarkUnknownEffect Boundary.Terminal _ HO (stage_unknown_Named db)) as HN.
    fold (mark_unknown_effect fp now db id) in HN. by destruct (mark_unknown_effect _ _ _ _).
  - pose proof (transition_Named fp now db id Step.Publish Boundary.Publish _ HO (stage_publish_Named now db)) as HN.
    fold (publish fp now db id) in HN. destruct (publish _ _ _ _) as [[st|e] db1]; [|done]. cbn [snd] in *.
    pose proof (transition_Named fp now db1 id Step.Settle Boundary.Terminal _ (Named_Owned _ _ HN HO)
      (stage_settle_Named db1 SettleOutcome.Success)) as HN2.
    fold (settle fp now db1 id SettleOutcome.Success) in HN2. destruct (settle _ _ _ _ _). by etransitivity.
  - pose proof (transition_Named fp now db id Step.Settle Boundary.Terminal _ HO
      (stage_settle_Named db SettleOutcome.Success)) as HN.
    fold (settle fp now db id SettleOutcome.Success) in HN. by destruct (settle _ _ _ _ _).
Qed.
Lemma recover_Named fp now db scan : Inv db -> Owned db -> Named db (snd (recover fp now db scan)).
Proof using Type.
  unfold recover. generalize (open_invocations scan). intros work. generalize report_default.
  revert db. induction work as [|[id action] work IH]; intros db report HI HO; [done|].
  cbn [recover_loop]. pose proof (recover_one_Inv fp now db report id action HI) as HI'.
  pose proof (recover_one_Named fp now db report id action HI HO) as HN.
  destruct (recover_one _ _ _ _ _ _) as [[r|e] db1]; [|done]. etransitivity; [exact HN|]. apply IH; [done|].
  by eapply Named_Owned.
Qed.

Lemma Named_grants db f : (forall g, is_Some (Db.grants db !! g) -> is_Some (f (Db.grants db) !! g)) -> Named db (set_grants f db).
Proof using Type. intros Hf. split; try (by auto). intros [g|s|t]; cbn; auto. Qed.
Lemma Named_insert_grant db g r : Named db (set_grants <[g := r]> db).
Proof using Type.
  apply Named_grants. intros g' Hg. destruct (decide (g = g')) as [<-|]; [by rewrite lookup_insert_eq|by rewrite lookup_insert_ne].
Qed.
Lemma issue_grant_Named fp now db issue : Named db (snd (issue_grant fp now db issue)).
Proof using Type.
  apply (with_tx_cases fp db _ (Named db)); [done|]. intros b a db' Hr. unfold issue_grant_tx in Hr.
  assert (forall d outcome state, issue_finish now d issue outcome state = Ok (Committed b a db') -> Named d db') as Hfin.
  { intros d outcome state Hf. unfold issue_finish in Hf. apply bind_Ok in Hf as ([seq db1] & Ha & Hf).
    apply Ok_inj in Hf. injection Hf as _ _ <-. by apply Named_append_audit in Ha. }
  set (new := mbind _ _) in Hr. assert (new = Ok (Committed b a db') -> Named db db') as Hnew.
  { subst new. intros Hn. apply bind_Ok in Hn as (d & _ & Hn). destruct d as [child| | |]; try (by apply Hfin in Hn).
    apply bind_Ok in Hn as ([staged db1] & Hp & Hn). destruct staged; [|done]. apply put_new_grant_staged in Hp. subst db1.
    apply Hfin in Hn. etransitivity; [apply Named_insert_grant|exact Hn]. }
  destruct (Db.grants db !! _); [|by apply Hnew]. case_in Hr; [|by apply Hnew].
  by apply bind_Ok in Hr as (_ & _ & Hr).
Qed.
Lemma open_session_Named fp now db new parent : Named db (snd (open_session fp now db new parent)).
Proof using Type.
  apply (with_tx_cases fp db _ (Named db)); [done|]. intros b a db' Hr. unfold open_session_tx in Hr.
  apply bind_Ok in Hr as ([] & Hown & Hr). case_in Hr; [done|].
  destruct (Db.sessions db !! NewSession.session new) eqn:Hnew; [by apply bind_Ok in Hr as (_ & _ & Hr)|].
  apply bind_Ok in Hr as ([seq db1] & Ha & Hr). apply Ok_inj in Hr. injection Hr as _ _ <-.
  apply Named_append_audit in Ha. etransitivity; [|exact Ha]. split; try (by auto). intros [g|s|t]; cbn; auto.
  intros Hs. destruct (decide (NewSession.session new = s)) as [<-|]; [by rewrite lookup_insert_eq|by rewrite lookup_insert_ne].
Qed.
Lemma register_tenant_Named fp now db registration : Named db (snd (register_tenant fp now db registration)).
Proof using Type.
  apply (with_tx_cases fp db _ (Named db)); [done|]. intros b a db' Hr. unfold register_tenant_tx in Hr.
  destruct (Db.tenants db !! _); [by apply bind_Ok in Hr as (_ & _ & Hr)|].
  apply bind_Ok in Hr as (_ & _ & Hr). apply bind_Ok in Hr as (_ & _ & Hr). apply Ok_inj in Hr. injection Hr as _ _ <-.
  set (id := TenantRegistration.id registration).
  assert (forall r t, is_Some (Db.tenants db !! t) -> is_Some (<[id := r]> (Db.tenants db) !! t)) as Hins.
  { intros r t Ht. destruct (decide (id = t)) as [<-|]; [by rewrite lookup_insert_eq|by rewrite lookup_insert_ne]. }
  split; try (by auto).
  - intros [g|s|t]; cbn; auto. intros [Ht|Ht]; [left; by apply Hins|by right].
  - intros t Ht. right. split; [done|]. cbn. apply Hins.
Qed.
Lemma revoke_grant_Named fp now db revoke : Named db (snd (revoke_grant fp now db revoke)).
Proof using Type.
  apply (with_tx_cases fp db _ (Named db)); [done|]. intros b a db' Hr. unfold revoke_grant_tx in Hr.
  destruct (Db.grants db !! _); [|done]. destruct (Db.revocations db !! _); [done|].
  apply bind_Ok in Hr as ([seq db1] & Ha & Hr). apply Ok_inj in Hr. injection Hr as _ _ <-.
  apply Named_append_audit in Ha. etransitivity; [exact Ha|]. split; try (by auto).
  intros gid rv. cbn. rewrite lookup_insert_Some. intros [[<- <-]|[_ Hg]]; [by right|by left].
Qed.
Lemma shred_tenant_Named fp now db tenant : Named db (snd (shred_tenant fp now db tenant)).
Proof using Type.
  apply (with_tx_cases fp db _ (Named db)); [done|]. intros b a db' Hs.
  apply shred_shape in Hs as (_ & _ & _ & dk & rk & _ & _ & _ & _ & ->).
  assert (forall l, owned db l -> owned (set_tombstones <[tenant := TombstoneRecord.mk tenant now]>
    (set_tenants (delete tenant) (set_address_keys (fun k => k ∖ {[tenant]})
       (set_rekey (fun _ => rk) (set_data_keys (fun _ => dk) db))))) l) as Ho.
  { intros [g|s|t]; cbn; auto. destruct (decide (tenant = t)) as [<-|Hne].
    - intros _. right. by rewrite lookup_insert_eq.
    - rewrite lookup_delete_ne, lookup_insert_ne by done. auto. }
  split; try (by auto).
  - intros t r. cbn. rewrite lookup_insert_Some. intros [[<- <-]|[_ Ht]]; [by right|by left].
  - intros t. cbn. rewrite elem_of_difference, elem_of_singleton. intros [Ht Hne]. right. split; [done|].
    by rewrite lookup_delete_ne by congruence.
Qed.
Lemma Named_Rotated db db' :
  Rotated db db' -> (forall t, t ∈ Db.address_keys db' -> t ∈ Db.address_keys db \/ is_Some (Db.tenants db' !! t)) ->
  Named db db'.
Proof using Type.
  intros [HP HT] Ha. destruct (sp_rest _ _ HP) as (Etb & Eg & Er & Es & Ei & El & Ec & Ea).
  assert (forall t, is_Some (Db.tenants db !! t) -> is_Some (Db.tenants db' !! t)) as Ht.
  { intros t Hs. specialize (HT t). destruct (Db.tenants db !! t), (Db.tenants db' !! t); done. }
  split; rewrite ?Etb, ?Er, ?Ec, ?Ea, ?El, ?Ei; auto.
  - intros [g|s|t]; cbn; rewrite ?Eg, ?Es, ?Etb; auto. intros [|]; auto.
  - intros t Hin. destruct (Ha t Hin); auto.
Qed.
Lemma begin_rekey_Named fp now db tenant : Named db (snd (begin_rekey fp now db tenant)).
Proof using Type.
  apply Named_Rotated; [apply begin_rekey_Rotated|].
  apply (with_tx_cases fp db _ (fun db' => forall t, t ∈ Db.address_keys db' ->
    t ∈ Db.address_keys db \/ is_Some (Db.tenants db' !! t))); [by left|]. intros b st db' Hb.
  apply begin_rekey_shape in Hb as (rec & keys & total & Ht & _ & _ & _ & _ & -> & _).
  intros t. cbn. unfold stage_new_key. case_bool_decide; cbn.
  - by left.
  - rewrite elem_of_union, elem_of_singleton. intros [->|Hin]; [right|by left]. by rewrite lookup_insert_eq.
Qed.
Lemma rekey_batch_Named fp now db tenant batch : Inv db -> Named db (snd (rekey_batch fp now db tenant batch)).
Proof using Type.
  intros HI. apply Named_Rotated; [by apply rekey_batch_Rotated|].
  apply (with_tx_cases fp db _ (fun db' => forall t, t ∈ Db.address_keys db' ->
    t ∈ Db.address_keys db \/ is_Some (Db.tenants db' !! t))); [by left|]. intros b st db' Hb.
  pose proof (rekey_batch_shape now db tenant batch HI) as Hs. rewrite Hb in Hs. intros t Ht. left.
  destruct Hs as (rk & rec & _ & [(_ & (-> & _) & _)|(_ & (db1 & n & _ & (_ & _ & E3 & _) & _ & -> & _) & _)]); [done|].
  cbn in Ht. by rewrite E3 in Ht.
Qed.

Lemma exec_Named fp now db op : Inv db -> Owned db -> Named db (exec fp now db op).
Proof using Type.
  intros HI HO. destruct op; cbn [exec].
  - by apply begin_Named.
  - apply transition_Named; [done|]. intros r r' db' [= <- <-]. done.
  - by apply transition_Named, stage_transfer_Named.
  - by apply transition_Named, stage_publish_Named.
  - by apply transition_Named, stage_settle_Named.
  - by apply transition_Named, stage_release_Named.
  - by apply transition_Named, stage_unknown_Named.
  - by apply recover_Named.
  - apply register_tenant_Named.
  - apply (with_tx_cases fp db _ (Named db)); [done|]. intros b a db' Hr. unfold install_root_grant_tx in Hr.
    apply bind_Ok in Hr as (g & _ & Hr). apply bind_Ok in Hr as (_ & _ & Hr).
    apply bind_Ok in Hr as ([staged db1] & Hp & Hr). apply Ok_inj in Hr. destruct staged; [|done].
    injection Hr as _ _ <-. apply put_new_grant_staged in Hp. subst db1. apply Named_insert_grant.
  - apply issue_grant_Named.
  - apply revoke_grant_Named.
  - apply open_session_Named.
  - apply (with_tx_cases fp db _ (Named db)); [done|]. intros b a db' Hr. unfold claim_tx in Hr.
    apply bind_Ok in Hr as (keys & _ & Hr). apply bind_Ok in Hr as (e & _ & Hr).
    destruct e; [done|]. apply Ok_inj in Hr. injection Hr as _ _ <-. by apply Named_same.
  - apply (with_tx_cases fp db _ (Named db)); [done|]. intros b a db' Hr. unfold record_audit_tx in Hr.
    apply bind_Ok in Hr as ([seq db1] & Ha & Hr). apply Ok_inj in Hr. injection Hr as _ _ <-.
    by apply Named_append_audit in Ha.
  - apply shred_tenant_Named.
  - apply begin_rekey_Named.
  - by apply rekey_batch_Named.
Qed.

Lemma run_Owned trace : Typed trace -> Inv (run empty_db trace) /\ Owned (run empty_db trace).
Proof using Type.
  apply (run_ind (fun db => Inv db /\ Owned db)); [split; [apply Inv_empty|apply Owned_empty]|].
  intros fp now db op [HI HO] Ht. split; [by apply exec_Inv|]. by apply (Named_Owned db), HO; apply exec_Named.
Qed.

Lemma Owned_RootReady db : Inv db -> Owned db -> RootReady db.
Proof using Type.
  intros HI [T R L S G _ A]. pose proof (inv_registry _ HI) as [Ht Hs Hk Hd]. split; try done.
  - intros t r Hr. apply (Ht t r Hr).
  - intros g r Hr. apply (inv_grants _ HI g r Hr).
  - intros s r Hr. apply (Hs s r Hr).
  - intros i r Hr. apply (inv_records _ HI i r Hr).
  - intros t r Hr. destruct (Hk t r Hr) as (rec & _ & Hrk). apply Hrk.
  - intros t r Hr. split; [apply (Ht t r Hr)|]. intros id Hret. split; [by apply (to_retiring _ _ _ (Ht t r Hr))|].
    unfold rekey_retiring in Hret. destruct (Db.rekey db !! t) as [rk|] eqn:Hrk; [|done].
    destruct (Hk t rk Hrk) as (rec & Hrec & [_ K2 K3 _]). destruct (RekeyRecord.is_done rk); [done|]. injection Hret as <-.
    assert (rec = r) as -> by congruence. lia.
  - intros t id Hin. destruct (Hd t id Hin) as (rec & Hrec & Hid). split; [|by exists rec].
    pose proof (to_width _ _ _ (Ht t rec Hrec)) as Hw. unfold in_range. destruct Hid as [->|Hret]; [lia|].
    unfold rekey_retiring in Hret. destruct (Db.rekey db !! t) as [rk|] eqn:Hrk; [|done].
    destruct (Hk t rk Hrk) as (rec' & Hrec' & [_ K2 K3 _]). destruct (RekeyRecord.is_done rk); [done|]. injection Hret as <-.
    assert (rec' = rec) as -> by congruence. lia.
Qed.
End ops.

(** ** Properties *)

(** C39. Every store the daemon can reach is one a root rotation can take
    over: along every run, whatever the operations and crashes, every record
    is filed under the id it carries, every ledger belongs to a grant, a
    session, a tenant or a shredded tenant that has a record, and the wrapped
    keys stored are exactly those a live tenant names. So the rotation's
    consistency checks never fail on it. *)
Theorem run_root_ready `{Hashes} (trace : list Event) : Typed trace -> RootReady (run empty_db trace).
Proof. intros Ht. destruct (run_Owned trace Ht). by apply Owned_RootReady. Qed.
