(* ===== verification/Keyring.v ===== *)
(** * Tenant keyrings on the disk ([phylake::store::keyring])

    The logical store names data keys by id; here they are unwrapped from the
    disk and derived, through the handle's in-memory cache. *)
From S2P Require Import Prelude Vocab Ids Payload Epitrope View Budget Lifecycle Records Store StoreAudit Invocation.
From S2P Require Import Transition Invariant Seal RecordKey Keys Disk RootRotation RootRep RootStage.
Local Open Scope Z_scope.

(** [TenantKeyring]. *)
Module Keyring.
Record Keyring : Set := mk {
  active : TenantSealingKeys;
  retiring : option TenantSealingKeys;
  address : AddressKeys;
}.
End Keyring.
Abbreviation Keyring := Keyring.Keyring.
Definition keyring_key_id (k : Keyring) : Z := TenantSealingKeys.key_id (Keyring.active k).
Definition keyring_retiring_id (k : Keyring) : option Z := TenantSealingKeys.key_id <$> Keyring.retiring k.
(** [openers], and its three uses. *)
Definition keyring_openers (pick : TenantSealingKeys -> SealingKey) (k : Keyring) : list SealingKey :=
  let active := pick (Keyring.active k) in
  [active; match Keyring.retiring k with Some r => pick r | None => active end].
Definition blob_openers : Keyring -> list SealingKey := keyring_openers TenantSealingKeys.blob.
Definition meta_openers : Keyring -> list SealingKey := keyring_openers TenantSealingKeys.meta.
Definition audit_openers : Keyring -> list SealingKey := keyring_openers TenantSealingKeys.audit.

Section keyring.
Context `{Kdf} `{Aead} `{StoreCodec}.

(** [Store::tenant_record], [rekey_record] and [tombstone]. *)
Definition disk_tenant_record (keys : StoreKeys) (d : Disk) (t : TenantId) : result StoreError (option TenantRecord) :=
  key ← slot_key (StoreKeys.index keys) (Slot.Tenant t); get_global keys d slot_TENANT key.
Definition disk_rekey_record (keys : StoreKeys) (d : Disk) (t : TenantId) : result StoreError (option RekeyRecord) :=
  key ← slot_key (StoreKeys.index keys) (Slot.Rekey t); get_global keys d slot_REKEY key.
Definition disk_tombstone (keys : StoreKeys) (d : Disk) (t : TenantId) : result StoreError (option TombstoneRecord) :=
  key ← slot_key (StoreKeys.index keys) (Slot.Tombstone t); get_global keys d slot_TOMBSTONE key.

(** [data_key] and [stored_address_keys]. *)
Definition disk_data_key (keys : StoreKeys) (d : Disk) (t : TenantId) (key_id : Z)
    : result StoreError (option TenantDataKey) :=
  key ← slot_key (StoreKeys.index keys) (Slot.DataKey t key_id);
  match disk_get d Keyspace.Keys key with
  | None => Ok None
  | Some wrapped => k ← unwrap_tenant_key (store_kek keys) (TenantId_to_bytes t) wrapped; Ok (Some k)
  end.
Definition disk_address_keys (keys : StoreKeys) (d : Disk) (t : TenantId) : result StoreError (option AddressKeys) :=
  key ← slot_key (StoreKeys.index keys) (Slot.AddressKeys t);
  match disk_get d Keyspace.Keys key with
  | None => Ok None
  | Some wrapped => k ← unwrap_address_keys (store_kek keys) (TenantId_to_bytes t) wrapped; Ok (Some k)
  end.

(** [key_ids] and [absent_tenant]. *)
Definition disk_key_ids (keys : StoreKeys) (d : Disk) (t : TenantId) : result StoreError (option (Z * option Z)) :=
  record ← disk_tenant_record keys d t;
  match record with
  | None => Ok None
  | Some record =>
      rekey ← disk_rekey_record keys d t;
      Ok (Some (TenantRecord.data_key_id record,
                match rekey with
                | Some rekey => if RekeyRecord.is_done rekey then None else Some (RekeyRecord.from_key_id rekey)
                | None => None
                end))
  end.
Definition disk_absent_tenant (keys : StoreKeys) (d : Disk) (t : TenantId) : StoreError :=
  match disk_tombstone keys d t with
  | Ok (Some _) => StoreError.TenantShredded t
  | Ok None => StoreError.TenantMissing t
  | Err error => error
  end.

(** [load_keyring]. *)
Definition sealing_half (key : TenantDataKey) : result StoreError TenantSealingKeys :=
  k ← tenant_derive key; Ok (fst (tenant_split k)).
Definition disk_load_keyring (keys : StoreKeys) (d : Disk) (t : TenantId) (active : Z) (retiring : option Z)
    : result StoreError Keyring :=
  found ← disk_data_key keys d t active;
  key ← ok_or found (StoreError.Inconsistent "tenant data key is missing");
  derived ← tenant_derive key;
  let '(active_keys, derived_address) := tenant_split derived in
  stored ← disk_address_keys keys d t;
  address ← match stored with
            | Some address => Ok address
            | None =>
                _ ← ensure (active =? INITIAL_DATA_KEY_ID)
                      (StoreError.Inconsistent "rotated tenant has no addressing subkeys");
                Ok derived_address
            end;
  retiring ← match retiring with
             | None => Ok None
             | Some id =>
                 found ← disk_data_key keys d t id;
                 key ← ok_or found (StoreError.Inconsistent "retiring tenant data key is missing");
                 half ← sealing_half key;
                 Ok (Some half)
             end;
  Ok (Keyring.mk active_keys retiring address).

(** [tenant_keys]: [reader] is what the caller reads through, [committed] the
    database at the moment the keyring is cached. *)
Definition disk_tenant_keys (keys : StoreKeys) (cache : gmap TenantId Keyring) (reader committed : Disk)
    (t : TenantId) : result StoreError Keyring * gmap TenantId Keyring :=
  match disk_key_ids keys reader t with
  | Err e => (Err e, cache)
  | Ok None => (Err (disk_absent_tenant keys reader t), cache)
  | Ok (Some (active, retiring)) =>
      let cached := match cache !! t with
                    | Some k => if bool_decide (keyring_key_id k = active /\ keyring_retiring_id k = retiring)
                                then Some k else None
                    | None => None
                    end in
      match cached with
      | Some k => (Ok k, cache)
      | None =>
          match disk_load_keyring keys reader t active retiring with
          | Err e => (Err e, cache)
          | Ok k =>
              match disk_key_ids keys committed t with
              | Err e => (Err e, cache)
              | Ok ids => (Ok k, if bool_decide (ids = Some (active, retiring)) then <[t := k]> cache else cache)
              end
          end
      end
  end.
(** [evict_tenant_keys]. *)
Definition evict_tenant_keys (t : TenantId) (cache : gmap TenantId Keyring) : gmap TenantId Keyring := delete t cache.

(** The keyring the key material gives under a pair of key ids. *)
Definition keyring_of (mat : Material) (t : TenantId) (ring : TenantKeyring) : result StoreError Keyring :=
  active ← sealing_half (TenantDataKey.mk (TenantKeyring.key_id ring) (data_key_of mat t (TenantKeyring.key_id ring)));
  retiring ← match TenantKeyring.retiring_id ring with
             | None => Ok None
             | Some id => half ← sealing_half (TenantDataKey.mk id (data_key_of mat t id)); Ok (Some half)
             end;
  Ok (Keyring.mk active retiring (address_keys_of mat t)).

(** The addressing subkeys come from the tenant's first data key. *)
Definition Coherent (mat : Material) : Prop := forall t k,
  tenant_derive (TenantDataKey.mk INITIAL_DATA_KEY_ID (data_key_of mat t INITIAL_DATA_KEY_ID)) = Ok k ->
  snd (tenant_split k) = address_keys_of mat t.
(** Every cached keyring is the one its ids give. *)
Definition CacheOk (mat : Material) (cache : gmap TenantId Keyring) : Prop := forall t k,
  cache !! t = Some k -> keyring_of mat t (TenantKeyring.mk (keyring_key_id k) (keyring_retiring_id k)) = Ok k.
(** No other record of the store has the cell's key. *)
Definition Unaliased (index : bytes) (db : Db) (c : Cell) : Prop := forall c' k,
  present db c' -> cell_ks c' = cell_ks c -> cell_key index c' = Ok k -> cell_key index c = Ok k -> c' = c.
End keyring.

Lemma in_store ks : bool_decide (ks ∈ store_keyspaces) = true -> ks ∈ store_keyspaces.
Proof. apply bool_decide_eq_true_1. Qed.

Section refine.
Context `{KL : KdfLaws} `{AL : AeadLaws} `{StoreCodec}.
Context (keys : StoreKeys) (disk : Disk) (db : Db) (mat : Material) (rest : Disk) (id : Z).
Context (Hkeys : StoreKeysOk id keys) (Hid : in_range u32_max id) (HR : Rep keys disk db mat rest).

(** Reading a record of the disk gives the logical store's record. *)
Lemma get_cell {T} `{StoredRecord T} (c : Cell) (lookup : option T) :
  sealed_cell c -> cell_ks c ∈ store_keyspaces -> Unaliased (StoreKeys.index keys) db c ->
  (lookup = None -> ~ present db c) -> (forall r, lookup = Some r -> present db c) ->
  (forall p, content db c p -> archived lookup p) ->
  forall k, cell_key (StoreKeys.index keys) c = Ok k -> get_global keys disk (cell_slot c) k = Ok lookup.
Proof using KL AL Hkeys Hid HR.
  intros Hs Hks Hu Hn Hp Hc k Hk. unfold get_global, get. fold (cell_ks c).
  destruct (disk_get disk (cell_ks c) k) as [v|] eqn:Hv.
  - destruct (rep_entry _ _ _ _ _ HR _ _ _ Hks Hv) as (c' & Hp' & Hks' & Hk').
    assert (c' = c) as -> by (by apply (Hu c' k)).
    destruct (open_cell keys disk db mat rest id Hkeys Hid HR c k v Hs Hp' Hk Hv) as (p & Ho & Hcont & _).
    destruct (Hc p Hcont) as [Hne Hr]. unfold try_open in Ho.
    destruct (open_bytes _ _ _ _) as [p'|[]] eqn:Hop; try discriminate Ho. injection Ho as ->. cbn [mbind result_bind].
    unfold decode. rewrite Hr. by destruct lookup.
  - destruct lookup as [r|]; [|done]. destruct (rep_cell _ _ _ _ _ HR c (Hp r eq_refl)) as (k' & v & Hk' & Hv' & _).
    congruence.
Qed.
Ltac refine_cell c :=
  let k := fresh "k" in let Hk := fresh "Hk" in
  match goal with |- context [slot_key ?i ?s] => destruct (slot_key_Ok i s) as (k & Hk & _) end;
  rewrite Hk; cbn [mbind result_bind]; apply (get_cell c); try done;
  [by apply in_store|cbn; by intros -> []|cbn; by intros ? ->].
Lemma disk_tenant_record_refines t :
  Unaliased (StoreKeys.index keys) db (Cell.Tenant t) -> disk_tenant_record keys disk t = Ok (Db.tenants db !! t).
Proof using KL AL Hkeys Hid HR. intros Hu. unfold disk_tenant_record. refine_cell (Cell.Tenant t). Qed.
Lemma disk_rekey_record_refines t :
  Unaliased (StoreKeys.index keys) db (Cell.Rekey t) -> disk_rekey_record keys disk t = Ok (Db.rekey db !! t).
Proof using KL AL Hkeys Hid HR. intros Hu. unfold disk_rekey_record. refine_cell (Cell.Rekey t). Qed.
Lemma disk_tombstone_refines t :
  Unaliased (StoreKeys.index keys) db (Cell.Tombstone t) -> disk_tombstone keys disk t = Ok (Db.tombstones db !! t).
Proof using KL AL Hkeys Hid HR. intros Hu. unfold disk_tombstone. refine_cell (Cell.Tombstone t). Qed.

(** The two records [key_ids] reads, and the absence it may report. *)
Record Readable (t : TenantId) : Prop := {
  rd_tenant : Unaliased (StoreKeys.index keys) db (Cell.Tenant t);
  rd_rekey : Unaliased (StoreKeys.index keys) db (Cell.Rekey t);
  rd_tombstone : Unaliased (StoreKeys.index keys) db (Cell.Tombstone t);
}.
Lemma disk_key_ids_refines t : Readable t -> disk_key_ids keys disk t = Ok (key_ids db t).
Proof using KL AL Hkeys Hid HR.
  intros [Ht Hr _]. unfold disk_key_ids, key_ids. rewrite disk_tenant_record_refines by done. cbn [mbind result_bind].
  destruct (Db.tenants db !! t) as [r|]; [|done]. rewrite disk_rekey_record_refines by done. cbn [mbind result_bind].
  unfold rekey_retiring. by destruct (Db.rekey db !! t).
Qed.
Lemma disk_absent_tenant_refines t : Readable t -> disk_absent_tenant keys disk t = absent_tenant db t.
Proof using KL AL Hkeys Hid HR.
  intros [_ _ Ht]. unfold disk_absent_tenant, absent_tenant. rewrite disk_tombstone_refines by done.
  by destruct (Db.tombstones db !! t).
Qed.

Context (HD : RootReady db) (HM : MaterialOk db mat).

Lemma kek_range : in_range u32_max (StoreKek.root_key_id (store_kek keys)).
Proof using Hkeys Hid. cbn. by rewrite (sk_id _ _ Hkeys). Qed.
Lemma disk_data_key_present t kid : (t, kid) ∈ Db.data_keys db ->
  disk_data_key keys disk t kid = Ok (Some (TenantDataKey.mk kid (data_key_of mat t kid))).
Proof using KL AL Hkeys Hid HR HD HM.
  intros Hp. destruct (rep_cell _ _ _ _ _ HR (Cell.DataKey t kid) Hp) as (k & v & Hk & Hv & n & Hn & Hw).
  unfold disk_data_key. cbn [cell_key] in Hk. rewrite Hk. cbn [mbind result_bind].
  change (cell_ks (Cell.DataKey t kid)) with Keyspace.Keys in Hv. rewrite Hv.
  set (key := TenantDataKey.mk kid (data_key_of mat t kid)) in *.
  destruct (wrapped_key_unwraps_only_in_place (store_kek keys) (TenantId_to_bytes t) (TenantId_to_bytes t) n v key key
    kek_range (proj1 (rr_keys _ HD t kid Hp)) (ma_data _ _ HM t kid Hp) Hn Hw) as [-> _]. done.
Qed.
Lemma disk_address_keys_refines t : is_Some (Db.tenants db !! t) ->
  disk_address_keys keys disk t = Ok (if bool_decide (t ∈ Db.address_keys db) then Some (address_keys_of mat t) else None).
Proof using KL AL Hkeys Hid HR HM.
  intros Ht. unfold disk_address_keys. set (c := Cell.AddressKeys t).
  destruct (slot_key_Ok (StoreKeys.index keys) (Slot.AddressKeys t)) as (k & Hk & _). rewrite Hk. cbn [mbind result_bind].
  case_bool_decide as Hp.
  - destruct (rep_cell _ _ _ _ _ HR c Hp) as (k' & v & Hk' & Hv & n & Hn & Hw). cbn [cell_key c] in Hk'.
    assert (k' = k) as -> by congruence. change (cell_ks c) with Keyspace.Keys in Hv. rewrite Hv.
    by rewrite (unwrap_wrapped_address _ _ _ _ _ kek_range (ma_index _ _ HM t Hp) (ma_addr _ _ HM t Hp) Hn Hw).
  - destruct (disk_get disk Keyspace.Keys k) as [v|] eqn:Hv; [|done]. destruct Hp.
    destruct (rep_entry _ _ _ _ _ HR Keyspace.Keys k v) as (c' & Hp' & Hks' & Hk'); [by apply in_store|done|].
    assert (c' = c) as ->; [|done].
    apply (di_cells _ _ _ (rep_distinct _ _ _ _ _ HR) c' c k); try done. by right.
Qed.

Lemma sealing_half_Ok key : exists half, sealing_half key = Ok half /\ TenantSealingKeys.key_id half = TenantDataKey.id key.
Proof using KL.
  unfold sealing_half, tenant_derive. set (hk := hkdf_extract _ _).
  destruct (subkey_derive_Ok hk label_TENANT_BLOB) as (? & -> & _), (subkey_derive_Ok hk label_TENANT_BLOB_ADDR) as (? & -> & _),
    (subkey_derive_Ok hk label_TENANT_META) as (? & -> & _), (subkey_derive_Ok hk label_TENANT_AUDIT) as (? & -> & _),
    (subkey_derive_Ok hk label_TENANT_INDEX) as (? & -> & _). cbn [mbind result_bind]. by eexists.
Qed.
Lemma keyring_of_Ok t ring : exists k, keyring_of mat t ring = Ok k /\
  keyring_key_id k = TenantKeyring.key_id ring /\ keyring_retiring_id k = TenantKeyring.retiring_id ring.
Proof using KL.
  destruct ring as [active retiring]. unfold keyring_of. cbn [TenantKeyring.key_id TenantKeyring.retiring_id].
  destruct (sealing_half_Ok (TenantDataKey.mk active (data_key_of mat t active))) as (h & -> & Hh). cbn [mbind result_bind].
  destruct retiring as [r|]; cbn [mbind result_bind].
  - destruct (sealing_half_Ok (TenantDataKey.mk r (data_key_of mat t r))) as (h2 & -> & Hh2). cbn [mbind result_bind].
    eexists. split; [done|]. unfold keyring_key_id, keyring_retiring_id. split; [done|]. by apply (f_equal Some).
  - by eexists.
Qed.

(** Loading unwraps and derives exactly what the logical keyring names. *)
Lemma disk_load_keyring_refines t r ring : Coherent mat ->
  Db.tenants db !! t = Some r -> load_keyring db t (TenantRecord.data_key_id r) (rekey_retiring db t) = Ok ring ->
  disk_load_keyring keys disk t (TenantRecord.data_key_id r) (rekey_retiring db t) = keyring_of mat t ring.
Proof using KL AL Hkeys Hid HR HD HM.
  intros Hcoh Ht Hl. unfold load_keyring in Hl. apply bind_Ok in Hl as ([] & Ha%ensure_Ok & Hl).
  apply bind_Ok in Hl as ([] & Hadr%ensure_Ok & Hl). apply bind_Ok in Hl as ([] & Hret & Hl). apply Ok_inj in Hl. subst ring.
  apply bool_decide_eq_true in Ha. unfold disk_load_keyring, keyring_of. cbn [TenantKeyring.key_id TenantKeyring.retiring_id].
  rewrite disk_data_key_present by done. cbn [mbind result_bind ok_or].
  set (key := TenantDataKey.mk (TenantRecord.data_key_id r) _).
  destruct (sealing_half_Ok key) as (half & Hhalf & _). unfold sealing_half in Hhalf.
  destruct (tenant_derive key) as [derived|e] eqn:Hd; [|done]. cbn [mbind result_bind].
  destruct (tenant_split derived) as [sealing address] eqn:Hsp. 
  assert (sealing_half key = Ok sealing) as -> by (unfold sealing_half; rewrite Hd; cbn [mbind result_bind]; by rewrite Hsp).
  rewrite disk_address_keys_refines by (by rewrite Ht). cbn [mbind result_bind].
  assert ((match (if bool_decide (t ∈ Db.address_keys db) then Some (address_keys_of mat t) else None) with
    | Some address => Ok address
    | None => _ ← ensure (TenantRecord.data_key_id r =? INITIAL_DATA_KEY_ID)
                    (StoreError.Inconsistent "rotated tenant has no addressing subkeys"); Ok address
    end) = Ok (address_keys_of mat t)) as ->.
  { case_bool_decide as Hin; [done|]. cbn [orb] in Hadr. rewrite Hadr.
    cbn [ensure mbind result_bind]. apply Z.eqb_eq in Hadr. specialize (Hcoh t derived).
    unfold key in Hd. rewrite Hadr in Hd. specialize (Hcoh Hd). rewrite Hsp in Hcoh. by rewrite <- Hcoh. }
  cbn [mbind result_bind]. destruct (rekey_retiring db t) as [kid|]; [|done]. apply ensure_Ok, bool_decide_eq_true in Hret.
  by rewrite disk_data_key_present.
Qed.
End refine.

(** ** Properties *)
Section properties.
Context `{KL : KdfLaws} `{AL : AeadLaws} `{StoreCodec} `{Hashes}.

(** The keyring read from disk is the logical one. On a disk that holds a
    store with the invariant, looking a tenant's keyring up, through a cache
    of keyrings loaded before, returns the keys derived from the data keys
    the tenant's records name (the active one, the retiring one while a
    rotation runs, the addressing subkeys of the first), and for an absent
    tenant the error that says whether it was shredded; the cache stays
    sound, so it can never serve keys of other ids. *)
Theorem keyring_refines (keys : StoreKeys) (disk committed : Disk) (db db' : Db) (mat : Material) (rest rest' : Disk)
    (cache : gmap TenantId Keyring) (t : TenantId) :
  StoreKeysOk (StoreKeys.root_key_id keys) keys -> in_range u32_max (StoreKeys.root_key_id keys) ->
  Rep keys disk db mat rest -> Rep keys committed db' mat rest' ->
  Readable keys db t -> Readable keys db' t ->
  Inv db -> RootReady db -> MaterialOk db mat -> Coherent mat -> CacheOk mat cache ->
  let '(result, cache') := disk_tenant_keys keys cache disk committed t in
  CacheOk mat cache' /\
  result = (ring ← tenant_keys db t; keyring_of mat t ring).
Proof using All.
  intros Hk Hid HR HR' Hrd Hrd' HI HD HM Hcoh Hcache. unfold disk_tenant_keys, tenant_keys.
  rewrite (disk_key_ids_refines keys disk db mat rest (StoreKeys.root_key_id keys)) by done.
  rewrite (disk_key_ids_refines keys committed db' mat rest' (StoreKeys.root_key_id keys)) by done.
  destruct (key_ids db t) as [[active retiring]|] eqn:Hids.
  2: { cbn [mbind result_bind]. split; [done|]. by rewrite (disk_absent_tenant_refines keys disk db mat rest (StoreKeys.root_key_id keys)). }
  unfold key_ids in Hids. destruct (Db.tenants db !! t) as [r|] eqn:Ht; [|done]. injection Hids as <- <-.
  pose proof (Registry_keys db t r (inv_registry db HI) Ht) as Hreg. unfold tenant_keys, key_ids in Hreg. rewrite Ht in Hreg.
  rewrite Hreg. cbn [mbind result_bind]. set (ring := TenantKeyring.mk (TenantRecord.data_key_id r) (rekey_retiring db t)) in *.
  destruct (keyring_of_Ok mat t ring) as (k & Hkr & Hki & Hkri).
  rewrite (disk_load_keyring_refines keys disk db mat rest (StoreKeys.root_key_id keys) Hk Hid HR HD HM t r ring Hcoh Ht Hreg), Hkr.
  assert (CacheOk mat (<[t := k]> cache)) as Hins.
  { intros t' k' [[<- <-]|[_ Hc]]%lookup_insert_Some; [by rewrite Hki, Hkri|by apply Hcache]. }
  destruct (cache !! t) as [k'|] eqn:Hc; [case_bool_decide as He|].
  - split; [done|]. destruct He as [He1 He2]. pose proof (Hcache t k' Hc) as Hk'. rewrite He1, He2 in Hk'. fold ring in Hk'. congruence.
  - split; [by case_bool_decide|done].
  - split; [by case_bool_decide|done].
Qed.
End properties.
