(* ===== verification/Proc.v ===== *)
(** * Processes that run one system call at a time

    A computation over a state of the outside world makes its calls one by
    one; the environment decides of each whether it happens, fails, or never
    happens because the process died. [hoare] is a logic for them: what holds
    when a computation returns, and what holds wherever it stops. *)
From S2P Require Import Prelude.

(** The error numbers the code tells apart. *)
Module Errno.
Inductive Errno : Set := INVAL | NOSYS | OPNOTSUPP | NOENT | LOOP | NXIO | EXIST | CONNREFUSED | Other.
End Errno.
Abbreviation Errno := Errno.Errno.
(** What becomes of one step. *)
Module Fault.
Inductive Fault : Set := Fine | Fail (errno : Errno) | Crash.
End Fault.
Abbreviation Fault := Fault.Fault.
(** What one attempt at a lock gives. *)
Module LockTry.
Inductive LockTry : Set := Taken | WouldBlock | Error.
End LockTry.
Abbreviation LockTry := LockTry.LockTry.

(** The environment: the fate of each step, and of each lock attempt. *)
Class Env : Type := { fate : nat -> Fault; lock_fate : nat -> LockTry }.
(** An environment in which every step happens. *)
Definition calm : Env := {| fate _ := Fault.Fine; lock_fate _ := LockTry.Taken |}.

(** A computation over the world [T] with errors [E]; [None] is a process
    that died. *)
Definition Proc (T E A : Type) : Type := T -> nat -> option (result E A) * T * nat.
#[global] Instance Proc_ret T E : MRet (Proc T E) := fun A a w i => (Some (Ok a), w, i).
#[global] Instance Proc_bind T E : MBind (Proc T E) := fun A B f m w i =>
  match m w i with
  | (Some (Ok a), w, i) => f a w i
  | (Some (Err e), w, i) => (Some (Err e), w, i)
  | (None, w, i) => (None, w, i)
  end.
Definition proc_lift {T E A : Type} (r : result E A) : Proc T E A := fun w i => (Some r, w, i).
Definition proc_read {T E : Type} : Proc T E T := fun w i => (Some (Ok w), w, i).
Fixpoint proc_each {T E A : Type} (f : A -> Proc T E unit) (l : list A) : Proc T E unit :=
  match l with
  | [] => mret tt
  | a :: l => _ ← f a; proc_each f l
  end.
(** One step that is [f] when it happens; [e] is its error. *)
Definition step `{Env} {T E : Type} (e : Errno -> E) (f : T -> T) : Proc T E unit := fun w i =>
  match fate i with
  | Fault.Fine => (Some (Ok tt), f w, S i)
  | Fault.Fail errno => (Some (Err (e errno)), w, S i)
  | Fault.Crash => (None, w, S i)
  end.

(** ** The logic *)

(** From [P], the computation returns in [Q], or fails or dies in [R]. *)
Definition hoare {T E A : Type} (P : T -> Prop) (m : Proc T E A) (Q : A -> T -> Prop) (R : T -> Prop) : Prop :=
  forall fs i, P fs -> match m fs i with (Some (Ok a), fs', _) => Q a fs' | (_, fs', _) => R fs' end.

Section rules.
Context `{Env} {T E A B : Type}.
Implicit Types (P R : T -> Prop).

Lemma hoare_ret P R (a : A) (Q : A -> T -> Prop) : (forall fs, P fs -> Q a fs) -> hoare (E := E) P (mret a) Q R.
Proof using Type. intros HQ fs i HP. by apply HQ. Qed.
Lemma hoare_bind P R (m : Proc T E A) (f : A -> Proc T E B) (Q : A -> T -> Prop) (Q' : B -> T -> Prop) :
  hoare P m Q R -> (forall a, hoare (Q a) (f a) Q' R) -> hoare P (m ≫= f) Q' R.
Proof using Type.
  intros Hm Hf fs i HP. specialize (Hm fs i HP). unfold mbind, Proc_bind.
  destruct (m fs i) as [[[[a|e]|] fs'] i']; [by apply Hf|done|done].
Qed.
Lemma hoare_conseq (P P' : T -> Prop) (Q Q' : A -> T -> Prop) (R R' : T -> Prop) (m : Proc T E A) :
  (forall fs, P' fs -> P fs) -> (forall a fs, Q a fs -> Q' a fs) -> (forall fs, R fs -> R' fs) ->
  hoare P m Q R -> hoare P' m Q' R'.
Proof using Type.
  intros HP HQ HR Hm fs i HP'. specialize (Hm fs i (HP fs HP')).
  destruct (m fs i) as [[[[a|e]|] fs'] i']; auto.
Qed.
Lemma hoare_lift P R (r : result E A) (Q : A -> T -> Prop) :
  (forall a fs, r = Ok a -> P fs -> Q a fs) -> (forall fs, P fs -> R fs) -> hoare P (proc_lift r) Q R.
Proof using Type. intros HQ HR fs i HP. unfold proc_lift. destruct r; auto. Qed.
Lemma hoare_read P R : (forall fs, P fs -> R fs) -> hoare (E := E) P proc_read (fun a fs => a = fs /\ P fs) R.
Proof using Type. by intros HR fs i HP. Qed.
Lemma hoare_step P R (e : Errno -> E) (f : T -> T) (Q : unit -> T -> Prop) :
  (forall fs, P fs -> Q tt (f fs)) -> (forall fs, P fs -> R fs) -> hoare P (step e f) Q R.
Proof using Type. intros HQ HR fs i HP. unfold step. destruct (fate i); auto. Qed.
(** A computation that only reads keeps what holds. *)
Lemma hoare_noop P R (e : Errno -> E) : (forall fs, P fs -> R fs) -> hoare P (step e id) (fun _ => P) R.
Proof using Type. intros HR. by apply hoare_step. Qed.
End rules.
Lemma hoare_each {T E A : Type} (f : A -> Proc T E unit) (I : list A -> T -> Prop) (R : T -> Prop) (l : list A) :
  (forall done a todo, l = done ++ a :: todo -> hoare (I done) (f a) (fun _ => I (done ++ [a])) R) ->
  hoare (I []) (proc_each f l) (fun _ => I l) R.
Proof.
  intros Hf. assert (forall todo done, l = done ++ todo -> hoare (I done) (proc_each f todo) (fun _ => I l) R) as Hgen;
    [|by apply (Hgen l [])].
  induction todo as [|a todo IH]; intros done Hl; cbn [proc_each].
  - apply hoare_ret. intros fs. by rewrite Hl, app_nil_r.
  - eapply hoare_bind; [by eapply Hf|]. intros []. apply IH. by rewrite <- app_assoc.
Qed.


(** ** Inversion: how a computation returned *)
Section inversion.
Context `{Env} {T E A B : Type}.

Lemma proc_bind_Ok (m : Proc T E A) (f : A -> Proc T E B) w i b w' j :
  (m ≫= f) w i = (Some (Ok b), w', j) <->
  exists a w1 k, m w i = (Some (Ok a), w1, k) /\ f a w1 k = (Some (Ok b), w', j).
Proof using Type.
  unfold mbind, Proc_bind. split.
  - destruct (m w i) as [[[[a|e]|] w1] k]; [|done|done]. by exists a, w1, k.
  - by intros (a & w1 & k & -> & Hf).
Qed.
Lemma proc_lift_Ok (r : result E A) (w : T) i a w' j :
  proc_lift r w i = (Some (Ok a), w', j) <-> r = Ok a /\ w' = w /\ j = i.
Proof using Type. unfold proc_lift. naive_solver. Qed.
Lemma proc_ret_Ok (a : A) (w : T) i b w' j :
  (mret a : Proc T E A) w i = (Some (Ok b), w', j) <-> b = a /\ w' = w /\ j = i.
Proof using Type. unfold mret, Proc_ret. naive_solver. Qed.
Lemma step_Ok (e : Errno -> E) (f : T -> T) w i a w' j :
  step e f w i = (Some (Ok a), w', j) <-> fate i = Fault.Fine /\ w' = f w /\ j = S i.
Proof using Type. unfold step. destruct a, (fate i); naive_solver. Qed.
End inversion.
