(* ===== verification/DiskView.v ===== *)
(** * Deciding from the disk ([phylake::store::view])

    The store's view reads sealed records from the disk. It is an instance of
    the interface the decisions are made against, and answers what the
    logical store's view answers, so that every decision is the same. *)
From S2P Require Import Prelude Vocab Ids Payload Epitrope Origin View Chain Issue Budget Decision Revoke Lifecycle.
From S2P Require Import Records Store Seal RecordKey Keys Disk RootRotation RootRep RootStage Keyring.
Local Open Scope Z_scope.

(** ** Views that agree *)
Record Agree {W W' V : Type} `{GrantView W V} `{GrantView W' V} `{LedgerView W V} `{LedgerView W' V} (w : W) (w' : W') : Prop := {
  ag_grant g : view_grant w g = view_grant w' g;
  ag_revocation g : view_revocation w g = view_revocation w' g;
  ag_session s : view_session_owner w s = view_session_owner w' s;
  ag_parent t : view_tenant_parent w t = view_tenant_parent w' t;
  ag_used l : view_used w l = view_used w' l;
  ag_session_ceilings s : view_session_ceilings w s = view_session_ceilings w' s;
  ag_tenant_ceilings t : view_tenant_ceilings w t = view_tenant_ceilings w' t;
}.
Lemma bind_ext {E A B : Type} (m m' : result E A) (f f' : A -> result E B) :
  m = m' -> (forall a, f a = f' a) -> m ≫= f = m' ≫= f'.
Proof. intros -> Hf. destruct m'; [apply Hf|done]. Qed.
Lemma collect_ext {E A B : Type} (f f' : A -> result E B) l : (forall a, f a = f' a) -> collect f l = collect f' l.
Proof. intros Hf. induction l as [|a l IH]; [done|]. cbn. by rewrite Hf, IH. Qed.

(** Decisions through views that agree are the same. *)
Section agree.
Context {W W' V : Type} `{GrantView W V} `{GrantView W' V} `{LedgerView W V} `{LedgerView W' V}.
Context (w : W) (w' : W') (HA : Agree (V := V) w w').
Ltac step_ext := apply bind_ext; [|intros ?].

Lemma load_loop_agree fuel : forall g, load_loop fuel w g = load_loop fuel w' g.
Proof using HA.
  induction fuel as [|fuel IH]; intros g; [done|]. cbn [load_loop]. destruct (Grant.parent g) as [p|]; [|done].
  rewrite (ag_grant _ _ HA). destruct (_ ≫= _); [|done]. by rewrite IH.
Qed.
Lemma check_links_agree now links : check_links w now links = check_links w' now links.
Proof using HA.
  induction links as [|l links IH]; [done|]. cbn [check_links]. rewrite (ag_revocation _ _ HA). step_ext; [done|].
  by destruct (link_code _ _ _).
Qed.
Lemma check_chain_agree g now : check_chain w g now = check_chain w' g now.
Proof using HA.
  unfold check_chain, load_chain. rewrite load_loop_agree. step_ext; [done|]. by rewrite check_links_agree.
Qed.
Lemma lineage_loop_agree rounds t a : forall c, lineage_loop rounds w t a c = lineage_loop rounds w' t a c.
Proof using HA.
  induction rounds as [|rounds IH]; intros c; [done|]. cbn [lineage_loop]. destruct (bool_decide _); [done|].
  rewrite (ag_parent _ _ HA). step_ext; [done|]. by case_match.
Qed.
Lemma in_lineage_agree t a : in_lineage w t a = in_lineage w' t a.
Proof using HA. apply lineage_loop_agree. Qed.
Lemma designated_chain_agree t g cap now : designated_chain w t g cap now = designated_chain w' t g cap now.
Proof using HA.
  unfold designated_chain. rewrite (ag_grant _ _ HA). step_ext; [done|]. case_match; [|done]. destruct (negb _); [done|].
  by rewrite check_chain_agree.
Qed.
Lemma links_admit_agree o s links : links_admit w o s links = links_admit w' o s links.
Proof using HA.
  induction links as [|l links IH]; [done|]. cbn [links_admit]. step_ext; [|by rewrite IH].
  destruct (Grant.session_scope l); [apply in_lineage_agree|done].
Qed.
Lemma check_session_agree t chain s : check_session w t chain s = check_session w' t chain s.
Proof using HA.
  unfold check_session. rewrite (ag_session _ _ HA). step_ext; [done|]. case_match; [|done]. by rewrite links_admit_agree.
Qed.
Lemma ledger_states_agree t chain s : ledger_states w t chain s = ledger_states w' t chain s.
Proof using HA.
  unfold ledger_states. rewrite (ag_tenant_ceilings _ _ HA), (ag_used _ _ HA).
  rewrite (collect_ext (grant_ledger w t) (grant_ledger w' t)) by (intros g; unfold grant_ledger; by rewrite (ag_used _ _ HA)).
  step_ext; [done|]. step_ext; [|done]. destruct s as [[s o]|]; [|done]. cbn [session_ledger].
  by rewrite (ag_session_ceilings _ _ HA), (ag_used _ _ HA).
Qed.
Lemma authorize_agree request now : authorize w request now = authorize w' request now.
Proof using HA.
  destruct request as [t g cap target session declared]. cbn [authorize]. destruct (_ && _); [done|].
  rewrite designated_chain_agree. step_ext; [done|]. case_match; [|done]. destruct (negb _); [done|]. step_ext.
  - destruct session as [s|]; [|done]. by rewrite check_session_agree.
  - case_match; [|done]. destruct (negb _); [done|]. unfold reserve_for. by rewrite ledger_states_agree.
Qed.
Lemma sessions_owned_agree h l : sessions_owned w h l = sessions_owned w' h l.
Proof using HA.
  induction l as [|s l IH]; [done|]. cbn [sessions_owned]. rewrite (ag_session _ _ HA). step_ext; [done|]. step_ext; [|by rewrite IH].
  case_match; [apply in_lineage_agree|done].
Qed.
Lemma check_issue_agree context request now : check_issue w context request now = check_issue w' context request now.
Proof using HA.
  destruct context as [issuer designated child]. cbn [check_issue]. rewrite (ag_grant _ _ HA). step_ext; [done|].
  case_match; [|done]. destruct (negb _); [done|]. rewrite check_chain_agree. step_ext; [done|]. case_match; [|done].
  destruct (negb _); [done|]. case_match; [done|]. case_match; [|done]. case_match; [|done].
  rewrite (ag_used _ _ HA). step_ext; [done|]. step_ext; [|done]. unfold narrowing_violation, session_scope_within. step_ext; [|done].
  repeat case_match; try done; [apply in_lineage_agree|apply sessions_owned_agree].
Qed.
Lemma subtree_loop_agree rounds root : forall c, subtree_loop rounds w root c = subtree_loop rounds w' root c.
Proof using HA.
  induction rounds as [|rounds IH]; intros c; [done|]. cbn [subtree_loop]. destruct (bool_decide _); [done|].
  rewrite (ag_grant _ _ HA). step_ext; [done|]. case_match; [|done]. destruct (bool_decide _); [|done]. by case_match.
Qed.
Lemma check_revoke_agree t designated target now : check_revoke w t designated target now = check_revoke w' t designated target now.
Proof using HA.
  unfold check_revoke, in_subtree. rewrite designated_chain_agree, subtree_loop_agree, (ag_revocation _ _ HA). done.
Qed.
End agree.

(** ** The view *)

(** [View]: the store's keys and the transaction or snapshot it reads. *)
Module Reader.
Record Reader : Type := mk { keys : StoreKeys; disk : Disk }.
End Reader.
Abbreviation Reader := Reader.Reader.

Section view.
Context `{Kdf} `{Aead} `{StoreCodec}.

Definition disk_grant_record (r : Reader) (g : GrantId) : result StoreError (option GrantRecord) :=
  key ← slot_key (StoreKeys.index (Reader.keys r)) (Slot.Grant g);
  get_global (Reader.keys r) (Reader.disk r) slot_GRANT key.
Definition disk_revocation_record (r : Reader) (g : GrantId) : result StoreError (option RevocationRecord) :=
  key ← slot_key (StoreKeys.index (Reader.keys r)) (Slot.Revocation g);
  get_global (Reader.keys r) (Reader.disk r) slot_REVOCATION key.
Definition disk_session_record (r : Reader) (s : SessionId) : result StoreError (option SessionRecord) :=
  key ← slot_key (StoreKeys.index (Reader.keys r)) (Slot.Session s);
  get_global (Reader.keys r) (Reader.disk r) slot_SESSION key.
Definition disk_ledger (r : Reader) (l : LedgerRef) : result StoreError Cost :=
  key ← slot_key (StoreKeys.index (Reader.keys r)) (Slot.Ledger l);
  record ← get_global (Reader.keys r) (Reader.disk r) slot_LEDGER key;
  Ok (match record with Some record => LedgerRecord.used record | None => cost_default end).
Definition disk_view_grant (r : Reader) (g : GrantId) : result StoreError (option Grant) :=
  record ← disk_grant_record r g; grant_of_record record.
Definition disk_view_revocation (r : Reader) (g : GrantId) : result StoreError (option Revocation) :=
  record ← disk_revocation_record r g; Ok (option_map to_revocation record).
Definition disk_view_session_owner (r : Reader) (s : SessionId) : result StoreError (option TenantId) :=
  record ← disk_session_record r s; Ok (option_map SessionRecord.owner record).
Definition disk_view_tenant_parent (r : Reader) (t : TenantId) : result StoreError (option TenantId) :=
  record ← disk_tenant_record (Reader.keys r) (Reader.disk r) t; Ok (match record with Some record => TenantRecord.parent record | None => None end).
Definition disk_view_used (r : Reader) (id : LedgerId) : result StoreError Cost :=
  ledger ← ok_or (from_ledger_id id) (StoreError.Inconsistent "ledger kind has no stored form");
  disk_ledger r ledger.
Definition disk_view_session_ceilings (r : Reader) (s : SessionId) : result StoreError Ceilings :=
  record ← disk_session_record r s;
  Ok (match record with Some record => SessionRecord.ceilings record | None => ceilings_default end).
Definition disk_view_tenant_ceilings (r : Reader) (t : TenantId) : result StoreError Ceilings :=
  record ← disk_tenant_record (Reader.keys r) (Reader.disk r) t;
  Ok (match record with Some record => TenantRecord.ceilings record | None => ceilings_default end).
(** [GrantView] and [LedgerView] for [View] and, through it, for
    [StoreSnapshot]. *)
#[global] Instance Reader_GrantView : GrantView Reader StoreError := {|
  view_grant := disk_view_grant;
  view_revocation := disk_view_revocation;
  view_session_owner := disk_view_session_owner;
  view_tenant_parent := disk_view_tenant_parent;
|}.
#[global] Instance Reader_LedgerView : LedgerView Reader StoreError := {|
  view_used := disk_view_used;
  view_session_ceilings := disk_view_session_ceilings;
  view_tenant_ceilings := disk_view_tenant_ceilings;
|}.
(** [TenantDirectory::tenant]. *)
Definition disk_directory_tenant (r : Reader) (t : TenantId) : result StoreError (option TenantEntry) :=
  record ← disk_tenant_record (Reader.keys r) (Reader.disk r) t;
  Ok (option_map (fun r => TenantEntry.mk (TenantRecord.id r) (TenantRecord.class r) (TenantRecord.verifying_key r)
                             (TenantRecord.bound_uids r) (TenantRecord.parent r)) record).
End view.

(** The records a decision reads. *)
Definition decision_cell (c : Cell) : Prop :=
  match c with Cell.Tenant _ | Cell.Grant _ | Cell.Revocation _ | Cell.Session _ | Cell.Ledger _ => True | _ => False end.

Section refine.
Context `{KL : KdfLaws} `{AL : AeadLaws} `{StoreCodec}.
Context (keys : StoreKeys) (disk : Disk) (db : Db) (mat : Material) (rest : Disk).
Context (Hkeys : StoreKeysOk (StoreKeys.root_key_id keys) keys) (Hid : in_range u32_max (StoreKeys.root_key_id keys)).
Context (HR : Rep keys disk db mat rest) (HU : forall c, decision_cell c -> Unaliased (StoreKeys.index keys) db c).
Let reader : Reader := Reader.mk keys disk.

Lemma disk_cell {T} `{StoredRecord T} (c : Cell) (slot : Slot) (lookup : option T) :
  cell_key (StoreKeys.index keys) c = slot_key (StoreKeys.index keys) slot ->
  decision_cell c -> sealed_cell c -> cell_ks c ∈ store_keyspaces ->
  (lookup = None -> ~ present db c) -> (forall r, lookup = Some r -> present db c) ->
  (forall p, content db c p -> archived lookup p) ->
  (key ← slot_key (StoreKeys.index keys) slot; get_global keys disk (cell_slot c) key) = Ok lookup.
Proof using KL AL Hkeys Hid HR HU.
  intros Hkey Hdc Hs Hks Hn Hp Hc. destruct (slot_key_Ok (StoreKeys.index keys) slot) as (k & Hk & _). rewrite Hk. cbn [mbind result_bind].
  eapply get_cell; try done; [by apply HU|]. by rewrite Hkey.
Qed.
Ltac by_cell c := apply (disk_cell c); try done; [by apply in_store|cbn; by intros -> []|cbn; by intros ? ->].
Lemma disk_grant_record_refines g : disk_grant_record reader g = Ok (Db.grants db !! g).
Proof using KL AL Hkeys Hid HR HU. unfold disk_grant_record. by_cell (Cell.Grant g). Qed.
Lemma disk_revocation_record_refines g : disk_revocation_record reader g = Ok (Db.revocations db !! g).
Proof using KL AL Hkeys Hid HR HU. unfold disk_revocation_record. by_cell (Cell.Revocation g). Qed.
Lemma disk_session_record_refines s : disk_session_record reader s = Ok (Db.sessions db !! s).
Proof using KL AL Hkeys Hid HR HU. unfold disk_session_record. by_cell (Cell.Session s). Qed.
Lemma disk_tenant_refines t : disk_tenant_record keys disk t = Ok (Db.tenants db !! t).
Proof using KL AL Hkeys Hid HR HU. apply (disk_tenant_record_refines keys disk db mat rest (StoreKeys.root_key_id keys)); [done..|by apply HU]. Qed.
Lemma disk_ledger_refines l : disk_ledger reader l = Ok (view_ledger db l).
Proof using KL AL Hkeys Hid HR HU.
  unfold disk_ledger, view_ledger. destruct (slot_key_Ok (StoreKeys.index keys) (Slot.Ledger l)) as (k & Hk & _).
  cbn [Reader.keys Reader.disk reader]. rewrite Hk. cbn [mbind result_bind].
  assert (get_global keys disk slot_LEDGER k = Ok (Db.ledgers db !! l)) as ->; [|done].
  apply (get_cell keys disk db mat rest (StoreKeys.root_key_id keys) Hkeys Hid HR (Cell.Ledger l)); try done;
    [by apply in_store|by apply HU|cbn; by intros -> []|cbn; by intros ? ->].
Qed.
Lemma reader_agrees : Agree (V := StoreError) reader db.
Proof using KL AL Hkeys Hid HR HU.
  split; intros x; cbn [view_grant view_revocation view_session_owner view_tenant_parent view_used view_session_ceilings
    view_tenant_ceilings Reader_GrantView Reader_LedgerView Db_GrantView Db_LedgerView];
    unfold disk_view_grant, disk_view_revocation, disk_view_session_owner, disk_view_tenant_parent, disk_view_used,
      disk_view_session_ceilings, disk_view_tenant_ceilings; cbn [Reader.keys Reader.disk reader].
  - by rewrite disk_grant_record_refines.
  - by rewrite disk_revocation_record_refines.
  - by rewrite disk_session_record_refines.
  - by rewrite disk_tenant_refines.
  - destruct (from_ledger_id x); [|done]. cbn. by rewrite disk_ledger_refines.
  - by rewrite disk_session_record_refines.
  - by rewrite disk_tenant_refines.
Qed.
End refine.

(** ** Properties *)
Section properties.
Context `{KL : KdfLaws} `{AL : AeadLaws} `{StoreCodec}.

(** C11. Decisions are made on what the disk holds. Against a disk that holds
    a store sealed under its keys, reading and opening sealed records as they
    are asked for, authorizing a call, issuing a grant, revoking one and
    looking a tenant up for a handshake come to exactly what they come to
    against the logical store itself. *)
Theorem disk_decisions_refine (keys : StoreKeys) (disk : Disk) (db : Db) (mat : Material) (rest : Disk) :
  StoreKeysOk (StoreKeys.root_key_id keys) keys -> in_range u32_max (StoreKeys.root_key_id keys) ->
  Rep keys disk db mat rest -> (forall c, decision_cell c -> Unaliased (StoreKeys.index keys) db c) ->
  let view := Reader.mk keys disk in
  (forall request now, authorize view request now = authorize db request now) /\
  (forall context request now, check_issue view context request now = check_issue db context request now) /\
  (forall tenant designated target now,
     check_revoke view tenant designated target now = check_revoke db tenant designated target now) /\
  (forall tenant, disk_directory_tenant view tenant = Ok (directory_tenant db tenant)).
Proof using KL AL.
  intros Hk Hid HR HU. pose proof (reader_agrees keys disk db mat rest Hk Hid HR HU) as HA. cbv zeta. split_and!.
  - intros. by apply authorize_agree.
  - intros. by apply check_issue_agree.
  - intros. by apply check_revoke_agree.
  - intros t. unfold disk_directory_tenant. cbn [Reader.keys Reader.disk]. by rewrite (disk_tenant_refines keys disk db mat rest).
Qed.
End properties.
