(* ===== verification/StoreDir.v ===== *)
(** * The store's directory: create, open, verify, compact
    ([phylake::store], [store::compact], [store::backup])

    [Fs] is the directory the store lives in, by entry name. *)
From S2P Require Import Prelude Vocab Ids Payload Epitrope View Lifecycle Records Store Seal RecordKey.
From S2P Require Import Keys Disk Proc.
Local Open Scope Z_scope.

(** ** The file system *)

(** An entry: a file, an empty directory, a directory of something else (a
    database half made, with no version marker yet, or half removed included),
    or a database directory, with its marker and lock files. [written] is every value its files were ever given. *)
Module Node.
Inductive Node : Type :=
| File
| Empty
| Garbage
| Database (disk : Disk) (written : gset bytes).
End Node.
Abbreviation Node := Node.Node.
Abbreviation Fs := (gmap (list byte) Node.Node).

Abbreviation Io := (Proc Fs StoreError).

(** [RestoredStore]. *)
Module RestoredStore.
Record RestoredStore : Set := mk { schema_version : Z; root_key_id : Z }.
End RestoredStore.

Section dir.
Context `{Env}.

Definition store_io (_ : Errno) : StoreError := StoreError.StoreIo.
Definition database (_ : Errno) : StoreError := StoreError.Database.

(** [sync_parent]. *)
Definition sync_parent : Io unit := step store_io id.

(** ** Paths: the last component of the store's path, if it has one *)
Definition staging_name (name : str) : str := name ++ lit ".compact".
(** [staging_path]. *)
Definition staging_path (file_name : option str) : result StoreError str :=
  name ← ok_or file_name StoreError.StorePathUnnamed; Ok (staging_name name).

(** [prepare_empty_dir]. *)
Definition prepare_empty_dir (name : str) : Io unit :=
  _ ← step store_io id;
  fs ← proc_read;
  match fs !! name with
  | Some Node.Empty => mret tt
  | Some _ => proc_lift (Err StoreError.StoreExists)
  | None => step store_io <[name := Node.Empty]>
  end.

(** [remove_leftover]: removing a directory is many steps, so one that fails
    or is cut short leaves what is no longer a database. *)
Definition remove_dir_all (name : str) : Io unit := fun fs i =>
  match fate i with
  | Fault.Fine => (Some (Ok tt), delete name fs, S i)
  | Fault.Fail errno => (Some (Err StoreError.StoreIo), <[name := Node.Garbage]> fs, S i)
  | Fault.Crash => (None, <[name := Node.Garbage]> fs, S i)
  end.
Definition remove_leftover (file_name : option str) : Io unit :=
  staging ← proc_lift (staging_path file_name);
  fs ← proc_read;
  match fs !! staging with
  | None => mret tt
  | Some Node.File => proc_lift (Err StoreError.StoreIo)
  | Some _ => _ ← remove_dir_all staging; sync_parent
  end.

(** [open_database]: creates the database in an empty or absent directory;
    the version marker is the last file it writes, so that a creation that is
    cut short leaves a directory that is no longer empty and no database. *)
Definition open_database (name : str) : Io unit :=
  fs ← proc_read;
  match fs !! name with
  | Some (Node.Database _ _) => step database id
  | Some Node.Empty | None =>
      _ ← step database <[name := Node.Garbage]>;
      step database <[name := Node.Database ∅ ∅]>
  | Some Node.File | Some Node.Garbage => proc_lift (Err StoreError.Database)
  end.
(** Changes the database at [name], if there is one; what is written stays in
    its files. *)
Definition on_database (name : str) (f : Disk -> Disk) (values : list bytes) (fs : Fs) : Fs :=
  match fs !! name with
  | Some (Node.Database disk written) => <[name := Node.Database (f disk) (list_to_set values ∪ written)]> fs
  | _ => fs
  end.
(** [Keyspaces::open], one keyspace at a time. *)
Definition create_keyspace (ks : Keyspace) (d : Disk) : Disk :=
  match d !! ks with Some _ => d | None => <[ks := ∅]> d end.
Definition open_keyspaces (name : str) : Io unit :=
  proc_each (fun ks => step database (on_database name (create_keyspace ks) [])) ALL_KEYSPACES.
(** The database at [name]. *)
Definition read_database (name : str) : Io Disk :=
  fs ← proc_read;
  match fs !! name with
  | Some (Node.Database disk _) => mret disk
  | _ => proc_lift (Err StoreError.Database)
  end.

(** ** Compaction *)

Definition COPY_BATCH : nat := 1024.
Definition LOCK_ATTEMPTS : nat := 3.

(** One transaction of [copy_into]. *)
Definition insert_all (ks : Keyspace) (chunk : list (bytes * bytes)) (d : Disk) : Disk :=
  foldl (fun d '(key, value) => disk_insert ks key value d) d chunk.
Fixpoint copy_entries (dest : str) (ks : Keyspace) (chunk todo : list (bytes * bytes)) : Io unit :=
  match todo with
  | [] => mret tt
  | entry :: todo =>
      let chunk := chunk ++ [entry] in
      if Nat.eqb (length chunk) COPY_BATCH || match todo with [] => true | _ => false end
      then _ ← step database (on_database dest (insert_all ks chunk) (snd <$> chunk));
           copy_entries dest ks [] todo
      else copy_entries dest ks chunk todo
  end.
(** [copy_into]: [snapshot] is the source store's state. *)
Definition copy_into (snapshot : Disk) (dest : str) : Io unit :=
  _ ← open_database dest;
  _ ← open_keyspaces dest;
  _ ← proc_each (fun ks => copy_entries dest ks [] (entries snapshot ks)) ALL_KEYSPACES;
  step database id.

(** [lock_database]: at most three attempts; the waits between them take no
    part. *)
Fixpoint lock_attempts (n : nat) : Io unit := fun fs i =>
  match n with
  | O => (Some (Err StoreError.StoreInUse), fs, i)
  | S n =>
      match lock_fate i with
      | LockTry.Taken => (Some (Ok tt), fs, S i)
      | LockTry.Error => (Some (Err StoreError.StoreIo), fs, S i)
      | LockTry.WouldBlock => lock_attempts n fs (S i)
      end
  end.
Definition lock_database (name : str) : Io unit :=
  fs ← proc_read;
  _ ← match fs !! name with
      | Some (Node.Database _ _) => step store_io id
      | _ => proc_lift (Err StoreError.StoreIo)
      end;
  lock_attempts LOCK_ATTEMPTS.
(** [exchange] and [exchange_error]. *)
Definition exchange_error (errno : Errno) : StoreError :=
  match errno with
  | Errno.INVAL | Errno.NOSYS | Errno.OPNOTSUPP => StoreError.ExchangeUnsupported
  | _ => StoreError.StoreIo
  end.
Definition swap (a b : str) (fs : Fs) : Fs :=
  match fs !! a, fs !! b with
  | Some x, Some y => <[a := y]> (<[b := x]> fs)
  | _, _ => fs
  end.
Definition exchange (path staging : str) : Io unit :=
  _ ← step exchange_error (swap path staging);
  sync_parent.
(** [swap_in]. *)
Definition swap_in (path staging : str) : Io unit :=
  _ ← lock_database path;
  _ ← lock_database staging;
  _ ← exchange path staging;
  remove_leftover (Some path).
(** [Store::compact]: the store at [path] is open, and [snapshot] is what its
    database holds. *)
Definition compact (path : str) (snapshot : Disk) : Io unit :=
  staging ← proc_lift (staging_path (Some path));
  _ ← remove_leftover (Some path);
  _ ← prepare_empty_dir staging;
  _ ← copy_into snapshot staging;
  _ ← swap_in path staging;
  _ ← open_database path;
  open_keyspaces path.

(** ** Creating and opening *)
Context `{Kdf} `{Entropy}.

Definition INITIAL_ROOT_KEY_ID : Z := 1.

(** [StoreOptions::create]. *)
Definition create (name : str) (root : bytes) (draws : nat) : Io StoreKeys :=
  _ ← prepare_empty_dir name;
  salt ← proc_lift (fst (salt_generate draws));
  keys ← proc_lift (store_derive root INITIAL_ROOT_KEY_ID salt);
  check ← proc_lift (key_check keys);
  _ ← open_database name;
  _ ← open_keyspaces name;
  let meta := Meta.mk INITIAL_ROOT_KEY_ID salt check in
  _ ← step database
        (on_database name (fun d => <[Keyspace.Meta := meta_write meta (table d Keyspace.Meta)]> d)
           (snd <$> map_to_list (meta_write meta ∅)));
  mret keys.

(** [open_unlocked]. *)
Definition open_unlocked (name : str) (root : bytes) : Io StoreKeys :=
  _ ← step store_io id;
  fs ← proc_read;
  match fs !! name with
  | Some (Node.Database _ _) =>
      _ ← open_database name;
      disk ← read_database name;
      match List.find (fun ks => bool_decide (disk !! ks = None)) ALL_KEYSPACES with
      | Some missing => proc_lift (Err (StoreError.StoreMissing (Keyspace.name missing)))
      | None =>
          _ ← open_keyspaces name;
          stored ← proc_lift (meta_read (table disk Keyspace.Meta));
          proc_lift (store_unlock root (Meta.root_key_id stored) (Meta.salt stored) (Meta.check stored))
      end
  | _ => proc_lift (Err (StoreError.StoreMissing (lit "database")))
  end.
(** [StoreOptions::open]. *)
Definition open_store (name : str) (root : bytes) : Io StoreKeys :=
  keys ← open_unlocked name root;
  _ ← remove_leftover (Some name);
  mret keys.

(** [verify_restored]. *)
Definition verify_restored (name : str) (root : bytes) : Io RestoredStore.RestoredStore :=
  keys ← open_unlocked name root;
  mret (RestoredStore.mk SCHEMA_VERSION (StoreKeys.root_key_id keys)).
End dir.
