(* ===== verification/StoreDirGuarantees.v ===== *)
(** * What creating, opening and compacting a store guarantee

    First what compaction keeps wherever it stops, then opening, creating and
    the properties. *)
From S2P Require Import Prelude Vocab Ids Payload Epitrope View Lifecycle Records Store Seal RecordKey.
From S2P Require Import Keys Disk Proc StoreDir.
Local Open Scope Z_scope.

(** ** Databases *)

(** Every keyspace exists. *)
Definition complete (d : Disk) : Prop := forall ks, is_Some (d !! ks).
Lemma complete_eq d d' : complete d -> complete d' -> (forall ks, table d ks = table d' ks) -> d = d'.
Proof.
  intros Hd Hd' Ht. apply map_eq. intros ks. specialize (Ht ks). unfold table in Ht.
  destruct (Hd ks) as [t Et], (Hd' ks) as [t' Et']. rewrite Et, Et' in *. cbn in Ht. by rewrite Ht.
Qed.
Lemma insert_all_get ks chunk : forall d ks' k v,
  NoDup (fst <$> chunk) -> (forall k v, disk_get d ks k = Some v -> k ∉ fst <$> chunk) ->
  disk_get (insert_all ks chunk d) ks' k = Some v <-> disk_get d ks' k = Some v \/ (ks' = ks /\ (k, v) ∈ chunk).
Proof.
  unfold insert_all. induction chunk as [|[k0 v0] chunk IH]; intros d ks' k v Hnd Hfresh; cbn [foldl].
  - rewrite elem_of_nil. tauto.
  - cbn [fmap list_fmap fst] in *. apply NoDup_cons in Hnd as [Hn Hnd]. rewrite IH; [|done|].
    + rewrite disk_get_insert, elem_of_cons. case_bool_decide as Hk.
      * destruct Hk as [-> ->]. split.
        -- intros [[= ->]|[_ Hin]]; right; auto. 
        -- intros [Hg|[_ [[= ->]|Hin]]]; [|by left|].
           ++ apply Hfresh in Hg. set_solver.
           ++ destruct Hn. by apply (list_elem_of_fmap_2 fst _ (k0, v)).
      * naive_solver.
    + intros k' v'. rewrite disk_get_insert. case_bool_decide as Hk; [by destruct Hk as [_ ->]|].
      intros Hg%Hfresh. set_solver.
Qed.
Lemma insert_all_complete ks chunk d : complete d -> complete (insert_all ks chunk d).
Proof.
  unfold insert_all. revert d; induction chunk as [|[k v] chunk IH]; intros d Hd; [done|]. cbn. apply IH.
  intros ks'. unfold disk_insert. destruct (decide (ks' = ks)) as [->|]; [by rewrite lookup_insert_eq|].
  by rewrite lookup_insert_ne.
Qed.
Lemma create_keyspace_table ks d ks' : table (create_keyspace ks d) ks' = table d ks'.
Proof.
  unfold create_keyspace. destruct (d !! ks) eqn:Hd; [done|]. rewrite table_insert. case_bool_decide as Hk; [|done].
  subst. unfold table. by rewrite Hd.
Qed.
Lemma create_keyspace_dom ks d ks' : is_Some (create_keyspace ks d !! ks') <-> is_Some (d !! ks') \/ ks' = ks.
Proof.
  unfold create_keyspace. destruct (d !! ks) eqn:Hd.
  - split; [by left|]. intros [Hx|Hx]; [done|subst; by rewrite Hd].
  - destruct (decide (ks' = ks)) as [->|Hne]; [rewrite lookup_insert_eq; naive_solver|].
    rewrite lookup_insert_ne by done. naive_solver.
Qed.
Lemma create_keyspace_complete ks d : complete d -> create_keyspace ks d = d.
Proof. intros Hd. unfold create_keyspace. by destruct (Hd ks) as [t ->]. Qed.
(** The bytes a database's files hold that are values of the live store. *)
Definition live (d : Disk) (written : gset bytes) : Prop :=
  forall x, x ∈ written -> exists ks k, disk_get d ks k = Some x.

(** ** Compaction *)
Lemma staging_ne name : staging_name name <> name.
Proof.
  unfold staging_name. intros He. apply (f_equal length) in He. rewrite length_app in He.
  change (length (lit ".compact")) with 8%nat in He. lia.
Qed.

Section compact.
Context `{Env} (path : str) (d : Disk) (Hd : complete d) (fs0 : Fs).
Let staging : str := staging_name path.

(** The store's path holds a database of [d] whose files hold what [W] says,
    its staging entry is as [S] says, and no other entry has changed. *)
Record Hold (W : gset bytes -> Prop) (S : option Node -> Prop) (fs : Fs) : Prop := {
  ho_store : exists w, W w /\ fs !! path = Some (Node.Database d w);
  ho_staging : S (fs !! staging);
  ho_frame : forall n, n <> path -> n <> staging -> fs !! n = fs0 !! n;
}.
Definition anything {T} (_ : T) : Prop := True.

Lemma Hold_weaken W W' S S' fs :
  (forall w, W w -> W' w) -> (forall n, S n -> S' n) -> Hold W S fs -> Hold W' S' fs.
Proof using Type. intros HW HS [(w & Hw & Hp) Hs Hf]. split; eauto. Qed.
Lemma Hold_any W S fs : Hold W S fs -> Hold anything anything fs.
Proof using Type. by apply Hold_weaken. Qed.
Hint Resolve Hold_any : core.

(** A change of the staging entry. *)
Lemma Hold_insert W S (S' : option Node -> Prop) n fs : Hold W S fs -> S' (Some n) -> Hold W S' (<[staging := n]> fs).
Proof using Type.
  intros [(w & Hw & Hp) Hs Hf] Hn. pose proof (staging_ne path). split.
  - exists w. by rewrite lookup_insert_ne.
  - by rewrite lookup_insert_eq.
  - intros m Hm Hms. rewrite lookup_insert_ne by done. auto.
Qed.
Lemma Hold_delete W S fs : Hold W S fs -> Hold W (eq None) (delete staging fs).
Proof using Type.
  intros [(w & Hw & Hp) Hs Hf]. pose proof (staging_ne path). split.
  - exists w. by rewrite lookup_delete_ne.
  - by rewrite lookup_delete_eq.
  - intros m Hm Hms. rewrite lookup_delete_ne by done. auto.
Qed.
Lemma Hold_staging W S n fs : Hold W S fs -> fs !! staging = n -> Hold W (eq n) fs.
Proof using Type. intros [Hp _ Hf] He. by split. Qed.

Lemma remove_leftover_hold W :
  hoare (Hold W anything) (remove_leftover (Some path)) (fun _ => Hold W (eq None)) (Hold anything anything).
Proof using Type.
  unfold remove_leftover. eapply hoare_bind; [apply (hoare_lift _ _ _ (fun s fs => s = staging /\ Hold W anything fs)); eauto|].
  { cbn. by intros a fs [= <-]. }
  intros s. eapply hoare_bind; [apply hoare_read; intros fs [_ ?]; eauto|].
  intros fs fs' i (-> & -> & HP). destruct (fs' !! staging) as [n|] eqn:Hs; [|cbn; by eapply Hold_staging].
  assert (hoare (Hold W anything) (_ ← remove_dir_all staging; sync_parent) (fun _ => Hold W (eq None))
    (Hold anything anything)) as Hrm.
  { intros fs1 i1 HP1. unfold mbind, Proc_bind, remove_dir_all. destruct (fate i1); cbn beta iota.
    - apply Hold_delete in HP1. unfold sync_parent, step. destruct (fate (S i1)); eauto.
    - by apply (Hold_any W anything), Hold_insert with anything.
    - by apply (Hold_any W anything), Hold_insert with anything. }
  destruct n; [unfold proc_lift; eauto|by apply Hrm..].
Qed.
Lemma prepare_hold W :
  hoare (Hold W (eq None)) (prepare_empty_dir staging) (fun _ => Hold W (eq (Some Node.Empty))) (Hold anything anything).
Proof using Type.
  unfold prepare_empty_dir. eapply hoare_bind; [apply hoare_noop; eauto|]. intros [].
  eapply hoare_bind; [apply hoare_read; eauto|]. intros fs fs' i (-> & HP). rewrite <- (ho_staging _ _ _ HP).
  unfold step. destruct (fate i); eauto. by eapply Hold_insert.
Qed.

(** The copy: some keyspaces done, the others still empty, all of its bytes
    the source's. *)
Definition copied (done : Keyspace -> list (bytes * bytes)) (n : option Node) : Prop :=
  exists d' w, n = Some (Node.Database d' w) /\ complete d' /\ live d w /\
    forall ks k v, disk_get d' ks k = Some v <-> (k, v) ∈ done ks.
Lemma copied_commit done ks chunk todo fs W :
  Hold W (copied done) fs -> entries d ks = done ks ++ chunk ++ todo ->
  Hold W (copied (fun ks' => if bool_decide (ks' = ks) then done ks ++ chunk else done ks'))
    (on_database staging (insert_all ks chunk) (snd <$> chunk) fs).
Proof using Hd.
  intros HP He. destruct (ho_staging _ _ _ HP) as (d' & w & Hs & Hc & Hl & Hg). unfold on_database. rewrite Hs.
  assert (NoDup (fst <$> done ks ++ chunk ++ todo)) as Hnd by (rewrite <- He; apply NoDup_fst_map_to_list).
  rewrite !fmap_app in Hnd. apply NoDup_app in Hnd as (_ & Hdj & Hnd). apply NoDup_app in Hnd as (Hnd & _ & _).
  eapply Hold_insert; [done|]. eexists _, _. split; [reflexivity|]. split; [by apply insert_all_complete|]. split.
  - intros x [Hx|Hx]%elem_of_union; [|by apply Hl]. apply elem_of_list_to_set, list_elem_of_fmap in Hx as ([k v] & -> & Hin).
    exists ks, k. apply entries_elem. rewrite He, !elem_of_app. auto.
  - intros ks' k v. rewrite insert_all_get; [|done|].
    + rewrite Hg. case_bool_decide as Hk; [subst|naive_solver]. rewrite elem_of_app. tauto.
    + intros k' v' Hk'%Hg Hin. apply (list_elem_of_fmap_2 fst) in Hk'. apply (Hdj _ Hk'). rewrite elem_of_app. auto.
Qed.
Lemma copied_ext done done' n : (forall ks, done ks = done' ks) -> copied done n -> copied done' n.
Proof using Type.
  intros Hx (d' & w & -> & Hc & Hl & Hg). exists d', w. split_and!; try done. intros ks k v. by rewrite <- Hx.
Qed.
Lemma copy_entries_hold W done ks todo : forall prefix chunk,
  entries d ks = prefix ++ chunk ++ todo -> (todo = [] -> chunk = []) ->
  hoare (Hold W (copied (fun ks' => if bool_decide (ks' = ks) then prefix else done ks')))
    (copy_entries staging ks chunk todo)
    (fun _ => Hold W (copied (fun ks' => if bool_decide (ks' = ks) then entries d ks else done ks')))
    (Hold anything anything).
Proof using Hd.
  induction todo as [|entry todo IH]; intros prefix chunk He Hlast; cbn [copy_entries].
  - apply hoare_ret. intros fs HP. rewrite Hlast, !app_nil_r in He by done. by rewrite He.
  - destruct (_ || _) eqn:Hflush.
    + eapply hoare_bind.
      * apply (hoare_step _ _ _ _ (fun _ => Hold W (copied
          (fun ks' => if bool_decide (ks' = ks) then prefix ++ chunk ++ [entry] else done ks')))); [|eauto].
        intros fs HP. apply (copied_commit _ ks (chunk ++ [entry]) todo) in HP.
        -- eapply Hold_weaken; [done| |exact HP]. intros n. apply copied_ext. intros ks'.
           destruct (decide (ks' = ks)) as [->|Hk]; [by rewrite !bool_decide_eq_true_2|by rewrite !bool_decide_eq_false_2].
        -- rewrite bool_decide_eq_true_2 by done. by rewrite He, <- !app_assoc.
      * intros []. apply (IH (prefix ++ chunk ++ [entry]) []); [|done]. by rewrite He, <- !app_assoc.
    + apply orb_false_iff in Hflush as [_ Hne]. apply (IH prefix); [by rewrite He, <- !app_assoc|]. intros ->. done.
Qed.

(** A fresh copy: the keyspaces created so far, all of them empty. *)
Definition fresh (done : list Keyspace) (n : option Node) : Prop :=
  exists d', n = Some (Node.Database d' ∅) /\ (forall ks, ks ∈ done -> is_Some (d' !! ks)) /\ forall ks, table d' ks = ∅.
Lemma open_staging_hold W :
  hoare (Hold W (eq (Some Node.Empty))) (open_database staging) (fun _ => Hold W (fresh [])) (Hold anything anything).
Proof using Type.
  unfold open_database. eapply hoare_bind; [apply hoare_read; eauto|]. intros fs fs' i (-> & HP).
  rewrite <- (ho_staging _ _ _ HP).
  assert (forall n, Hold W anything (<[staging := n]> fs')) as Hany by (intros n; by eapply Hold_insert).
  unfold step, mbind, Proc_bind. destruct (fate i); eauto. cbn beta iota. destruct (fate (S i)); eauto. eapply Hold_insert; [apply Hany|].
  exists ∅. split_and!; [done|intros ks Hks; by apply elem_of_nil in Hks|done].
Qed.
Lemma create_keyspaces_hold W :
  hoare (Hold W (fresh [])) (open_keyspaces staging) (fun _ => Hold W (fresh ALL_KEYSPACES)) (Hold anything anything).
Proof using Type.
  unfold open_keyspaces. apply (hoare_each _ (fun done => Hold W (fresh done))). intros done ks todo _.
  apply hoare_step; [|eauto]. intros fs HP. destruct (ho_staging _ _ _ HP) as (d' & Hs & Hdom & Htab).
  unfold on_database. rewrite Hs. eapply Hold_insert; [done|]. exists (create_keyspace ks d'). split_and!.
  - done.
  - intros ks' [Hk|Hk]%elem_of_app; apply create_keyspace_dom; [left; auto|right; by apply list_elem_of_singleton in Hk].
  - intros ks'. by rewrite create_keyspace_table.
Qed.
(** What a finished copy is. *)
Definition twin (n : option Node) : Prop := exists w, n = Some (Node.Database d w) /\ live d w.
Lemma copy_into_hold W :
  hoare (Hold W (eq (Some Node.Empty))) (copy_into d staging) (fun _ => Hold W twin) (Hold anything anything).
Proof using Hd.
  unfold copy_into. eapply hoare_bind; [apply open_staging_hold|]. intros [].
  eapply hoare_bind; [apply create_keyspaces_hold|]. intros [].
  eapply (hoare_bind _ _ _ _ (fun _ => Hold W twin)); [|intros []; apply hoare_noop; eauto].
  set (part (done : list Keyspace) ks := if bool_decide (ks ∈ done) then entries d ks else []).
  eapply (hoare_conseq (Hold W (copied (part []))) _ (fun _ => Hold W (copied (part ALL_KEYSPACES)))); [| |done|].
  - intros fs. apply Hold_weaken; [done|]. intros n (d' & -> & Hdom & Htab). exists d', ∅. split_and!; [done| |done|].
    + intros ks. apply Hdom, ALL_KEYSPACES_complete.
    + intros ks k v. unfold disk_get. rewrite Htab, lookup_empty. unfold part.
      rewrite bool_decide_eq_false_2 by apply not_elem_of_nil. split; [done|by intros ?%elem_of_nil].
  - intros _ fs. apply Hold_weaken; [done|]. intros n (d' & w & -> & Hc & Hl & Hg). exists w. split; [|done]. do 2 f_equal.
    apply complete_eq; [done|done|]. intros ks. apply map_eq. intros k. apply option_eq. intros v.
    change (table d' ks !! k) with (disk_get d' ks k). rewrite Hg. unfold part.
    rewrite bool_decide_eq_true_2 by apply ALL_KEYSPACES_complete. apply entries_elem.
  - apply (hoare_each _ (fun done => Hold W (copied (part done)))). intros done ks todo Hl.
    assert (ks ∉ done) as Hn.
    { pose proof (finite.NoDup_enum Keyspace) as Hnd. change (finite.enum Keyspace) with ALL_KEYSPACES in Hnd.
      rewrite Hl in Hnd. apply NoDup_app in Hnd as (_ & Hdj & _). intros Hin. apply (Hdj ks Hin). left. }
    eapply hoare_conseq; [| |done|apply (copy_entries_hold W (part done) ks (entries d ks) [] []); [done|done]].
    + intros fs. apply Hold_weaken; [done|]. intros n. apply copied_ext. intros ks'. unfold part.
      destruct (decide (ks' = ks)) as [->|Hk]; [by rewrite (bool_decide_eq_true_2 (ks = ks)), bool_decide_eq_false_2|].
      by rewrite (bool_decide_eq_false_2 (ks' = ks)).
    + intros [] fs. apply Hold_weaken; [done|]. intros n. apply copied_ext. intros ks'. unfold part.
      rewrite (bool_decide_ext (ks' ∈ done ++ [ks]) (ks' ∈ done \/ ks' = ks)) by (rewrite elem_of_app, list_elem_of_singleton; done).
      destruct (decide (ks' = ks)) as [->|Hk].
      * rewrite (bool_decide_eq_true_2 (ks = ks)) by done. by rewrite bool_decide_eq_true_2 by auto.
      * rewrite (bool_decide_eq_false_2 (ks' = ks)) by done. rewrite (bool_decide_ext (ks' ∈ done \/ ks' = ks) (ks' ∈ done)); [done|].
        naive_solver.
Qed.

Lemma lock_hold P name : (forall fs, P fs -> Hold anything anything fs) ->
  hoare P (lock_database name) (fun _ => P) (Hold anything anything).
Proof using Type.
  intros HP. unfold lock_database. eapply hoare_bind; [by apply hoare_read|]. intros fs.
  eapply (hoare_bind _ _ _ _ (fun _ => P)).
  - intros fs' i (-> & HPf). destruct (fs' !! name) as [[| | |]|]; unfold proc_lift, step; try by apply HP.
    destruct (fate i); [done|by apply HP..].
  - intros []. intros fs' i HPf. generalize LOCK_ATTEMPTS. intros n. revert i. induction n as [|n IH]; intros i; cbn; [by apply HP|].
    destruct (lock_fate i); [done|apply IH|by apply HP].
Qed.
Lemma exchange_hold :
  hoare (Hold anything twin) (exchange path staging) (fun _ => Hold (live d) anything) (Hold anything anything).
Proof using Type.
  unfold exchange. eapply (hoare_bind _ _ _ _ (fun _ => Hold (live d) anything)); [|intros []; apply hoare_noop; eauto]. apply hoare_step; [|eauto].
  intros fs [(w & _ & Hp) (w' & Hs & Hl) Hf]. unfold swap. rewrite Hp, Hs. pose proof (staging_ne path). split; [|done|].
  - exists w'. split; [done|]. by rewrite lookup_insert_eq.
  - intros n Hn Hns. rewrite !lookup_insert_ne by done. auto.
Qed.
Lemma reopen_hold W S : hoare (Hold W S) (open_database path) (fun _ => Hold W S) (Hold anything anything).
Proof using Type.
  unfold open_database. eapply hoare_bind; [apply hoare_read; eauto|]. intros fs fs' i (-> & HP).
  destruct (ho_store _ _ _ HP) as (w & _ & ->). unfold step. destruct (fate i); eauto.
Qed.
Lemma reopen_keyspaces_hold W S : hoare (Hold W S) (open_keyspaces path) (fun _ => Hold W S) (Hold anything anything).
Proof using Hd.
  unfold open_keyspaces. apply (hoare_each _ (fun _ => Hold W S)). intros done ks todo _. apply hoare_step; [|eauto].
  intros fs HP. destruct (ho_store _ _ _ HP) as (w & Hw & Hp). unfold on_database. rewrite Hp.
  rewrite create_keyspace_complete by done. assert (list_to_set [] ∪ w = w) as ->.
  { apply set_eq. intros x. cbn. rewrite elem_of_union, elem_of_empty. tauto. }
  rewrite insert_id; done.
Qed.
Lemma compact_hold :
  hoare (Hold anything anything) (compact path d) (fun _ => Hold (live d) (eq None)) (Hold anything anything).
Proof using Hd.
  unfold compact. eapply hoare_bind.
  { apply (hoare_lift _ _ _ (fun s fs => s = staging /\ Hold anything anything fs)); [|eauto]. cbn. by intros a fs [= <-]. }
  intros s fs i [-> HP]. revert fs i HP. change (hoare (Hold anything anything) (
    _ ← remove_leftover (Some path); _ ← prepare_empty_dir staging; _ ← copy_into d staging;
    _ ← swap_in path staging; _ ← open_database path; open_keyspaces path)
    (fun _ => Hold (live d) (eq None)) (Hold anything anything)).
  eapply hoare_bind; [apply remove_leftover_hold|]. intros [].
  eapply hoare_bind; [apply prepare_hold|]. intros [].
  eapply hoare_bind; [apply copy_into_hold|]. intros [].
  eapply (hoare_bind _ _ _ _ (fun _ => Hold (live d) (eq None)));
    [|intros []; eapply hoare_bind; [apply reopen_hold|intros []; apply reopen_keyspaces_hold]].
  unfold swap_in. eapply hoare_bind; [apply lock_hold; eauto|]. intros [].
  eapply hoare_bind; [apply lock_hold; eauto|]. intros [].
  eapply hoare_bind; [apply exchange_hold|]. intros []. apply remove_leftover_hold.
Qed.
End compact.

(** What opening the store at [name] returns there. *)
Definition opened `{Kdf} (name : str) (root : bytes) (fs : Fs) : option (result StoreError StoreKeys) :=
  (@open_store calm _ name root fs 0%nat).1.1.

(** ** Opening *)
Section opening.
Context `{Kdf} (name : str).

Lemma calm_each {A : Type} (f : A -> Io unit) l : forall fs i,
  (forall a j, f a fs j = (Some (Ok tt), fs, S j)) -> exists j, proc_each f l fs i = (Some (Ok tt), fs, j).
Proof using Type.
  induction l as [|a l IH]; intros fs i Hf; cbn [proc_each]; [by eexists|]. unfold mbind, Proc_bind. rewrite Hf. by apply IH.
Qed.
Lemma calm_open_keyspaces d w fs i : fs !! name = Some (Node.Database d w) -> complete d ->
  exists j, @open_keyspaces calm name fs i = (Some (Ok tt), fs, j).
Proof using Type.
  intros Hn Hd. apply calm_each. intros ks j. unfold step, on_database. cbn [fate calm]. rewrite Hn.
  rewrite create_keyspace_complete by done. assert (list_to_set [] ∪ w = w) as ->.
  { apply set_eq. intros x. cbn. rewrite elem_of_union, elem_of_empty. tauto. }
  by rewrite insert_id.
Qed.
Lemma calm_remove_leftover fs i : fs !! staging_name name <> Some Node.File ->
  exists fs' j, @remove_leftover calm (Some name) fs i = (Some (Ok tt), fs', j).
Proof using Type.
  intros Hs. unfold remove_leftover, staging_path. cbn [ok_or mbind result_bind]. unfold mbind, Proc_bind, proc_lift, proc_read.
  cbn beta iota. destruct (fs !! staging_name name) as [[| | |]|]; try done; by eexists _, _.
Qed.

(** A directory that is no database, or a database without metadata, is not a
    store. *)
Definition no_store (fs : Fs) : Prop :=
  match fs !! name with Some (Node.Database d _) => table d Keyspace.Meta = ∅ | _ => True end.
Lemma opened_no_store root fs : no_store fs -> exists missing, opened name root fs = Some (Err (StoreError.StoreMissing missing)).
Proof using Type.
  unfold no_store, opened, open_store, open_unlocked, open_database, read_database, step, proc_read, mbind, Proc_bind.
  cbn [fate calm]. intros Hn. unfold id. destruct (fs !! name) as [[| | |d w]|] eqn:Hf; try (by eexists).
  rewrite Hf. cbn beta iota. rewrite Hf. cbn [mret Proc_ret]. cbn beta iota.
  destruct (List.find (fun ks => bool_decide (d !! ks = None)) ALL_KEYSPACES) as [ks|] eqn:Hfind; [by eexists|].
  destruct (calm_open_keyspaces d w fs 2%nat Hf) as (j & Hj).
  { intros ks. pose proof (find_none _ _ Hfind ks ltac:(apply list_elem_of_In, ALL_KEYSPACES_complete)) as Hb.
    apply bool_decide_eq_false in Hb. by destruct (d !! ks). }
  cbn [mret Proc_ret]. rewrite Hj. cbn beta iota. unfold meta_read, field_bytes. rewrite Hn. by eexists.
Qed.

(** A complete store opens for the root key whose check it stores, and stays
    locked to every other. *)
Lemma calm_open_store root fs d w m i : fs !! name = Some (Node.Database d w) -> complete d ->
  meta_read (table d Keyspace.Meta) = Ok m -> fs !! staging_name name <> Some Node.File ->
  (@open_store calm _ name root fs i).1.1 = Some (store_unlock root (Meta.root_key_id m) (Meta.salt m) (Meta.check m)).
Proof using Type.
  intros Hf Hd Hm Hs. unfold open_store, open_unlocked, open_database, read_database, step, proc_read, mbind, Proc_bind.
  cbn [fate calm]. unfold id. rewrite !Hf. cbn beta iota. rewrite ?Hf. cbn [mret Proc_ret].
  assert (List.find (fun ks => bool_decide (d !! ks = None)) ALL_KEYSPACES = None) as ->.
  { destruct (List.find (fun ks => bool_decide (d !! ks = None)) ALL_KEYSPACES) as [ks|] eqn:Hfind; [|done]. apply find_some in Hfind as [_ Hb]. bool_simpl.
    destruct (Hd ks) as [t Ht]. congruence. }
  destruct (calm_open_keyspaces d w fs (S (S i)) Hf Hd) as (j & Hj). rewrite Hj. cbn beta iota. rewrite Hm. cbn beta iota.
  unfold proc_lift. destruct (store_unlock _ _ _ _) as [keys|e]; [|done].
  destruct (calm_remove_leftover fs j Hs) as (fs' & j' & Hr). cbn beta iota. by rewrite Hr.
Qed.
Lemma opened_store root fs d w m : fs !! name = Some (Node.Database d w) -> complete d ->
  meta_read (table d Keyspace.Meta) = Ok m -> fs !! staging_name name <> Some Node.File ->
  opened name root fs = Some (store_unlock root (Meta.root_key_id m) (Meta.salt m) (Meta.check m)).
Proof using Type. apply calm_open_store. Qed.
End opening.

(** ** Creating *)
Section creating.
Context `{Env} `{KL : KdfLaws} `{Entropy} (name : str) (root salt : bytes) (keys : StoreKeys) (check : bytes) (fs0 : Fs).
Context (Hsalt : length salt = 32%nat) (Hkeys : store_derive root INITIAL_ROOT_KEY_ID salt = Ok keys).
Context (Hcheck : key_check keys = Ok check).
Let meta : Meta := Meta.mk INITIAL_ROOT_KEY_ID salt check.

Definition finished (fs : Fs) : Prop := exists d w, fs !! name = Some (Node.Database d w) /\ complete d /\
  meta_read (table d Keyspace.Meta) = Ok meta.
Definition framed (fs : Fs) : Prop := forall n, n <> name -> fs !! n = fs0 !! n.
Definition begun (S : option Node -> Prop) (fs : Fs) : Prop := framed fs /\ S (fs !! name).
(** A database with these keyspaces and nothing in them. *)
Definition blank (done : list Keyspace) (n : option Node) : Prop :=
  exists d w, n = Some (Node.Database d w) /\ (forall ks, ks ∈ done -> is_Some (d !! ks)) /\ forall ks, table d ks = ∅.
Definition stopped (fs : Fs) : Prop := framed fs /\ (no_store name fs \/ finished fs).

Lemma begun_insert S (S' : option Node -> Prop) n fs : begun S fs -> S' (Some n) -> begun S' (<[name := n]> fs).
Proof using Type.
  intros [Hf _] Hn. split; [|by rewrite lookup_insert_eq]. intros m Hm. rewrite lookup_insert_ne by done. auto.
Qed.
Lemma begun_stopped S fs : begun S fs ->
  (forall n, S n -> match n with Some (Node.Database d _) => table d Keyspace.Meta = ∅ | _ => True end) -> stopped fs.
Proof using Type. intros [Hf Hs] HS. split; [done|]. left. by apply (HS (fs !! name)). Qed.
Lemma blank_stopped done fs : begun (blank done) fs -> stopped fs.
Proof using Type. intros Hb. eapply begun_stopped; [exact Hb|]. intros n (d & w & -> & _ & Ht). apply Ht. Qed.
Lemma empty_stopped fs : begun (eq (Some Node.Empty)) fs -> stopped fs.
Proof using Type. intros Hb. eapply begun_stopped; [exact Hb|]. by intros n <-. Qed.

Lemma create_prepare :
  hoare (begun (fun n => n = None \/ n = Some Node.Empty)) (prepare_empty_dir name) (fun _ => begun (eq (Some Node.Empty))) stopped.
Proof using Type.
  assert (forall fs, begun (fun n => n = None \/ n = Some Node.Empty) fs -> stopped fs) as Hst.
  { intros fs Hb. eapply begun_stopped; [exact Hb|]. by intros n [->| ->]. }
  unfold prepare_empty_dir. eapply hoare_bind; [by apply hoare_noop|]. intros [].
  eapply hoare_bind; [by apply hoare_read|]. intros fs fs' i (-> & HP). destruct HP as [Hf Hs].
  destruct (fs' !! name) as [n|] eqn:Hn; [destruct Hs as [Hs|[= ->]]; [done|]|].
  - cbn. split; [done|]. by rewrite Hn.
  - unfold step. assert (begun (fun n => n = None \/ n = Some Node.Empty) fs') by (split; [done|by left]).
    destruct (fate i); [by eapply begun_insert|auto..].
Qed.
Lemma create_database :
  hoare (begun (eq (Some Node.Empty))) (open_database name) (fun _ => begun (blank [])) stopped.
Proof using Type.
  unfold open_database. eapply hoare_bind; [by apply hoare_read, empty_stopped|]. intros fs fs' i (-> & HP).
  rewrite <- (proj2 HP).
  assert (begun (eq (Some Node.Garbage)) (<[name := Node.Garbage]> fs')) as HG by (by eapply begun_insert).
  assert (stopped (<[name := Node.Garbage]> fs')) as HS by (eapply begun_stopped; [exact HG|by intros n <-]).
  unfold step, mbind, Proc_bind. destruct (fate i); [|by apply empty_stopped..]. cbn beta iota. destruct (fate (S i)); [|done..].
  eapply begun_insert; [exact HG|]. exists ∅, ∅. split_and!; [done| |done]. intros ks Hks. by apply elem_of_nil in Hks.
Qed.
Lemma create_keyspaces :
  hoare (begun (blank [])) (open_keyspaces name) (fun _ => begun (blank ALL_KEYSPACES)) stopped.
Proof using Type.
  unfold open_keyspaces. apply (hoare_each _ (fun done => begun (blank done))). intros done ks todo _.
  apply hoare_step; [|by apply blank_stopped]. intros fs HP. destruct (proj2 HP) as (d & w & Hs & Hdom & Htab).
  unfold on_database. rewrite Hs. eapply begun_insert; [exact HP|]. eexists (create_keyspace ks d), _. split_and!.
  - done.
  - intros ks' [Hk|Hk]%elem_of_app; apply create_keyspace_dom; [left; auto|right; by apply list_elem_of_singleton in Hk].
  - intros ks'. by rewrite create_keyspace_table.
Qed.
Lemma create_hold draws : fst (salt_generate draws) = Ok salt ->
  hoare (begun (fun n => n = None \/ n = Some Node.Empty)) (create name root draws)
    (fun k fs => k = keys /\ framed fs /\ finished fs) stopped.
Proof using KL Hsalt Hkeys Hcheck.
  intros Hdraw. unfold create. eapply hoare_bind; [apply create_prepare|]. intros [].
  eapply (hoare_bind _ _ _ _ (fun s fs => s = salt /\ begun (eq (Some Node.Empty)) fs)).
  { apply hoare_lift; [|apply empty_stopped]. rewrite Hdraw. by intros a fs [= <-]. }
  intros s fs i [-> HP]. revert fs i HP. rewrite Hkeys. unfold mbind at 1, Proc_bind at 1, proc_lift at 1. rewrite Hcheck.
  unfold mbind at 1, Proc_bind at 1, proc_lift at 1. cbn beta iota. fold meta.
  match goal with |- forall fs i, _ -> match ?m fs i with _ => _ end =>
    change (hoare (begun (eq (Some Node.Empty))) m (fun k fs => k = keys /\ framed fs /\ finished fs) stopped) end.
  eapply hoare_bind; [apply create_database|]. intros []. eapply hoare_bind; [apply create_keyspaces|]. intros [].
  eapply (hoare_bind _ _ _ _ (fun _ fs => framed fs /\ finished fs)); [|intros []; by apply hoare_ret].
  apply hoare_step; [|by apply blank_stopped]. intros fs [Hf (d & w & Hs & Hdom & Htab)]. unfold on_database. rewrite Hs.
  split; [intros n Hn; rewrite lookup_insert_ne by done; auto|].
  eexists _, _. split; [apply lookup_insert_eq|]. split.
  - intros ks. destruct (decide (ks = Keyspace.Meta)) as [->|Hne]; [by rewrite lookup_insert_eq|].
    rewrite lookup_insert_ne by done. apply Hdom, ALL_KEYSPACES_complete.
  - rewrite table_insert, bool_decide_eq_true_2 by done. apply meta_read_write. split; [done|done|].
    destruct (key_check_Ok keys) as (c & Hc & Hl). cbn. congruence.
Qed.
End creating.

(** ** Properties *)
Section properties.
Context `{Env}.

(** C17. Compaction never endangers the store. Wherever it stops (a failed
    step, a lock that is held, a crash at any step), the store's path holds a
    complete database with exactly the entries it had, and nothing but the
    staging entry beside it has changed; and once it returns, the staging
    entry is gone and the store's files hold no value that is not a live one,
    so nothing that was deleted or overwritten survives in them. *)
Theorem compact_keeps_store (path : str) (d : Disk) (written : gset bytes) (fs : Fs) (i : nat) :
  complete d -> fs !! path = Some (Node.Database d written) ->
  let '(outcome, fs', _) := compact path d fs i in
  (exists w, fs' !! path = Some (Node.Database d w)) /\
  (forall n, n <> path -> n <> staging_name path -> fs' !! n = fs !! n) /\
  (outcome = Some (Ok tt) -> fs' !! staging_name path = None /\
     exists w, fs' !! path = Some (Node.Database d w) /\ live d w).
Proof using Type.
  intros Hd Hp. pose proof (compact_hold path d Hd fs fs i) as Hc.
  assert (Hold path d fs anything anything fs) as H0 by (split; [by exists written|done|done]). specialize (Hc H0).
  destruct (compact path d fs i) as [[[[[]|e]|] fs'] j].
  - destruct Hc as [(w & Hl & Hw) Hs Hf]. split; [by exists w|]. split; [done|]. intros _. split; [done|]. by exists w.
  - destruct Hc as [(w & _ & Hw) Hs Hf]. split; [by exists w|]. done.
  - destruct Hc as [(w & _ & Hw) Hs Hf]. split; [by exists w|]. done.
Qed.

Context `{KL : KdfLaws} `{Entropy}.

(** C22. A store is created whole or not at all. Creating a store in an absent
    or empty directory, under any failures and a crash at any step, leaves
    either no store (opening it reports it missing) or a store that opens
    with the root key it was created under, and touches nothing else; when it
    returns, the store opens with the keys it returned, and another root key
    is told that the store is locked unless its check value collides. *)
Theorem create_all_or_nothing (name : str) (root salt : bytes) (fs : Fs) (i draws : nat) :
  healthy -> fill draws 32 = Some salt ->
  fs !! name = None \/ fs !! name = Some Node.Empty -> fs !! staging_name name <> Some Node.File ->
  let '(outcome, fs', _) := create name root draws fs i in
  exists keys, store_derive root INITIAL_ROOT_KEY_ID salt = Ok keys /\
  (forall n, n <> name -> fs' !! n = fs !! n) /\
  (opened name root fs' = Some (Ok keys) \/
   exists missing, opened name root fs' = Some (Err (StoreError.StoreMissing missing))) /\
  (forall k, outcome = Some (Ok k) -> k = keys /\ opened name root fs' = Some (Ok keys) /\
    forall other, opened name other fs' = Some (Err StoreError.StoreLocked) \/
      exists ok, store_derive other INITIAL_ROOT_KEY_ID salt = Ok ok /\ key_check ok = key_check keys).
Proof using All.
  intros Hh Hf Hn Hs. destruct (Hh draws 32%nat) as (s' & Hs' & Hl). rewrite Hf in Hs'. injection Hs' as <-.
  destruct (store_derive_Ok root INITIAL_ROOT_KEY_ID salt) as (keys & Hk & _), (key_check_Ok keys) as (check & Hc & Hcl).
  pose proof (create_hold name root salt keys check fs Hl Hk Hc draws) as Hcr.
  assert (fst (salt_generate draws) = Ok salt) as Hd by (unfold salt_generate, random_array; cbn [fst]; by rewrite Hf, Hl).
  specialize (Hcr Hd fs i). assert (begun name fs (fun n => n = None \/ n = Some Node.Empty) fs) as H0' by (by split).
  specialize (Hcr H0').
  assert (forall fs', framed name fs fs' -> fs' !! staging_name name <> Some Node.File) as Hst.
  { intros fs' Hfr. rewrite Hfr; [done|]. apply staging_ne. }
  assert (forall fs' other, framed name fs fs' -> finished name salt check fs' ->
    opened name other fs' = Some (store_unlock other INITIAL_ROOT_KEY_ID salt check)) as Hop.
  { intros fs' other Hfr (d & w & Hd' & Hcomp & Hm). by rewrite (opened_store name other fs' d w _ Hd' Hcomp Hm (Hst fs' Hfr)). }
  assert (forall fs', stopped name salt check fs fs' -> (forall n, n <> name -> fs' !! n = fs !! n) /\
    (opened name root fs' = Some (Ok keys) \/ exists missing, opened name root fs' = Some (Err (StoreError.StoreMissing missing)))) as Hstop.
  { intros fs' [Hfr [Hno|Hfin]]; (split; [done|]); [right; by apply opened_no_store|left]. rewrite Hop by done.
    by rewrite (store_unlock_spec _ _ _ _ _ _ Hk Hc), bool_decide_eq_true_2. }
  destruct (create name root draws fs i) as [[[[k|e]|] fs'] j]; exists keys; (split; [done|]).
  2,3: destruct (Hstop fs' Hcr); by split_and!.
  destruct Hcr as (-> & Hfr & Hfin). destruct (Hstop fs' (conj Hfr (or_intror Hfin))) as [HA HB]. split; [done|]. split; [done|].
  intros k [= <-]. split; [done|]. split.
  - rewrite Hop by done. by rewrite (store_unlock_spec _ _ _ _ _ _ Hk Hc), bool_decide_eq_true_2.
  - intros other. destruct (store_derive_Ok other INITIAL_ROOT_KEY_ID salt) as (ok & Hok & _), (key_check_Ok ok) as (c & Hco & _).
    rewrite Hop by done. rewrite (store_unlock_spec _ _ _ _ _ _ Hok Hco). case_bool_decide as He; [right|by left].
    exists ok. split; [done|]. congruence.
Qed.
End properties.
