(* ===== verification/DiskWrite.v ===== *)
(** * Writing the disk ([phylake::store::directory], [phylake::store::shred])

    The transactions of registration, of root grants and of shredding as the
    store runs them: records opened and sealed, wrapped keys inserted and
    removed in the keyspaces. Each refines the operation on the logical store;
    with compaction, a shred leaves no wrapped key of the tenant in the
    database's files. *)
From S2P Require Import Prelude Vocab Ids Payload Epitrope Origin View Chain Issue Budget Decision Revoke Lifecycle.
From S2P Require Import Records Store Seal RecordKey Invocation Directory Shred Invariant StoreRun Runs Custody.
From S2P Require Import Keys Disk RootRotation RootRep RootStage Owned Keyring Proc DiskView StoreDir StoreDirGuarantees.
Local Open Scope Z_scope.

(** ** The transactions *)
Section transactions.
Context `{Kdf} `{Entropy} `{Aead} `{StoreCodec}.

(** A body that staged nothing drops its transaction. *)
Definition disk_tx (fp : Failpoint) (disk : Disk) (body : result StoreError (option Disk))
    : result StoreError unit * Disk :=
  match body with
  | Err e => (Err e, disk)
  | Ok None => (Ok tt, disk)
  | Ok (Some tx) => commit fp disk tx None tt
  end.

(** [register_tenant]. *)
Definition registered_record (now : Timestamp) (registration : TenantRegistration) : TenantRecord :=
  TenantRecord.mk (TenantRegistration.id registration) (TenantRegistration.class registration)
    (TenantRegistration.verifying_key registration) (TenantRegistration.bound_uids registration)
    (TenantRegistration.parent registration) (TenantRegistration.ceilings registration) INITIAL_DATA_KEY_ID now.
Definition disk_register_tx (now : Timestamp) (keys : StoreKeys) (disk : Disk) (registration : TenantRegistration)
    : Draws (option Disk) :=
  let id := TenantRegistration.id registration in
  existing ← lift (disk_tenant_record keys disk id);
  match existing with
  | Some existing =>
      _ ← lift (ensure (same_identity existing registration) (StoreError.Conflict "tenant"));
      mret None
  | None =>
      tombstone ← lift (disk_tombstone keys disk id);
      _ ← lift (ensure (match tombstone with Some _ => false | None => true end) (StoreError.TenantShredded id));
      _ ← lift (match TenantRegistration.parent registration with
                | Some parent =>
                    found ← disk_tenant_record keys disk parent;
                    _ ← ok_or found (StoreError.TenantMissing parent);
                    Ok tt
                | None => Ok tt
                end);
      data_key ← data_key_generate INITIAL_DATA_KEY_ID;
      wrapped ← with_nonce (wrap_tenant_key_with (store_kek keys) (TenantId_to_bytes id) data_key);
      key_slot ← lift (slot_key (StoreKeys.index keys) (Slot.DataKey id INITIAL_DATA_KEY_ID));
      let tx := disk_insert Keyspace.Keys key_slot wrapped disk in
      key ← lift (slot_key (StoreKeys.index keys) (Slot.Tenant id));
      tx ← put_global keys tx slot_TENANT key (registered_record now registration);
      mret (Some tx)
  end.
Definition disk_register_tenant (fp : Failpoint) (now : Timestamp) (keys : StoreKeys) (disk : Disk)
    (registration : TenantRegistration) (draws : nat) : result StoreError unit * Disk :=
  disk_tx fp disk (fst (disk_register_tx now keys disk registration draws)).

(** [put_new_grant] and [install_root_grant]. *)
Definition disk_put_new_grant (keys : StoreKeys) (tx : Disk) (record : GrantRecord) : Draws (option Disk) :=
  existing ← lift (disk_grant_record (Reader.mk keys tx) (GrantRecord.id record));
  match existing with
  | Some existing =>
      _ ← lift (ensure (bool_decide (existing = record)) (StoreError.Conflict "grant"));
      mret None
  | None =>
      key ← lift (slot_key (StoreKeys.index keys) (Slot.Grant (GrantRecord.id record)));
      tx ← put_global keys tx slot_GRANT key record;
      mret (Some tx)
  end.
Definition disk_install_tx (keys : StoreKeys) (disk : Disk) (root : RootGrant) : Draws (option Disk) :=
  grant ← lift (root_to_grant root);
  holder ← lift (disk_tenant_record keys disk (RootGrant.holder root));
  _ ← lift (ok_or holder (StoreError.TenantMissing (RootGrant.holder root)));
  disk_put_new_grant keys disk (from_grant grant (RootGrant.target_scope root)).
Definition disk_install_root_grant (fp : Failpoint) (keys : StoreKeys) (disk : Disk) (root : RootGrant) (draws : nat)
    : result StoreError unit * Disk :=
  disk_tx fp disk (fst (disk_install_tx keys disk root draws)).

(** [has_open_invocations]: the scan of the sessions, then that of the
    invocations, which ends at the first open one. *)
Definition read_entry {T} `{StoredRecord T} (keys : StoreKeys) (sl : RecordSlot) (entry : bytes * bytes)
    : result StoreError T :=
  plain ← open_bytes [StoreKeys.meta keys] sl entry.1 entry.2;
  decode plain (Keyspace.name (RecordSlot.keyspace sl)).
Fixpoint owned_loop (keys : StoreKeys) (tenant : TenantId) (owned : gset SessionId) (l : list (bytes * bytes))
    : result StoreError (gset SessionId) :=
  match l with
  | [] => Ok owned
  | entry :: l =>
      session ← read_entry keys slot_SESSION entry;
      owned_loop keys tenant
        (if bool_decide (SessionRecord.owner session = tenant) then {[SessionRecord.id session]} ∪ owned else owned) l
  end.
Fixpoint open_loop (keys : StoreKeys) (tenant : TenantId) (owned : gset SessionId) (l : list (bytes * bytes))
    : result StoreError bool :=
  match l with
  | [] => Ok false
  | entry :: l =>
      record ← read_entry keys slot_INVOCATION entry;
      if involved owned tenant record && negb (is_terminal (InvocationRecord.state record)) then Ok true
      else open_loop keys tenant owned l
  end.
Definition disk_has_open_invocations (keys : StoreKeys) (disk : Disk) (tenant : TenantId) : result StoreError bool :=
  owned ← owned_loop keys tenant ∅ (entries disk Keyspace.Sessions);
  open_loop keys tenant owned (entries disk Keyspace.Invocations).

(** [shred_tenant]; first what it removes of a rotation. *)
Definition strip_rekey (index : bytes) (tenant : TenantId) (rekey : option RekeyRecord) (tx : Disk) : result StoreError Disk :=
  match rekey with
  | Some rekey =>
      tx ← if negb (RekeyRecord.is_done rekey)
           then retiring ← slot_key index (Slot.DataKey tenant (RekeyRecord.from_key_id rekey));
                Ok (disk_remove Keyspace.Keys retiring tx)
           else Ok tx;
      key ← slot_key index (Slot.Rekey tenant);
      Ok (disk_remove Keyspace.Rekey key tx)
  | None => Ok tx
  end.
Definition disk_shred_tx (now : Timestamp) (keys : StoreKeys) (disk : Disk) (tenant : TenantId) : Draws (option Disk) :=
  tombstone ← lift (disk_tombstone keys disk tenant);
  match tombstone with
  | Some _ => mret None
  | None =>
      found ← lift (disk_tenant_record keys disk tenant);
      record ← lift (ok_or found (StoreError.TenantMissing tenant));
      busy ← lift (disk_has_open_invocations keys disk tenant);
      _ ← lift (ensure (negb busy) (StoreError.TenantBusy tenant));
      let index := StoreKeys.index keys in
      active ← lift (slot_key index (Slot.DataKey tenant (TenantRecord.data_key_id record)));
      let tx := disk_remove Keyspace.Keys active disk in
      rekey ← lift (disk_rekey_record keys tx tenant);
      tx ← lift (strip_rekey index tenant rekey tx);
      address ← lift (slot_key index (Slot.AddressKeys tenant));
      let tx := disk_remove Keyspace.Keys address tx in
      key ← lift (slot_key index (Slot.Tenant tenant));
      let tx := disk_remove Keyspace.Tenants key tx in
      key ← lift (slot_key index (Slot.Tombstone tenant));
      tx ← put_global keys tx slot_TOMBSTONE key (TombstoneRecord.mk tenant now);
      mret (Some tx)
  end.
(** The result, the disk and the cache of keyrings. *)
Definition disk_shred_tenant (fp : Failpoint) (now : Timestamp) (keys : StoreKeys) (cache : gmap TenantId Keyring)
    (disk : Disk) (tenant : TenantId) (draws : nat) : result StoreError unit * Disk * gmap TenantId Keyring :=
  match fst (disk_shred_tx now keys disk tenant draws) with
  | Ok (Some tx) =>
      match commit fp disk tx None tt with
      | (Ok _, disk) => (Ok tt, disk, evict_tenant_keys tenant cache)
      | (Err e, disk) => (Err e, disk, cache)
      end
  | body => (disk_tx fp disk body, cache)
  end.
End transactions.

(** ** One write *)
#[global] Instance Cell_eq_dec : EqDecision Cell.
Proof. solve_decision. Defined.

(** The stores agree on every cell but [c]. *)
Record Differs `{Kdf} `{Aead} `{StoreCodec} (c : Cell) (db db' : Db) : Prop := {
  df_present : forall c', c' <> c -> present db' c' <-> present db c';
  df_content : forall c' p, c' <> c -> content db c' p -> content db' c' p;
}.
(** The secrets agree on every cell of [db] but [c]. *)
Record SameSecrets (c : Cell) (db : Db) (mat mat' : Material) : Prop := {
  sm_data : forall t id, Cell.DataKey t id <> c -> present db (Cell.DataKey t id) -> data_key_of mat' t id = data_key_of mat t id;
  sm_address : forall t, Cell.AddressKeys t <> c -> present db (Cell.AddressKeys t) -> address_keys_of mat' t = address_keys_of mat t;
}.
Lemma SameSecrets_refl c db mat : SameSecrets c db mat mat.
Proof. by split. Qed.
Ltac differs :=
  split; intros c'; destruct c'; cbn; intros;
  rewrite ?lookup_insert_ne, ?lookup_delete_ne by congruence; try done; try set_solver.

Lemma keyspaces_apart ks : ks ∈ store_keyspaces -> ks ∈ tenant_keyspaces -> False.
Proof. unfold store_keyspaces, tenant_keyspaces. destruct ks; set_solver. Qed.

(** The owners of ledgers and of addressing subkeys are cells themselves. *)
Lemma asked_mono db db' c : (forall c, present db' c -> present db c) -> asked db' c -> asked db c.
Proof.
  intros Hp [Hc|Hc]; [left; auto|right]. destruct c as [| | | | | | | | |[g|s|t]| |t]; try done.
  - apply (Hp (Cell.Grant g) Hc).
  - apply (Hp (Cell.Session s) Hc).
  - destruct Hc as [Hc|Hc]; [left; apply (Hp (Cell.Tenant t) Hc)|right; apply (Hp (Cell.Tombstone t) Hc)].
  - apply (Hp (Cell.Tenant t) Hc).
Qed.

Section write.
Context `{KL : KdfLaws} `{Entropy} `{AL : AeadLaws} `{AT : !AeadTotal} `{StoreCodec}.
Context (keys : StoreKeys) (id : Z) (Hkeys : StoreKeysOk id keys) (Hid : in_range u32_max id).
Local Abbreviation index := (StoreKeys.index keys).

Lemma holds_differs c db db' mat mat' c' k v :
  Differs c db db' -> SameSecrets c db mat mat' -> c' <> c -> present db c' ->
  holds keys db mat c' k v -> holds keys db' mat' c' k v.
Proof using Type.
  intros HD [Hd Ha] Hne Hp Hh. destruct c'; cbn [holds] in *; rewrite ?Hd, ?Ha by done; try done;
    destruct Hh as (p & Hs & Hc); exists p; (split; [done|]); by apply (df_content _ _ _ HD).
Qed.
Lemma Distinct_mono db db' rest :
  (forall c, present db' c -> present db c) -> Distinct index db rest -> Distinct index db' rest.
Proof using Type.
  intros Hp [Hc Hr]. split.
  - intros c c' k Hpc Hac. apply Hc; [auto|by eapply asked_mono].
  - intros a k Hpa. by apply Hr, Hp.
Qed.

(** A value inserted under the key of a cell that it holds. *)
Lemma Rep_insert c k v disk db db' mat mat' rest :
  Rep keys disk db mat rest -> Differs c db db' -> SameSecrets c db mat mat' -> present db' c ->
  cell_ks c ∈ store_keyspaces -> cell_key index c = Ok k -> holds keys db' mat' c k v -> Distinct index db' rest ->
  Rep keys (disk_insert (cell_ks c) k v disk) db' mat' rest.
Proof using Type.
  intros HR HD HS Hp Hks Hk Hh Hdis.
  assert (forall ks k0, ks ∉ store_keyspaces -> disk_get (disk_insert (cell_ks c) k v disk) ks k0 = disk_get disk ks k0) as Hout.
  { intros ks k0 Hn. rewrite disk_get_insert, bool_decide_eq_false_2; [done|]. intros [-> _]. done. }
  assert (Keyspace.Artifacts ∉ store_keyspaces) as Hart by (apply (bool_decide_eq_true_1 _); reflexivity).
  split; [| | | |
    |exact Hdis].
  - intros c' Hp'. destruct (decide (c' = c)) as [->|Hne].
    + exists k, v. rewrite disk_get_insert, bool_decide_eq_true_2 by done. done.
    + assert (present db c') as Hp0 by (by apply (df_present _ _ _ HD)).
      destruct (rep_cell _ _ _ _ _ HR c' Hp0) as (k' & v' & Hk' & Hv' & Hh').
      exists k', v'. split; [done|]. split; [|by eapply holds_differs].
      rewrite disk_get_insert, bool_decide_eq_false_2; [done|]. intros [Hks' ->]. destruct Hne.
      apply (di_cells _ _ _ Hdis c' c k); try done. by left.
  - intros ks k0 v0 Hs Hg. rewrite disk_get_insert in Hg. case_bool_decide as He; [destruct He as [-> ->]; by exists c|].
    destruct (rep_entry _ _ _ _ _ HR ks k0 v0 Hs Hg) as (c0 & Hp0 & Hks0 & Hk0). exists c0. split; [|done].
    apply (df_present _ _ _ HD); [|done]. intros ->. apply He. split; [done|]. congruence.
  - intros k0 v0 Hg. rewrite Hout in Hg by done.
    destruct (rep_artifact _ _ _ _ _ HR k0 v0 Hg) as [(a & Hpa & Hka)|Hr]; [left|by right]. exists a. split; [|done].
    apply (df_present _ _ _ HD); [|done]. intros <-. by apply Hart.
  - intros k0 v0 Hg. rewrite Hout by done. by apply (rep_rest _ _ _ _ _ HR).
  - intros ks Hs. rewrite <- (rep_tenant _ _ _ _ _ HR ks Hs). unfold disk_insert. rewrite table_insert.
    case_bool_decide as He; [|done]. subst ks. by destruct (keyspaces_apart (cell_ks c)).
Qed.
(** The key of a cell removed. *)
Lemma Rep_remove c k disk db db' mat rest :
  Rep keys disk db mat rest -> Differs c db db' -> asked db c -> ~ present db' c ->
  cell_ks c ∈ store_keyspaces -> cell_key index c = Ok k ->
  Rep keys (disk_remove (cell_ks c) k disk) db' mat rest.
Proof using Type.
  intros HR HD Ha Hn Hks Hk.
  assert (forall c', present db' c' -> c' <> c /\ present db c') as Hpres.
  { intros c' Hp. destruct (decide (c' = c)) as [->|Hne]; [done|]. split; [done|]. by apply (df_present _ _ _ HD). }
  assert (forall ks k0, ks ∉ store_keyspaces -> disk_get (disk_remove (cell_ks c) k disk) ks k0 = disk_get disk ks k0) as Hout.
  { intros ks k0 Hs. rewrite disk_get_remove, bool_decide_eq_false_2; [done|]. intros [-> _]. done. }
  assert (Keyspace.Artifacts ∉ store_keyspaces) as Hart by (apply (bool_decide_eq_true_1 _); reflexivity).
  split.
  - intros c' [Hne Hp]%Hpres. destruct (rep_cell _ _ _ _ _ HR c' Hp) as (k' & v' & Hk' & Hv' & Hh').
    exists k', v'. split; [done|]. split; [|by eapply holds_differs; [..|exact Hh']; [|apply SameSecrets_refl|..]].
    rewrite disk_get_remove, bool_decide_eq_false_2; [done|]. intros [Hks' ->]. destruct Hne.
    by apply (di_cells _ _ _ (rep_distinct _ _ _ _ _ HR) c' c k).
  - intros ks k0 v0 Hs Hg. rewrite disk_get_remove in Hg. case_bool_decide as He; [done|].
    destruct (rep_entry _ _ _ _ _ HR ks k0 v0 Hs Hg) as (c0 & Hp0 & Hks0 & Hk0). exists c0. split; [|done].
    apply (df_present _ _ _ HD); [|done]. intros ->. apply He. split; [done|]. congruence.
  - intros k0 v0 Hg. rewrite Hout in Hg by done.
    destruct (rep_artifact _ _ _ _ _ HR k0 v0 Hg) as [(a & Hpa & Hka)|Hr]; [left|by right]. exists a. split; [|done].
    apply (df_present _ _ _ HD); [|done]. intros <-. by apply Hart.
  - intros k0 v0 Hg. rewrite Hout by done. by apply (rep_rest _ _ _ _ _ HR).
  - intros ks Hs. rewrite <- (rep_tenant _ _ _ _ _ HR ks Hs). unfold disk_remove. rewrite table_insert.
    case_bool_decide as He; [|done]. subst ks. by destruct (keyspaces_apart (cell_ks c)).
  - eapply Distinct_mono; [by intros c' [_ ?]%Hpres|]. apply (rep_distinct _ _ _ _ _ HR).
Qed.

(** What the archive library does with one record. *)
Definition archives {T} `{StoredRecord T} (r : T) : Prop :=
  exists p, to_archive r = Some p /\ from_archive p = Some r /\ Z.of_nat (length p) <= MAX_PLAINTEXT_LEN.
Lemma put_global_good {T} `{StoredRecord T} (r : T) c k tx i : healthy -> archives r -> cell_key index c = Ok k ->
  exists v p j, put_global keys tx (cell_slot c) k r i = (Ok (disk_insert (cell_ks c) k v tx), j) /\
    sealed_as keys (cell_slot c) k v p /\ from_archive p = Some r.
Proof using KL AL AT Hkeys.
  intros Hh (p & Hto & Hfrom & Hlen) Hk. destruct (cell_key_len index c) as (k' & Hk' & Hkl). assert (k' = k) as -> by congruence.
  unfold put_global, put, seal_bytes. rewrite (lift_bind _ _ _ p) by (unfold encode; by rewrite Hto).
  destruct (with_nonce_Ok (seal_with (StoreKeys.meta keys) (seal_context (cell_slot c) k) p) i Hh) as (n & Hnl & Hw).
  destruct (seal_with_total (StoreKeys.meta keys) (seal_context (cell_slot c) k) p n) as (v & Hv);
    [apply Hkeys|done|done|done|].
  rewrite Hv in Hw. exists v, p, (S i). rewrite (Draws_bind_eq _ _ _ _ _ Hw). split; [done|]. split; [by exists n|done].
Qed.
End write.

(** ** Registration and root grants *)
Section directory.
Context `{KL : KdfLaws} `{Entropy} `{AL : AeadLaws} `{AT : !AeadTotal} `{StoreCodec}.
Context (keys : StoreKeys) (Hkeys : StoreKeysOk (StoreKeys.root_key_id keys) keys).
Context (Hid : in_range u32_max (StoreKeys.root_key_id keys)) (Hh : healthy).
Local Abbreviation index := (StoreKeys.index keys).
Local Abbreviation root_id := (StoreKeys.root_key_id keys).

(** No two records share a key: the hash does not collide on what the store
    looks up. *)
Definition Unambiguous (db : Db) : Prop := forall c, sealed_cell c -> Unaliased index db c.

(** The secrets with a new tenant's first data key. *)
Definition fresh_secrets (t : TenantId) (key : TenantDataKey) (mat : Material) : Material := {|
  data_key_of t' id' := if bool_decide (t' = t /\ id' = TenantDataKey.id key) then TenantDataKey.bytes_ key else data_key_of mat t' id';
  address_keys_of t' :=
    if bool_decide (t' = t) then
      match tenant_derive key with Ok k => snd (tenant_split k) | Err _ => address_keys_of mat t' end
    else address_keys_of mat t' |}.
Lemma fresh_Coherent t drawn mat : Coherent mat -> Coherent (fresh_secrets t (TenantDataKey.mk INITIAL_DATA_KEY_ID drawn) mat).
Proof using Type.
  intros Hc t' k. cbn [fresh_secrets data_key_of address_keys_of TenantDataKey.id TenantDataKey.bytes_].
  destruct (decide (t' = t)) as [->|Hne].
  - rewrite !bool_decide_eq_true_2 by done. by intros ->.
  - rewrite !bool_decide_eq_false_2 by tauto. apply Hc.
Qed.

Lemma fresh_same t key db mat : RootReady db -> Db.tenants db !! t = None ->
  SameSecrets (Cell.DataKey t (TenantDataKey.id key)) db mat (fresh_secrets t key mat).
Proof using Type.
  intros HD Ht. split; cbn [fresh_secrets data_key_of address_keys_of present].
  - intros t' id' Hne _. rewrite bool_decide_eq_false_2; [done|]. by intros [-> ->].
  - intros t' _ Hp. rewrite bool_decide_eq_false_2; [done|]. intros ->. destruct (rr_address _ HD t Hp). congruence.
Qed.
Lemma fresh_MaterialOk t drawn record db mat : RootReady db -> Db.tenants db !! t = None -> length drawn = KEY_LEN ->
  MaterialOk db mat ->
  MaterialOk (set_tenants <[t := record]> (set_data_keys (union {[(t, INITIAL_DATA_KEY_ID)]}) db))
    (fresh_secrets t (TenantDataKey.mk INITIAL_DATA_KEY_ID drawn) mat).
Proof using Type.
  intros HD Ht Hl [Hd Hi Ha].
  assert (forall t', t' ∈ Db.address_keys db -> t' <> t) as Hne.
  { intros t' Hp ->. destruct (rr_address _ HD t Hp). congruence. }
  split; cbn [fresh_secrets data_key_of address_keys_of TenantDataKey.id TenantDataKey.bytes_ Db.data_keys Db.address_keys set_tenants set_data_keys].
  - intros t' id' Hp. case_bool_decide as He; [done|]. apply Hd.
    apply elem_of_union in Hp as [[= -> ->]%elem_of_singleton|Hp]; [by destruct He|done].
  - intros t' Hp. rewrite bool_decide_eq_false_2 by auto. auto.
  - intros t' Hp. rewrite bool_decide_eq_false_2 by auto. auto.
Qed.
Lemma parent_refines disk db mat rest : Rep keys disk db mat rest -> Unambiguous db ->
  forall parent, match parent with
    | Some parent => found ← disk_tenant_record keys disk parent; _ ← ok_or found (StoreError.TenantMissing parent); Ok tt
    | None => Ok tt
    end = match parent with
    | Some parent => ensure (bool_decide (is_Some (Db.tenants db !! parent))) (StoreError.TenantMissing parent)
    | None => Ok tt
    end.
Proof using KL AL Hkeys Hid.
  intros HR Hu [parent|]; [|done]. rewrite (disk_tenant_record_refines keys disk db mat rest root_id Hkeys Hid HR parent (Hu (Cell.Tenant parent) I)).
  cbn [mbind result_bind]. by destruct (Db.tenants db !! parent).
Qed.

(** What a refined operation keeps: the disk holds the new logical store, and
    the secrets stay in order. *)
Definition kept (rest : Disk) (db : Db) (mat : Material) (disk' : Disk) (db' : Db) (mat' : Material) : Prop :=
  Rep keys disk' db' mat' rest /\ (MaterialOk db mat -> MaterialOk db' mat') /\ (Coherent mat -> Coherent mat').

Lemma disk_register_refines fp now disk db mat rest registration draws :
  let t := TenantRegistration.id registration in
  Rep keys disk db mat rest -> RootReady db -> Unambiguous db ->
  archives (registered_record now registration) ->
  let '(r, db') := register_tenant fp now db registration in
  Distinct index db' rest ->
  exists disk' mat', disk_register_tenant fp now keys disk registration draws = (r, disk') /\ kept rest db mat disk' db' mat'.
Proof using KL AL AT Hkeys Hid Hh.
  intros t HR HD Hu Har. unfold register_tenant, register_tenant_tx, disk_register_tenant, disk_register_tx. fold t.
  rewrite (lift_bind _ _ _ _ (disk_tenant_record_refines keys disk db mat rest root_id Hkeys Hid HR t (Hu (Cell.Tenant t) I))).
  destruct (Db.tenants db !! t) as [existing|] eqn:Ht.
  { destruct (same_identity existing registration); cbn; intros _; exists disk, mat; by split. }
  rewrite (lift_bind _ _ _ _ (disk_tombstone_refines keys disk db mat rest root_id Hkeys Hid HR t (Hu (Cell.Tombstone t) I))).
  destruct (Db.tombstones db !! t) as [tomb|] eqn:Hto.
  { cbn. intros _. exists disk, mat. by split. }
  rewrite bool_decide_eq_true_2 by done. rewrite (lift_bind _ _ _ tt) by done. cbn [ensure mbind result_bind].
  rewrite (parent_refines disk db mat rest HR Hu).
  set (par := match TenantRegistration.parent registration with
              | Some parent => ensure (bool_decide (is_Some (Db.tenants db !! parent))) (StoreError.TenantMissing parent)
              | None => Ok tt
              end). destruct par as [[]|e];
    [|cbn [fst mbind Draws_bind lift result_bind with_tx disk_tx]; intros _; exists disk, mat; by split].
  rewrite (lift_bind _ _ _ tt) by done. cbn [mbind result_bind with_tx commit]. fold (registered_record now registration). fold t.
  set (record := registered_record now registration) in *.
  set (db1 := set_data_keys (union {[(t, INITIAL_DATA_KEY_ID)]}) db). set (db2 := set_tenants <[t := record]> db1). intros Hdis.
  unfold data_key_generate. destruct (random_array_Ok KEY_LEN draws Hh) as (drawn & Hdr & Hdl).
  rewrite (Draws_bind_eq _ _ _ (TenantDataKey.mk INITIAL_DATA_KEY_ID drawn) (S draws)) by (by rewrite (Draws_bind_eq _ _ _ _ _ Hdr)).
  set (key := TenantDataKey.mk INITIAL_DATA_KEY_ID drawn).
  destruct (with_nonce_Ok (wrap_tenant_key_with (store_kek keys) (TenantId_to_bytes t) key) (S draws) Hh) as (n & Hnl & Hw).
  destruct (wrap_tenant_key_total (store_kek keys) (TenantId_to_bytes t) key n) as (wrapped & Hwr); [apply Hkeys|done|done|].
  rewrite Hwr in Hw. rewrite (Draws_bind_eq _ _ _ _ _ Hw).
  destruct (slot_key_Ok index (Slot.DataKey t INITIAL_DATA_KEY_ID)) as (kd & Hkd & _). rewrite (lift_bind _ _ _ _ Hkd).
  destruct (slot_key_Ok index (Slot.Tenant t)) as (kt & Hkt & _). rewrite (lift_bind _ _ _ _ Hkt).
  destruct (put_global_good keys root_id Hkeys record (Cell.Tenant t) kt (disk_insert Keyspace.Keys kd wrapped disk) (S (S draws)) Hh Har Hkt)
    as (v & p & j & Hput & Hs & Hfrom).
  change (cell_slot (Cell.Tenant t)) with slot_TENANT in Hput. rewrite (Draws_bind_eq _ _ _ _ _ Hput). cbn [fst mret Draws_ret disk_tx commit].
  set (mat' := fresh_secrets t key mat). eexists _, mat'. split; [reflexivity|]. split_and!; [|by apply fresh_MaterialOk|by apply fresh_Coherent].
  assert (forall c, present db1 c -> present db2 c) as Hp12.
  { intros c. destruct c; cbn; try done. rewrite lookup_insert_is_Some'. auto. }
  apply (Rep_insert keys (Cell.Tenant t) kt v _ db1 db2 mat' mat'); try done.
  - apply (Rep_insert keys (Cell.DataKey t INITIAL_DATA_KEY_ID) kd wrapped disk db db1 mat mat' rest); try done.
    + differs.
    + by apply (fresh_same t key).
    + cbn. set_solver.
    + by apply in_store.
    + exists n. split; [done|]. cbn [mat' fresh_secrets data_key_of]. by rewrite bool_decide_eq_true_2.
    + by eapply Distinct_mono.
  - differs.
  - cbn. rewrite lookup_insert_eq. by eexists.
  - by apply in_store.
  - exists p. split; [done|]. split; cbn; by rewrite lookup_insert_eq.
Qed.

Lemma disk_put_new_grant_refines fp disk db mat rest record draws :
  Rep keys disk db mat rest -> Unambiguous db -> archives record ->
  let '(r, db') := with_tx fp db ('(staged, db) ← put_new_grant db record; Ok (if staged : bool then Committed None tt db else Dropped tt)) in
  Distinct index db' rest ->
  exists disk', disk_tx fp disk (fst (disk_put_new_grant keys disk record draws)) = (r, disk') /\ Rep keys disk' db' mat rest.
Proof using KL AL AT Hkeys Hid Hh.
  intros HR Hu Har. unfold put_new_grant, disk_put_new_grant. set (g := GrantRecord.id record).
  rewrite (lift_bind _ _ _ (Db.grants db !! g)).
  2: { apply (disk_grant_record_refines keys disk db mat rest Hkeys Hid HR). intros c Hc. apply Hu. by destruct c. }
  destruct (Db.grants db !! g) as [existing|] eqn:Hg.
  { destruct (bool_decide (existing = record)); cbn; intros _; exists disk; by split. }
  cbn [mbind result_bind with_tx commit]. intros Hdis.
  destruct (slot_key_Ok index (Slot.Grant g)) as (k & Hk & _). rewrite (lift_bind _ _ _ _ Hk).
  destruct (put_global_good keys root_id Hkeys record (Cell.Grant g) k disk draws Hh Har Hk) as (v & p & j & Hput & Hs & Hfrom).
  change (cell_slot (Cell.Grant g)) with slot_GRANT in Hput. rewrite (Draws_bind_eq _ _ _ _ _ Hput).
  eexists. split; [reflexivity|].
  apply (Rep_insert keys (Cell.Grant g) k v disk db _ mat mat rest); try done.
  - differs.
  - cbn. rewrite lookup_insert_eq. by eexists.
  - by apply in_store.
  - exists p. split; [done|]. split; cbn; by rewrite lookup_insert_eq.
Qed.
Lemma disk_install_refines fp disk db mat rest root draws :
  Rep keys disk db mat rest -> Unambiguous db ->
  (forall grant, root_to_grant root = Ok grant -> archives (from_grant grant (RootGrant.target_scope root))) ->
  let '(r, db') := install_root_grant fp db root in
  Distinct index db' rest ->
  exists disk', disk_install_root_grant fp keys disk root draws = (r, disk') /\ Rep keys disk' db' mat rest.
Proof using KL AL AT Hkeys Hid Hh.
  intros HR Hu Har. unfold install_root_grant, install_root_grant_tx, disk_install_root_grant, disk_install_tx.
  destruct (root_to_grant root) as [grant|e]; [|cbn; intros _; exists disk; by split].
  rewrite (lift_bind _ _ _ grant), (lift_bind _ _ _ _ (disk_tenant_record_refines keys disk db mat rest root_id Hkeys Hid HR
    (RootGrant.holder root) (Hu (Cell.Tenant _) I))) by done. cbn [mbind result_bind].
  destruct (Db.tenants db !! RootGrant.holder root) as [holder|]; [|cbn; intros _; exists disk; by split].
  rewrite bool_decide_eq_true_2, (lift_bind _ _ _ holder) by done. cbn [ensure mbind result_bind].
  by apply (disk_put_new_grant_refines fp disk db mat rest _ draws HR Hu), Har.
Qed.
End directory.

(** ** Shredding *)
Section shredding.
Context `{KL : KdfLaws} `{Entropy} `{AL : AeadLaws} `{AT : !AeadTotal} `{StoreCodec}.
Context (keys : StoreKeys) (Hkeys : StoreKeysOk (StoreKeys.root_key_id keys) keys).
Context (Hid : in_range u32_max (StoreKeys.root_key_id keys)) (Hh : healthy).
Local Abbreviation index := (StoreKeys.index keys).
Local Abbreviation root_id := (StoreKeys.root_key_id keys).

(** A scan of a keyspace reads every record of its kind and nothing else. *)
Lemma scan_reads {T} `{StoredRecord T} (sl : RecordSlot) (record_of : Cell -> option T) disk db mat rest :
  Rep keys disk db mat rest -> RecordSlot.keyspace sl ∈ store_keyspaces ->
  (forall c, cell_ks c = RecordSlot.keyspace sl -> cell_slot c = sl /\ sealed_cell c) ->
  (forall c p, cell_slot c = sl -> content db c p -> archived (record_of c) p) ->
  (forall entry, entry ∈ entries disk (RecordSlot.keyspace sl) ->
     exists c r, present db c /\ record_of c = Some r /\ read_entry keys sl entry = Ok r) /\
  (forall c r, cell_slot c = sl -> present db c -> record_of c = Some r ->
     exists entry, entry ∈ entries disk (RecordSlot.keyspace sl) /\ read_entry keys sl entry = Ok r).
Proof using KL AL Hkeys Hid.
  intros HR Hks Hsl Hc.
  assert (forall c k v, cell_slot c = sl -> sealed_cell c -> present db c -> cell_key index c = Ok k ->
    disk_get disk (cell_ks c) k = Some v -> exists r, record_of c = Some r /\ read_entry keys sl (k, v) = Ok r) as Hread.
  { intros c k v Hs Hsc Hp Hk Hv.
    destruct (open_cell keys disk db mat rest root_id Hkeys Hid HR c k v Hsc Hp Hk Hv) as (p & Ho & Hcont & _).
    destruct (Hc c p Hs Hcont) as [Hne Hr]. unfold try_open in Ho. rewrite Hs in Ho.
    destruct (record_of c) as [r|]; [|done]. exists r. split; [done|]. unfold read_entry. cbn [fst snd].
    destruct (open_bytes _ _ _ _) as [p'|[]]; try discriminate Ho. injection Ho as ->. cbn [mbind result_bind].
    unfold decode. by rewrite Hr. }
  split.
  - intros [k v] Hv%entries_elem. destruct (rep_entry _ _ _ _ _ HR _ k v Hks Hv) as (c & Hp & Hck & Hk).
    destruct (Hsl c Hck) as [Hs Hsc]. destruct (Hread c k v Hs Hsc Hp Hk) as (r & Hr & He); [by rewrite Hck|]. by exists c, r.
  - intros c r Hs Hp Hr. assert (cell_ks c = RecordSlot.keyspace sl) as Hck by (unfold cell_ks; by rewrite Hs).
    destruct (rep_cell _ _ _ _ _ HR c Hp) as (k & v & Hk & Hv & _). exists (k, v). split; [apply entries_elem; by rewrite <- Hck|].
    destruct (Hread c k v Hs (proj2 (Hsl c Hck)) Hp Hk Hv) as (r' & Hr' & He). by simplify_eq.
Qed.
Lemma owned_loop_reads tenant l : forall acc, (forall entry, entry ∈ l -> exists r : SessionRecord, read_entry keys slot_SESSION entry = Ok r) ->
  exists owned, owned_loop keys tenant acc l = Ok owned /\ forall s, s ∈ owned <-> s ∈ acc \/
    exists entry r, entry ∈ l /\ read_entry keys slot_SESSION entry = Ok r /\ SessionRecord.owner r = tenant /\ SessionRecord.id r = s.
Proof using Type.
  induction l as [|entry l IH]; intros acc Hl; cbn [owned_loop].
  - exists acc. split; [done|]. intros s. split; [by left|]. intros [?|(? & ? & Hin & _)]; [done|]. by apply elem_of_nil in Hin.
  - destruct (Hl entry) as [r Hr]; [by apply elem_of_cons; left|]. rewrite Hr. cbn [mbind result_bind].
    destruct (IH (if bool_decide (SessionRecord.owner r = tenant) then {[SessionRecord.id r]} ∪ acc else acc)) as (owned & -> & Ho).
    { intros e He. apply Hl. by apply elem_of_cons; right. }
    exists owned. split; [done|]. intros s. rewrite Ho. split.
    + intros [Ha|(e & r' & He & Hx)]; [|right; exists e, r'; split; [by apply elem_of_cons; right|done]].
      case_bool_decide as Hown; [|by left]. apply elem_of_union in Ha as [->%elem_of_singleton|Ha]; [right|by left].
      exists entry, r. split; [by apply elem_of_cons; left|done].
    + intros [Ha|(e & r' & [->|He]%elem_of_cons & Hx & Hown & <-)].
      * left. case_bool_decide; [by apply elem_of_union; right|done].
      * rewrite Hr in Hx. injection Hx as ->. left. rewrite bool_decide_eq_true_2 by done. apply elem_of_union. left. by apply elem_of_singleton.
      * right. by exists e, r'.
Qed.
Lemma open_loop_reads tenant owned l : (forall entry, entry ∈ l -> exists r : InvocationRecord, read_entry keys slot_INVOCATION entry = Ok r) ->
  exists b, open_loop keys tenant owned l = Ok b /\ (b = true <->
    exists entry r, entry ∈ l /\ read_entry keys slot_INVOCATION entry = Ok r /\
      involved owned tenant r && negb (is_terminal (InvocationRecord.state r)) = true).
Proof using Type.
  induction l as [|entry l IH]; intros Hl; cbn [open_loop].
  - exists false. split; [done|]. split; [done|]. intros (? & ? & Hin & _). by apply elem_of_nil in Hin.
  - destruct (Hl entry) as [r Hr]; [by apply elem_of_cons; left|]. rewrite Hr. cbn [mbind result_bind].
    destruct (involved owned tenant r && _) eqn:Hx.
    + exists true. split; [done|]. split; [|done]. intros _. exists entry, r. split; [by apply elem_of_cons; left|done].
    + destruct IH as (b & -> & Hb); [intros e He; apply Hl; by apply elem_of_cons; right|]. exists b. split; [done|]. rewrite Hb. split.
      * intros (e & r' & He & Hrest). exists e, r'. split; [by apply elem_of_cons; right|done].
      * intros (e & r' & [->|He]%elem_of_cons & Hr' & Hi); [congruence|]. by exists e, r'.
Qed.
Lemma disk_open_refines disk db mat rest tenant : Rep keys disk db mat rest ->
  disk_has_open_invocations keys disk tenant = Ok (has_open_invocations db tenant).
Proof using KL AL Hkeys Hid.
  intros HR. unfold disk_has_open_invocations.
  destruct (scan_reads slot_SESSION (fun c => match c with Cell.Session s => Db.sessions db !! s | _ => None end) disk db mat rest HR)
    as [Hs1 Hs2]; [by apply in_store|by intros []|by intros []|].
  destruct (scan_reads slot_INVOCATION (fun c => match c with Cell.Invocation i => Db.invocations db !! i | _ => None end) disk db mat rest HR)
    as [Hi1 Hi2]; [by apply in_store|by intros []|by intros []|].
  destruct (owned_loop_reads tenant (entries disk Keyspace.Sessions) ∅) as (owned & -> & Ho).
  { intros e He. destruct (Hs1 e He) as (_ & r & _ & _ & Hr). by exists r. }
  cbn [mbind result_bind]. destruct (open_loop_reads tenant owned (entries disk Keyspace.Invocations)) as (b & -> & Hb).
  { intros e He. destruct (Hi1 e He) as (_ & r & _ & _ & Hr). by exists r. }
  assert (owned = owned_sessions db tenant) as ->.
  { apply set_eq. intros s. rewrite Ho. unfold owned_sessions. rewrite elem_of_list_to_set, list_elem_of_omap. split.
    - intros [Hx|(e & r & He & Hr & Hown & <-)]; [by apply elem_of_empty in Hx|].
      destruct (Hs1 e He) as (c & r' & _ & Hc & Hr'). rewrite Hr in Hr'. injection Hr' as <-. destruct c as [| | | |s'| | | | | | |]; try done.
      exists (s', r). split; [by apply elem_of_map_to_list|]. by rewrite bool_decide_eq_true_2.
    - intros ([s' r] & Hin%elem_of_map_to_list & Hx). case_bool_decide as Hown; [|done]. injection Hx as <-. right.
      destruct (Hs2 (Cell.Session s') r) as (e & He & Hr); [done|by eexists|done|]. by exists e, r. }
  f_equal. apply eq_iff_eq_true. rewrite Hb. unfold has_open_invocations. rewrite existsb_exists. split.
  - intros (e & r & He & Hr & Hx). destruct (Hi1 e He) as (c & r' & _ & Hc & Hr'). rewrite Hr in Hr'. injection Hr' as <-.
    destruct c as [| | | | |i| | | | | |]; try done. exists (i, r). split; [|done]. by apply list_elem_of_In, elem_of_map_to_list.
  - intros ([i r] & Hin%list_elem_of_In%elem_of_map_to_list & Hx).
    destruct (Hi2 (Cell.Invocation i) r) as (e & He & Hr); [done|by eexists|done|]. by exists e, r.
Qed.

(** [strip_rekey] on the logical store. *)
Definition strip_rekey_db (tenant : TenantId) (db : Db) : Db :=
  match Db.rekey db !! tenant with
  | Some rekey =>
      let db := if negb (RekeyRecord.is_done rekey)
                then set_data_keys (fun k => k ∖ {[(tenant, RekeyRecord.from_key_id rekey)]}) db
                else db in
      set_rekey (delete tenant) db
  | None => db
  end.
Lemma strip_rekey_refines disk db mat rest tenant :
  Rep keys disk db mat rest -> (forall id, rekey_retiring db tenant = Some id -> (tenant, id) ∈ Db.data_keys db) ->
  exists disk', strip_rekey index tenant (Db.rekey db !! tenant) disk = Ok disk' /\
    Rep keys disk' (strip_rekey_db tenant db) mat rest.
Proof using All.
  intros HR Hret. unfold strip_rekey, strip_rekey_db, rekey_retiring in *.
  destruct (Db.rekey db !! tenant) as [rekey|] eqn:Hrk; [|by exists disk].
  destruct (slot_key_Ok index (Slot.Rekey tenant)) as (kr & Hkr & _).
  assert (forall d db1, Db.rekey db1 = Db.rekey db -> Rep keys d db1 mat rest ->
    Rep keys (disk_remove Keyspace.Rekey kr d) (set_rekey (delete tenant) db1) mat rest) as Hlast.
  { intros d db1 He HR1. apply (Rep_remove keys (Cell.Rekey tenant) kr d db1); try done.
    - differs.
    - left. cbn. rewrite He, Hrk. by eexists.
    - cbn. rewrite lookup_delete_eq. by intros [? ?].
    - by apply in_store. }
  destruct (RekeyRecord.is_done rekey); cbn [negb mbind result_bind].
  - rewrite Hkr. cbn [mbind result_bind]. eexists. split; [reflexivity|]. by apply Hlast.
  - destruct (slot_key_Ok index (Slot.DataKey tenant (RekeyRecord.from_key_id rekey))) as (kd & Hkd & _).
    rewrite Hkd. cbn [mbind result_bind]. rewrite Hkr. cbn [mbind result_bind]. eexists. split; [reflexivity|]. apply Hlast; [done|].
    apply (Rep_remove keys (Cell.DataKey tenant (RekeyRecord.from_key_id rekey)) kd disk db); try done.
    + differs.
    + left. by apply Hret.
    + cbn. set_solver.
    + by apply in_store.
Qed.

Lemma disk_shred_refines fp now cache disk db mat rest tenant draws :
  Rep keys disk db mat rest -> RootReady db -> Unambiguous keys db -> archives (TombstoneRecord.mk tenant now) ->
  let '(r, db') := shred_tenant fp now db tenant in
  Distinct index db' rest ->
  exists disk' cache', disk_shred_tenant fp now keys cache disk tenant draws = (r, disk', cache') /\
    kept keys rest db mat disk' db' mat /\
    (r = Ok tt -> Db.tombstones db !! tenant = None -> cache' !! tenant = None).
Proof using All.
  intros HR HD Hu Har. unfold shred_tenant, shred_tenant_tx, disk_shred_tenant, disk_shred_tx.
  rewrite (lift_bind _ _ _ _ (disk_tombstone_refines keys disk db mat rest root_id Hkeys Hid HR tenant (Hu (Cell.Tombstone tenant) I))).
  destruct (Db.tombstones db !! tenant) as [tomb|] eqn:Hto; [cbn; intros _; exists disk, cache; by split|].
  rewrite (lift_bind _ _ _ _ (disk_tenant_record_refines keys disk db mat rest root_id Hkeys Hid HR tenant (Hu (Cell.Tenant tenant) I))).
  destruct (Db.tenants db !! tenant) as [record|] eqn:Ht; [|cbn; intros _; exists disk, cache; by split].
  rewrite (lift_bind _ _ _ record) by done. rewrite (lift_bind _ _ _ _ (disk_open_refines disk db mat rest tenant HR)).
  cbn [ok_or mbind result_bind]. destruct (has_open_invocations db tenant); [cbn; intros _; exists disk, cache; by split|].
  rewrite (lift_bind _ _ _ tt) by done. cbn [negb ensure mbind result_bind with_tx commit].
  set (db1 := set_data_keys (fun k => k ∖ {[(tenant, TenantRecord.data_key_id record)]}) db).
  fold (strip_rekey_db tenant db1). set (db3 := strip_rekey_db tenant db1).
  set (db4 := set_address_keys _ db3). set (db5 := set_tenants _ db4). set (db6 := set_tombstones _ db5). intros Hdis.
  destruct (slot_key_Ok index (Slot.DataKey tenant (TenantRecord.data_key_id record))) as (ka & Hka & _). rewrite (lift_bind _ _ _ _ Hka).
  destruct (rr_active _ HD tenant record Ht) as [Hact Hret].
  assert (Rep keys (disk_remove Keyspace.Keys ka disk) db1 mat rest) as HR1.
  { apply (Rep_remove keys (Cell.DataKey tenant (TenantRecord.data_key_id record)) ka disk db); try done;
      [differs|by left|cbn; set_solver|by apply in_store]. }
  rewrite (lift_bind _ _ _ (Db.rekey db1 !! tenant)).
  2: { apply (disk_rekey_record_refines keys _ db1 mat rest root_id Hkeys Hid HR1). intros c' k Hp. apply (Hu (Cell.Rekey tenant) I).
       destruct c'; cbn in *; try done. set_solver. }
  destruct (strip_rekey_refines _ db1 mat rest tenant HR1) as (tx3 & Htx3 & HR3).
  { intros id Hr. destruct (Hret id Hr) as [Hin Hne]. cbn. set_solver. }
  rewrite (lift_bind _ _ _ _ Htx3). fold db3 in HR3.
  destruct (slot_key_Ok index (Slot.AddressKeys tenant)) as (kb & Hkb & _). rewrite (lift_bind _ _ _ _ Hkb).
  destruct (slot_key_Ok index (Slot.Tenant tenant)) as (kt & Hkt & _). rewrite (lift_bind _ _ _ _ Hkt).
  destruct (slot_key_Ok index (Slot.Tombstone tenant)) as (ko & Hko & _). rewrite (lift_bind _ _ _ _ Hko).
  assert (Db.tenants db3 = Db.tenants db) as Ht3 by (unfold db3, strip_rekey_db; cbn; destruct (Db.rekey db !! tenant) as [[]|]; [case_match|]; done).
  assert (Rep keys (disk_remove Keyspace.Keys kb tx3) db4 mat rest) as HR4.
  { apply (Rep_remove keys (Cell.AddressKeys tenant) kb tx3 db3); try done;
      [differs|right; cbn; rewrite Ht3, Ht; by eexists|cbn; set_solver|by apply in_store]. }
  assert (Rep keys (disk_remove Keyspace.Tenants kt (disk_remove Keyspace.Keys kb tx3)) db5 mat rest) as HR5.
  { apply (Rep_remove keys (Cell.Tenant tenant) kt _ db4); try done;
      [differs|left; cbn; rewrite Ht3, Ht; by eexists|cbn; rewrite lookup_delete_eq; by intros [? ?]|by apply in_store]. }
  set (tx5 := disk_remove Keyspace.Tenants kt (disk_remove Keyspace.Keys kb tx3)) in *.
  destruct (put_global_good keys root_id Hkeys (TombstoneRecord.mk tenant now) (Cell.Tombstone tenant) ko tx5 draws Hh Har Hko)
    as (v & p & j & Hput & Hs & Hfrom).
  change (cell_slot (Cell.Tombstone tenant)) with slot_TOMBSTONE in Hput. rewrite (Draws_bind_eq _ _ _ _ _ Hput).
  eexists _, _. split; [reflexivity|]. split; [|intros _ _; apply lookup_delete_eq]. split_and!; [| |done].
  - apply (Rep_insert keys (Cell.Tombstone tenant) ko v tx5 db5 db6 mat mat rest); try done;
      [differs|cbn; rewrite lookup_insert_eq; by eexists|by apply in_store|].
    exists p. split; [done|]. split; cbn; by rewrite lookup_insert_eq.
  - assert (Db.data_keys db6 ⊆ Db.data_keys db /\ Db.address_keys db6 ⊆ Db.address_keys db) as [Hd Ha].
    { unfold db6, db5, db4, db3, strip_rekey_db. cbn. destruct (Db.rekey db !! tenant) as [[]|]; [case_match|]; cbn; set_solver. }
    intros [Md Mi Ma]. split; auto.
Qed.
End shredding.

(** The keyspaces stay. *)
Lemma complete_insert (ks : Keyspace) (t : Table) (d : Disk) : complete d -> complete (<[ks := t]> d).
Proof. intros Hd ks'. apply lookup_insert_is_Some'. auto. Qed.
Lemma strip_rekey_complete `{Kdf} (index : bytes) (tenant : TenantId) (rekey : option RekeyRecord) (tx tx' : Disk) :
  complete tx -> strip_rekey index tenant rekey tx = Ok tx' -> complete tx'.
Proof.
  intros Hc. destruct rekey as [rekey|]; cbn [strip_rekey]; [|by intros [= <-]].
  intros Hs. apply bind_Ok in Hs as (tx1 & H1 & Hs). apply bind_Ok in Hs as (k & _ & [= <-]). apply complete_insert.
  destruct (negb _); [apply bind_Ok in H1 as (k' & _ & [= <-]); by apply complete_insert|by injection H1 as <-].
Qed.
Lemma disk_shred_complete `{Kdf} `{Entropy} `{Aead} `{StoreCodec} (fp : Failpoint) (now : Timestamp) (keys : StoreKeys)
    (cache : gmap TenantId Keyring) (disk : Disk) (tenant : TenantId) (draws : nat) (r : result StoreError unit)
    (disk' : Disk) (cache' : gmap TenantId Keyring) : complete disk ->
  disk_shred_tenant fp now keys cache disk tenant draws = (r, disk', cache') -> complete disk'.
Proof.
  intros Hc. unfold disk_shred_tenant. destruct (disk_shred_tx now keys disk tenant draws) as [[[tx|]|e] j] eqn:Hs; cbn [fst];
    [|by intros [= _ <- _]..].
  intros [= _ <- _]. unfold disk_shred_tx in Hs.
  repeat match goal with
         | H : (_ ≫= _) _ = (Ok _, _) |- _ => apply Draws_bind_Ok in H as (? & ? & ? & H)
         | H : (match ?x with _ => _ end) _ = (Ok _, _) |- _ => destruct x; [discriminate H|]
         end.
  injection Hs as <- _. match goal with H : put_global _ _ _ _ _ _ = _ |- _ => unfold put_global, put in H; rename H into Hput end.
  apply Draws_bind_Ok in Hput as (p & ? & _ & Hput). apply Draws_bind_Ok in Hput as (v & ? & _ & [= <- _]).
  do 3 apply complete_insert. match goal with H : lift (strip_rekey _ _ _ _) _ = _ |- _ => apply lift_Ok in H as [Hst _] end.
  eapply strip_rekey_complete; [|exact Hst]. by apply complete_insert.
Qed.

(** ** Properties *)
Section properties.
Context `{KL : KdfLaws} `{Entropy} `{AL : AeadLaws} `{AT : !AeadTotal} `{StoreCodec} `{Hashes}.

(** C12. The store's transactions on the disk are those on the logical store.
    On a disk that holds a logical store, registering a tenant, installing a
    root grant and shredding a tenant return what they return on the logical
    store, errors included, and leave a disk that holds the logical store they
    leave: every record sealed in its place, every wrapped key of a live
    tenant and no other, the tenants' secrets of the right length and the
    addressing subkeys still those of the first data key. *)
Theorem disk_writes_refine (fp : Failpoint) (now : Timestamp) (keys : StoreKeys) (disk : Disk) (db : Db)
    (mat : Material) (rest : Disk) (draws : nat) :
  healthy -> StoreKeysOk (StoreKeys.root_key_id keys) keys -> in_range u32_max (StoreKeys.root_key_id keys) ->
  Rep keys disk db mat rest -> RootReady db -> Unambiguous keys db ->
  (forall registration, archives (registered_record now registration) ->
     let '(r, db') := register_tenant fp now db registration in
     Distinct (StoreKeys.index keys) db' rest ->
     exists disk' mat', disk_register_tenant fp now keys disk registration draws = (r, disk') /\
       kept keys rest db mat disk' db' mat') /\
  (forall root, (forall grant, root_to_grant root = Ok grant -> archives (from_grant grant (RootGrant.target_scope root))) ->
     let '(r, db') := install_root_grant fp db root in
     Distinct (StoreKeys.index keys) db' rest ->
     exists disk', disk_install_root_grant fp keys disk root draws = (r, disk') /\ Rep keys disk' db' mat rest) /\
  (forall tenant cache, archives (TombstoneRecord.mk tenant now) ->
     let '(r, db') := shred_tenant fp now db tenant in
     Distinct (StoreKeys.index keys) db' rest ->
     exists disk' cache', disk_shred_tenant fp now keys cache disk tenant draws = (r, disk', cache') /\
       kept keys rest db mat disk' db' mat /\
       (r = Ok tt -> Db.tombstones db !! tenant = None -> cache' !! tenant = None)).
Proof using KL AL AT.
  intros Hh Hk Hid HR HD Hu. split_and!.
  - intros registration. by apply disk_register_refines.
  - intros root. by apply disk_install_refines.
  - intros tenant cache. by apply disk_shred_refines.
Qed.

(** A wrapped key of a tenant other than [tenant]. *)
Definition anothers_key (tenant : TenantId) (c : Cell) : Prop :=
  match c with Cell.DataKey t _ | Cell.AddressKeys t => t <> tenant | _ => False end.
Lemma shredded_tenant_keys trace fp now tenant : Typed trace ->
  let '(r, db') := shred_tenant fp now (run empty_db trace) tenant in
  r = Ok tt -> forall c, present db' c -> cell_ks c = Keyspace.Keys -> anothers_key tenant c.
Proof using Type.
  intros Ht. destruct (shred_tenant fp now (run empty_db trace) tenant) as [r db'] eqn:Hs. intros ->.
  destruct (run_Owned (trace ++ [(fp, now, Op.ShredTenant tenant)])) as [HI HO];
    [apply Forall_app; split; [done|by apply Forall_singleton]|].
  assert (run empty_db (trace ++ [(fp, now, Op.ShredTenant tenant)]) = db') as He
    by (unfold run; rewrite foldl_app; cbn; fold (run empty_db trace); by rewrite Hs).
  rewrite He in HI, HO. pose proof (Owned_RootReady _ HI HO) as HD.
  assert (is_Some (Db.tombstones db' !! tenant)) as Htomb.
  { apply with_tx_Ok in Hs as [[Hd ->]|[b Hc]].
    - unfold shred_tenant_tx in Hd. destruct (Db.tombstones _ !! tenant) eqn:E; [by eexists|].
      apply bind_Ok in Hd as (? & _ & Hd). by apply bind_Ok in Hd as (? & _ & Hd).
    - apply shred_shape in Hc as (_ & _ & _ & dk & rk & _ & _ & _ & _ & ->). cbn. rewrite lookup_insert_eq. by eexists. }
  pose proof (tombstone_no_tenant db' tenant HI Htomb) as Hno.
  intros c Hp Hks. destruct c as [| | | | | | | | | |t id|t]; try done; cbn; intros ->.
  - destruct (rr_keys _ HD tenant id Hp) as (_ & r & Hr & _). congruence.
  - destruct (rr_address _ HD tenant Hp). congruence.
Qed.

(** C27. Crypto-shredding erases. After a tenant of any run is shredded on the
    disk and the store compacted, every value left in the database's files is
    a live one, and every wrapped key among them is another tenant's: nothing
    that unwraps a data key of the shredded tenant is left, and its keyring
    has left the cache. *)
Theorem shred_compact_erases `{Env} (trace : list Event) (fp : Failpoint) (now : Timestamp) (tenant : TenantId)
    (keys : StoreKeys) (disk : Disk) (mat : Material) (rest : Disk) (cache : gmap TenantId Keyring) (draws : nat) :
  let db := run empty_db trace in
  Typed trace -> healthy -> StoreKeysOk (StoreKeys.root_key_id keys) keys -> in_range u32_max (StoreKeys.root_key_id keys) ->
  Rep keys disk db mat rest -> Unambiguous keys db -> archives (TombstoneRecord.mk tenant now) ->
  complete disk -> (shred_tenant fp now db tenant).1 = Ok tt ->
  Distinct (StoreKeys.index keys) (shred_tenant fp now db tenant).2 rest ->
  exists disk' cache', disk_shred_tenant fp now keys cache disk tenant draws = (Ok tt, disk', cache') /\
    (Db.tombstones db !! tenant = None -> cache' !! tenant = None) /\
    forall path written (fs : Fs) i fs' j,
      fs !! path = Some (Node.Database disk' written) -> compact path disk' fs i = (Some (Ok tt), fs', j) ->
      exists left', fs' !! path = Some (Node.Database disk' left') /\
        forall x, x ∈ left' -> exists ks k, disk_get disk' ks k = Some x /\
          (ks = Keyspace.Keys -> exists c, anothers_key tenant c /\
             holds keys (shred_tenant fp now db tenant).2 mat c k x).
Proof using KL AL AT.
  intros db Ht Hh Hk Hid HR Hu Har Hcom Hok Hdis. destruct (run_Owned trace Ht) as [HI HO].
  pose proof (disk_shred_refines keys Hk Hid Hh fp now cache disk db mat rest tenant draws HR (Owned_RootReady _ HI HO) Hu Har) as Hs.
  pose proof (shredded_tenant_keys trace fp now tenant Ht) as Hkeys. fold db in Hkeys.
  destruct (shred_tenant fp now db tenant) as [r db'] eqn:Hsh. cbn [fst snd] in *. subst r.
  destruct (Hs Hdis) as (disk' & cache' & Hd & (HR' & _) & Hc). exists disk', cache'. split; [done|]. split; [auto|].
  intros path written fs i fs' j Hfs Hcomp. pose proof (disk_shred_complete _ _ _ _ _ _ _ _ _ _ Hcom Hd) as Hcom'.
  pose proof (compact_hold path disk' Hcom' fs fs i) as Hhold. rewrite Hcomp in Hhold.
  destruct Hhold as [(w & Hlive & Hw) _ _]; [split; [by exists written|done|done]|].
  exists w. split; [done|]. intros x Hx. destruct (Hlive x Hx) as (ks & k & Hg). exists ks, k. split; [done|]. intros ->.
  destruct (rep_entry _ _ _ _ _ HR' Keyspace.Keys k x) as (c & Hp & Hks & Hck); [by apply in_store|done|].
  exists c. split; [by apply (Hkeys eq_refl)|]. destruct (rep_cell _ _ _ _ _ HR' c Hp) as (k' & v' & Hk' & Hv' & Hh').
  assert (k' = k) as -> by congruence. rewrite Hks in Hv'. by simplify_eq.
Qed.
End properties.
