(* ===== verification/KeyFile.v ===== *)
(** * The root key's file ([phylake::keyfile])

    [Entry] is what the key's path names. A load opens it once and asks the
    opened file everything else; [drift] is what the opened file has become
    by each call, so that a file that changes under a load is covered. *)
From S2P Require Import Prelude Vocab Ids Payload Epitrope View Lifecycle Records Store Seal RecordKey.
From S2P Require Import Keys Proc.
Local Open Scope Z_scope.

(** ** The path *)

(** A file the code can open; [mode] is [st_mode]. *)
Module Inode.
Record Inode : Type := mk { is_file : bool; uid : Z; mode : Z; content : bytes }.
End Inode.
Abbreviation Inode := Inode.Inode.
Module Entry.
Inductive Entry : Type :=
| Absent
| Symlink
| Undriven (* a socket, or a device node with no driver *)
| Node (inode : Inode).
End Entry.
Abbreviation Entry := Entry.Entry.

(** The process and what happens around it. *)
Class Holder : Type := {
  holder_env :: Env;
  euid : Z;
  umask : Z;
  drift : nat -> Inode -> Inode;  (* the opened file at call [i] *)
  partial : nat -> nat;           (* how much a write cut short at call [i] wrote *)
}.
Abbreviation KeyIo := (Proc Entry.Entry StoreError).

Definition ROOT_KEY_LEN : Z := 32.
(** [0o077], [0o600], [0o7777] and [S_IFREG]. *)
Definition GROUP_OTHER_BITS : Z := 63.
Definition NEW_KEY_MODE : Z := 384.
Definition PERMISSION_BITS : Z := 4095.
Definition S_IFREG : Z := 32768.
Definition file_len (ino : Inode) : Z := Z.of_nat (length (Inode.content ino)).

Definition root_key_io (_ : Errno) : StoreError := StoreError.RootKeyIo.
(** [open_error] and [create_error]. *)
Definition open_error (errno : Errno) : StoreError :=
  match errno with
  | Errno.NOENT => StoreError.RootKeyMissing
  | Errno.LOOP => StoreError.RootKeySymlink
  | Errno.NXIO => StoreError.RootKeyNotFile
  | _ => StoreError.RootKeyIo
  end.
Definition create_error (errno : Errno) : StoreError :=
  match errno with
  | Errno.EXIST => StoreError.RootKeyExists
  | _ => StoreError.RootKeyIo
  end.

Section keyfile.
Context `{Holder}.

(** ** Loading *)

(** One call on the world, or on the opened file. *)
Definition call {A : Type} (e : Errno -> StoreError) (f : Entry -> nat -> result StoreError A) : KeyIo A := fun w i =>
  match fate i with
  | Fault.Fine => (Some (f w i), w, S i)
  | Fault.Fail errno => (Some (Err (e errno)), w, S i)
  | Fault.Crash => (None, w, S i)
  end.
(** [open_key_file], with [O_NOFOLLOW]. *)
Definition open_key_file : KeyIo Inode :=
  call open_error (fun w _ =>
    match w with
    | Entry.Absent => Err (open_error Errno.NOENT)
    | Entry.Symlink => Err (open_error Errno.LOOP)
    | Entry.Undriven => Err (open_error Errno.NXIO)
    | Entry.Node ino => Ok ino
    end).
(** [File::metadata]. *)
Definition metadata (ino : Inode) : KeyIo Inode := call root_key_io (fun _ i => Ok (drift i ino)).
(** [check_owner]. *)
Definition check_owner (owner euid : Z) : result StoreError unit :=
  ensure (owner =? euid) (StoreError.RootKeyOwner owner euid).
(** [current_len]: a file that cannot be asked counts as empty. *)
Definition current_len (ino : Inode) : KeyIo Z := fun w i =>
  match fate i with
  | Fault.Fine => (Some (Ok (file_len (drift i ino))), w, S i)
  | Fault.Fail _ => (Some (Ok 0), w, S i)
  | Fault.Crash => (None, w, S i)
  end.
(** [File::read_exact] and [short_read_error]. *)
Definition read_exact (ino : Inode) : KeyIo bytes :=
  got ← call root_key_io (fun _ i => Ok (take (Z.to_nat ROOT_KEY_LEN) (Inode.content (drift i ino))));
  if Z.of_nat (length got) =? ROOT_KEY_LEN then mret got
  else found ← current_len ino; proc_lift (Err (StoreError.RootKeyLength found)).
(** The probe for a byte past the key. *)
Definition read_probe (ino : Inode) : KeyIo nat :=
  call root_key_io (fun _ i => Ok (length (take 1 (drop (Z.to_nat ROOT_KEY_LEN) (Inode.content (drift i ino)))))).

(** [RootKey::load]. *)
Definition load : KeyIo bytes :=
  file ← open_key_file;
  meta ← metadata file;
  _ ← proc_lift (ensure (Inode.is_file meta) StoreError.RootKeyNotFile);
  _ ← proc_lift (check_owner (Inode.uid meta) euid);
  let mode := Inode.mode meta in
  _ ← proc_lift (ensure (Z.land mode GROUP_OTHER_BITS =? 0)
        (StoreError.RootKeyPermissions (Z.land mode PERMISSION_BITS)));
  _ ← proc_lift (ensure (file_len meta =? ROOT_KEY_LEN) (StoreError.RootKeyLength (file_len meta)));
  key ← read_exact file;
  extra ← read_probe file;
  if Nat.eqb extra 0 then mret key
  else found ← current_len file; proc_lift (Err (StoreError.RootKeyLength (Z.max found 33))).

(** ** Generating *)

(** [create_key_file]: [O_CREAT | O_EXCL]. *)
Definition create_key_file : KeyIo unit := fun w i =>
  match fate i with
  | Fault.Fine =>
      match w with
      | Entry.Absent =>
          (Some (Ok tt), Entry.Node (Inode.mk true euid (Z.lor S_IFREG (Z.ldiff NEW_KEY_MODE umask)) []), S i)
      | _ => (Some (Err (create_error Errno.EXIST)), w, S i)
      end
  | Fault.Fail errno => (Some (Err (create_error errno)), w, S i)
  | Fault.Crash => (None, w, S i)
  end.
Definition append_to (text : bytes) (w : Entry) : Entry :=
  match w with
  | Entry.Node (Inode.mk is_file uid mode content) => Entry.Node (Inode.mk is_file uid mode (content ++ text))
  | w => w
  end.
(** [File::write_all]. *)
Definition write_all (text : bytes) : KeyIo unit := fun w i =>
  match fate i with
  | Fault.Fine => (Some (Ok tt), append_to text w, S i)
  | Fault.Fail errno => (Some (Err (root_key_io errno)), append_to (take (partial i) text) w, S i)
  | Fault.Crash => (None, append_to (take (partial i) text) w, S i)
  end.
Definition remove_file : KeyIo unit := step root_key_io (fun _ => Entry.Absent).
(** [m], its failure kept as a value. *)
Definition attempt {A : Type} (m : KeyIo A) : KeyIo (result StoreError A) := fun w i =>
  match m w i with
  | (Some r, w, i) => (Some (Ok r), w, i)
  | (None, w, i) => (None, w, i)
  end.
(** [sync_parent]. *)
Definition sync_key_parent : KeyIo unit := step root_key_io id.

(** [RootKey::generate_with]. *)
Definition generate `{Entropy} (draws : nat) : KeyIo bytes :=
  key ← proc_lift (fst (random_array (Z.to_nat ROOT_KEY_LEN) draws));
  _ ← create_key_file;
  written ← attempt (_ ← write_all key; step root_key_io id);
  match written with
  | Err e => _ ← attempt remove_file; proc_lift (Err e)
  | Ok _ => _ ← sync_key_parent; mret key
  end.
End keyfile.

(** ** What they guarantee *)

(** The checks a file passes at the moment it is asked. *)
Definition private_key_file `{Holder} (ino : Inode) : Prop :=
  Inode.is_file ino = true /\ Inode.uid ino = euid /\ Z.land (Inode.mode ino) GROUP_OTHER_BITS = 0 /\
  file_len ino = ROOT_KEY_LEN.

Section guarantees.
Context `{Holder}.

Lemma call_Ok {A : Type} e (f : Entry -> nat -> result StoreError A) w i a w' j :
  call e f w i = (Some (Ok a), w', j) <-> fate i = Fault.Fine /\ f w i = Ok a /\ w' = w /\ j = S i.
Proof using Type.
  unfold call. destruct (fate i); (split; [intros [=]|intros (? & Hf & -> & ->)]); try done; by rewrite Hf.
Qed.
Lemma open_key_file_Ok w i ino w' j :
  open_key_file w i = (Some (Ok ino), w', j) <-> fate i = Fault.Fine /\ w = Entry.Node ino /\ w' = w /\ j = S i.
Proof using Type. unfold open_key_file. rewrite call_Ok. destruct w; naive_solver. Qed.
Lemma checked_Ok meta (k : KeyIo bytes) w i key w' j :
  (_ ← proc_lift (ensure (Inode.is_file meta) StoreError.RootKeyNotFile);
   _ ← proc_lift (check_owner (Inode.uid meta) euid);
   _ ← proc_lift (ensure (Z.land (Inode.mode meta) GROUP_OTHER_BITS =? 0)
         (StoreError.RootKeyPermissions (Z.land (Inode.mode meta) PERMISSION_BITS)));
   _ ← proc_lift (ensure (file_len meta =? ROOT_KEY_LEN) (StoreError.RootKeyLength (file_len meta))); k)
    w i = (Some (Ok key), w', j) <-> private_key_file meta /\ k w i = (Some (Ok key), w', j).
Proof using Type.
  unfold private_key_file, check_owner, mbind, Proc_bind, proc_lift, ensure.
  destruct (Inode.is_file meta); [|naive_solver].
  destruct (Z.eqb_spec (Inode.uid meta) euid); [|naive_solver].
  destruct (Z.eqb_spec (Z.land (Inode.mode meta) GROUP_OTHER_BITS) 0); [|naive_solver].
  destruct (Z.eqb_spec (file_len meta) ROOT_KEY_LEN); naive_solver.
Qed.
Lemma key_read_exact_Ok ino w i key w' j :
  read_exact ino w i = (Some (Ok key), w', j) <-> fate i = Fault.Fine /\
    ROOT_KEY_LEN <= file_len (drift i ino) /\ key = take 32 (Inode.content (drift i ino)) /\ w' = w /\ j = S i.
Proof using Type.
  unfold read_exact, file_len, ROOT_KEY_LEN. rewrite proc_bind_Ok. change (Z.to_nat 32) with 32%nat. split.
  - intros (got & w1 & k & (Hf & [= <-] & -> & ->)%call_Ok & Hk). revert Hk. rewrite length_take.
    destruct (Z.eqb_spec (Z.of_nat (32 `min` length (Inode.content (drift i ino)))) 32) as [He|He].
    + intros (-> & -> & ->)%proc_ret_Ok. split_and!; [done|lia|done..].
    + intros (? & ? & ? & _ & [? _]%proc_lift_Ok)%proc_bind_Ok. done.
  - intros (Hf & Hl & -> & -> & ->). eexists _, _, _. split; [by apply call_Ok|]. rewrite length_take.
    by rewrite (proj2 (Z.eqb_eq _ _)) by lia.
Qed.
Lemma read_probe_Ok ino w i extra w' j :
  read_probe ino w i = (Some (Ok extra), w', j) <-> fate i = Fault.Fine /\
    extra = (1 `min` (length (Inode.content (drift i ino)) - 32))%nat /\ w' = w /\ j = S i.
Proof using Type.
  unfold read_probe. rewrite call_Ok, length_take, length_drop. change (Z.to_nat ROOT_KEY_LEN) with 32%nat. naive_solver.
Qed.

Lemma load_Ok (w w' : Entry) (i j : nat) (key : bytes) :
  load w i = (Some (Ok key), w', j) <->
  (forall k, (i <= k < i + 4)%nat -> fate k = Fault.Fine) /\ w' = w /\ j = (i + 4)%nat /\
  exists ino, w = Entry.Node ino /\ private_key_file (drift (i + 1) ino) /\
    ROOT_KEY_LEN <= file_len (drift (i + 2) ino) /\ key = take 32 (Inode.content (drift (i + 2) ino)) /\
    file_len (drift (i + 3) ino) <= ROOT_KEY_LEN.
Proof using Type.
  unfold load. rewrite !Nat.add_succ_r, Nat.add_0_r. split.
  - intros (ino & w1 & k1 & (F0 & -> & -> & ->)%open_key_file_Ok & Hr)%proc_bind_Ok.
    apply proc_bind_Ok in Hr as (meta & w2 & k2 & (F1 & [= <-] & -> & ->)%call_Ok & [Hp Hr]%checked_Ok).
    apply proc_bind_Ok in Hr as (got & w3 & k3 & (F2 & Hl & -> & -> & ->)%key_read_exact_Ok & Hr).
    apply proc_bind_Ok in Hr as (extra & w4 & k4 & (F3 & -> & -> & ->)%read_probe_Ok & Hr).
    destruct (Nat.eqb_spec (1 `min` (length (Inode.content (drift (S (S (S i))) ino)) - 32)) 0) as [He|He].
    + apply proc_ret_Ok in Hr as (-> & -> & ->). split_and!; [|done|done|].
      * intros k Hk. assert (k = i \/ k = S i \/ k = S (S i) \/ k = S (S (S i))) as [->|[->|[->| ->]]] by lia; done.
      * exists ino. split_and!; try done. unfold file_len, ROOT_KEY_LEN in *. lia.
    + apply proc_bind_Ok in Hr as (? & ? & ? & _ & [? _]%proc_lift_Ok). done.
  - intros (HF & -> & -> & ino & -> & Hp & Hl & -> & Hx). apply proc_bind_Ok. eexists _, _, _.
    split; [apply open_key_file_Ok; split_and!; [apply HF; lia|done..]|].
    apply proc_bind_Ok. eexists _, _, _. split; [apply call_Ok; split_and!; [apply HF; lia|done..]|].
    apply checked_Ok. split; [done|]. apply proc_bind_Ok. eexists _, _, _.
    split; [apply key_read_exact_Ok; split_and!; [apply HF; lia|done..]|].
    apply proc_bind_Ok. eexists _, _, _. split; [apply read_probe_Ok; split_and!; [apply HF; lia|done..]|].
    unfold file_len, ROOT_KEY_LEN in Hx. rewrite (proj2 (Nat.eqb_eq _ _)) by lia. done.
Qed.

(** ** A generated file *)
Lemma new_mode_private : Z.land (Z.lor S_IFREG (Z.ldiff NEW_KEY_MODE umask)) GROUP_OTHER_BITS = 0.
Proof using Type.
  apply Z.bits_inj'. intros n Hn. rewrite Z.land_spec, Z.lor_spec, Z.ldiff_spec, Z.bits_0.
  pose proof (f_equal (fun z => Z.testbit z n) (eq_refl : Z.land S_IFREG GROUP_OTHER_BITS = 0)) as Ha.
  pose proof (f_equal (fun z => Z.testbit z n) (eq_refl : Z.land NEW_KEY_MODE GROUP_OTHER_BITS = 0)) as Hb.
  cbn beta in Ha, Hb. rewrite Z.land_spec, Z.bits_0 in Ha, Hb.
  destruct (Z.testbit GROUP_OTHER_BITS n), (Z.testbit S_IFREG n), (Z.testbit NEW_KEY_MODE n), (Z.testbit umask n); done.
Qed.
Definition fresh_inode (content : bytes) : Inode :=
  Inode.mk true euid (Z.lor S_IFREG (Z.ldiff NEW_KEY_MODE umask)) content.
(** What an interrupted generation leaves: nothing, or a file that holds a
    beginning of the key. *)
Definition leftover (key : bytes) (w : Entry) : Prop :=
  w = Entry.Absent \/ exists n, w = Entry.Node (fresh_inode (take n key)).
Definition whole (key : bytes) (w : Entry) : Prop := w = Entry.Node (fresh_inode key).
Lemma whole_leftover key w : whole key w -> leftover key w.
Proof using Type. intros ->. right. exists (length key). by rewrite take_ge. Qed.

Lemma write_hold key :
  hoare (whole []) (attempt (_ ← write_all key; step root_key_io id))
    (fun r w => match r with Ok _ => whole key w | Err _ => leftover key w end) (leftover key).
Proof using Type.
  intros w i ->. unfold attempt, mbind, Proc_bind, write_all, step, append_to, fresh_inode. cbn [app].
  destruct (fate i); cbn beta iota; [|by right; eexists..].
  destruct (fate (S i)); cbn beta iota; [done|by apply whole_leftover..].
Qed.
Lemma generate_hold `{Entropy} draws key : fst (random_array (Z.to_nat ROOT_KEY_LEN) draws) = Ok key ->
  hoare (fun w => w = Entry.Absent) (generate draws) (fun k w => k = key /\ whole key w) (leftover key).
Proof using Type.
  intros Hd. unfold generate. rewrite Hd. eapply hoare_bind.
  { apply (hoare_lift _ _ _ (fun k w => k = key /\ w = Entry.Absent)); [by intros a w [= <-]|by left]. }
  intros k w i [-> ->]. revert i.
  match goal with |- forall i, match ?m _ i with _ => _ end =>
    assert (hoare (fun w => w = Entry.Absent) m (fun k w => k = key /\ whole key w) (leftover key)) as Hm;
      [|intros i; by apply Hm] end.
  eapply (hoare_bind _ _ _ _ (fun _ => whole [])).
  { intros w i ->. unfold create_key_file. destruct (fate i); [done|by left..]. }
  intros []. eapply hoare_bind; [apply write_hold|]. intros [[]|e].
  - eapply (hoare_bind _ _ _ _ (fun _ => whole key)); [|intros []; by apply hoare_ret]. apply hoare_noop, whole_leftover.
  - intros w i Hw. unfold mbind, Proc_bind, attempt, remove_file, step. destruct (fate i); cbn; [by left|done|done].
Qed.

(** ** Properties *)

(** C32. A root key is accepted exactly when the path itself names a regular
    file of the process's own user, closed to group and others and 32 bytes
    long when asked, whose first 32 bytes are the key when read and which
    still has no more when probed; whatever the file becomes between the
    calls, anything else is an error, and loading changes nothing. *)
Theorem load_accepts_iff (w w' : Entry) (i j : nat) (key : bytes) :
  load w i = (Some (Ok key), w', j) <->
  (forall k, (i <= k < i + 4)%nat -> fate k = Fault.Fine) /\ w' = w /\ j = (i + 4)%nat /\
  exists ino, w = Entry.Node ino /\ private_key_file (drift (i + 1) ino) /\
    ROOT_KEY_LEN <= file_len (drift (i + 2) ino) /\ key = take 32 (Inode.content (drift (i + 2) ino)) /\
    file_len (drift (i + 3) ino) <= ROOT_KEY_LEN.
Proof using Type. apply load_Ok. Qed.
End guarantees.

(** A process in which an opened file stays as it is. *)
Definition quiet (h : Holder) : Prop := forall i ino, @drift h i ino = ino.

Lemma load_leftover (h h' : Holder) key w i k w' j : length key = 32%nat -> @leftover h key w -> quiet h' ->
  @load h' w i = (Some (Ok k), w', j) -> k = key.
Proof.
  intros Hl Hw Hq (_ & _ & _ & ino & -> & _ & Hr & -> & _)%load_Ok. rewrite !Hq in *.
  destruct Hw as [?|(n & [= ->])]; [done|]. unfold file_len, ROOT_KEY_LEN, fresh_inode in *. cbn in *.
  rewrite length_take in Hr. rewrite take_take. apply take_ge. lia.
Qed.
Lemma load_whole (h h' : Holder) key w i : length key = 32%nat -> @whole h key w -> quiet h' -> @euid h' = @euid h ->
  (forall k, @fate (@holder_env h') k = Fault.Fine) -> @load h' w i = (Some (Ok key), w, (i + 4)%nat).
Proof.
  intros Hl -> Hq He HF. apply load_Ok. split_and!; [by intros|done|done|]. eexists. split; [done|]. rewrite !Hq.
  unfold private_key_file, file_len, ROOT_KEY_LEN, fresh_inode. cbn. rewrite Hl. split_and!; try done.
  - apply (@new_mode_private h).
  - by rewrite take_ge by lia.
Qed.

(** C31. A key file is generated whole or refused. An existing entry at the
    path, of any kind, is never touched; otherwise, however the generation
    ends (a failure or a crash at any call, a write cut short), no later load
    accepts a key other than the one drawn; and when it returns the key, the
    file loads back to it, whatever the umask. *)
Theorem generate_whole_or_refused (h : Holder) `{Entropy} (draws i : nat) (w : Entry) (key : bytes) :
  fill draws 32 = Some key -> length key = 32%nat ->
  let '(outcome, w', _) := @generate h _ draws w i in
  (w <> Entry.Absent -> w' = w /\ forall k, outcome <> Some (Ok k)) /\
  (forall (h' : Holder) k l m w2, w = Entry.Absent -> quiet h' -> @load h' w' l = (Some (Ok k), w2, m) -> k = key) /\
  (forall k, outcome = Some (Ok k) -> k = key /\
    forall (h' : Holder) l, quiet h' -> @euid h' = @euid h -> (forall c, @fate (@holder_env h') c = Fault.Fine) ->
      @load h' w' l = (Some (Ok key), w', (l + 4)%nat)).
Proof.
  intros Hf Hl. assert (fst (random_array (Z.to_nat ROOT_KEY_LEN) draws) = Ok key) as Hd.
  { unfold random_array. change (Z.to_nat ROOT_KEY_LEN) with 32%nat. by rewrite Hf, Hl. }
  assert (w = Entry.Absent \/ w <> Entry.Absent) as [->|Hw] by (destruct w; auto).
  - pose proof (@generate_hold h _ draws key Hd _ i eq_refl) as Hg.
    destruct (@generate h _ draws Entry.Absent i) as [[[[k|e]|] w'] j].
    1: destruct Hg as [-> Hw]; pose proof (@whole_leftover h key w' Hw).
    all: split_and!; [done|intros h' k' l m w2 _ Hq Hload; by apply (load_leftover h h' key w' l k' w2 m)|].
    all: intros k' [= <-]. split; [done|]. intros h' l Hq He HF. by apply (load_whole h h').
  - unfold generate. rewrite Hd. unfold mbind, Proc_bind, proc_lift, create_key_file. cbn beta iota.
    destruct (fate i); destruct w; cbn beta iota; try done; (split_and!; [done|done|done]).
Qed.
