(* ===== verification/Socket.v ===== *)
(** * The listening socket's file ([dioptron::server::socket], [server::Server])

    Daemons that start, serve and stop around one socket path, in any
    interleaving of their system calls. A daemon is a program of the calls it
    makes on the socket's directory, the directory's lock and the path; the
    world answers each call, and may fail any that can fail. *)
From S2P Require Import Prelude Vocab Ids Payload Wire Epitrope Store Daemon Proc.
Local Open Scope Z_scope.

(** ** The world *)

(** What [symlink_metadata] and [File::metadata] tell of the directory. *)
Module DirStat.
Record DirStat : Type := mk { is_dir : bool; mode : Z; uid : Z; dev : Z; ino : Z }.
End DirStat.
Abbreviation DirStat := DirStat.DirStat.
(** What the socket path names; [listener] is the process that listens there. *)
Module SocketEntry.
Record SocketEntry : Type := mk { is_socket : bool; uid : Z; mode : Z; listener : option nat }.
End SocketEntry.
Abbreviation SocketEntry := SocketEntry.SocketEntry.
(** The directory, the process that holds its lock, and the socket path. *)
Module Place.
Record Place : Type := mk { dir : option DirStat; lock : option nat; entry : option SocketEntry }.
End Place.
Abbreviation Place := Place.Place.
(** [io::ErrorKind], as far as the code tells them apart. *)
Module IoKind.
Inductive IoKind : Set := NotFound | ConnectionRefused | Other.
End IoKind.
Abbreviation IoKind := IoKind.IoKind.

(** [0o700], [0o600], [0o077] and [S_IFDIR]. *)
Definition DIR_MODE : Z := 448.
Definition SOCKET_MODE : Z := 384.
Definition DIR_GROUP_OTHER_BITS : Z := 63.
Definition S_IFDIR : Z := 16384.

(** ** The calls *)
Module Sys.
Inductive Sys : Set :=
| DrawSecret
| DirMetadata
| CreateDir
| OpenDir
| HandleMetadata
| TryLock
| SocketMetadata
| Connect
| RemoveFile
| BindListener
| SetPermissions (mode : Z)
| SetNonblocking
| FromStd
| AwaitShutdown
| DropListener
| DropLock.
End Sys.
Abbreviation Sys := Sys.Sys.
Definition answer (c : Sys) : Type :=
  match c with
  | Sys.DirMetadata | Sys.HandleMetadata => result IoKind DirStat
  | Sys.SocketMetadata => result IoKind SocketEntry
  | Sys.TryLock => LockTry
  | Sys.AwaitShutdown | Sys.DropListener | Sys.DropLock => unit
  | _ => result IoKind unit
  end.

(** The processes: their users, their umasks, and the identity of a
    directory one creates. *)
Class Users : Type := { euid_of : nat -> Z; umask_of : nat -> Z; new_dev : Z; new_ino : Z }.

Definition set_entry (entry : option SocketEntry) (w : Place) : Place := Place.mk (Place.dir w) (Place.lock w) entry.
Definition set_lock (lock : option nat) (w : Place) : Place := Place.mk (Place.dir w) lock (Place.entry w).
(** The listener closes; the file stays. *)
Definition drop_listener (p : nat) (w : Place) : Place :=
  match Place.entry w with
  | Some (SocketEntry.mk is_socket uid mode (Some q)) =>
      if Nat.eqb q p then set_entry (Some (SocketEntry.mk is_socket uid mode None)) w else w
  | _ => w
  end.
Definition drop_lock (p : nat) (w : Place) : Place :=
  if decide (Place.lock w = Some p) then set_lock None w else w.
(** What a process that ends lets go of. *)
Definition release (p : nat) (w : Place) : Place := drop_lock p (drop_listener p w).

(** How the world answers process [p]; [fault] is a failure of a call that
    can fail. *)
Definition perform `{Users} (p : nat) (fault : bool) (w : Place) (c : Sys) : answer c * Place :=
  match c return answer c * Place with
  | Sys.DrawSecret | Sys.SetNonblocking | Sys.FromStd => (if fault then Err IoKind.Other else Ok tt, w)
  | Sys.DirMetadata | Sys.HandleMetadata =>
      (if fault then Err IoKind.Other else ok_or (Place.dir w) IoKind.NotFound, w)
  | Sys.OpenDir =>
      (if fault then Err IoKind.Other
       else match Place.dir w with Some _ => Ok tt | None => Err IoKind.NotFound end, w)
  | Sys.CreateDir =>
      match fault, Place.dir w with
      | false, None =>
          let stat := DirStat.mk true (Z.lor S_IFDIR (Z.ldiff DIR_MODE (umask_of p))) (euid_of p) new_dev new_ino in
          (Ok tt, Place.mk (Some stat) (Place.lock w) (Place.entry w))
      | _, _ => (Err IoKind.Other, w)
      end
  | Sys.TryLock =>
      if fault then (LockTry.Error, w)
      else match Place.lock w with
           | None => (LockTry.Taken, set_lock (Some p) w)
           | Some _ => (LockTry.WouldBlock, w)
           end
  | Sys.SocketMetadata => (if fault then Err IoKind.Other else ok_or (Place.entry w) IoKind.NotFound, w)
  | Sys.Connect =>
      (if fault then Err IoKind.Other
       else match Place.entry w with
            | None => Err IoKind.NotFound
            | Some e =>
                match SocketEntry.is_socket e, SocketEntry.listener e with
                | true, Some _ => Ok tt
                | _, _ => Err IoKind.ConnectionRefused
                end
            end, w)
  | Sys.RemoveFile =>
      match fault, Place.entry w with
      | false, Some _ => (Ok tt, set_entry None w)
      | false, None => (Err IoKind.NotFound, w)
      | true, _ => (Err IoKind.Other, w)
      end
  | Sys.BindListener =>
      match fault, Place.entry w with
      | false, None => (Ok tt, set_entry (Some (SocketEntry.mk true (euid_of p) (Z.ldiff 511 (umask_of p)) (Some p))) w)
      | _, _ => (Err IoKind.Other, w)
      end
  | Sys.SetPermissions mode =>
      match fault, Place.entry w with
      | false, Some e => (Ok tt, set_entry (Some (SocketEntry.mk (SocketEntry.is_socket e) (SocketEntry.uid e) mode
                                                    (SocketEntry.listener e))) w)
      | false, None => (Err IoKind.NotFound, w)
      | true, _ => (Err IoKind.Other, w)
      end
  | Sys.AwaitShutdown => (tt, w)
  | Sys.DropListener => (tt, drop_listener p w)
  | Sys.DropLock => (tt, drop_lock p w)
  end.

(** ** Programs *)
Inductive Prog (A : Type) : Type :=
| Return (r : result DaemonError A)
| Ask (c : Sys) (k : answer c -> Prog A).
Arguments Return {_}.
Arguments Ask {_}.
#[global] Instance Prog_ret : MRet Prog := fun A a => Return (Ok a).
#[global] Instance Prog_bind : MBind Prog := fun A B f =>
  fix go (m : Prog A) : Prog B :=
    match m with
    | Return (Ok a) => f a
    | Return (Err e) => Return (Err e)
    | Ask c k => Ask c (fun a => go (k a))
    end.
Definition ask (c : Sys) : Prog (answer c) := Ask c (fun a => Return (Ok a)).
(** [ask(c).context(e)?]. *)
Definition context {A} (e : DaemonError) (r : result IoKind A) : Prog A := Return (map_err (fun _ => e) r).
Definition fail {A} (e : DaemonError) : Prog A := Return (Err e).
Definition require (b : bool) (e : DaemonError) : Prog unit := Return (ensure b e).

(** [prepare_dir]. *)
Definition prepare_dir : Prog DirStat :=
  found ← ask Sys.DirMetadata;
  _ ← match found with
      | Err IoKind.NotFound => created ← ask Sys.CreateDir; context DaemonError.SocketDir created
      | Err _ => fail DaemonError.SocketDir
      | Ok _ => mret tt
      end;
  again ← ask Sys.DirMetadata;
  meta ← context DaemonError.SocketDir again;
  _ ← require (DirStat.is_dir meta && (Z.land (DirStat.mode meta) DIR_GROUP_OTHER_BITS =? 0))
        (DaemonError.InsecureSocketDir (DirStat.mode meta) (DirStat.uid meta));
  mret meta.
(** [lock_dir]. *)
Definition lock_dir (dir_meta : DirStat) : Prog unit :=
  handle ← ask Sys.OpenDir;
  _ ← context DaemonError.SocketDir handle;
  asked ← ask Sys.HandleMetadata;
  opened ← context DaemonError.SocketDir asked;
  _ ← require (DirStat.is_dir opened && (DirStat.dev opened =? DirStat.dev dir_meta)
               && (DirStat.ino opened =? DirStat.ino dir_meta))
        (DaemonError.InsecureSocketDir (DirStat.mode opened) (DirStat.uid opened));
  taken ← ask Sys.TryLock;
  match taken with
  | LockTry.Taken => mret tt
  | LockTry.WouldBlock => fail DaemonError.SocketInUse
  | LockTry.Error => fail DaemonError.SocketDir
  end.
(** [clear_stale]. *)
Definition clear_stale (dir_owner : Z) : Prog unit :=
  found ← ask Sys.SocketMetadata;
  match found with
  | Err IoKind.NotFound => mret tt
  | Err _ => fail DaemonError.InspectSocket
  | Ok meta =>
      _ ← require (SocketEntry.is_socket meta && (SocketEntry.uid meta =? dir_owner)) DaemonError.SocketPathOccupied;
      live ← ask Sys.Connect;
      match live with
      | Ok _ => fail DaemonError.SocketInUse
      | Err IoKind.ConnectionRefused => removed ← ask Sys.RemoveFile; context DaemonError.InspectSocket removed
      | Err _ => fail DaemonError.InspectSocket
      end
  end.
(** [restrict]. *)
Definition restrict (dir_meta : DirStat) : Prog unit :=
  set ← ask (Sys.SetPermissions SOCKET_MODE);
  _ ← context DaemonError.Bind set;
  asked ← ask Sys.SocketMetadata;
  meta ← context DaemonError.Bind asked;
  _ ← require (SocketEntry.uid meta =? DirStat.uid dir_meta)
        (DaemonError.InsecureSocketDir (DirStat.mode dir_meta) (DirStat.uid dir_meta));
  nonblocking ← ask Sys.SetNonblocking;
  context DaemonError.Bind nonblocking.
(** The calls that undo on the way out with an error, their answers ignored;
    [m], or its error after they were made. *)
Definition undone {A} (undo : list Sys) (e : DaemonError) : Prog A := foldr (fun c k => Ask c (fun _ => k)) (fail e) undo.
Fixpoint or_undo (undo : list Sys) (m : Prog unit) : Prog unit :=
  match m with
  | Return (Ok a) => Return (Ok a)
  | Return (Err e) => undone undo e
  | Ask c k => Ask c (fun a => or_undo undo (k a))
  end.
(** [socket::bind]; [has_parent] is whether the path has a parent directory.
    What it holds when it returns an error it drops: the listener, then the
    lock. *)
Definition bind (has_parent : bool) : Prog unit :=
  _ ← require has_parent DaemonError.NoSocketParent;
  dir_meta ← prepare_dir;
  _ ← lock_dir dir_meta;
  or_undo [Sys.DropLock] (
    _ ← clear_stale (DirStat.uid dir_meta);
    bound ← ask Sys.BindListener;
    _ ← context DaemonError.Bind bound;
    or_undo [Sys.DropListener] (or_undo [Sys.RemoveFile] (restrict dir_meta))).
(** [Server::bind]; [from_std] drops the listener when it fails. *)
Definition server_bind (has_parent : bool) : Prog unit :=
  drawn ← ask Sys.DrawSecret;
  _ ← context DaemonError.RandomSource drawn;
  _ ← bind has_parent;
  or_undo [Sys.DropListener; Sys.RemoveFile; Sys.DropLock]
    (registered ← ask Sys.FromStd; context DaemonError.Bind registered).
(** [Server::serve], as the socket sees it. *)
Definition server_serve : Prog unit :=
  _ ← ask Sys.AwaitShutdown;
  _ ← ask Sys.DropListener;
  _ ← ask Sys.RemoveFile;
  _ ← ask Sys.DropLock;
  mret tt.
(** A daemon, from its start to its end. *)
Definition daemon (has_parent : bool) : Prog unit :=
  _ ← server_bind has_parent;
  server_serve.

(** ** Daemons together *)

(** The world and the running daemons, each with what is left of its
    program. *)
Module Site.
Record Site : Type := mk { place : Place; running : gmap nat (Prog unit) }.
End Site.
Abbreviation Site := Site.Site.

(** One move: a daemon starts under a process id nothing in the world
    refers to, makes its next call, or ends, of itself or killed; or some
    other process that listens at the path or holds the lock ends. *)
Inductive moves `{Users} : Site -> Site -> Prop :=
| moves_start w procs p has_parent :
    procs !! p = None -> release p w = w ->
    moves (Site.mk w procs) (Site.mk w (<[p := daemon has_parent]> procs))
| moves_call w procs p c k fault :
    procs !! p = Some (Ask c k) ->
    moves (Site.mk w procs)
      (Site.mk (perform p fault w c).2 (<[p := k (perform p fault w c).1]> procs))
| moves_end w procs p prog :
    procs !! p = Some prog ->
    moves (Site.mk w procs) (Site.mk (release p w) (delete p procs))
| moves_outside w procs p :
    procs !! p = None ->
    moves (Site.mk w procs) (Site.mk (release p w) procs).
(** From any world, with no daemon running. *)
Inductive reachable `{Users} : Site -> Prop :=
| reachable_start w : reachable (Site.mk w ∅)
| reachable_move s s' : reachable s -> moves s s' -> reachable s'.
