(* ===== verification/SocketInv.v ===== *)
(** * What holds of the socket path, whichever daemons run

    A rely-guarantee argument over the daemons' programs: [Rely p] is what
    process [p] can count on while others move, [Gives p] what its own calls
    keep, and [good] says of a program that every call it makes from what it
    knows keeps [Gives]. *)
From S2P Require Import Prelude Vocab Ids Payload Wire Epitrope Store Daemon Proc Socket.
Local Open Scope Z_scope.

(** Nothing changed but that another process stopped listening. *)
Definition Shut (p : nat) (x x' : option SocketEntry) : Prop :=
  x' = x \/ exists is_socket uid mode q, q <> p /\ x = Some (SocketEntry.mk is_socket uid mode (Some q)) /\
    x' = Some (SocketEntry.mk is_socket uid mode None).
Record Rely (p : nat) (w w' : Place) : Prop := {
  rely_dir s : Place.dir w = Some s -> Place.dir w' = Some s;
  rely_lock : Place.lock w = Some p -> Place.lock w' = Some p;
  rely_entry : Place.lock w = Some p -> Shut p (Place.entry w) (Place.entry w');
}.
(** An entry that [p] removes is a socket nobody else listens at. *)
Definition removes (p : nat) (x x' : option SocketEntry) : Prop :=
  forall e, x = Some e -> x' = None ->
    SocketEntry.is_socket e = true /\ (SocketEntry.listener e = None \/ SocketEntry.listener e = Some p).
Record Gives (p : nat) (w w' : Place) : Prop := {
  gives_others q : q <> p -> Rely q w w';
  gives_entry : removes p (Place.entry w) (Place.entry w');
}.
Definition stable (p : nat) (P : Place -> Prop) : Prop := forall w w', P w -> Rely p w w' -> P w'.

(** Process [p] serves from a private directory of its own: it holds the lock
    and listens at the path, at a socket only its user can reach. *)
Definition Secure `{Users} (p : nat) (w : Place) : Prop :=
  Place.lock w = Some p /\ Place.entry w = Some (SocketEntry.mk true (euid_of p) SOCKET_MODE (Some p)) /\
  exists s, Place.dir w = Some s /\ DirStat.is_dir s = true /\ DirStat.uid s = euid_of p /\
    Z.land (DirStat.mode s) DIR_GROUP_OTHER_BITS = 0.

(** ** Programs *)
Section programs.
Context `{Users} (p : nat).
Implicit Types (P R : Place -> Prop).

Fixpoint good {A : Type} P (m : Prog A) (Q : A -> Place -> Prop) R : Prop :=
  match m with
  | Return (Ok a) => forall w, P w -> Q a w
  | Return (Err _) => forall w, P w -> R w
  | Ask c k => forall w fault, P w ->
      (c = Sys.AwaitShutdown -> Secure p w) /\ Gives p w (perform p fault w c).2 /\
      exists P', stable p P' /\ P' (perform p fault w c).2 /\ good P' (k (perform p fault w c).1) Q R
  end.

Lemma good_weaken {A : Type} (m : Prog A) : forall P P' Q Q' R R',
  (forall w, P' w -> P w) -> (forall a w, Q a w -> Q' a w) -> (forall w, R w -> R' w) -> good P m Q R -> good P' m Q' R'.
Proof using Type.
  induction m as [[a|e]|c k IH]; cbn [good]; intros P P' Q Q' R R' HP HQ HR Hm; [auto|auto|].
  intros w fault Hw. destruct (Hm w fault (HP w Hw)) as (Hs & Hg & P1 & Hst & Hw1 & Hk). split; [done|]. split; [done|].
  exists P1. split; [done|]. split; [done|]. by eapply IH; [..|exact Hk].
Qed.
Lemma good_bind {A B : Type} (m : Prog A) (f : A -> Prog B) Q' R : forall P Q,
  good P m Q R -> (forall a, good (Q a) (f a) Q' R) -> good P (m ≫= f) Q' R.
Proof using Type.
  induction m as [[a|e]|c k IH]; intros P Q Hm Hf; cbn [good] in Hm.
  - change (good P (f a) Q' R). eapply good_weaken; [exact Hm|done|done|apply Hf].
  - exact Hm.
  - intros w fault Hw. destruct (Hm w fault Hw) as (Hs & Hg & P1 & Hst & Hw1 & Hk). split; [done|]. split; [done|].
    exists P1. split; [done|]. split; [done|]. by eapply IH.
Qed.
Lemma good_or_undo undo (m : Prog unit) Q R R' : forall P,
  good P m Q R -> (forall e : DaemonError, good R (undone undo e : Prog unit) Q R') -> good P (or_undo undo m) Q R'.
Proof using Type.
  induction m as [[a|e]|c k IH]; intros P Hm Hr; cbn [good or_undo] in *.
  - done.
  - eapply good_weaken; [exact Hm|done|done|apply Hr].
  - intros w fault Hw. destruct (Hm w fault Hw) as (Hs & Hg & P1 & Hst & Hw1 & Hk). split; [done|]. split; [done|].
    exists P1. split; [done|]. split; [done|]. by apply IH.
Qed.
(** One more call on the way out. *)
Lemma good_undone {A : Type} c undo e P P' (Q : A -> Place -> Prop) R :
  c <> Sys.AwaitShutdown -> stable p P' ->
  (forall w fault, P w -> Gives p w (perform p fault w c).2 /\ P' (perform p fault w c).2) ->
  good P' (undone undo e) Q R -> good P (undone (c :: undo) e) Q R.
Proof using Type.
  intros Hne Hst Hc Hk w fault Hw. split; [done|]. destruct (Hc w fault Hw) as [Hg HP]. split; [done|]. by exists P'.
Qed.
Lemma good_ask c P (Q : answer c -> Place -> Prop) R :
  (forall a, stable p (Q a)) -> (forall w, P w -> c = Sys.AwaitShutdown -> Secure p w) ->
  (forall w fault, P w -> Gives p w (perform p fault w c).2 /\ Q (perform p fault w c).1 (perform p fault w c).2) ->
  good P (ask c) Q R.
Proof using Type.
  intros Hst Hs Hc w fault Hw. split; [by apply Hs|]. destruct (Hc w fault Hw) as [Hg HQ]. split; [done|].
  exists (Q (perform p fault w c).1). split; [apply Hst|]. split; [done|]. by cbn.
Qed.
Lemma good_ret {A : Type} P (a : A) (Q : A -> Place -> Prop) R : (forall w, P w -> Q a w) -> good P (mret a) Q R.
Proof using Type. done. Qed.
Lemma good_fail {A : Type} P (e : DaemonError) (Q : A -> Place -> Prop) R : (forall w, P w -> R w) -> good P (fail e) Q R.
Proof using Type. done. Qed.
Lemma good_context {A : Type} (P : result IoKind A -> Place -> Prop) e r (Q : A -> Place -> Prop) R :
  (forall a w, P (Ok a) w -> Q a w) -> (forall k w, P (Err k) w -> R w) -> good (P r) (context e r) Q R.
Proof using Type. destruct r; cbn; eauto. Qed.
Lemma good_require P b e (Q : unit -> Place -> Prop) R :
  (forall w, b = true -> P w -> Q tt w) -> (forall w, P w -> R w) -> good P (require b e) Q R.
Proof using Type. destruct b; cbn; eauto. Qed.

(** ** What a daemon knows *)
Lemma Shut_refl x : Shut p x x.
Proof using Type. by left. Qed.
Lemma Gives_refl w : Gives p w w.
Proof using Type. split; [intros q Hq; split; auto; by left|]. intros e -> ?. done. Qed.
(** Under its lock a daemon may change the entry. *)
Lemma Gives_locked w x : Place.lock w = Some p -> removes p (Place.entry w) x -> Gives p w (set_entry x w).
Proof using Type. intros Hl Hr. split; [|done]. intros q Hq. split; cbn; [done|done|]. intros Hl'. congruence. Qed.
Definition nothing (w : Place) : Prop := True.
Definition dir_is (s : DirStat) (w : Place) : Prop := Place.dir w = Some s.
Definition closed (F : option SocketEntry -> Prop) : Prop := forall x x', F x -> Shut p x x' -> F x'.
Definition locked (s : DirStat) (F : option SocketEntry -> Prop) (w : Place) : Prop :=
  Place.dir w = Some s /\ Place.lock w = Some p /\ F (Place.entry w).
Lemma stable_nothing : stable p nothing.
Proof using Type. by intros w w'. Qed.
Lemma stable_dir s : stable p (dir_is s).
Proof using Type. intros w w' Hs Hr. by apply Hr. Qed.
Lemma stable_locked s F : closed F -> stable p (locked s F).
Proof using Type.
  intros HF w w' (Hs & Hl & Hf) Hr. split; [by apply Hr|]. split; [by apply Hr|]. eapply HF; [done|]. by apply Hr.
Qed.
Lemma stable_const (b : Prop) : stable p (fun _ => b).
Proof using Type. by intros w w'. Qed.

Definition any_entry (x : option SocketEntry) : Prop := True.
Definition looks (e : SocketEntry) (x : option SocketEntry) : Prop :=
  exists l, x = Some (SocketEntry.mk (SocketEntry.is_socket e) (SocketEntry.uid e) (SocketEntry.mode e) l).
Definition stale (x : option SocketEntry) : Prop :=
  x = None \/ exists e, x = Some e /\ SocketEntry.is_socket e = true /\ SocketEntry.listener e = None.
Definition gone (x : option SocketEntry) : Prop := x = None.
Definition mine (mode : Z -> Prop) (x : option SocketEntry) : Prop :=
  exists m, x = Some (SocketEntry.mk true (euid_of p) m (Some p)) /\ mode m.
Lemma closed_any : closed any_entry.
Proof using Type. by intros x x'. Qed.
Lemma closed_looks e : closed (looks e).
Proof using Type. intros x x' [l ->] [->|(? & ? & ? & q & _ & [=] & ->)]; [by exists l|]. subst. by exists None. Qed.
Lemma closed_stale : closed stale.
Proof using Type.
  intros x x' Hx [->|(s & u & m & q & _ & -> & ->)]; [done|]. destruct Hx as [?|(e & [= <-] & _ & ?)]; done.
Qed.
Lemma closed_gone : closed gone.
Proof using Type. by intros x x' -> [->|(? & ? & ? & ? & _ & ? & _)]. Qed.
Lemma closed_mine mode : closed (mine mode).
Proof using Type. intros x x' (m & -> & Hm) [->|(? & ? & ? & q & Hq & [=] & _)]; [by exists m|congruence]. Qed.
Hint Resolve closed_any closed_looks closed_stale closed_gone closed_mine stable_nothing stable_dir stable_locked
  stable_const Gives_refl : core.
Hint Unfold nothing any_entry : core.

(** ** The daemon's program *)
Definition private_dir (s : DirStat) : Prop :=
  DirStat.is_dir s = true /\ Z.land (DirStat.mode s) DIR_GROUP_OTHER_BITS = 0.
Lemma good_prepare_dir : good nothing prepare_dir (fun s w => private_dir s /\ dir_is s w) nothing.
Proof using Type.
  unfold prepare_dir. eapply (good_bind _ _ _ _ _ (fun _ => nothing)).
  { apply good_ask; [auto|done|]. intros w fault _. cbn. auto. }
  intros found. eapply (good_bind _ _ _ _ _ (fun _ => nothing)).
  { destruct found as [s|[]]; [done| |done|done].
    eapply (good_bind _ _ _ _ _ (fun _ => nothing)); [apply good_ask; [auto|done|]|].
    - intros w fault _. split; [|done]. cbn. destruct fault; [auto|]. destruct (Place.dir w) eqn:Hd; cbn; [auto|].
      split; [|by intros e -> ?]. intros q Hq. split; cbn; [congruence|done|by left].
    - intros created. by apply (good_context (fun _ => nothing)). }
  intros []. eapply (good_bind _ _ _ _ _ (fun r w => match r with Ok s => dir_is s w | Err _ => True end)).
  { apply good_ask; [intros [s|k]; auto|done|]. intros w fault _. cbn. split; [auto|]. destruct fault; [done|].
    destruct (Place.dir w) eqn:Hd; done. }
  intros again. eapply (good_bind _ _ _ _ _ dir_is); [by apply (good_context (fun r w => match r with Ok s => dir_is s w | Err _ => True end))|].
  intros s. eapply (good_bind _ _ _ _ _ (fun _ w => private_dir s /\ dir_is s w)); [|by intros []; apply good_ret].
  apply good_require; [|done]. intros w [Hd Hm]%andb_true_iff Hw. apply Z.eqb_eq in Hm. done.
Qed.
Lemma good_lock_dir s : good (dir_is s) (lock_dir s) (fun _ => locked s any_entry) nothing.
Proof using Type.
  unfold lock_dir. eapply (good_bind _ _ _ _ _ (fun _ => dir_is s)); [apply good_ask; [auto|done|by intros; cbn; auto]|].
  intros handle. eapply (good_bind _ _ _ _ _ (fun _ => dir_is s)); [by apply (good_context (fun _ => dir_is s))|]. intros [].
  eapply (good_bind _ _ _ _ _ (fun _ => dir_is s)); [apply good_ask; [auto|done|by intros; cbn; auto]|].
  intros asked. eapply (good_bind _ _ _ _ _ (fun _ => dir_is s)); [by apply (good_context (fun _ => dir_is s))|]. intros opened.
  eapply (good_bind _ _ _ _ _ (fun _ => dir_is s)); [by apply good_require|]. intros [].
  eapply (good_bind _ _ _ _ _ (fun r w => match r with LockTry.Taken => locked s any_entry w | _ => True end)).
  - apply good_ask; [intros []; auto|done|]. intros w fault Hw. cbn. destruct fault; [cbn; auto|].
    destruct (Place.lock w) eqn:Hl; [cbn; auto|]. split; [|done]. split; cbn; [|by intros e -> ?].
    intros q Hq. split; cbn; [done|congruence|by left].
  - intros []; [by apply good_ret|by apply good_fail..].
Qed.
Lemma good_clear_stale s owner : good (locked s any_entry) (clear_stale owner) (fun _ => locked s gone) nothing.
Proof using Type.
  unfold clear_stale. eapply (good_bind _ _ _ _ _ (fun r w => match r with
    | Ok e => locked s (looks e) w | Err IoKind.NotFound => locked s gone w | _ => True end)).
  { apply good_ask; [intros [e|[]]; auto|done|]. intros w fault (Hd & Hl & _). cbn. split; [auto|]. destruct fault; [done|].
    destruct (Place.entry w) as [e|] eqn:He; cbn; [|done]. split_and!; [done|done|]. rewrite He. destruct e. by eexists. }
  intros [meta|[]]; [|by apply good_ret|by apply good_fail..].
  eapply (good_bind _ _ _ _ _ (fun _ w => SocketEntry.is_socket meta = true /\ locked s (looks meta) w)).
  { apply good_require; [|done]. by intros w [Hs _]%andb_true_iff Hw. }
  intros []. eapply (good_bind _ _ _ _ _ (fun r w => match r with Err IoKind.ConnectionRefused => locked s stale w | _ => True end)).
  { apply good_ask; [intros [e|[]]; auto|done|]. intros w fault (Hs & Hd & Hl & l & He). cbn. split; [auto|]. destruct fault; [done|].
    rewrite He. cbn. rewrite Hs. destruct l; [done|]. split_and!; [done|done|]. right. rewrite He. by eexists. }
  intros [e|[]]; [done|done| |done].
  eapply (good_bind _ _ _ _ _ (fun r w => match r with Ok _ => locked s gone w | Err _ => True end)).
  - apply good_ask; [intros [e|k]; auto|done|]. intros w fault (Hd & Hl & He). cbn.
    destruct fault; [cbn; auto|]. destruct (Place.entry w) as [e|] eqn:Hx; [|cbn; auto]. split; [|done].
    apply Gives_locked; [done|]. intros e' He' _. rewrite Hx in He'. injection He' as <-.
    destruct He as [?|(e0 & [= <-] & Hs & Hn)]; [done|]. auto.
  - intros removed. by apply (good_context (fun r w => match r with Ok _ => locked s gone w | Err _ => True end)).
Qed.

(** What a daemon that fails lets go of, from whatever it knows. *)
Lemma Gives_drop_listener w : Gives p w (drop_listener p w).
Proof using Type.
  unfold drop_listener. destruct (Place.entry w) as [[is_socket uid mode [q|]]|] eqn:He; [|auto..].
  destruct (Nat.eqb_spec q p) as [->|]; [|auto]. split; cbn; [|done]. intros q Hq. split; cbn; [done|done|].
  intros _. right. exists is_socket, uid, mode, p. done.
Qed.
Lemma Gives_drop_lock w : Gives p w (drop_lock p w).
Proof using Type.
  unfold drop_lock. case_decide as Hl; [|auto]. split; cbn; [|by intros e -> ?].
  intros q Hq. split; cbn; [done|congruence|by left].
Qed.
Lemma good_unlock {A : Type} e (Q : A -> Place -> Prop) : good nothing (undone [Sys.DropLock] e) Q nothing.
Proof using Type. apply (good_undone _ _ _ _ nothing); [done|auto|by intros; split; [apply Gives_drop_lock|]|by intros w]. Qed.
Lemma good_unlisten {A : Type} e (Q : A -> Place -> Prop) : good nothing (undone [Sys.DropListener] e) Q nothing.
Proof using Type. apply (good_undone _ _ _ _ nothing); [done|auto|by intros; split; [apply Gives_drop_listener|]|by intros w]. Qed.
(** A daemon removes what it bound itself. *)
Lemma good_remove_mine {A : Type} s mode undo (e : DaemonError) (Q : A -> Place -> Prop) :
  good nothing (undone undo e) Q nothing -> good (locked s (mine mode)) (undone (Sys.RemoveFile :: undo) e) Q nothing.
Proof using Type.
  apply good_undone; [done|auto|]. intros w fault (Hd & Hl & m & He & _). split; [|done]. cbn. destruct fault; [auto|]. rewrite He.
  apply Gives_locked; [done|]. rewrite He. intros e' [= <-] _. auto.
Qed.
(** The socket of a listener that is gone may still be removed. *)
Lemma good_remove_stale {A : Type} undo (e : DaemonError) (Q : A -> Place -> Prop) :
  good nothing (undone undo e) Q nothing -> good (fun w => exists s, locked s stale w) (undone (Sys.RemoveFile :: undo) e) Q nothing.
Proof using Type.
  apply good_undone; [done|auto|]. intros w fault (s & Hd & Hl & He). split; [|done]. cbn. destruct fault; [auto|].
  destruct (Place.entry w) as [x|] eqn:Hx; [|auto]. apply Gives_locked; [done|]. intros e' He' _. rewrite Hx in He'.
  injection He' as <-. destruct He as [?|(e0 & [= <-] & ? & ?)]; [done|]. auto.
Qed.
Lemma drop_listener_stale s mode w : locked s (mine mode) w -> locked s stale (drop_listener p w).
Proof using Type.
  intros (Hd & Hl & m & He & _). unfold locked, drop_listener. rewrite He, Nat.eqb_refl. cbn.
  split_and!; [done|done|]. right. by eexists.
Qed.
Lemma good_restrict s : good (locked s (mine (fun _ => True))) (restrict s)
  (fun _ w => DirStat.uid s = euid_of p /\ locked s (mine (fun m => m = SOCKET_MODE)) w) (locked s (mine (fun _ => True))).
Proof using Type.
  assert (forall w, locked s (mine (fun m => m = SOCKET_MODE)) w -> locked s (mine (fun _ => True)) w) as Hw.
  { intros w (Hd & Hl & m & He & _). split_and!; [done|done|]. by exists m. }
  unfold restrict. eapply (good_bind _ _ _ _ _ (fun r => locked s (mine (fun m => match r with Ok _ => m = SOCKET_MODE | _ => True end)))).
  { apply good_ask; [auto|done|]. intros w fault (Hd & Hl & m & He & _). cbn. destruct fault.
    - split; [auto|]. split_and!; [done|done|]. by exists m.
    - rewrite He. split.
      + apply Gives_locked; [done|]. by rewrite He.
      + split_and!; [done|done|]. by exists SOCKET_MODE. }
  intros set. eapply (good_bind _ _ _ _ _ (fun _ => locked s (mine (fun m => m = SOCKET_MODE)))).
  { by apply (good_context (fun r => locked s (mine (fun m => match r with Ok _ => m = SOCKET_MODE | _ => True end)))). }
  intros []. eapply (good_bind _ _ _ _ _ (fun r w => (forall e, r = Ok e -> SocketEntry.uid e = euid_of p) /\
    locked s (mine (fun m => m = SOCKET_MODE)) w)).
  { apply good_ask; [|done|].
    - intros r w w' [Hr Hl] Hrel. split; [done|]. revert Hl Hrel. apply stable_locked. auto.
    - intros w fault (Hd & Hl & m & He & Hm). cbn. split; [auto|]. split; [|split_and!; [done|done|by exists m]].
      destruct fault; [done|]. rewrite He. by intros e [= <-]. }
  intros asked. eapply (good_bind _ _ _ _ _ (fun e w => SocketEntry.uid e = euid_of p /\ locked s (mine (fun m => m = SOCKET_MODE)) w)).
  { destruct asked as [e|k]; [intros w [He Hl]; auto|intros w [_ Hl]; auto]. }
  intros meta. eapply (good_bind _ _ _ _ _ (fun _ w => DirStat.uid s = euid_of p /\ locked s (mine (fun m => m = SOCKET_MODE)) w)).
  { apply good_require; [|by intros w [_ Hl]; auto]. intros w Hu%Z.eqb_eq [He Hl]. split; [congruence|done]. }
  intros []. eapply (good_bind _ _ _ _ _ (fun _ w => DirStat.uid s = euid_of p /\ locked s (mine (fun m => m = SOCKET_MODE)) w)).
  { apply good_ask; [|done|by intros; cbn; auto]. intros _ w w' [Hr Hl] Hrel. split; [done|]. revert Hl Hrel. apply stable_locked. auto. }
  intros r. apply (good_context (fun _ w => DirStat.uid s = euid_of p /\ locked s (mine (fun m => m = SOCKET_MODE)) w)); [done|].
  intros _ w [_ Hl]. auto.
Qed.
Definition serving (s : DirStat) (w : Place) : Prop :=
  (private_dir s /\ DirStat.uid s = euid_of p) /\ locked s (mine (fun m => m = SOCKET_MODE)) w.
Lemma stable_serving s : stable p (serving s).
Proof using Type. intros w w' [Hp Hl] Hr. split; [done|]. revert Hl Hr. apply stable_locked. auto. Qed.
Lemma good_bind_socket has_parent : good nothing (bind has_parent) (fun _ w => exists s, serving s w) nothing.
Proof using Type.
  unfold bind. eapply (good_bind _ _ _ _ _ (fun _ => nothing)); [by apply good_require|]. intros [].
  eapply good_bind; [apply good_prepare_dir|]. intros s.
  assert (forall m : Prog unit, (private_dir s -> good (dir_is s) m (fun _ w => exists s, serving s w) nothing) ->
    good (fun w => private_dir s /\ dir_is s w) m (fun _ w => exists s, serving s w) nothing) as Hpull.
  { intros m Hm. destruct (decide (DirStat.is_dir s = true)) as [H1|H1], (decide (Z.land (DirStat.mode s) DIR_GROUP_OTHER_BITS = 0)) as [H2|H2].
    1: eapply (good_weaken _ (dir_is s)); [by intros w [_ ?]|intros a w; exact id|by intros w|by apply Hm].
    all: apply (good_weaken _ (fun _ => False) _ (fun _ _ => False) _ (fun _ => False)); [by intros w [[? ?] _]|done|done|]; destruct m as [[]|]; by intros w. }
  apply Hpull. intros Hpd. clear Hpull.
  eapply good_bind; [apply good_lock_dir|]. intros []. eapply (good_or_undo _ _ _ nothing); [|intros e; apply good_unlock].
  eapply good_bind; [apply good_clear_stale|]. intros [].
  eapply (good_bind _ _ _ _ _ (fun r w => match r with Ok _ => locked s (mine (fun _ => True)) w | Err _ => True end)).
  { apply good_ask; [intros [e|k]; auto|done|]. intros w fault (Hd & Hl & He). cbn. unfold gone in He. rewrite He.
    destruct fault; [cbn; auto|]. split.
    - apply Gives_locked; [done|]. by rewrite He.
    - split_and!; [done|done|]. by eexists. }
  intros bound. eapply (good_bind _ _ _ _ _ (fun _ => locked s (mine (fun _ => True)))).
  { by apply (good_context (fun r w => match r with Ok _ => locked s (mine (fun _ => True)) w | Err _ => True end)). }
  intros []. eapply (good_or_undo _ _ _ nothing); [|intros e; apply good_unlisten].
  eapply good_weaken; [done| |done|eapply (good_or_undo _ _ _ _ nothing); [apply good_restrict|intros e; by apply good_remove_mine]].
  intros [] w [Hu Hl]. exists s. done.
Qed.
Lemma Gives_trans w w1 w2 : Gives p w w1 -> Gives p w1 w2 -> Place.entry w2 = Place.entry w1 -> Gives p w w2.
Proof using Type.
  intros [Ha Hra] [Hb Hrb] He. split; [|by rewrite He]. intros q Hq. destruct (Ha q Hq) as [d1 l1 e1], (Hb q Hq) as [d2 l2 e2].
  split; [auto|auto|]. rewrite He. auto.
Qed.
Lemma Gives_release w : Gives p w (release p w).
Proof using Type.
  eapply Gives_trans; [apply Gives_drop_listener|apply Gives_drop_lock|]. unfold release, drop_lock. by case_decide.
Qed.
Lemma good_server_serve : good (fun w => exists s, serving s w) server_serve (fun _ => nothing) nothing.
Proof using Type.
  unfold server_serve. eapply (good_bind _ _ _ _ _ (fun _ w => exists s, locked s (mine (fun m => m = SOCKET_MODE)) w)).
  { apply good_ask.
    - intros _ w w' (s & Hl) Hr. exists s. revert Hl Hr. apply stable_locked. auto.
    - intros w (s & ((Hp & Hm) & Hu) & Hd & Hl & m & He & ->) _. split_and!; [done|done|]. by exists s.
    - intros w fault (s & _ & Hl). split; [cbn; auto|]. by exists s. }
  intros []. eapply (good_bind _ _ _ _ _ (fun _ w => exists s, locked s stale w)).
  { apply good_ask; [|done|].
    - intros _ w w' (s & Hl) Hr. exists s. revert Hl Hr. apply stable_locked. auto.
    - intros w fault (s & Hl). split; [apply Gives_drop_listener|]. exists s. by eapply drop_listener_stale. }
  intros []. eapply (good_bind _ _ _ _ _ (fun _ => nothing)).
  { apply good_ask; [auto|done|]. intros w fault (s & Hd & Hl & He). split; [|done]. cbn. destruct fault; [auto|].
    destruct (Place.entry w) as [e|] eqn:Hx; [|auto]. apply Gives_locked; [done|]. intros e' He' _. rewrite Hx in He'.
    injection He' as <-. destruct He as [?|(e0 & [= <-] & ? & ?)]; [done|]. auto. }
  intros r. eapply (good_bind _ _ _ _ _ (fun _ => nothing)); [|by intros []; apply good_ret].
  apply good_ask; [auto|done|]. intros w fault _. split; [apply Gives_drop_lock|done].
Qed.
Lemma good_server_bind has_parent : good nothing (server_bind has_parent) (fun _ w => exists s, serving s w) nothing.
Proof using Type.
  unfold server_bind.
  eapply (good_bind _ _ _ _ _ (fun _ => nothing)); [apply good_ask; [auto|done|by intros; cbn; auto]|].
  intros drawn. eapply (good_bind _ _ _ _ _ (fun _ => nothing)); [by apply (good_context (fun _ => nothing))|]. intros [].
  eapply good_bind; [apply good_bind_socket|]. intros [].
  assert (stable p (fun w => exists s, serving s w)) as Hst.
  { intros w w' (s & Hs) Hr. exists s. revert Hs Hr. apply stable_serving. }
  eapply (good_or_undo _ _ _ (fun w => exists s, serving s w)).
  - eapply (good_bind _ _ _ _ _ (fun _ w => exists s, serving s w)); [apply good_ask; [done|done|by intros; cbn; auto]|].
    intros r. by apply (good_context (fun _ w => exists s, serving s w)).
  - intros e. apply (good_undone _ _ _ _ (fun w => exists s, locked s stale w)); [done| | |].
    + intros w w' (s & Hs) Hr. exists s. revert Hs Hr. apply stable_locked. auto.
    + intros w fault (s & _ & Hl). split; [apply Gives_drop_listener|]. exists s. by eapply drop_listener_stale.
    + apply good_remove_stale, good_unlock.
Qed.
Lemma good_daemon has_parent : good nothing (daemon has_parent) (fun _ => nothing) nothing.
Proof using Type. eapply good_bind; [apply good_server_bind|]. intros []. apply good_server_serve. Qed.
End programs.

(** ** All of them *)
Section site.
Context `{Users}.

Definition Sound (s : Site) : Prop := forall p prog, Site.running s !! p = Some prog ->
  exists P : Place -> Prop, stable p P /\ P (Site.place s) /\ good p P prog (fun _ _ => True) (fun _ => True).

Lemma Sound_others w w' procs p q prog : Sound (Site.mk w procs) -> q <> p -> Gives p w w' -> procs !! q = Some prog ->
  exists P : Place -> Prop, stable q P /\ P w' /\ good q P prog (fun _ _ => True) (fun _ => True).
Proof using Type.
  intros Hs Hq Hg Hprog. destruct (Hs q prog Hprog) as (P & Hst & HP & Hgood). exists P. split; [done|]. split; [|done].
  eapply Hst; [exact HP|]. by apply Hg.
Qed.
Lemma Sound_moves s s' : Sound s -> moves s s' -> Sound s'.
Proof using Type.
  intros Hs Hm. destruct Hm as [w procs p hp Hp _|w procs p c k fault Hp|w procs p prog Hp|w procs p Hp]; intros q prog'; cbn.
  - intros [[-> <-]|[Hne Hq]]%lookup_insert_Some; [|by apply Hs].
    exists nothing. split; [apply stable_nothing|]. split; [done|]. apply good_daemon.
  - intros [[-> <-]|[Hne Hq]]%lookup_insert_Some.
    + destruct (Hs q _ Hp) as (P & Hst & HP & Hgood). by destruct (Hgood w fault HP) as (_ & _ & P' & ? & ? & ?); exists P'.
    + destruct (Hs p _ Hp) as (P & Hst & HP & Hgood). destruct (Hgood w fault HP) as (_ & Hg & _).
      by eapply Sound_others; [| |exact Hg|].
  - intros [Hne Hq]%lookup_delete_Some. by eapply Sound_others; [| |apply (Gives_release p)|].
  - intros Hq. eapply Sound_others; [done| |apply (Gives_release p)|exact Hq]. congruence.
Qed.
Lemma Sound_reachable s : reachable s -> Sound s.
Proof using Type. induction 1; [done|by eapply Sound_moves]. Qed.

Lemma release_entry p w : Place.entry (release p w) = None -> Place.entry w = None.
Proof using Type.
  unfold release, drop_lock, drop_listener. destruct (Place.entry w) as [[is_socket uid mode [q|]]|] eqn:He; [| |done].
  - destruct (Nat.eqb q p); case_decide; cbn; congruence.
  - case_decide; cbn; congruence.
Qed.
(** [s'] is [s] after the next call of daemon [p]. *)
Definition called (p : nat) (s s' : Site) : Prop := exists c k fault,
  Site.running s !! p = Some (Ask c k) /\
  s' = Site.mk (perform p fault (Site.place s) c).2 (<[p := k (perform p fault (Site.place s) c).1]> (Site.running s)).

(** C18. One daemon serves per socket directory, and only a stale socket is
    ever replaced. Whatever daemons start, race, fail, stop or are killed at
    the path, from any state of it: a daemon that serves holds the
    directory's lock and is the one listening at the path, at a socket of its
    own user with mode 0600 in that user's own private directory, so no two
    serve at once; and a move that removes the path's entry removes a socket
    at which nobody, or only the daemon that moves, listens. *)
Theorem serving_exclusive (s : Site) : reachable s ->
  (forall p k, Site.running s !! p = Some (Ask Sys.AwaitShutdown k) -> Secure p (Site.place s)) /\
  (forall p q k k', Site.running s !! p = Some (Ask Sys.AwaitShutdown k) ->
     Site.running s !! q = Some (Ask Sys.AwaitShutdown k') -> p = q) /\
  (forall s' e, moves s s' -> Place.entry (Site.place s) = Some e -> Place.entry (Site.place s') = None ->
     exists p, called p s s' /\ SocketEntry.is_socket e = true /\
       (SocketEntry.listener e = None \/ SocketEntry.listener e = Some p)).
Proof using Type.
  intros Hr%Sound_reachable.
  assert (forall p k, Site.running s !! p = Some (Ask Sys.AwaitShutdown k) -> Secure p (Site.place s)) as Hsec.
  { intros p k Hp. destruct (Hr p _ Hp) as (P & _ & HP & Hg). by apply (Hg (Site.place s) false HP). }
  split; [done|]. split.
  { intros p q k k' Hp%Hsec Hq%Hsec. destruct Hp as [Hp _], Hq as [Hq _]. congruence. }
  intros s' e Hm He Hn. destruct Hm as [w procs p hp Hp _|w procs p c k fault Hp|w procs p prog Hp|w procs p Hp]; cbn in He, Hn.
  - congruence.
  - exists p. split; [by exists c, k, fault|]. destruct (Hr p _ Hp) as (P & _ & HP & Hg).
    destruct (Hg w fault HP) as (_ & [_ Hrm] & _). by apply Hrm.
  - by apply release_entry in Hn; congruence.
  - by apply release_entry in Hn; congruence.
Qed.
End site.

(** ** A daemon alone *)

(** Runs a program with no other process moving and no call failing. *)
Fixpoint exec `{Users} {A : Type} (p : nat) (w : Place) (m : Prog A) : result DaemonError A * Place :=
  match m with
  | Return r => (r, w)
  | Ask c k => exec p (perform p false w c).2 (k (perform p false w c).1)
  end.
Definition own_dir `{Users} (p : nat) : DirStat :=
  DirStat.mk true (Z.lor S_IFDIR (Z.ldiff DIR_MODE (umask_of p))) (euid_of p) new_dev new_ino.
Definition own_socket `{Users} (p : nat) : SocketEntry := SocketEntry.mk true (euid_of p) SOCKET_MODE (Some p).
(** What binding comes to: a refusal that leaves the path as it was, or a
    socket of the daemon's own. *)
Definition bind_outcome `{Users} (p : nat) (w : Place) : result DaemonError unit * option SocketEntry :=
  let dir := default (own_dir p) (Place.dir w) in
  if negb (DirStat.is_dir dir && (Z.land (DirStat.mode dir) DIR_GROUP_OTHER_BITS =? 0)) then
    (Err (DaemonError.InsecureSocketDir (DirStat.mode dir) (DirStat.uid dir)), Place.entry w)
  else if bool_decide (is_Some (Place.lock w)) then (Err DaemonError.SocketInUse, Place.entry w)
  else
    let bound :=
      if DirStat.uid dir =? euid_of p then (Ok tt, Some (own_socket p))
      else (Err (DaemonError.InsecureSocketDir (DirStat.mode dir) (DirStat.uid dir)), None) in
    match Place.entry w with
    | None => bound
    | Some e =>
        if negb (SocketEntry.is_socket e && (SocketEntry.uid e =? DirStat.uid dir))
        then (Err DaemonError.SocketPathOccupied, Place.entry w)
        else match SocketEntry.listener e with
             | Some _ => (Err DaemonError.SocketInUse, Place.entry w)
             | None => bound
             end
    end.

Section alone.
Context `{Users}.

Lemma exec_bind {A B : Type} p (m : Prog A) (f : A -> Prog B) : forall w,
  exec p w (m ≫= f) =
  match exec p w m with (Ok a, w') => exec p w' (f a) | (Err e, w') => (Err e, w') end.
Proof using Type. induction m as [[a|e]|c k IH]; intros w; cbn; [done|done|apply IH]. Qed.
Lemma exec_undone {A : Type} p undo e : forall w,
  exec p w (undone (A := A) undo e) = (Err e, foldl (fun w c => (perform p false w c).2) w undo).
Proof using Type. induction undo as [|c undo IH]; intros w; cbn; [done|apply IH]. Qed.
Lemma exec_or_undo p undo m : forall w,
  exec p w (or_undo undo m) =
  match exec p w m with
  | (Ok a, w') => (Ok a, w')
  | (Err e, w') => (Err e, foldl (fun w c => (perform p false w c).2) w' undo)
  end.
Proof using Type. induction m as [[a|e]|c k IH]; intros w; cbn [or_undo exec]; [done|apply exec_undone|apply IH]. Qed.
Definition with_dir (p : nat) (w : Place) : Place :=
  Place.mk (Some (default (own_dir p) (Place.dir w))) (Place.lock w) (Place.entry w).
Lemma exec_prepare_dir p w :
  exec p w prepare_dir =
  (let dir := default (own_dir p) (Place.dir w) in
   if DirStat.is_dir dir && (Z.land (DirStat.mode dir) DIR_GROUP_OTHER_BITS =? 0) then Ok dir
   else Err (DaemonError.InsecureSocketDir (DirStat.mode dir) (DirStat.uid dir)), with_dir p w).
Proof using Type.
  unfold prepare_dir, with_dir. destruct w as [[d|] l e]; cbn.
  - by destruct (_ && _).
  - by destruct (Z.land _ _ =? 0).
Qed.
Lemma exec_lock_dir p d l e : DirStat.is_dir d = true ->
  exec p (Place.mk (Some d) l e) (lock_dir d) =
  if bool_decide (is_Some l) then (Err DaemonError.SocketInUse, Place.mk (Some d) l e) else (Ok tt, Place.mk (Some d) (Some p) e).
Proof using Type. intros Hd. unfold lock_dir. cbn. rewrite Hd, !Z.eqb_refl. by destruct l. Qed.
Lemma exec_clear_stale p d l e owner :
  exec p (Place.mk (Some d) l e) (clear_stale owner) =
  match e with
  | None => (Ok tt, Place.mk (Some d) l None)
  | Some s =>
      if SocketEntry.is_socket s && (SocketEntry.uid s =? owner) then
        match SocketEntry.listener s with
        | Some _ => (Err DaemonError.SocketInUse, Place.mk (Some d) l e)
        | None => (Ok tt, Place.mk (Some d) l None)
        end
      else (Err DaemonError.SocketPathOccupied, Place.mk (Some d) l e)
  end.
Proof using Type.
  unfold clear_stale. destruct e as [[s u m [q|]]|]; [| |done].
  - cbn. destruct s, (u =? owner); done.
  - cbn. destruct s, (u =? owner); done.
Qed.
Lemma exec_restrict p d : exec p (Place.mk (Some d) (Some p) (Some (SocketEntry.mk true (euid_of p) (Z.ldiff 511 (umask_of p)) (Some p))))
    (or_undo [Sys.DropListener] (or_undo [Sys.RemoveFile] (restrict d))) =
  if DirStat.uid d =? euid_of p then (Ok tt, Place.mk (Some d) (Some p) (Some (own_socket p)))
  else (Err (DaemonError.InsecureSocketDir (DirStat.mode d) (DirStat.uid d)), Place.mk (Some d) (Some p) None).
Proof using Type. rewrite !exec_or_undo. unfold restrict. cbn. rewrite Z.eqb_sym. by destruct (_ =? _). Qed.

(** Starting alone and with no call failing, a daemon binds exactly when
    it may. A missing directory is created; one that is not a private
    directory, a lock that is held, an entry that is no socket or of another
    owner, a socket with a live listener and a directory of another user are
    refused with their own errors; a stale socket is replaced; and a refusal
    leaves the entry as it was (with a foreign directory, free). *)
Theorem bind_exact (p : nat) (w : Place) :
  let '(r, w') := exec p w (server_bind true) in (r, Place.entry w') = bind_outcome p w.
Proof using Type.
  unfold server_bind. rewrite exec_bind. cbn [ask exec perform fst snd]. rewrite exec_bind. cbn [context map_err exec].
  rewrite exec_bind. unfold bind. rewrite exec_bind. cbn [require ensure exec]. rewrite exec_bind, exec_prepare_dir. unfold bind_outcome, with_dir. cbv zeta.
  destruct (DirStat.is_dir _ && _) eqn:Hd; cbn [negb]; [|done]. apply andb_true_iff in Hd as [Hd _].
  rewrite exec_bind, exec_lock_dir by done. destruct (bool_decide _); [done|]. rewrite exec_or_undo, exec_bind, exec_clear_stale.
  set (dir := default (own_dir p) (Place.dir w)) in *.
  assert (let '(r, w') :=
      match
        match exec p (Place.mk (Some dir) (Some p) None)
          (bound ← ask Sys.BindListener; _ ← context DaemonError.Bind bound;
           or_undo [Sys.DropListener] (or_undo [Sys.RemoveFile] (restrict dir))) with
        | (Ok a, w') => (Ok a, w')
        | (Err e, w') => (Err e, foldl (fun w c => (perform p false w c).2) w' [Sys.DropLock])
        end with
      | (Ok _, w') => exec p w' (or_undo [Sys.DropListener; Sys.RemoveFile; Sys.DropLock]
                                   (registered ← ask Sys.FromStd; context DaemonError.Bind registered))
      | (Err e, w') => (Err e, w')
      end in
    (r, Place.entry w') =
    if DirStat.uid dir =? euid_of p then (Ok tt, Some (own_socket p))
    else (Err (DaemonError.InsecureSocketDir (DirStat.mode dir) (DirStat.uid dir)), None)) as Hbound.
  { rewrite exec_bind. cbn [ask exec perform fst snd Place.entry set_entry Place.dir Place.lock]. rewrite exec_bind.
    cbn [context map_err exec]. unfold set_entry. cbn [Place.dir Place.lock]. rewrite exec_restrict.
    destruct (_ =? _); [done|]. cbn. unfold drop_lock. by case_decide. }
  assert (forall w, Place.entry (perform p false w Sys.DropLock).2 = Place.entry w) as Hdrop.
  { intros w'. cbn. unfold drop_lock. by case_decide. }
  destruct (Place.entry w) as [e|]; [|by apply Hbound].
  destruct (SocketEntry.is_socket e && _); cbn [negb foldl]; [|by rewrite Hdrop].
  destruct (SocketEntry.listener e); [cbn [foldl]; by rewrite Hdrop|]. by apply Hbound.
Qed.
End alone.
