(* ===== verification/Cli.v ===== *)
(** * The command line ([dioptron::cli], [cli::args], [dioptron::failpoint])

    A command line is a list of words; paths are the texts given for them. *)
From S2P Require Import Prelude Vocab Ids Payload Wire Epitrope Origin Store Daemon.
Local Open Scope Z_scope.

(** ** Reading words *)
Definition starts_with (prefix text : str) : bool := bool_decide (take (length prefix) text = prefix).
Definition usage {A} (message : str) : result DaemonError A := Err (DaemonError.Usage message).

Definition digit (c : byte) : option Z :=
  let d := b2z c - b2z "0" in if (0 <=? d) && (d <=? 9) then Some d else None.
Fixpoint decimal (acc : Z) (text : str) : option Z :=
  match text with
  | [] => Some acc
  | c :: text => d ← digit c; decimal (10 * acc + d) text
  end.
(** [FromStr] of an integer type with the values [lo] to [hi]. *)
Definition parse_int (lo hi : Z) (text : str) : option Z :=
  n ← match text with
      | [] => None
      | c :: rest =>
          if decide (c = "+"%byte) then match rest with [] => None | _ => decimal 0 rest end
          else if decide (c = "-"%byte /\ lo < 0) then match rest with [] => None | _ => Z.opp <$> decimal 0 rest end
          else decimal 0 text
      end;
  if (lo <=? n) && (n <=? hi) then Some n else None.
Definition parse_u8 : str -> option Z := parse_int 0 (2 ^ 8 - 1).
Definition parse_u32 : str -> option Z := parse_int 0 (2 ^ 32 - 1).
Definition parse_i64 : str -> option Z := parse_int (- 2 ^ 63) (2 ^ 63 - 1).
Definition to_option {E A} (r : result E A) : option A := match r with Ok a => Some a | Err _ => None end.
Definition parse_tenant_id (text : str) : option TenantId := to_option (TenantId_from_str text).
Definition parse_grant_id (text : str) : option GrantId := to_option (GrantId_from_bytes <$> parse_ulid text).

(** ** [Args] *)
Abbreviation Args := (gmap (list byte) (list (list byte))).

(** [Args::parse]. *)
Fixpoint args_from (repeatable : list str) (values : Args) (words : list str) : result DaemonError Args :=
  match words with
  | [] => Ok values
  | flag :: words =>
      if negb (starts_with (lit "--") flag) then usage (lit "expected a flag, found " ++ flag) else
      match words with
      | [] => usage (flag ++ lit " needs a value")
      | value :: words =>
          if starts_with (lit "--") value then usage (flag ++ lit " needs a value") else
          let entry := default [] (values !! flag) in
          if bool_decide (entry <> []) && negb (bool_decide (flag ∈ repeatable))
          then usage (flag ++ lit " given twice")
          else args_from repeatable (<[flag := entry ++ [value]]> values) words
      end
  end.
Definition args_parse (words : list str) (repeatable : list str) : result DaemonError Args :=
  args_from repeatable ∅ words.

(** A reading of the flags, each consumed as it is read. *)
Definition Flags (A : Type) : Type := Args -> result DaemonError (A * Args).
#[global] Instance Flags_ret : MRet Flags := fun A a args => Ok (a, args).
#[global] Instance Flags_bind : MBind Flags := fun A B f m args =>
  match m args with Ok (a, args) => f a args | Err e => Err e end.
Definition flags_lift {A} (r : result DaemonError A) : Flags A := fun args =>
  match r with Ok a => Ok (a, args) | Err e => Err e end.

(** [parse_value]. *)
Definition parse_value {A} (from_str : str -> option A) (flag text : str) : result DaemonError A :=
  match from_str text with Some a => Ok a | None => usage (flag ++ lit ": cannot parse " ++ text) end.
Definition optional (flag : str) : Flags (option str) := fun args => Ok (args !! flag ≫= last, delete flag args).
Definition required (flag : str) : Flags str :=
  text ← optional flag;
  match text with Some text => mret text | None => flags_lift (usage (flag ++ lit " is required")) end.
Definition path : str -> Flags str := required.
Definition parsed {A} (from_str : str -> option A) (flag : str) : Flags A :=
  text ← required flag; flags_lift (parse_value from_str flag text).
Definition optional_parsed {A} (from_str : str -> option A) (flag : str) : Flags (option A) :=
  text ← optional flag;
  match text with
  | Some text => a ← flags_lift (parse_value from_str flag text); mret (Some a)
  | None => mret None
  end.
Definition all (flag : str) : Flags (list str) := fun args => Ok (default [] (args !! flag), delete flag args).
Fixpoint parse_values {A} (from_str : str -> option A) (flag : str) (texts : list str) : result DaemonError (list A) :=
  match texts with
  | [] => Ok []
  | text :: texts => a ← parse_value from_str flag text; l ← parse_values from_str flag texts; Ok (a :: l)
  end.
Definition all_parsed {A} (from_str : str -> option A) (flag : str) : Flags (list A) :=
  texts ← all flag; flags_lift (parse_values from_str flag texts).
(** The first key of a [BTreeMap]. *)
Definition min_text (a b : str) : str := if bytes_le a b then a else b.
Definition first_key (args : Args) : option str :=
  match fst <$> map_to_list args with [] => None | k :: ks => Some (foldr min_text k ks) end.
(** [Args::finish]. *)
Definition finish : Flags unit := fun args =>
  match first_key args with
  | Some flag => usage (lit "unknown flag " ++ flag)
  | None => Ok (tt, args)
  end.

(** ** Commands *)
Module TenantAdd.
Record TenantAdd : Set := mk {
  store : str; root_key : str; tenant : TenantId; class : TenantClass; verifying_key : bytes;
  uids : list Z; parent : option TenantId; root_grant : option GrantId; targets : list str;
  not_before : option Z; expires_at : option Z; max_depth : option Z;
}.
End TenantAdd.
Abbreviation TenantAdd := TenantAdd.TenantAdd.
Module Serve.
Record Serve : Set := mk { store : str; root_key : str; socket_dir : str; fixture : option str }.
End Serve.
Abbreviation Serve := Serve.Serve.
Module Command.
Inductive Command : Set :=
| Help
| Keygen (path : str)
| Init (store root_key : str)
| TenantAdd (add : TenantAdd)
| Serve (serve : Serve).
End Command.
Abbreviation Command := Command.Command.

(** [parse_class]. *)
Definition parse_class (text : str) : result DaemonError TenantClass :=
  if decide (text = lit "operator") then Ok TenantClass.Operator
  else if decide (text = lit "agent") then Ok TenantClass.Agent
  else if decide (text = lit "sub-agent") then Ok TenantClass.SubAgent
  else usage (lit "unknown tenant class " ++ text).
(** [parse_key]. *)
Definition hex_digit (c : byte) : option Z :=
  match digit c with
  | Some d => Some d
  | None =>
      let lower := b2z c - b2z "a" in
      let upper := b2z c - b2z "A" in
      if (0 <=? lower) && (lower <=? 5) then Some (10 + lower)
      else if (0 <=? upper) && (upper <=? 5) then Some (10 + upper)
      else None
  end.
Definition bad_key {A} : result DaemonError A := usage (lit "a verifying key is 64 hexadecimal digits").
Fixpoint key_bytes (text : str) : option bytes :=
  match text with
  | a :: b :: text =>
      high ← hex_digit a; low ← hex_digit b; rest ← key_bytes text; Some (z2b (16 * high + low) :: rest)
  | _ => Some []
  end.
Definition parse_key (text : str) : result DaemonError bytes :=
  if negb (Nat.eqb (length text) 64) || negb (forallb (fun c => bool_decide (is_Some (hex_digit c))) text) then bad_key
  else match key_bytes text with Some key => Ok key | None => bad_key end.

Definition root_grant_flags (add : TenantAdd) : bool :=
  bool_decide (is_Some (TenantAdd.root_grant add)) || bool_decide (TenantAdd.targets add <> [])
  || bool_decide (is_Some (TenantAdd.not_before add)) || bool_decide (is_Some (TenantAdd.expires_at add))
  || bool_decide (is_Some (TenantAdd.max_depth add)).
(** [parse_tenant_add]. *)
Definition read_tenant_add : Flags TenantAdd :=
  store ← path (lit "--store");
  root_key ← path (lit "--root-key");
  tenant ← parsed parse_tenant_id (lit "--tenant");
  class_text ← required (lit "--class");
  class ← flags_lift (parse_class class_text);
  key_text ← required (lit "--verifying-key");
  verifying_key ← flags_lift (parse_key key_text);
  uids ← all_parsed parse_u32 (lit "--uid");
  parent ← optional_parsed parse_tenant_id (lit "--parent");
  root_grant ← optional_parsed parse_grant_id (lit "--root-grant");
  targets ← all (lit "--target");
  not_before ← optional_parsed parse_i64 (lit "--not-before");
  expires_at ← optional_parsed parse_i64 (lit "--expires-at");
  max_depth ← optional_parsed parse_u8 (lit "--max-depth");
  _ ← finish;
  mret (TenantAdd.mk store root_key tenant class verifying_key uids parent root_grant targets not_before expires_at max_depth).
Definition parse_tenant_add (flags : list str) : result DaemonError TenantAdd :=
  args ← args_parse flags [lit "--uid"; lit "--target"];
  '(add, _) ← read_tenant_add args;
  if bool_decide (TenantAdd.class add <> TenantClass.Operator) && root_grant_flags add
  then usage (lit "only an operator gets a root grant: --root-grant, --target, --not-before, --expires-at, and --max-depth need --class operator")
  else if bool_decide (TenantAdd.uids add = []) then usage (lit "tenant add needs at least one --uid")
  else Ok add.
(** [parse_serve]. *)
Definition parse_producer (text : option str) : result DaemonError (option str) :=
  match text with
  | None => Ok None
  | Some text =>
      if decide (text = lit "unavailable") then Ok None
      else match strip_prefix (lit "fixture:") text with
           | Some (c :: script) => Ok (Some (c :: script))
           | _ => usage (lit "unknown producer " ++ text)
           end
  end.
Definition read_serve : Flags Serve :=
  store ← path (lit "--store");
  root_key ← path (lit "--root-key");
  socket_dir ← path (lit "--socket-dir");
  producer ← optional (lit "--producer");
  fixture ← flags_lift (parse_producer producer);
  _ ← finish;
  mret (Serve.mk store root_key socket_dir fixture).
Definition parse_serve (flags : list str) : result DaemonError Serve :=
  args ← args_parse flags []; fst <$> read_serve args.
Definition read_init : Flags Command :=
  store ← path (lit "--store"); root_key ← path (lit "--root-key"); _ ← finish; mret (Command.Init store root_key).
(** [cli::parse]. *)
Definition parse (words : list str) : result DaemonError Command :=
  match words with
  | [] => Ok Command.Help
  | command :: rest =>
      let unknown := usage (lit "unknown command " ++ command) in
      if bool_decide (command ∈ [lit "help"; lit "--help"; lit "-h"]) && bool_decide (rest = []) then Ok Command.Help
      else if decide (command = lit "keygen") then
        match rest with [path] => Ok (Command.Keygen path) | _ => unknown end
      else if decide (command = lit "init") then args ← args_parse rest []; fst <$> read_init args
      else if decide (command = lit "tenant") then
        match rest with
        | sub :: flags => if decide (sub = lit "add") then Command.TenantAdd <$> parse_tenant_add flags else unknown
        | [] => unknown
        end
      else if decide (command = lit "serve") then Command.Serve <$> parse_serve rest
      else unknown
  end.

(** ** Failpoints *)

(** [AbortAt::parse]: [<phase>:<boundary>]. *)
Module AbortAt.
Record AbortAt : Set := mk { boundary : Boundary; phase : Phase }.
End AbortAt.
Abbreviation AbortAt := AbortAt.AbortAt.
Definition BOUNDARY_ALL : list Boundary :=
  [Boundary.PersistIntent; Boundary.Dispatch; Boundary.CompleteTransfer; Boundary.Publish; Boundary.Terminal].
Definition boundary_name (b : Boundary) : str :=
  lit match b with
      | Boundary.PersistIntent => "B1"
      | Boundary.Dispatch => "B2"
      | Boundary.CompleteTransfer => "B3"
      | Boundary.Publish => "B4"
      | Boundary.Terminal => "B5"
      | Boundary.RekeyBegin => "rekey begin"
      | Boundary.RekeyBatch => "rekey batch"
      | Boundary.RekeyRetire => "rekey retire"
      | Boundary.RootRotation => "root rotation"
      end.
Definition abort_at_parse (text : str) : result DaemonError AbortAt :=
  let usage {A} : result DaemonError A :=
    usage (lit "DIOPTRON_FAILPOINT must be before_commit:Bn or after_commit:Bn, found " ++ text) in
  match split_once (lit ":") text with
  | None => usage
  | Some (phase, boundary) =>
      phase ← (if decide (phase = lit "before_commit") then Ok Phase.BeforeCommit
               else if decide (phase = lit "after_commit") then Ok Phase.AfterCommit
               else usage);
      match List.find (fun candidate => bool_decide (boundary_name candidate = boundary)) BOUNDARY_ALL with
      | Some boundary => Ok (AbortAt.mk boundary phase)
      | None => usage
      end
  end.
(** [AbortAt::from_env]; [var] is the variable's value. *)
Definition abort_at_from_env (var : option str) : result DaemonError (option AbortAt) :=
  match var with
  | None => Ok None
  | Some text => Some <$> abort_at_parse text
  end.
(** [AbortAt::fires], and the [Failpoint] of an [AbortAt]. *)
#[global] Instance Boundary_eq_dec : EqDecision Boundary.
Proof. solve_decision. Defined.
#[global] Instance Phase_eq_dec : EqDecision Phase.
Proof. solve_decision. Defined.
Definition fires (at_ : AbortAt) (boundary : Boundary) (phase : Phase) : bool :=
  bool_decide (AbortAt.boundary at_ = boundary) && bool_decide (AbortAt.phase at_ = phase).
Definition abort_failpoint (at_ : AbortAt) : Failpoint :=
  Failpoint.mk (fun b => fires at_ b Phase.BeforeCommit) (fun b => fires at_ b Phase.AfterCommit).
