(* ===== verification/CliGuarantees.v ===== *)
(** * What the command line accepts

    Printers for what the command line's parsers read, and how the flags of a
    well-formed list of words are read back. *)
From S2P Require Import Prelude Vocab Ids Payload Wire Epitrope Origin Store Daemon Cli.
Local Open Scope Z_scope.

(** A word that can be a flag's value. *)
Definition plain (text : str) : Prop := starts_with (lit "--") text = false.
Lemma dashes text : starts_with (lit "--") text = true -> exists rest, text = "-"%byte :: "-"%byte :: rest.
Proof.
  unfold starts_with. intros Hs. apply bool_decide_eq_true in Hs. destruct text as [|a [|b rest]]; try done.
  cbn in Hs. injection Hs as -> ->. by exists rest.
Qed.
Lemma plain_alt text : plain text \/ exists rest, text = "-"%byte :: "-"%byte :: rest.
Proof. unfold plain. destruct (starts_with (lit "--") text) eqn:Hs; [right; by apply dashes|by left]. Qed.

(** ** Numbers *)
Fixpoint print_decimal (fuel : nat) (n : Z) : str :=
  let d := z2b (b2z "0" + n mod 10) in
  match fuel with
  | O => [d]
  | S fuel => if n <? 10 then [d] else print_decimal fuel (n / 10) ++ [d]
  end.
Definition print_int (n : Z) : str := if n <? 0 then "-"%byte :: print_decimal 19 (- n) else print_decimal 19 n.

Lemma decimal_app a : forall acc b, decimal acc (a ++ b) = decimal acc a ≫= fun n => decimal n b.
Proof. induction a as [|c a IH]; intros acc b; [done|]. cbn. destruct (digit c); [apply IH|done]. Qed.
Lemma digit_print n : 0 <= n < 10 -> digit (z2b (b2z "0" + n)) = Some n.
Proof.
  intros Hn. unfold digit. rewrite b2z_z2b, Z.mod_small by (change (b2z "0") with 48; lia).
  replace (b2z "0" + n - b2z "0") with n by lia. by replace ((0 <=? n) && (n <=? 9)) with true by lia.
Qed.
Lemma decimal_print fuel : forall n, 0 <= n < 10 ^ Z.of_nat (S fuel) -> decimal 0 (print_decimal fuel n) = Some n.
Proof.
  induction fuel as [|fuel IH]; intros n Hn; cbn [print_decimal].
  - cbn [decimal]. rewrite Z.mod_small, digit_print by (cbn in Hn; lia). done.
  - pose proof (Z.mod_pos_bound n 10 ltac:(lia)). destruct (Z.ltb_spec n 10).
    + cbn [decimal]. rewrite Z.mod_small, digit_print by lia. done.
    + rewrite decimal_app, IH.
      * cbn [mbind option_bind decimal]. rewrite digit_print by lia. cbn. f_equal. pose proof (Z.div_mod n 10). lia.
      * rewrite (Nat2Z.inj_succ (S fuel)), Z.pow_succ_r in Hn by lia. split; [apply Z.div_pos; lia|].
        apply Z.div_lt_upper_bound; lia.
Qed.
Lemma print_decimal_head fuel n : exists c rest, print_decimal fuel n = c :: rest /\ is_Some (digit c).
Proof.
  revert n. induction fuel as [|fuel IH]; intros n; cbn [print_decimal];
    pose proof (digit_print (n mod 10) (Z.mod_pos_bound n 10 ltac:(lia))) as Hd.
  - eexists _, _. split; [done|]. by rewrite Hd.
  - destruct (n <? 10); [eexists _, _; split; [done|]; by rewrite Hd|].
    destruct (IH (n / 10)) as (c & rest & -> & Hc). by exists c, (rest ++ [z2b (b2z "0" + n mod 10)]).
Qed.
Lemma parse_print_int lo hi n : lo <= n <= hi -> - 10 ^ 20 < n < 10 ^ 20 -> parse_int lo hi (print_int n) = Some n.
Proof.
  intros Hr Hb. unfold parse_int, print_int. destruct (Z.ltb_spec n 0) as [Hn|Hn].
  - rewrite decide_False by done. rewrite decide_True by (split; [done|lia]).
    pose proof (decimal_print 19 (- n) ltac:(change (Z.of_nat 20) with 20; lia)) as Hd.
    destruct (print_decimal_head 19 (- n)) as (c & rest & Hp & _). rewrite Hp in *. rewrite Hd. cbn.
    rewrite Z.opp_involutive. by rewrite (proj2 (Z.leb_le lo n)), (proj2 (Z.leb_le n hi)) by lia.
  - pose proof (decimal_print 19 n ltac:(change (Z.of_nat 20) with 20; lia)) as Hd.
    destruct (print_decimal_head 19 n) as (c & rest & Hp & [d Hc]). rewrite Hp in *.
    rewrite decide_False by (intros ->; done). rewrite decide_False by (intros [-> _]; done). rewrite Hd. cbn.
    by rewrite (proj2 (Z.leb_le lo n)), (proj2 (Z.leb_le n hi)) by lia.
Qed.
Lemma parse_int_range lo hi text n : parse_int lo hi text = Some n -> lo <= n <= hi.
Proof. unfold parse_int. intros (m & _ & Hm)%bind_Some. destruct (Z.leb_spec lo m), (Z.leb_spec m hi); cbn in Hm; naive_solver. Qed.
Lemma parse_int_plain lo hi text n : parse_int lo hi text = Some n -> plain text.
Proof.
  destruct (plain_alt text) as [?|(rest & ->)]; [done|]. unfold parse_int.
  rewrite decide_False by done. by destruct (decide _).
Qed.

(** ** Identifiers, classes and keys *)
Lemma parse_ulid_plain text b : parse_ulid text = Ok b -> plain text.
Proof.
  destruct (plain_alt text) as [?|(rest & ->)]; [done|]. unfold parse_ulid. by destruct (Nat.eqb _ _).
Qed.
Lemma parse_ulid_len text b : parse_ulid text = Ok b -> length b = 16%nat.
Proof. intros Hp. by apply ulid_canonical in Hp as [Hl _]. Qed.
Lemma parse_tenant_id_Some text t : parse_tenant_id text = Some t ->
  parse_ulid text = Ok (TenantId_to_bytes t).
Proof. unfold parse_tenant_id, TenantId_from_str. destruct (parse_ulid text); cbn; [|done]. by intros [= <-]. Qed.
Lemma parse_grant_id_Some text g : parse_grant_id text = Some g -> parse_ulid text = Ok (GrantId_to_bytes g).
Proof. unfold parse_grant_id. destruct (parse_ulid text); cbn; [|done]. by intros [= <-]. Qed.
Definition print_class (class : TenantClass) : str :=
  lit match class with TenantClass.Operator => "operator" | TenantClass.Agent => "agent" | TenantClass.SubAgent => "sub-agent" end.
Lemma parse_print_class class : parse_class (print_class class) = Ok class.
Proof. by destruct class. Qed.

Definition hex_char (d : Z) : byte := z2b (if d <? 10 then b2z "0" + d else b2z "a" + (d - 10)).
Definition print_key (key : bytes) : str := b ← key; [hex_char (b2z b / 16); hex_char (b2z b mod 16)].
Lemma hex_digit_char b : hex_digit (hex_char (b2z b / 16)) = Some (b2z b / 16) /\ hex_digit (hex_char (b2z b mod 16)) = Some (b2z b mod 16).
Proof. by destruct b. Qed.
Lemma key_bytes_print key : key_bytes (print_key key) = Some key.
Proof.
  induction key as [|b key IH]; [done|]. unfold print_key. cbn [mbind list_bind app key_bytes].
  destruct (hex_digit_char b) as [-> ->]. cbn [mbind option_bind]. fold (print_key key). rewrite IH. cbn. do 2 f_equal.
  rewrite <- (z2b_b2z b) at 3. f_equal. pose proof (Z.div_mod (b2z b) 16). lia.
Qed.
Lemma print_key_length key : length (print_key key) = (2 * length key)%nat.
Proof. induction key as [|b key IH]; [done|]. unfold print_key in *. cbn in *. lia. Qed.
Lemma print_key_hex key : forallb (fun c => bool_decide (is_Some (hex_digit c))) (print_key key) = true.
Proof.
  induction key as [|b key IH]; [done|]. unfold print_key in *. cbn [mbind list_bind app forallb].
  destruct (hex_digit_char b) as [-> ->]. by rewrite IH.
Qed.
Lemma parse_print_key key : length key = 32%nat -> parse_key (print_key key) = Ok key.
Proof. intros Hl. unfold parse_key. by rewrite print_key_length, Hl, print_key_hex, key_bytes_print. Qed.
Lemma key_bytes_length n : forall text key, length text = (2 * n)%nat -> key_bytes text = Some key -> length key = n.
Proof.
  induction n as [|n IH]; intros text key Hl; [by destruct text; [intros [= <-]|]|].
  destruct text as [|a [|b text]]; cbn in Hl; [lia|lia|]. cbn. destruct (hex_digit a); [|done]. destruct (hex_digit b); [|done]. cbn.
  destruct (key_bytes text) as [rest|] eqn:Hk; [|done]. intros [= <-]. cbn. f_equal. apply (IH text); [lia|done].
Qed.
Lemma parse_key_Ok text key : parse_key text = Ok key -> length key = 32%nat /\ plain text.
Proof.
  unfold parse_key. destruct (Nat.eqb_spec (length text) 64) as [Hl|]; [|done]. destruct (forallb _ text) eqn:Hf; [|done]. cbn.
  destruct (key_bytes text) as [k|] eqn:Hk; [|done]. intros [= <-]. split; [by apply (key_bytes_length 32 text)|].
  destruct (plain_alt text) as [?|(rest & ->)]; [done|]. by cbn in Hf.
Qed.

(** ** Flags written out *)
Definition words_of (pairs : list (str * str)) : list str := p ← pairs; [p.1; p.2].
Definition values_of (flag : str) (pairs : list (str * str)) : list str := snd <$> filter (fun p => p.1 = flag) pairs.
Definition pair_ok (p : str * str) : Prop := starts_with (lit "--") p.1 = true /\ plain p.2.

Lemma args_from_pairs repeatable pairs : forall values,
  Forall pair_ok pairs ->
  (forall f, f ∉ repeatable -> (length (default [] (values !! f) ++ values_of f pairs) <= 1)%nat) ->
  exists args, args_from repeatable values (words_of pairs) = Ok args /\
    forall f, default [] (args !! f) = default [] (values !! f) ++ values_of f pairs /\
      (args !! f = Some [] -> values !! f = Some []).
Proof.
  induction pairs as [|[flag value] pairs IH]; intros values Hok Hlen.
  - exists values. split; [done|]. intros f. by rewrite app_nil_r.
  - apply Forall_cons in Hok as [[Hf Hv] Hok]. unfold words_of. cbn [mbind list_bind app args_from fst snd] in *. fold (words_of pairs).
    rewrite Hf, Hv. cbn [negb].
    assert (forall f, default [] (<[flag := default [] (values !! flag) ++ [value]]> values !! f) ++ values_of f pairs =
      default [] (values !! f) ++ values_of f ((flag, value) :: pairs)) as Hstep.
    { intros f. unfold values_of. rewrite filter_cons. cbn [fst]. destruct (decide (flag = f)) as [->|Hne].
      - rewrite lookup_insert_eq. cbn. by rewrite <- app_assoc.
      - by rewrite lookup_insert_ne. }
    assert (bool_decide (default [] (values !! flag) <> []) && negb (bool_decide (flag ∈ repeatable)) = false) as ->.
    { case_bool_decide as Hr; [|done]. case_bool_decide as Hin; [done|]. specialize (Hlen flag Hin).
      unfold values_of in Hlen. rewrite filter_cons, decide_True in Hlen by done. cbn in Hlen. rewrite length_app in Hlen. cbn in Hlen.
      destruct (default [] (values !! flag)); [done|]. cbn in Hlen. lia. }
    destruct (IH (<[flag := default [] (values !! flag) ++ [value]]> values) Hok) as (args & Ha & Hargs).
    { intros f Hin. rewrite Hstep. by apply Hlen. }
    exists args. split; [done|]. intros f. destruct (Hargs f) as [H1 H2]. rewrite <- Hstep. split; [done|].
    intros Hx%H2. destruct (decide (flag = f)) as [->|Hne]; [|by rewrite lookup_insert_ne in Hx].
    rewrite lookup_insert_eq in Hx. injection Hx as Hx. by destruct (default [] (values !! f)).
Qed.
(** Every value read is one that was written, so none looks like a flag. *)
Definition Clean (args : Args) : Prop := forall f l, args !! f = Some l -> Forall plain l.
Lemma args_from_clean repeatable : forall n words values args, (length words <= n)%nat ->
  args_from repeatable values words = Ok args -> Clean values -> Clean args.
Proof.
  induction n as [|n IH]; intros words values args Hn; (destruct words as [|flag words]; [by intros [= <-]|]); cbn in Hn; [lia|].
  cbn [args_from]. destruct (negb _); [done|]. destruct words as [|value words]; [done|]. cbn in Hn.
  destruct (starts_with (lit "--") value) eqn:Hv; [done|]. destruct (_ && _); [done|]. intros Ha Hc.
  apply (IH words _ args ltac:(lia) Ha). intros f l. destruct (decide (flag = f)) as [->|Hne].
  - rewrite lookup_insert_eq. intros [= <-]. apply Forall_app. split; [|by apply Forall_singleton].
    destruct (values !! f) as [l|] eqn:Hl; [by apply (Hc f)|]. by apply Forall_nil.
  - rewrite lookup_insert_ne by done. apply Hc.
Qed.

(** ** Reading *)

(** The flags of [args0] that are left once those of [ds] are consumed. *)
Definition left (args0 : Args) (ds : list str) : Args := foldr delete args0 ds.
Lemma left_lookup args0 ds f : bool_decide (f ∈ ds) = false -> left args0 ds !! f = args0 !! f.
Proof.
  rewrite bool_decide_eq_false. induction ds as [|d ds IH]; intros Hf; [done|]. cbn.
  rewrite elem_of_cons in Hf. rewrite lookup_delete_ne by naive_solver. apply IH. naive_solver.
Qed.
Lemma left_empty args0 ds : (forall f, is_Some (args0 !! f) -> f ∈ ds) -> left args0 ds = ∅.
Proof.
  intros Hd. apply map_empty. intros f. destruct (bool_decide (f ∈ ds)) eqn:Hf.
  - bool_simpl. clear Hd. induction ds as [|d ds IH]; [by apply elem_of_nil in Hf|]. cbn.
    destruct (decide (d = f)) as [->|Hne]; [apply lookup_delete_eq|]. rewrite lookup_delete_ne by done. apply IH. set_solver.
  - rewrite left_lookup by done. bool_simpl. destruct (args0 !! f) eqn:He; [|done]. destruct Hf. apply Hd. by rewrite He.
Qed.
Section reading.
Context (args0 : Args).
Implicit Types (ds : list str) (flag : str).

Lemma read_bind {A B : Type} (m : Flags A) (f : A -> Flags B) args a args' :
  m args = Ok (a, args') -> (m ≫= f) args = f a args'.
Proof using Type. unfold mbind, Flags_bind. by intros ->. Qed.
Lemma read_optional ds flag : bool_decide (flag ∈ ds) = false ->
  optional flag (left args0 ds) = Ok (args0 !! flag ≫= last, left args0 (flag :: ds)).
Proof using Type. intros Hd. unfold optional. by rewrite left_lookup. Qed.
Lemma read_all ds flag : bool_decide (flag ∈ ds) = false ->
  all flag (left args0 ds) = Ok (default [] (args0 !! flag), left args0 (flag :: ds)).
Proof using Type. intros Hd. unfold all. by rewrite left_lookup. Qed.
Lemma read_required ds flag text : args0 !! flag = Some [text] -> bool_decide (flag ∈ ds) = false ->
  required flag (left args0 ds) = Ok (text, left args0 (flag :: ds)).
Proof using Type. intros Ht Hd. unfold required. erewrite read_bind by by apply read_optional. by rewrite Ht. Qed.
Lemma read_parsed {A : Type} (from_str : str -> option A) ds flag text a : from_str text = Some a -> args0 !! flag = Some [text] ->
  bool_decide (flag ∈ ds) = false -> parsed from_str flag (left args0 ds) = Ok (a, left args0 (flag :: ds)).
Proof using Type.
  intros Ha Ht Hd. unfold parsed. erewrite read_bind by by apply read_required. unfold flags_lift, parse_value. by rewrite Ha.
Qed.
Lemma read_optional_parsed {A : Type} (from_str : str -> option A) ds flag (o : option (str * A)) :
  args0 !! flag = (fun p => [p.1]) <$> o -> (forall text a, o = Some (text, a) -> from_str text = Some a) ->
  bool_decide (flag ∈ ds) = false -> optional_parsed from_str flag (left args0 ds) = Ok (snd <$> o, left args0 (flag :: ds)).
Proof using Type.
  intros Ht Ha Hd. unfold optional_parsed. erewrite read_bind by by apply read_optional. rewrite Ht.
  destruct o as [[text a]|]; [|done]. cbn [fmap option_fmap option_map mbind option_bind last fst snd].
  unfold mbind, Flags_bind, flags_lift, parse_value. by rewrite (Ha text a).
Qed.
Lemma read_all_parsed {A : Type} (from_str : str -> option A) ds flag texts (l : list A) :
  default [] (args0 !! flag) = texts -> Forall2 (fun text a => from_str text = Some a) texts l ->
  bool_decide (flag ∈ ds) = false -> all_parsed from_str flag (left args0 ds) = Ok (l, left args0 (flag :: ds)).
Proof using Type.
  intros <- Hl Hd. unfold all_parsed. erewrite read_bind by by apply read_all. unfold flags_lift.
  assert (parse_values from_str flag (default [] (args0 !! flag)) = Ok l) as ->; [|done].
  clear Hd. induction Hl as [|text a texts l Ha _ IH]; [done|]. cbn. unfold parse_value. rewrite Ha. cbn. by rewrite IH.
Qed.
Lemma read_finish ds : (forall f, is_Some (args0 !! f) -> f ∈ ds) -> finish (left args0 ds) = Ok (tt, ∅).
Proof using Type. intros Hd. rewrite left_empty by done. unfold finish, first_key. by rewrite map_to_list_empty. Qed.
End reading.

(** ** Blocks: each flag once, with all its values *)
Definition flat (blocks : list (str * list str)) : list (str * str) := b ← blocks; pair b.1 <$> b.2.
Definition block_ok (repeatable : list str) (b : str * list str) : Prop :=
  starts_with (lit "--") b.1 = true /\ Forall plain b.2 /\ (b.1 ∉ repeatable -> (length b.2 <= 1)%nat).
Lemma values_of_app f a b : values_of f (a ++ b) = values_of f a ++ values_of f b.
Proof. unfold values_of. by rewrite filter_app, fmap_app. Qed.
Lemma values_of_block f g l : values_of f (pair g <$> l) = if decide (g = f) then l else [].
Proof.
  unfold values_of. induction l as [|v l IH]; cbn [fmap list_fmap]; [by destruct (decide _)|].
  rewrite filter_cons. cbn [fst]. destruct (decide (g = f)); cbn [fmap list_fmap snd]; by rewrite IH.
Qed.
Lemma values_of_absent f blocks : f ∉ fst <$> blocks -> values_of f (flat blocks) = [].
Proof.
  induction blocks as [|[g l] blocks IH]; intros Hf; [done|]. unfold flat. cbn [mbind list_bind]. fold (flat blocks).
  cbn [fmap list_fmap fst] in Hf. apply not_elem_of_cons in Hf as [Hne Hf].
  rewrite values_of_app, values_of_block, decide_False by (cbn; congruence). by apply IH.
Qed.
Lemma values_of_flat f blocks l : NoDup (fst <$> blocks) -> (f, l) ∈ blocks -> values_of f (flat blocks) = l.
Proof.
  induction blocks as [|[g l'] blocks IH]; intros Hnd Hin; [by apply elem_of_nil in Hin|]. unfold flat. cbn [mbind list_bind]. fold (flat blocks).
  cbn [fmap list_fmap fst] in Hnd. apply NoDup_cons in Hnd as [Hn Hnd]. rewrite values_of_app, values_of_block. cbn [fst snd].
  apply elem_of_cons in Hin as [[= -> ->]|Hin].
  - rewrite decide_True by done. by rewrite values_of_absent, app_nil_r.
  - rewrite decide_False; [by apply IH|]. intros ->. destruct Hn. by apply (list_elem_of_fmap_2 fst _ (f, l)).
Qed.
Lemma flat_ok repeatable blocks : Forall (block_ok repeatable) blocks -> Forall pair_ok (flat blocks).
Proof.
  rewrite !Forall_forall. intros Hb [f v] Hin. apply list_elem_of_bind in Hin as ([g l] & Hin & Hb'). cbn in Hin.
  apply list_elem_of_fmap in Hin as (v' & [= -> ->] & Hv). destruct (Hb _ Hb') as (Hd & Hp & _). split; [done|].
  rewrite Forall_forall in Hp. by apply Hp.
Qed.
Lemma args_of_blocks repeatable blocks : NoDup (fst <$> blocks) -> Forall (block_ok repeatable) blocks ->
  exists args, args_parse (words_of (flat blocks)) repeatable = Ok args /\
    (forall i f l, blocks !! i = Some (f, l) -> args !! f = match l with [] => None | _ => Some l end) /\
    forall f, is_Some (args !! f) -> f ∈ fst <$> blocks.
Proof.
  intros Hnd Hb. destruct (args_from_pairs repeatable (flat blocks) ∅) as (args & Ha & Hargs).
  - by eapply flat_ok.
  - intros f Hf. rewrite lookup_empty. cbn. destruct (decide (f ∈ fst <$> blocks)) as [Hin|Hin].
    + apply list_elem_of_fmap in Hin as ([g l] & -> & Hin). cbn [fst] in *. rewrite (values_of_flat g blocks l Hnd Hin).
      rewrite Forall_forall in Hb. by apply (Hb _ Hin).
    + rewrite values_of_absent by done. cbn. lia.
  - exists args. split; [done|].
    assert (forall f, args !! f = match values_of f (flat blocks) with [] => None | l => Some l end) as Hget.
    { intros f. destruct (Hargs f) as [H1 H2]. rewrite lookup_empty in *. cbn in H1. rewrite <- H1.
      destruct (args !! f) as [[|v l]|] eqn:Hl; [|done|done]. by specialize (H2 eq_refl). }
    split.
    + intros i f l Hi. rewrite Hget. rewrite (values_of_flat f blocks l); [by destruct l|done|]. by apply list_elem_of_lookup_2 in Hi.
    + intros f Hf. destruct (decide (f ∈ fst <$> blocks)) as [Hin|Hin]; [done|]. rewrite Hget, values_of_absent in Hf by done. by destruct Hf.
Qed.

(** ** Well-formed commands *)
Definition opt_within (lo hi : Z) (o : option Z) : Prop := forall n, o = Some n -> lo <= n <= hi.
Record wf_add (add : TenantAdd) : Prop := {
  wa_store : plain (TenantAdd.store add);
  wa_root_key : plain (TenantAdd.root_key add);
  wa_tenant : length (TenantId_to_bytes (TenantAdd.tenant add)) = 16%nat;
  wa_key : length (TenantAdd.verifying_key add) = 32%nat;
  wa_uids : TenantAdd.uids add <> [] /\ Forall (fun n => 0 <= n <= 2 ^ 32 - 1) (TenantAdd.uids add);
  wa_parent p : TenantAdd.parent add = Some p -> length (TenantId_to_bytes p) = 16%nat;
  wa_grant g : TenantAdd.root_grant add = Some g -> length (GrantId_to_bytes g) = 16%nat;
  wa_targets : Forall plain (TenantAdd.targets add);
  wa_not_before : opt_within (- 2 ^ 63) (2 ^ 63 - 1) (TenantAdd.not_before add);
  wa_expires_at : opt_within (- 2 ^ 63) (2 ^ 63 - 1) (TenantAdd.expires_at add);
  wa_max_depth : opt_within 0 (2 ^ 8 - 1) (TenantAdd.max_depth add);
  wa_operator : TenantAdd.class add <> TenantClass.Operator -> root_grant_flags add = false;
}.
Definition wf_serve (serve : Serve) : Prop :=
  plain (Serve.store serve) /\ plain (Serve.root_key serve) /\ plain (Serve.socket_dir serve) /\ Serve.fixture serve <> Some [].
Definition wf_command (c : Command) : Prop :=
  match c with
  | Command.Help | Command.Keygen _ => True
  | Command.Init store root_key => plain store /\ plain root_key
  | Command.TenantAdd add => wf_add add
  | Command.Serve serve => wf_serve serve
  end.

(** ** A well-formed command can be written *)
Definition opt {A : Type} (print : A -> str) (o : option A) : list str := match o with Some a => [print a] | None => [] end.
Definition add_blocks (add : TenantAdd) : list (str * list str) :=
  [(lit "--store", [TenantAdd.store add]); (lit "--root-key", [TenantAdd.root_key add]);
   (lit "--tenant", [write_ulid (TenantId_to_bytes (TenantAdd.tenant add))]);
   (lit "--class", [print_class (TenantAdd.class add)]);
   (lit "--verifying-key", [print_key (TenantAdd.verifying_key add)]);
   (lit "--uid", print_int <$> TenantAdd.uids add);
   (lit "--parent", opt (fun p => write_ulid (TenantId_to_bytes p)) (TenantAdd.parent add));
   (lit "--root-grant", opt (fun g => write_ulid (GrantId_to_bytes g)) (TenantAdd.root_grant add));
   (lit "--target", TenantAdd.targets add);
   (lit "--not-before", opt print_int (TenantAdd.not_before add));
   (lit "--expires-at", opt print_int (TenantAdd.expires_at add));
   (lit "--max-depth", opt print_int (TenantAdd.max_depth add))].
Definition serve_blocks (serve : Serve) : list (str * list str) :=
  [(lit "--store", [Serve.store serve]); (lit "--root-key", [Serve.root_key serve]);
   (lit "--socket-dir", [Serve.socket_dir serve]);
   (lit "--producer", opt (app (lit "fixture:")) (Serve.fixture serve))].
Definition init_blocks (store root_key : str) : list (str * list str) :=
  [(lit "--store", [store]); (lit "--root-key", [root_key])].
Definition print_command (c : Command) : list str :=
  match c with
  | Command.Help => []
  | Command.Keygen path => [lit "keygen"; path]
  | Command.Init store root_key => lit "init" :: words_of (flat (init_blocks store root_key))
  | Command.TenantAdd add => lit "tenant" :: lit "add" :: words_of (flat (add_blocks add))
  | Command.Serve serve => lit "serve" :: words_of (flat (serve_blocks serve))
  end.

Lemma single_ok repeatable f v : starts_with (lit "--") f = true -> plain v -> block_ok repeatable (f, [v]).
Proof. intros Hf Hv. split; [done|]. split; [by apply Forall_singleton|]. done. Qed.
Lemma opt_ok {A : Type} repeatable f (print : A -> str) o : starts_with (lit "--") f = true ->
  (forall a, o = Some a -> plain (print a)) -> block_ok repeatable (f, opt print o).
Proof. intros Hf Hp. destruct o; [by apply single_ok; auto|]. split; [done|]. split; [by apply Forall_nil|]. cbn. lia. Qed.
Lemma many_ok repeatable f l : starts_with (lit "--") f = true -> bool_decide (f ∈ repeatable) = true -> Forall plain l ->
  block_ok repeatable (f, l).
Proof. intros Hf Hr Hl. split; [done|]. split; [done|]. bool_simpl. done. Qed.
Lemma print_int_plain n : - 10 ^ 20 < n < 10 ^ 20 -> plain (print_int n).
Proof. intros Hn. eapply parse_int_plain, (parse_print_int n n); [lia|done]. Qed.
Lemma write_ulid_plain b : length b = 16%nat -> plain (write_ulid b).
Proof. intros Hb. eapply parse_ulid_plain, ulid_roundtrip, Hb. Qed.
Lemma print_key_plain key : length key = 32%nat -> plain (print_key key).
Proof. intros Hk. by apply parse_print_key, parse_key_Ok in Hk as [_ Hp]. Qed.
Lemma opt_within_plain lo hi o : opt_within lo hi o -> - 2 ^ 63 <= lo -> hi <= 2 ^ 63 -> forall n, o = Some n -> plain (print_int n).
Proof. intros Hr Hlo Hhi n Hn. apply print_int_plain. specialize (Hr n Hn). lia. Qed.

(** One flag of the blocks that [Hget] looks up. *)
Ltac got Hget i := by rewrite (Hget i _ _ eq_refl).
Lemma parse_init_print store root_key : plain store -> plain root_key ->
  parse (print_command (Command.Init store root_key)) = Ok (Command.Init store root_key).
Proof.
  intros Hs Hr. destruct (args_of_blocks [] (init_blocks store root_key)) as (args & Ha & Hget & Hall).
  { by apply (bool_decide_unpack _). }
  { repeat apply Forall_cons_2; [by apply single_ok..|by apply Forall_nil]. }
  cbn [print_command]. unfold parse. rewrite !decide_False by done. rewrite decide_True by done.
  rewrite Ha. cbn [mbind result_bind]. unfold read_init, path. change args with (left args []) at 1.
  erewrite read_bind by (apply read_required; [got Hget 0%nat|done]). erewrite read_bind by (apply read_required; [got Hget 1%nat|done]).
  erewrite read_bind by (apply read_finish; intros f Hf%Hall; cbn in *; set_solver). done.
Qed.
Lemma parse_serve_print serve : wf_serve serve -> parse (print_command (Command.Serve serve)) = Ok (Command.Serve serve).
Proof.
  intros (Hs & Hr & Hd & Hf). destruct (args_of_blocks [] (serve_blocks serve)) as (args & Ha & Hget & Hall).
  { by apply (bool_decide_unpack _). }
  { repeat apply Forall_cons_2; [by apply single_ok..|by apply opt_ok|by apply Forall_nil]. }
  cbn [print_command]. unfold parse. rewrite !decide_False by done. rewrite decide_True by done. unfold parse_serve.
  rewrite Ha. cbn [mbind result_bind]. unfold read_serve, path. change args with (left args []) at 1.
  erewrite read_bind by (apply read_required; [got Hget 0%nat|done]). erewrite read_bind by (apply read_required; [got Hget 1%nat|done]).
  erewrite read_bind by (apply read_required; [got Hget 2%nat|done]). erewrite read_bind by by apply read_optional.
  rewrite (Hget 3%nat _ _ eq_refl). destruct serve as [st rk sd [[|c script]|]]; cbn [Serve.fixture opt] in *; [done| |].
  all: unfold mbind at 1, Flags_bind at 1, flags_lift at 1; cbn [parse_producer option_bind mbind last].
  - rewrite decide_False, strip_prefix_app by done.
    erewrite read_bind by (apply read_finish; intros f Hx%Hall; cbn in *; set_solver). done.
  - erewrite read_bind by (apply read_finish; intros f Hx%Hall; cbn in *; set_solver). done.
Qed.
Lemma add_blocks_ok add : wf_add add -> Forall (block_ok [lit "--uid"; lit "--target"]) (add_blocks add).
Proof.
  intros [Hs Hr Ht Hk [_ Hu] Hp Hg Htg Hnb Hex Hmd _]. unfold add_blocks. repeat apply Forall_cons_2; [..|by apply Forall_nil].
  - by apply single_ok.
  - by apply single_ok.
  - by apply single_ok, write_ulid_plain.
  - apply single_ok; [done|]. by destruct (TenantAdd.class add).
  - by apply single_ok, print_key_plain.
  - apply many_ok; [done|done|]. apply Forall_fmap. eapply Forall_impl; [exact Hu|]. intros n Hn. apply print_int_plain. cbn in Hn. lia.
  - apply opt_ok; [done|]. intros p Hx. by apply write_ulid_plain, Hp.
  - apply opt_ok; [done|]. intros g Hx. by apply write_ulid_plain, Hg.
  - by apply many_ok.
  - apply opt_ok; [done|]. by eapply opt_within_plain.
  - apply opt_ok; [done|]. by eapply opt_within_plain.
  - apply opt_ok; [done|]. eapply opt_within_plain; [exact Hmd|lia|lia].
Qed.
(** What an optional block is read as. *)
Definition opt_pair {A : Type} (print : A -> str) (o : option A) : option (str * A) := (fun a => (print a, a)) <$> o.
Lemma opt_pair_get {A : Type} (print : A -> str) (o : option A) :
  match opt print o with [] => None | _ => Some (opt print o) end = (fun p => [p.1]) <$> opt_pair print o.
Proof. by destruct o. Qed.
Lemma opt_pair_snd {A : Type} (print : A -> str) (o : option A) : snd <$> opt_pair print o = o.
Proof. by destruct o. Qed.
Lemma opt_pair_parse {A : Type} (from_str : str -> option A) (print : A -> str) (o : option A) :
  (forall a, o = Some a -> from_str (print a) = Some a) -> forall text a, opt_pair print o = Some (text, a) -> from_str text = Some a.
Proof. intros Hp text a. destruct o; [|done]. cbn. intros [= <- <-]. by apply Hp. Qed.
Lemma parse_print_tenant t : length (TenantId_to_bytes t) = 16%nat -> parse_tenant_id (write_ulid (TenantId_to_bytes t)) = Some t.
Proof. intros Ht. unfold parse_tenant_id, TenantId_from_str. rewrite ulid_roundtrip by done. by destruct t. Qed.
Lemma parse_print_grant g : length (GrantId_to_bytes g) = 16%nat -> parse_grant_id (write_ulid (GrantId_to_bytes g)) = Some g.
Proof. intros Hg. unfold parse_grant_id. rewrite ulid_roundtrip by done. by destruct g. Qed.
Lemma parse_print_range lo hi o n : opt_within lo hi o -> - 2 ^ 63 <= lo -> hi <= 2 ^ 63 -> o = Some n -> parse_int lo hi (print_int n) = Some n.
Proof. intros Hr Hlo Hhi Hn. specialize (Hr n Hn). apply parse_print_int; lia. Qed.
Lemma read_opt_block {A : Type} args (from_str : str -> option A) (print : A -> str) ds flag (o : option A) :
  args !! flag = match opt print o with [] => None | _ => Some (opt print o) end ->
  (forall a, o = Some a -> from_str (print a) = Some a) -> bool_decide (flag ∈ ds) = false ->
  optional_parsed from_str flag (left args ds) = Ok (o, left args (flag :: ds)).
Proof.
  intros Ht Hp Hd. rewrite opt_pair_get in Ht.
  rewrite (read_optional_parsed args from_str ds flag (opt_pair print o) Ht (opt_pair_parse _ _ _ Hp) Hd). by rewrite opt_pair_snd.
Qed.
Lemma read_tenant_add_print add args : wf_add add ->
  (forall i f l, add_blocks add !! i = Some (f, l) -> args !! f = match l with [] => None | _ => Some l end) ->
  (forall f, is_Some (args !! f) -> f ∈ fst <$> add_blocks add) -> read_tenant_add args = Ok (add, ∅).
Proof.
  intros [Hs Hr Ht Hk [Hu0 Hu] Hp Hg Htg Hnb Hex Hmd _] Hget Hall. unfold read_tenant_add, path. change args with (left args []) at 1.
  erewrite read_bind by (apply read_required; [got Hget 0%nat|done]). erewrite read_bind by (apply read_required; [got Hget 1%nat|done]).
  erewrite read_bind by (apply (read_parsed _ _ _ _ _ _ (parse_print_tenant _ Ht)); [got Hget 2%nat|done]).
  erewrite read_bind by (apply read_required; [got Hget 3%nat|done]).
  erewrite read_bind by (unfold flags_lift; by rewrite parse_print_class).
  erewrite read_bind by (apply read_required; [got Hget 4%nat|done]).
  erewrite read_bind by (unfold flags_lift; by rewrite parse_print_key).
  erewrite read_bind.
  2: { apply (read_all_parsed _ _ _ _ (print_int <$> TenantAdd.uids add) (TenantAdd.uids add)); [| |done].
       - rewrite (Hget 5%nat _ _ eq_refl). by destruct (print_int <$> TenantAdd.uids add).
       - clear - Hu. induction Hu as [|n l Hn _ IH]; [constructor|]. constructor; [|done]. apply parse_print_int; lia. }
  erewrite read_bind by (apply (read_opt_block _ _ _ _ _ _ (Hget 6%nat _ _ eq_refl)); [intros; by apply parse_print_tenant, Hp|done]).
  erewrite read_bind by (apply (read_opt_block _ _ _ _ _ _ (Hget 7%nat _ _ eq_refl)); [intros; by apply parse_print_grant, Hg|done]).
  erewrite read_bind by by apply read_all.
  erewrite read_bind by (apply (read_opt_block _ _ _ _ _ _ (Hget 9%nat _ _ eq_refl)); [intros n Hn; apply (parse_print_range _ _ _ n Hnb); [lia|lia|done]|done]).
  erewrite read_bind by (apply (read_opt_block _ _ _ _ _ _ (Hget 10%nat _ _ eq_refl)); [intros n Hn; apply (parse_print_range _ _ _ n Hex); [lia|lia|done]|done]).
  erewrite read_bind by (apply (read_opt_block _ _ _ _ _ _ (Hget 11%nat _ _ eq_refl));
    [intros; eapply parse_print_range; [exact Hmd|lia|lia|done]|done]).
  erewrite read_bind by (apply read_finish; intros f Hx%Hall; cbn in *; set_solver).
  rewrite (Hget 8%nat _ _ eq_refl). unfold mret, Flags_ret. destruct add as [? ? ? ? ? ? ? ? targets ? ? ?]. cbn. by destruct targets.
Qed.
Lemma parse_tenant_add_print add : wf_add add -> parse (print_command (Command.TenantAdd add)) = Ok (Command.TenantAdd add).
Proof.
  intros Hw. destruct (args_of_blocks [lit "--uid"; lit "--target"] (add_blocks add)) as (args & Ha & Hget & Hall).
  { by apply (bool_decide_unpack (NoDup [lit "--store"; lit "--root-key"; lit "--tenant"; lit "--class"; lit "--verifying-key"; lit "--uid";
      lit "--parent"; lit "--root-grant"; lit "--target"; lit "--not-before"; lit "--expires-at"; lit "--max-depth"])). }
  { by apply add_blocks_ok. }
  cbn [print_command]. unfold parse. rewrite !decide_False by done. rewrite !decide_True by done. unfold parse_tenant_add.
  rewrite Ha. cbn [mbind result_bind]. rewrite (read_tenant_add_print add args Hw Hget Hall). cbn [mbind result_bind].
  destruct Hw as [_ _ _ _ [Hu _] _ _ _ _ _ _ Hop]. rewrite (bool_decide_eq_false_2 (TenantAdd.uids add = [])) by done.
  destruct (decide (TenantAdd.class add = TenantClass.Operator)) as [Hc|Hc].
  - rewrite (bool_decide_eq_false_2 (TenantAdd.class add <> TenantClass.Operator)) by (intros Hx; by apply Hx). done.
  - rewrite (Hop Hc). rewrite (bool_decide_eq_true_2 (TenantAdd.class add <> TenantClass.Operator)) by done. done.
Qed.

(** ** A command that is accepted is well formed *)

(** Reading returns what [Q] says, from flags whose values are plain, and
    fails only with a usage error. *)
Definition reads {A : Type} (m : Flags A) (Q : A -> Prop) : Prop := forall args, Clean args ->
  match m args with
  | Ok (a, args') => Clean args' /\ Q a
  | Err e => exists message, e = DaemonError.Usage message
  end.
Definition usage_or {A : Type} (r : result DaemonError A) (Q : A -> Prop) : Prop :=
  match r with Ok a => Q a | Err e => exists message, e = DaemonError.Usage message end.
Lemma reads_bind {A B : Type} (m : Flags A) (f : A -> Flags B) (P : A -> Prop) (Q : B -> Prop) :
  reads m P -> (forall a, P a -> reads (f a) Q) -> reads (m ≫= f) Q.
Proof.
  intros Hm Hf args Hc. specialize (Hm args Hc). unfold mbind, Flags_bind. destruct (m args) as [[a args']|e]; [|done].
  destruct Hm as [Hc' HP]. by apply Hf.
Qed.
Lemma reads_ret {A : Type} (a : A) (Q : A -> Prop) : Q a -> reads (mret a) Q.
Proof. by intros HQ args Hc. Qed.
Lemma reads_lift {A : Type} (r : result DaemonError A) (Q : A -> Prop) : usage_or r Q -> reads (flags_lift r) Q.
Proof. intros Hr args Hc. unfold flags_lift. by destruct r. Qed.
Lemma Clean_delete f args : Clean args -> Clean (delete f args).
Proof. intros Hc g l [_ Hl]%lookup_delete_Some. by eapply Hc. Qed.
Lemma reads_optional f : reads (optional f) (fun o => forall text, o = Some text -> plain text).
Proof.
  intros args Hc. split; [by apply Clean_delete|]. intros text (l & Hl & Ht)%bind_Some. apply Hc in Hl. rewrite Forall_forall in Hl.
  apply Hl, last_Some_elem_of, Ht.
Qed.
Lemma reads_all f : reads (all f) (Forall plain).
Proof. intros args Hc. split; [by apply Clean_delete|]. destruct (args !! f) eqn:Hl; [by apply (Hc f)|by apply Forall_nil]. Qed.
Lemma reads_required f : reads (required f) plain.
Proof.
  eapply reads_bind; [apply reads_optional|]. intros [text|] Ht; [by apply reads_ret, Ht|]. apply reads_lift. by eexists.
Qed.
Lemma parse_value_usage {A : Type} (from_str : str -> option A) f text : usage_or (parse_value from_str f text) (fun a => from_str text = Some a).
Proof. unfold parse_value. destruct (from_str text) eqn:Ht; [done|]. by eexists. Qed.
Lemma usage_or_weaken {A : Type} (r : result DaemonError A) (P Q : A -> Prop) : (forall a, P a -> Q a) -> usage_or r P -> usage_or r Q.
Proof. destruct r; cbn; auto. Qed.
Lemma reads_parsed {A : Type} (from_str : str -> option A) f (Q : A -> Prop) :
  (forall text a, from_str text = Some a -> Q a) -> reads (parsed from_str f) Q.
Proof.
  intros HQ. eapply reads_bind; [apply reads_required|]. intros text _. apply reads_lift.
  eapply usage_or_weaken; [|apply parse_value_usage]. apply HQ.
Qed.
Lemma reads_optional_parsed {A : Type} (from_str : str -> option A) f (Q : A -> Prop) :
  (forall text a, from_str text = Some a -> Q a) -> reads (optional_parsed from_str f) (fun o => forall a, o = Some a -> Q a).
Proof.
  intros HQ. eapply reads_bind; [apply reads_optional|]. intros [text|] _; [|by apply reads_ret].
  eapply reads_bind; [apply reads_lift, parse_value_usage|]. intros a Ha. apply reads_ret. intros a' [= <-]. eapply HQ, Ha.
Qed.
Lemma reads_all_parsed {A : Type} (from_str : str -> option A) f (Q : A -> Prop) :
  (forall text a, from_str text = Some a -> Q a) -> reads (all_parsed from_str f) (Forall Q).
Proof.
  intros HQ. eapply reads_bind; [apply reads_all|]. intros texts _. apply reads_lift.
  induction texts as [|text texts IH]; [by apply Forall_nil|]. cbn. pose proof (parse_value_usage from_str f text) as Hv.
  destruct (parse_value from_str f text) as [a|e]; [|exact Hv]. cbn. destruct (parse_values from_str f texts) as [l|e]; [|exact IH]. cbn.
  constructor; [by eapply HQ|done].
Qed.
Lemma reads_finish : reads finish (fun _ => True).
Proof. intros args Hc. unfold finish. destruct (first_key args); [by eexists|done]. Qed.
Lemma args_parse_usage words repeatable : usage_or (args_parse words repeatable) Clean.
Proof.
  unfold args_parse. destruct (args_from repeatable ∅ words) as [args|e] eqn:Ha.
  - eapply args_from_clean; [reflexivity|exact Ha|]. by intros f l ?%lookup_empty_Some.
  - revert Ha. generalize (∅ : Args) as values. assert (exists n, (length words <= n)%nat) as [n Hn] by eauto. revert words Hn.
    induction n as [|n IH]; intros words Hn values; (destruct words as [|flag words]; [done|]); cbn in Hn; [lia|]. cbn [args_from].
    destruct (negb _); [intros [= <-]; by eexists|]. destruct words as [|value words]; [intros [= <-]; by eexists|].
    destruct (starts_with _ value); [intros [= <-]; by eexists|]. destruct (_ && _); [intros [= <-]; by eexists|].
    apply IH. cbn in Hn. lia.
Qed.
Lemma parse_class_usage text : usage_or (parse_class text) (fun _ => True).
Proof. unfold parse_class. repeat case_decide; cbn; eauto. Qed.
Lemma parse_key_usage text : usage_or (parse_key text) (fun key => length key = 32%nat).
Proof.
  destruct (parse_key text) as [key|e] eqn:Hk; [by apply parse_key_Ok in Hk as [? _]|]. unfold parse_key, bad_key, usage in Hk. cbn.
  destruct (_ || _); [injection Hk as <-; eauto|]. destruct (key_bytes text); [done|]. injection Hk as <-. eauto.
Qed.
Lemma parse_producer_usage o : usage_or (parse_producer o) (fun fixture => fixture <> Some []).
Proof.
  destruct o as [text|]; [|done]. unfold parse_producer. case_decide; [done|].
  destruct (strip_prefix _ text) as [[|c script]|]; cbn; eauto.
Qed.
Lemma parse_tenant_id_len text t : parse_tenant_id text = Some t -> length (TenantId_to_bytes t) = 16%nat.
Proof. intros Ht%parse_tenant_id_Some. by eapply parse_ulid_len. Qed.
Lemma parse_grant_id_len text g : parse_grant_id text = Some g -> length (GrantId_to_bytes g) = 16%nat.
Proof. intros Hg%parse_grant_id_Some. by eapply parse_ulid_len. Qed.
(** Everything [wf_add] asks but the two checks that come last. *)
Definition read_add (add : TenantAdd) : Prop :=
  (TenantAdd.class add <> TenantClass.Operator -> root_grant_flags add = false) -> TenantAdd.uids add <> [] -> wf_add add.
Lemma reads_tenant_add : reads read_tenant_add read_add.
Proof.
  unfold read_tenant_add, path.
  eapply reads_bind; [apply reads_required|]. intros store Hs. eapply reads_bind; [apply reads_required|]. intros root_key Hr.
  eapply reads_bind; [apply reads_parsed, parse_tenant_id_len|]. intros tenant Ht.
  eapply reads_bind; [apply reads_required|]. intros ct _. eapply reads_bind; [apply reads_lift, parse_class_usage|]. intros class _.
  eapply reads_bind; [apply reads_required|]. intros kt _. eapply reads_bind; [apply reads_lift, parse_key_usage|]. intros key Hk.
  eapply reads_bind; [apply reads_all_parsed, parse_int_range|]. intros uids Hu.
  eapply reads_bind; [apply reads_optional_parsed, parse_tenant_id_len|]. intros parent Hp.
  eapply reads_bind; [apply reads_optional_parsed, parse_grant_id_len|]. intros grant Hg.
  eapply reads_bind; [apply reads_all|]. intros targets Htg.
  eapply reads_bind; [apply reads_optional_parsed, parse_int_range|]. intros nb Hnb.
  eapply reads_bind; [apply reads_optional_parsed, parse_int_range|]. intros ex Hex.
  eapply reads_bind; [apply reads_optional_parsed, parse_int_range|]. intros md Hmd.
  eapply reads_bind; [apply reads_finish|]. intros [] _. apply reads_ret. intros Hop Hne. by split.
Qed.
Lemma parse_tenant_add_usage flags : usage_or (parse_tenant_add flags) wf_add.
Proof.
  unfold parse_tenant_add. pose proof (args_parse_usage flags [lit "--uid"; lit "--target"]) as Ha.
  destruct (args_parse flags _) as [args|e]; [|exact Ha]. cbn [mbind result_bind]. pose proof (reads_tenant_add args Ha) as Hr.
  destruct (read_tenant_add args) as [[add args']|e]; [|exact Hr]. cbn [mbind result_bind]. destruct Hr as [_ Hr].
  destruct (bool_decide (TenantAdd.class add <> TenantClass.Operator) && root_grant_flags add) eqn:Hop; [by eexists|].
  destruct (bool_decide (TenantAdd.uids add = [])) eqn:Hu; [by eexists|]. apply bool_decide_eq_false in Hu. apply Hr; [|done].
  intros Hc. rewrite (bool_decide_eq_true_2 (TenantAdd.class add <> TenantClass.Operator)) in Hop by done. exact Hop.
Qed.
Lemma reads_serve : reads read_serve wf_serve.
Proof.
  unfold read_serve, path.
  eapply reads_bind; [apply reads_required|]. intros store Hs. eapply reads_bind; [apply reads_required|]. intros root_key Hr.
  eapply reads_bind; [apply reads_required|]. intros dir Hd. eapply reads_bind; [apply reads_optional|]. intros producer _.
  eapply reads_bind; [apply reads_lift, parse_producer_usage|]. intros fixture Hf.
  eapply reads_bind; [apply reads_finish|]. intros [] _. by apply reads_ret.
Qed.
Lemma reads_init : reads read_init wf_command.
Proof.
  unfold read_init, path.
  eapply reads_bind; [apply reads_required|]. intros store Hs. eapply reads_bind; [apply reads_required|]. intros root_key Hr.
  eapply reads_bind; [apply reads_finish|]. intros [] _. by apply reads_ret.
Qed.
Lemma parse_flags_usage {A : Type} (m : Flags A) (Q : A -> Prop) words : reads m Q ->
  usage_or (args ← args_parse words []; fst <$> m args) Q.
Proof.
  intros Hm. pose proof (args_parse_usage words []) as Ha. destruct (args_parse words []) as [args|e]; [|exact Ha]. cbn.
  specialize (Hm args Ha). destruct (m args) as [[a args']|e]; [apply Hm|exact Hm].
Qed.
Lemma usage_or_fmap {A B : Type} (f : A -> B) (r : result DaemonError A) (Q : B -> Prop) :
  usage_or r (fun a => Q (f a)) -> usage_or (f <$> r) Q.
Proof. by destruct r. Qed.
Lemma parse_usage words : usage_or (parse words) wf_command.
Proof.
  destruct words as [|command rest]; [done|]. unfold parse. assert (forall A Q message, @usage_or A (usage message) Q) as Hu by (by eexists).
  destruct (_ && _); [done|]. case_decide; [destruct rest as [|path []]; [apply Hu|done|apply Hu]|].
  case_decide; [apply parse_flags_usage, reads_init|].
  case_decide; [destruct rest as [|sub flags]; [apply Hu|]; case_decide; [|apply Hu]; apply usage_or_fmap, parse_tenant_add_usage|].
  case_decide; [apply usage_or_fmap, parse_flags_usage, reads_serve|apply Hu].
Qed.

(** C37. The command line accepts exactly the well-formed commands: each of
    them can be written, and its written form reads back as the same command;
    and whatever the words, the answer is a well-formed command (every
    number within its type, every identifier 16 bytes and every key 32, at
    least one user id, root-grant flags for an operator only) or a usage
    error, never another error. *)
Theorem command_line_exact :
  (forall c, wf_command c -> parse (print_command c) = Ok c) /\
  (forall words, match parse words with
                 | Ok c => wf_command c
                 | Err e => exists message, e = DaemonError.Usage message
                 end).
Proof.
  split; [|apply parse_usage]. intros [|path|store root_key|add|serve]; cbn [wf_command].
  - done.
  - done.
  - intros [Hs Hr]. by apply parse_init_print.
  - apply parse_tenant_add_print.
  - apply parse_serve_print.
Qed.
