(* ===== verification/CliRun.v ===== *)
(** * Running the commands ([dioptron::cli::run])

    [Keygen] and [Init] over the key's file and the store's directory, and
    [tenant add] over the opened store. *)
From S2P Require Import Prelude Vocab Ids Payload Wire Epitrope Origin View Chain Issue Decision Revoke Lifecycle.
From S2P Require Import Records Store Seal RecordKey StoreAudit Invocation Directory Invariant StoreRun Custody Daemon.
From S2P Require Import Keys Disk Proc StoreDir StoreDirGuarantees KeyFile Cli CliGuarantees.
Local Open Scope Z_scope.

(** ** Keys and stores *)

(** What the commands act on: the root key's path and the directory the store
    is in. *)
Module Host.
Record Host : Type := mk { key : Entry; dirs : Fs }.
End Host.
Abbreviation Host := Host.Host.
Definition on_key {A : Type} (m : Proc Entry StoreError A) : Proc Host DaemonError A := fun h i =>
  let '(r, key, i) := m (Host.key h) i in (map_err DaemonError.Store <$> r, Host.mk key (Host.dirs h), i).
Definition on_dirs {A : Type} (m : Proc Fs StoreError A) : Proc Host DaemonError A := fun h i =>
  let '(r, dirs, i) := m (Host.dirs h) i in (map_err DaemonError.Store <$> r, Host.mk (Host.key h) dirs, i).

Section host.
Context `{Holder} `{Kdf} `{Entropy}.

(** [Command::Keygen] and [Command::Init] of [run], and [cli::open_store]. *)
Definition run_keygen (draws : nat) : Proc Host DaemonError unit :=
  _ ← on_key (generate draws); mret tt.
Definition run_init (store : str) (draws : nat) : Proc Host DaemonError unit :=
  root ← on_key load;
  _ ← on_dirs (create store root draws);
  mret tt.
Definition cli_open_store (store : str) : Proc Host DaemonError StoreKeys :=
  root ← on_key load;
  on_dirs (open_store store root).
End host.

(** ** [tenant add] *)

Definition DEFAULT_LIFETIME_MS : Z := 365 * 24 * 60 * 60 * 1000.
Definition DEFAULT_MAX_DEPTH : Z := 8.

(** [RootGrant::new] and [TenantRegistration::new]. *)
Definition root_grant_new (id : GrantId) (holder : TenantId) (capabilities : gset Capability)
    (target_scope : list str) (validity : Timestamp * Timestamp) (max_depth : Z) : RootGrant :=
  RootGrant.mk id holder capabilities SessionScope.Own target_scope AuditScope.OwnAndOwnedSessions
    ceilings_default (fst validity) (snd validity) max_depth.
Definition registration_new (id : TenantId) (class : TenantClass) (verifying_key : bytes) : TenantRegistration :=
  TenantRegistration.mk id class verifying_key [] None ceilings_default.

Definition registration_of (add : TenantAdd) : TenantRegistration :=
  let r := registration_new (TenantAdd.tenant add) (TenantAdd.class add) (TenantAdd.verifying_key add) in
  TenantRegistration.mk (TenantRegistration.id r) (TenantRegistration.class r) (TenantRegistration.verifying_key r)
    (TenantAdd.uids add) (TenantAdd.parent add) (TenantRegistration.ceilings r).
(** The root grant [tenant_add] installs under the id [grant] at [now]. *)
Definition root_of (add : TenantAdd) (grant : GrantId) (now : Timestamp) : RootGrant :=
  let targets := match TenantAdd.targets add with [] => [lit "*"] | targets => targets end in
  let not_before := default now (TenantAdd.not_before add) in
  let validity := (not_before, default (saturating_add (2 ^ 63 - 1) not_before DEFAULT_LIFETIME_MS) (TenantAdd.expires_at add)) in
  let r := root_grant_new grant (TenantAdd.tenant add) (list_to_set enum_all) targets validity
    (default DEFAULT_MAX_DEPTH (TenantAdd.max_depth add)) in
  RootGrant.mk (RootGrant.id r) (RootGrant.holder r) (RootGrant.capabilities r) (RootGrant.session_scope r)
    (RootGrant.target_scope r) (default_audit_scope (TenantAdd.class add)) (RootGrant.ceilings r)
    (RootGrant.not_before r) (RootGrant.expires_at r) (RootGrant.max_depth r).

(** The id of the grant: the one asked for, or one drawn at [stamp]. *)
Definition root_grant_id (stamp : Timestamp) (random : option bytes) (add : TenantAdd) : result DaemonError GrantId :=
  match TenantAdd.root_grant add with
  | Some grant => Ok grant
  | None =>
      match random with
      | Some random => Ok (GrantId_from_bytes (fresh_id stamp random))
      | None => Err DaemonError.RandomSource
      end
  end.
(** [tenant_add] on the opened store: [registered], [now] and [stamp] are the
    clock's readings in the order the code takes them, [random] is the random
    source's answer. *)
Definition tenant_add (fp : Failpoint) (registered now stamp : Timestamp) (random : option bytes)
    (add : TenantAdd) (db : Db) : result DaemonError unit * Db :=
  match register_tenant fp registered db (registration_of add) with
  | (Err e, db) => (Err (DaemonError.Store e), db)
  | (Ok _, db) =>
      if bool_decide (TenantAdd.class add <> TenantClass.Operator) then (Ok tt, db)
      else
        match root_grant_id stamp random add with
        | Err e => (Err e, db)
        | Ok grant =>
            let '(r, db) := install_root_grant fp db (root_of add grant now) in
            (map_err DaemonError.Store r, db)
        end
  end.

(** ** What they guarantee *)
Section tenants.
Context `{Hashes}.

Lemma register_tenant_Ok fp now db registration db' :
  register_tenant fp now db registration = (Ok tt, db') ->
  Db.grants db' = Db.grants db /\ Db.revocations db' = Db.revocations db /\
  exists rec, Db.tenants db' !! TenantRegistration.id registration = Some rec /\ same_identity rec registration = true.
Proof using Type.
  intros Hr%with_tx_Ok. unfold register_tenant_tx in Hr.
  destruct (Db.tenants db !! TenantRegistration.id registration) as [existing|] eqn:Ht.
  - destruct Hr as [[Hr ->]|[b Hr]]; apply bind_Ok in Hr as ([] & He%ensure_Ok & Hr); [|done]. eauto.
  - destruct Hr as [[Hr ->]|[b Hr]]; apply bind_Ok in Hr as ([] & _ & Hr); apply bind_Ok in Hr as ([] & _ & Hr); [done|].
    injection Hr as _ <-. split; [done|]. split; [done|]. eexists. cbn. rewrite lookup_insert_eq. split; [done|].
    unfold same_identity. cbn. by rewrite !bool_decide_eq_true_2.
Qed.
(** The grant a root grant is. *)
Definition root_leaf (root : RootGrant) (scope : TargetScope) : Grant :=
  Grant.mk (RootGrant.id root) (RootGrant.holder root) (RootGrant.holder root) (RootGrant.capabilities root)
    (RootGrant.session_scope root) scope (RootGrant.audit_scope root) (RootGrant.ceilings root)
    (RootGrant.not_before root) (RootGrant.expires_at root) None 0 (RootGrant.max_depth root).
Lemma install_root_grant_Ok fp db root db' :
  install_root_grant fp db root = (Ok tt, db') ->
  Db.revocations db' = Db.revocations db /\ Db.tenants db' = Db.tenants db /\
  (forall g, g <> RootGrant.id root -> Db.grants db' !! g = Db.grants db !! g) /\
  exists scope, scope_parse (V := StoreError) (RootGrant.target_scope root) = Ok scope /\
    view_grant db' (RootGrant.id root) = Ok (Some (root_leaf root scope)).
Proof using Type.
  intros Hr%with_tx_Ok. unfold install_root_grant_tx, root_to_grant in Hr.
  destruct (scope_parse (RootGrant.target_scope root)) as [scope|e] eqn:Hs; [|by destruct Hr as [[? _]|[? ?]]].
  cbn [map_err mbind result_bind] in Hr. fold (root_leaf root scope) in Hr. set (leaf := root_leaf root scope) in *.
  assert (grant_of_record (Some (from_grant leaf (RootGrant.target_scope root))) = Ok (Some leaf)) as Hg.
  { cbn [grant_of_record]. by rewrite grant_record_roundtrip. }
  assert (exists db1 staged, put_new_grant db (from_grant leaf (RootGrant.target_scope root)) = Ok (staged, db1) /\
    ((staged = false /\ db' = db) \/ (staged = true /\ db' = db1))) as (db1 & staged & Hp & Hd).
  { destruct Hr as [[Hr ->]|[b Hr]]; apply bind_Ok in Hr as ([] & _ & Hr); apply bind_Ok in Hr as ([[] db1] & Hp & Hr); try done;
      exists db1; eexists; (split; [exact Hp|]); [by left|right]. injection Hr as _ <-. done. }
  unfold put_new_grant in Hp. destruct (Db.grants db !! GrantRecord.id _) as [existing|] eqn:He.
  - apply bind_Ok in Hp as ([] & Hx%ensure_Ok & [= <- <-]). apply bool_decide_eq_true in Hx. subst existing.
    destruct Hd as [[_ ->]|[? _]]; [|done]. split_and!; [done|done|done|]. exists scope. split; [done|].
    cbn [view_grant Db_GrantView]. change (RootGrant.id root) with (GrantRecord.id (from_grant leaf (RootGrant.target_scope root))). by rewrite He.
  - injection Hp as <- <-. destruct Hd as [[? _]|[_ ->]]; [done|]. split_and!; [done|done| |].
    + intros g Hg'. cbn. by rewrite lookup_insert_ne.
    + exists scope. split; [done|]. cbn [view_grant Db_GrantView set_grants Db.grants].
      change (RootGrant.id root) with (GrantRecord.id (from_grant leaf (RootGrant.target_scope root))). by rewrite lookup_insert_eq.
Qed.

(** What [tenant add] leaves in the store. When it succeeds, the store
    keeps its invariant and holds the tenant as it was asked for; for an
    agent no grant is touched; for an operator one grant is installed and no
    other touched, and until it is revoked that grant is by itself a chain
    that designates every capability to the operator throughout its validity,
    with the audit scope [All]. *)
Theorem tenant_add_bootstraps (fp : Failpoint) (registered now stamp : Timestamp) (random : option bytes)
    (add : TenantAdd) (db db' : Db) :
  Inv db -> wf_add add -> tenant_add fp registered now stamp random add db = (Ok tt, db') ->
  Inv db' /\
  (exists rec, Db.tenants db' !! TenantAdd.tenant add = Some rec /\ same_identity rec (registration_of add) = true) /\
  (TenantAdd.class add <> TenantClass.Operator -> Db.grants db' = Db.grants db) /\
  (TenantAdd.class add = TenantClass.Operator -> exists grant scope,
     let root := root_of add grant now in
     (forall g, TenantAdd.root_grant add = Some g -> grant = g) /\
     (forall g, g <> grant -> Db.grants db' !! g = Db.grants db !! g) /\
     RootGrant.audit_scope root = AuditScope.All /\
     forall capability t, Db.revocations db !! grant = None ->
       RootGrant.not_before root <= t < RootGrant.expires_at root ->
       designated_chain db' (TenantAdd.tenant add) grant capability t = Ok (Ok [root_leaf root scope])).
Proof using Type.
  intros HI Hwf. unfold tenant_add. destruct (register_tenant fp registered db (registration_of add)) as [[[]|e] db1] eqn:Hreg; [|done].
  pose proof (register_tenant_Inv fp registered db (registration_of add) HI) as HI1. rewrite Hreg in HI1. cbn in HI1.
  apply register_tenant_Ok in Hreg as (Hg & Hrv & rec & Hrec & Hid). change (TenantRegistration.id _) with (TenantAdd.tenant add) in Hrec.
  case_bool_decide as Hc; [intros [= <-]; split_and!; eauto; intros ?; done|].
  destruct (root_grant_id stamp random add) as [grant|e] eqn:Hgr; [|done].
  destruct (install_root_grant fp db1 (root_of add grant now)) as [[[]|e] db2] eqn:Hins; [|done]. intros [= <-].
  assert (in_range u8_max (RootGrant.max_depth (root_of add grant now))) as Hmax.
  { pose proof (wa_max_depth _ Hwf) as Hm. cbn. destruct (TenantAdd.max_depth add) as [n|]; [|by vm_compute].
    specialize (Hm n eq_refl). unfold in_range, u8_max. cbn in *. lia. }
  pose proof (install_root_grant_Inv fp db1 _ HI1 Hmax) as HI2. rewrite Hins in HI2. cbn in HI2.
  apply install_root_grant_Ok in Hins as (Hrv2 & Ht2 & Hoth & scope & Hs & Hv).
  split; [done|]. split; [rewrite Ht2; eauto|]. split; [done|]. intros _. exists grant, scope. cbv zeta. split_and!.
  - intros g Hx. unfold root_grant_id in Hgr. rewrite Hx in Hgr. congruence.
  - intros g Hne. rewrite Hoth by done. by rewrite Hg.
  - cbn. by rewrite Hc.
  - intros cap t Hnr Hval. apply designated_chain_Ok; [apply Inv_view_u8, HI2|]. eexists. split; [exact Hv|].
    split_and!; [done|done|by apply Linked_root| |].
    + apply Forall_singleton. split; [|exact Hval]. cbn [view_revocation Db_GrantView root_leaf Grant.id].
      change (RootGrant.id _) with grant. by rewrite Hrv2, Hrv, Hnr.
    + apply Forall_singleton. apply elem_of_list_to_set, list_elem_of_In, enum_complete.
Qed.
End tenants.

(** ** From nothing to an open store *)
Section bootstrap.
Context `{KL : KdfLaws} `{Entropy}.

Lemma on_key_Ok {A : Type} (m : Proc Entry StoreError A) h i a h' j :
  on_key m h i = (Some (Ok a), h', j) <->
  exists key, m (Host.key h) i = (Some (Ok a), key, j) /\ h' = Host.mk key (Host.dirs h).
Proof using Type.
  unfold on_key. destruct (m (Host.key h) i) as [[[[x|e]|] key] k]; cbn; split.
  - intros [= -> <- ->]. by exists key.
  - by intros (key' & [= -> -> ->] & ->).
  - done.
  - by intros (key' & ? & _).
  - done.
  - by intros (key' & ? & _).
Qed.
Lemma on_dirs_Ok {A : Type} (m : Proc Fs StoreError A) h i a h' j :
  on_dirs m h i = (Some (Ok a), h', j) <->
  exists dirs, m (Host.dirs h) i = (Some (Ok a), dirs, j) /\ h' = Host.mk (Host.key h) dirs.
Proof using Type.
  unfold on_dirs. destruct (m (Host.dirs h) i) as [[[[x|e]|] dirs] k]; cbn; split.
  - intros [= -> <- ->]. by exists dirs.
  - by intros (dirs' & [= -> -> ->] & ->).
  - done.
  - by intros (dirs' & ? & _).
  - done.
  - by intros (dirs' & ? & _).
Qed.
(** A process whose opened files stay as they are and whose calls succeed. *)
Definition undisturbed (h : Holder) : Prop := quiet h /\ @holder_env h = calm.

Lemma create_finished (h : Holder) name root salt keys check fs i draws k fs' j :
  length salt = 32%nat -> fill draws 32 = Some salt ->
  store_derive root INITIAL_ROOT_KEY_ID salt = Ok keys -> key_check keys = Ok check ->
  fs !! name = None \/ fs !! name = Some Node.Empty ->
  @create (@holder_env h) _ _ name root draws fs i = (Some (Ok k), fs', j) ->
  k = keys /\ framed name fs fs' /\ finished name salt check fs'.
Proof using KL.
  intros Hl Hf Hk Hc Hn Hcr. assert (fst (salt_generate draws) = Ok salt) as Hd.
  { unfold salt_generate, random_array. cbn [fst]. by rewrite Hf, Hl. }
  pose proof (@create_hold (@holder_env h) _ _ _ name root salt keys check fs Hl Hk Hc draws Hd fs i) as Hh.
  rewrite Hcr in Hh. apply Hh. by split.
Qed.
Lemma opened_finished name root salt keys check fs0 fs : framed name fs0 fs -> finished name salt check fs ->
  fs0 !! staging_name name <> Some Node.File ->
  store_derive root INITIAL_ROOT_KEY_ID salt = Ok keys -> key_check keys = Ok check ->
  forall i, (@open_store calm _ name root fs i).1.1 = Some (Ok keys).
Proof using Type.
  intros Hfr (d & w & Hd & Hcomp & Hm) Hs Hk Hc i.
  rewrite (calm_open_store name root fs d w _ i Hd Hcomp Hm) by (rewrite Hfr by apply staging_ne; done).
  cbn [Meta.root_key_id Meta.salt Meta.check].
  by rewrite (store_unlock_spec _ _ _ _ _ _ Hk Hc), bool_decide_eq_true_2.
Qed.

(** C30. From nothing to an open store. With no file at the key's path and no
    store in the directory, [keygen] then [init], in any environment in which
    they both return, leave a key file and a store that open together: the
    key loads back and unlocks the store under the keys derived from the key
    that was drawn, and nothing else in the directory has changed. *)
Theorem bootstrap_opens (h : Holder) (name : str) (draws draws' i : nat) (key salt : bytes) (fs : Fs) (host : Host) (j : nat) :
  quiet h -> fill draws 32 = Some key -> length key = 32%nat -> fill draws' 32 = Some salt -> length salt = 32%nat ->
  fs !! name = None \/ fs !! name = Some Node.Empty -> fs !! staging_name name <> Some Node.File ->
  (_ ← @run_keygen h _ draws; @run_init h _ _ name draws') (Host.mk Entry.Absent fs) i = (Some (Ok tt), host, j) ->
  exists keys, store_derive key INITIAL_ROOT_KEY_ID salt = Ok keys /\
  (forall n, n <> name -> Host.dirs host !! n = fs !! n) /\
  forall (h' : Holder) l, undisturbed h' -> @euid h' = @euid h ->
    (@cli_open_store h' _ name host l).1.1 = Some (Ok keys).
Proof using KL.
  intros Hq Hf Hl Hf' Hl' Hn Hst (u & h1 & k1 & Hgen & Hinit)%proc_bind_Ok.
  apply proc_bind_Ok in Hgen as (drawn & h2 & k2 & (e1 & Hgen & ->)%on_key_Ok & (_ & -> & ->)%proc_ret_Ok). cbn [Host.key Host.dirs] in *.
  assert (fst (random_array (Z.to_nat ROOT_KEY_LEN) draws) = Ok key) as Hd.
  { unfold random_array. change (Z.to_nat ROOT_KEY_LEN) with 32%nat. by rewrite Hf, Hl. }
  pose proof (@generate_hold h _ draws key Hd _ i eq_refl) as Hw. rewrite Hgen in Hw. destruct Hw as [-> Hw].
  apply proc_bind_Ok in Hinit as (root & h3 & k3 & (e2 & Hload & ->)%on_key_Ok & Hinit). cbn [Host.key Host.dirs] in *.
  assert (root = key) as -> by (eapply (load_leftover h h); [exact Hl|by apply whole_leftover|exact Hq|exact Hload]).
  apply load_Ok in Hload as (_ & -> & _).
  apply proc_bind_Ok in Hinit as (k & h4 & k4 & (dirs & Hcr & ->)%on_dirs_Ok & (_ & -> & _)%proc_ret_Ok). cbn [Host.key Host.dirs] in *.
  destruct (store_derive_Ok key INITIAL_ROOT_KEY_ID salt) as (keys & Hk & _), (key_check_Ok keys) as (check & Hc & _).
  apply (create_finished h name key salt keys check fs _ draws') in Hcr as (-> & Hfr & Hfin); [|done..].
  exists keys. split; [done|]. split; [exact Hfr|]. intros h' l [Hq' Henv] He. unfold cli_open_store, mbind, Proc_bind, on_key. cbn [Host.key Host.dirs].
  rewrite (load_whole h h' key e1 l Hl Hw Hq' He) by (rewrite Henv; done). cbn [map_err fmap option_fmap option_map].
  unfold on_dirs. cbn [Host.dirs]. rewrite Henv.
  pose proof (opened_finished name key salt keys check fs dirs Hfr Hfin Hst Hk Hc (l + 4)%nat) as Hop.
  destruct (@open_store calm _ name key dirs (l + 4)%nat) as [[r d'] n]. cbn in Hop |- *. by rewrite Hop.
Qed.
End bootstrap.
