(* ===== verification/Fixture.v ===== *)
(** * The scripted producer ([dioptron::fixture])

    A script file names, line by line, what the producer answers for each
    target. The files are a parameter: what reading a path gives. *)
From S2P Require Import Prelude Vocab Ids Payload Wire Epitrope Origin Store Daemon Cli.
Local Open Scope Z_scope.

(** ** Text *)

(** [String::from_utf8]: whether the bytes are well-formed UTF-8. *)
Definition continues (lo hi : Z) (b : byte) : bool := (lo <=? b2z b) && (b2z b <=? hi).
Fixpoint valid_utf8 (text : bytes) : bool :=
  match text with
  | [] => true
  | a :: text =>
      let x := b2z a in
      if x <? 128 then valid_utf8 text
      else if x <? 194 then false
      else match text with
           | [] => false
           | b :: text =>
               if x <? 224 then continues 128 191 b && valid_utf8 text
               else match text with
                    | [] => false
                    | c :: text =>
                        if x <? 240 then
                          continues (if x =? 224 then 160 else 128) (if x =? 237 then 159 else 191) b
                          && continues 128 191 c && valid_utf8 text
                        else match text with
                             | [] => false
                             | d :: text =>
                                 (x <? 245)
                                 && continues (if x =? 240 then 144 else 128) (if x =? 244 then 143 else 191) b
                                 && continues 128 191 c && continues 128 191 d && valid_utf8 text
                             end
                    end
           end
  end.
(** The white space of Unicode that UTF-8 encodes in one, two and three
    bytes. *)
Definition space1 (a : byte) : bool := continues 9 13 a || (b2z a =? 32).
Definition space2 (a b : byte) : bool := (b2z a =? 194) && ((b2z b =? 133) || (b2z b =? 160)).
Definition space3 (a b c : byte) : bool :=
  let '(x, y, z) := (b2z a, b2z b, b2z c) in
  ((x =? 225) && (y =? 154) && (z =? 128))
  || ((x =? 226) && (y =? 128) && (continues 128 138 c || (z =? 168) || (z =? 169) || (z =? 175)))
  || ((x =? 226) && (y =? 129) && (z =? 159))
  || ((x =? 227) && (y =? 128) && (z =? 128)).
(** [str::trim_start], and [str::trim().is_empty()]: nothing but white
    space. *)
Fixpoint trim_start (text : str) : str :=
  match text with
  | [] => []
  | a :: rest =>
      if space1 a then trim_start rest
      else match rest with
           | [] => text
           | b :: rest =>
               if space2 a b then trim_start rest
               else match rest with
                    | [] => text
                    | c :: rest => if space3 a b c then trim_start rest else text
                    end
           end
  end.
Definition blank (text : str) : bool := match trim_start text with [] => true | _ => false end.
(** [str::trim_end], at the first place from which all is white space, and
    [str::trim]. *)
Fixpoint trim_end (text : str) : str :=
  if blank text then [] else match text with [] => [] | c :: text => c :: trim_end text end.
Definition trim (text : str) : str := trim_end (trim_start text).
(** [str::lines]: ends at newlines, each with an optional carriage return; a
    final newline ends the last line. *)
Definition strip_cr (line : str) : str :=
  match last line with
  | Some c => if decide (c = "013"%byte) then removelast line else line
  | None => line
  end.
Definition lines (text : str) : list str :=
  let pieces := split_on "010" text in
  let ended := removelast pieces in
  (strip_cr <$> ended) ++ match last pieces with Some (c :: l) => [c :: l] | _ => [] end.

(** ** Scripts *)
Module Script.
Inductive Script : Set :=
| Deliver (output : ProducerOutput)
| DeliverOnCancel (output : ProducerOutput)
| Fail (error : ProducerError)
| Stall (effect_started : bool).
End Script.
Abbreviation Script := Script.Script.
Module FixtureProducer.
Record FixtureProducer : Type := mk { scripts : gmap (list byte) Script; calls : Z; call_log : option str }.
End FixtureProducer.
Abbreviation FixtureProducer := FixtureProducer.FixtureProducer.

(** [FixtureProducer::new], [with] and [with_call_log]. *)
Definition fixture_new : FixtureProducer := FixtureProducer.mk ∅ 0 None.
Definition fixture_with (target : str) (script : Script) (p : FixtureProducer) : FixtureProducer :=
  FixtureProducer.mk (<[target := script]> (FixtureProducer.scripts p)) (FixtureProducer.calls p) (FixtureProducer.call_log p).
Definition with_call_log (path : str) (p : FixtureProducer) : FixtureProducer :=
  FixtureProducer.mk (FixtureProducer.scripts p) (FixtureProducer.calls p) (Some path).

(** [parse_bool]. *)
Definition parse_bool (text : str) : result str bool :=
  if decide (text = lit "true") then Ok true
  else if decide (text = lit "false") then Ok false
  else Err (lit "expected true or false, found " ++ text).

Section load.
(** What reading a file relative to the script's directory gives; the text of
    the error otherwise. *)
Context (read_file : str -> result str bytes).

(** [read]. *)
Definition read (name : str) : result str bytes :=
  map_err (fun error => lit "cannot read " ++ name ++ lit ": " ++ error) (read_file name).
(** [parse_output]. *)
Definition parse_output (args : list str) : result str ProducerOutput :=
  match args with
  | [envelope; schema_id; revision; fingerprint; text] =>
      envelope ← read envelope;
      text_view ← (if decide (text = lit "-") then Ok None
                   else content ← read text;
                        if valid_utf8 content then Ok (Some content) else Err (lit "text is not UTF-8"));
      Ok (ProducerOutput.mk envelope schema_id revision fingerprint text_view)
  | _ => Err (lit "a deliver line takes five fields after the verb")
  end.
(** [parse_line]. *)
Definition parse_line (line : str) : result str (str * Script) :=
  match split_on "009" line with
  | target :: verb :: rest =>
      let wrong := Err (lit "unknown verb or wrong field count for " ++ verb) in
      script ←
        (if decide (verb = lit "deliver") then output ← parse_output rest; Ok (Script.Deliver output)
         else if decide (verb = lit "deliver-on-cancel") then output ← parse_output rest; Ok (Script.DeliverOnCancel output)
         else match rest with
              | [field] =>
                  if decide (verb = lit "unavailable") then
                    contacted ← parse_bool field; Ok (Script.Fail (ProducerError.Unavailable contacted))
                  else if decide (verb = lit "transfer") then
                    match from_name field with
                    | Some class => Ok (Script.Fail (ProducerError.Transfer class))
                    | None => Err (lit "unknown transfer class " ++ field)
                    end
                  else if decide (verb = lit "extraction") then
                    match from_name field with
                    | Some class => Ok (Script.Fail (ProducerError.Extraction class))
                    | None => Err (lit "unknown extraction class " ++ field)
                    end
                  else if decide (verb = lit "stall") then
                    started ← parse_bool field; Ok (Script.Stall started)
                  else wrong
              | _ => wrong
              end);
      Ok (target, script)
  | _ => Err (lit "expected a target and a verb")
  end.
(** [FixtureProducer::load], from the script's text on: [index] is the line's
    number from zero. *)
Fixpoint load_lines (index : Z) (l : list str) (p : FixtureProducer) : result DaemonError FixtureProducer :=
  match l with
  | [] => Ok p
  | line :: l =>
      if blank line || starts_with (lit "#") line then load_lines (index + 1) l p
      else match parse_line line with
           | Err reason => Err (DaemonError.FixtureSyntax (index + 1) reason)
           | Ok (target, script) => load_lines (index + 1) l (fixture_with target script p)
           end
  end.
Definition fixture_load (text : option bytes) : result DaemonError FixtureProducer :=
  match text with
  | Some text => if valid_utf8 text then load_lines 0 (lines text) fixture_new else Err DaemonError.FixtureIo
  | None => Err DaemonError.FixtureIo
  end.
End load.

(** [call_log_for]: the script's path with its file name extended. *)
Definition call_log_name (file_name : option str) : result DaemonError str :=
  name ← ok_or file_name (DaemonError.FixtureSyntax 0 (lit "the script path names no file"));
  Ok (name ++ lit ".calls").

(** ** Answering *)

(** [within_transfer]. *)
Definition within_transfer (output : ProducerOutput) (max_transfer : option Z) : result ProducerError ProducerOutput :=
  match max_transfer with
  | Some max => if Z.ltb max (Z.of_nat (length (ProducerOutput.envelope output))) then Err (ProducerError.Transfer TransferClass.TooLarge)
                else Ok output
  | None => Ok output
  end.
(** [record] and [acquire]: the call is counted at once; [stopped] is whether
    the cancel signal has fired or the deadline passed, [None] an answer still
    waited for. *)
Definition record (p : FixtureProducer) : FixtureProducer :=
  FixtureProducer.mk (FixtureProducer.scripts p) ((FixtureProducer.calls p + 1) mod 2 ^ 64) (FixtureProducer.call_log p).
Definition fixture_acquire (p : FixtureProducer) (request : AcquireRequest) (stopped : bool)
    : option (result ProducerError ProducerOutput) :=
  result ← match FixtureProducer.scripts p !! AcquireRequest.target request with
           | None => Some (Err (ProducerError.Unavailable false))
           | Some (Script.Deliver output) => Some (Ok output)
           | Some (Script.Fail error) => Some (Err error)
           | Some (Script.DeliverOnCancel output) => if stopped then Some (Ok output) else None
           | Some (Script.Stall effect_started) => if stopped then Some (Err (ProducerError.Cancelled effect_started)) else None
           end;
  Some (output ← result; within_transfer output (CaptureLimits.max_transfer_bytes (AcquireRequest.limits request))).

(** ** What a script says and what the producer answers *)

(** A field: no tab, newline or carriage return. *)
Definition field_ok (text : str) : Prop := Forall (fun c => c <> "009"%byte /\ c <> "010"%byte /\ c <> "013"%byte) text.
Fixpoint join (sep : byte) (fields : list str) : str :=
  match fields with
  | [] => []
  | [field] => field
  | field :: fields => field ++ sep :: join sep fields
  end.
Lemma split_on_join sep fields : fields <> [] -> Forall (Forall (fun c => c <> sep)) fields -> split_on sep (join sep fields) = fields.
Proof.
  induction fields as [|f fields IH]; intros Hne Hf; [done|]. apply Forall_cons in Hf as [Hf Hfs].
  destruct fields as [|g fields]; [by apply split_on_single|]. change (join sep (f :: g :: fields)) with (f ++ sep :: join sep (g :: fields)).
  rewrite split_on_app by done. by rewrite IH.
Qed.
Lemma split_on_lines ls : Forall (Forall (fun c => c <> "010"%byte)) ls ->
  split_on "010" (l ← ls; l ++ ["010"%byte]) = ls ++ [[]].
Proof.
  induction 1 as [|l ls Hl _ IH]; [done|]. cbn [mbind list_bind]. rewrite <- app_assoc. cbn [app].
  rewrite split_on_app by done. by rewrite IH.
Qed.
Lemma strip_cr_id line : Forall (fun c => c <> "013"%byte) line -> strip_cr line = line.
Proof.
  intros Hl. unfold strip_cr. destruct (last line) as [c|] eqn:Hc; [|done]. rewrite decide_False; [done|].
  rewrite Forall_forall in Hl. by apply Hl, last_Some_elem_of.
Qed.
Lemma lines_print ls : Forall (Forall (fun c => c <> "010"%byte /\ c <> "013"%byte)) ls -> lines (l ← ls; l ++ ["010"%byte]) = ls.
Proof.
  intros Hl. unfold lines. rewrite split_on_lines.
  - rewrite removelast_last, last_snoc, app_nil_r. induction Hl as [|l ls Hx _ IH]; [done|]. cbn. rewrite IH. f_equal.
    apply strip_cr_id. eapply Forall_impl; [exact Hx|]. by intros c [_ ?].
  - eapply Forall_impl; [exact Hl|]. intros l Hx. eapply Forall_impl; [exact Hx|]. by intros c [? _].
Qed.
(** A line that holds a lower-case letter is not blank. *)
Lemma blank_no_letter : forall n text, (length text <= n)%nat -> blank text = true -> Forall (fun c => b2z c < 97 \/ 122 < b2z c) text.
Proof.
  induction n as [|n IH]; intros text Hn; (destruct text as [|a text]; [by constructor|]); cbn in Hn; [lia|].
  unfold blank in *. cbn [trim_start]. destruct (space1 a) eqn:Ha.
  { intros Hb. constructor; [unfold space1, continues in Ha; lia|apply IH; [lia|done]]. }
  destruct text as [|b text]; [done|]. cbn in Hn. destruct (space2 a b) eqn:Hx.
  { intros Hb. unfold space2 in Hx. repeat constructor; [lia|lia|]. apply IH; [lia|done]. }
  destruct text as [|c text]; [done|]. cbn in Hn. destruct (space3 a b c) eqn:Hy; [|done]. intros Hb.
  unfold space3, continues in Hy. repeat constructor; [lia|lia|lia|]. apply IH; [lia|done].
Qed.
Lemma letter_not_blank text c : c ∈ text -> 97 <= b2z c <= 122 -> blank text = false.
Proof.
  intros Hc Hl. destruct (blank text) eqn:Hb; [|done]. apply (blank_no_letter (length text)) in Hb; [|done].
  rewrite Forall_forall in Hb. specialize (Hb c Hc). lia.
Qed.

(** One line of a script, its files by name. *)
Module Plan.
Inductive Plan : Set :=
| Deliver (on_cancel : bool) (envelope schema_id revision fingerprint : str) (text : option str)
| Unavailable (contacted : bool)
| Transfer (class : TransferClass)
| Extraction (class : ExtractionClass)
| Stall (started : bool).
End Plan.
Abbreviation Plan := Plan.Plan.
Definition print_bool (b : bool) : str := lit (if b then "true" else "false").
Definition print_plan (target : str) (plan : Plan) : list str :=
  target :: match plan with
            | Plan.Deliver on_cancel envelope schema_id revision fingerprint text =>
                [lit (if on_cancel then "deliver-on-cancel" else "deliver"); envelope; schema_id; revision; fingerprint;
                 default (lit "-") text]
            | Plan.Unavailable contacted => [lit "unavailable"; print_bool contacted]
            | Plan.Transfer class => [lit "transfer"; enum_name class]
            | Plan.Extraction class => [lit "extraction"; enum_name class]
            | Plan.Stall started => [lit "stall"; print_bool started]
            end.
(** The script the line stands for, with the files as they read. *)
Definition meaning (read_file : str -> result str bytes) (plan : Plan) : option Script :=
  match plan with
  | Plan.Deliver on_cancel envelope schema_id revision fingerprint text =>
      envelope ← to_option (read_file envelope);
      text ← match text with
             | None => Some None
             | Some name => content ← to_option (read_file name); if valid_utf8 content then Some (Some content) else None
             end;
      let output := ProducerOutput.mk envelope schema_id revision fingerprint text in
      Some (if on_cancel then Script.DeliverOnCancel output else Script.Deliver output)
  | Plan.Unavailable contacted => Some (Script.Fail (ProducerError.Unavailable contacted))
  | Plan.Transfer class => Some (Script.Fail (ProducerError.Transfer class))
  | Plan.Extraction class => Some (Script.Fail (ProducerError.Extraction class))
  | Plan.Stall started => Some (Script.Stall started)
  end.
Definition plan_ok (target : str) (plan : Plan) : Prop :=
  Forall field_ok (print_plan target plan) /\ starts_with (lit "#") target = false /\
  match plan with Plan.Deliver _ _ _ _ _ (Some text) => text <> lit "-" | _ => True end.

Section roundtrip.
Context (read_file : str -> result str bytes).

Lemma parse_print_bool b : parse_bool (print_bool b) = Ok b.
Proof using Type. by destruct b. Qed.
Lemma from_name_enum {A : Type} `{NamedEnum A} (a : A) : from_name (enum_name a) = Some a.
Proof using Type. apply enum_find_name. Qed.
Lemma parse_print_output c e s r f text script : match text with Some t => t <> lit "-" | None => True end ->
  meaning read_file (Plan.Deliver c e s r f text) = Some script ->
  exists output, parse_output read_file [e; s; r; f; default (lit "-") text] = Ok output /\
    script = if c then Script.DeliverOnCancel output else Script.Deliver output.
Proof using Type.
  intros Ht. cbn [meaning]. unfold parse_output, read. destruct (read_file e) as [envelope|]; [|by cbn]. cbn [to_option mbind option_bind map_err result_bind].
  destruct text as [t|]; cbn [default].
  - destruct (read_file t) as [content|] eqn:Hr; [|by cbn]. cbn [to_option mbind option_bind]. destruct (valid_utf8 content) eqn:Hv; [|by cbn]. cbn [mbind option_bind].
    intros [= <-]. rewrite decide_False by done. cbn [from_option id]. rewrite Hr. cbn [map_err mbind result_bind]. rewrite Hv. cbn [mbind result_bind]. eexists. split; [done|]. by destruct c.
  - cbn. intros [= <-]. eexists. split; [done|]. by destruct c.
Qed.
Lemma parse_print_line target plan script : plan_ok target plan -> meaning read_file plan = Some script ->
  parse_line read_file (join "009" (print_plan target plan)) = Ok (target, script).
Proof using Type.
  intros (Hf & _ & Ht) Hm. unfold parse_line. rewrite split_on_join.
  2: done. 2: { eapply Forall_impl; [exact Hf|]. intros l Hl. eapply Forall_impl; [exact Hl|]. by intros c [? _]. }
  destruct plan as [c e s r f text|contacted|class|class|started]; cbn [print_plan].
  - destruct (parse_print_output c e s r f text script Ht Hm) as (output & Hp & ->). destruct c; rewrite ?decide_False by done;
      rewrite decide_True by done; rewrite Hp; done.
  - rewrite !decide_False by done. rewrite decide_True, parse_print_bool by done. injection Hm as <-. done.
  - rewrite !decide_False by done. rewrite decide_True, from_name_enum by done. injection Hm as <-. done.
  - rewrite !decide_False by done. rewrite decide_True, from_name_enum by done. injection Hm as <-. done.
  - rewrite !decide_False by done. rewrite decide_True, parse_print_bool by done. injection Hm as <-. done.
Qed.
Definition print_script (plans : list (str * Plan)) : str :=
  l ← (fun p => join "009" (print_plan p.1 p.2)) <$> plans; l ++ ["010"%byte].
Lemma join_clean (P : byte -> Prop) sep fields : P sep -> Forall (Forall P) fields -> Forall P (join sep fields).
Proof using Type.
  intros Hs. induction 1 as [|f fields Hf Hfs IH]; [by constructor|]. destruct fields as [|g fields]; [done|].
  change (join sep (f :: g :: fields)) with (f ++ sep :: join sep (g :: fields)). apply Forall_app. split; [done|]. by constructor.
Qed.
Lemma print_plan_kept target plan : plan_ok target plan ->
  blank (join "009" (print_plan target plan)) || starts_with (lit "#") (join "009" (print_plan target plan)) = false.
Proof using Type.
  intros (_ & Hh & _). apply orb_false_iff. split.
  - assert (exists verb rest c, print_plan target plan = target :: verb :: rest /\ rest <> [] /\ c ∈ verb /\ 97 <= b2z c <= 122)
      as (verb & rest & c & -> & Hne & Hc & Hl).
    { destruct plan as [[]| | | |]; eexists _, _, _; (split; [reflexivity|]); (split; [done|]); (split; [left|]); cbn; lia. }
    apply (letter_not_blank _ c); [|done]. destruct rest as [|x rest]; [done|].
    change (join "009" (target :: verb :: x :: rest)) with (target ++ "009"%byte :: verb ++ "009"%byte :: join "009" (x :: rest)).
    rewrite elem_of_app, elem_of_cons, elem_of_app. auto.
  - assert (exists verb rest, print_plan target plan = target :: verb :: rest) as (verb & rest & ->) by (destruct plan; by eexists _, _).
    change (join "009" (target :: verb :: rest)) with (target ++ "009"%byte :: join "009" (verb :: rest)).
    by destruct target.
Qed.

(** A script reads back as written: the producer loaded from the lines of a
    list of plans answers each target by the last plan given for it. *)
Theorem fixture_script_roundtrip (plans : list (str * Plan)) (scripts : list Script) :
  Forall (fun p => plan_ok p.1 p.2) plans -> Forall2 (fun p script => meaning read_file p.2 = Some script) plans scripts ->
  valid_utf8 (print_script plans) = true ->
  fixture_load read_file (Some (print_script plans)) =
  Ok (foldl (fun p '(target, script) => fixture_with target script p) fixture_new (zip (fst <$> plans) scripts)).
Proof using Type.
  intros Hok Hm Hv. unfold fixture_load. rewrite Hv. unfold print_script. rewrite lines_print.
  - clear Hv. generalize fixture_new as p, 0 as index. induction Hm as [|[target plan] script plans scripts Hs _ IH]; intros p index; [done|].
    apply Forall_cons in Hok as [Hp Hok]. cbn [fmap list_fmap load_lines fst snd zip zip_with foldl] in *.
    rewrite print_plan_kept, (parse_print_line target plan script) by done. by apply IH.
  - apply Forall_fmap. eapply Forall_impl; [exact Hok|]. intros [target plan] (Hf & _). cbn [fst snd] in *. apply join_clean; [done|].
    eapply Forall_impl; [exact Hf|]. intros l Hl. eapply Forall_impl; [exact Hl|]. by intros c (_ & ? & ?).
Qed.
End roundtrip.

(** The producer never answers with more than the caller's transfer bound,
    and once the call is cancelled or out of time it always answers. *)
Theorem fixture_answers (p : FixtureProducer) (request : AcquireRequest) (stopped : bool) :
  (forall output max, fixture_acquire p request stopped = Some (Ok output) ->
     CaptureLimits.max_transfer_bytes (AcquireRequest.limits request) = Some max ->
     Z.of_nat (length (ProducerOutput.envelope output)) <= max) /\
  is_Some (fixture_acquire p request true).
Proof.
  split.
  - intros output max. unfold fixture_acquire. intros (r & _ & [= Hr])%bind_Some Hmax. rewrite Hmax in Hr.
    destruct r as [o|e]; [|done]. cbn in Hr. destruct (Z.ltb_spec max (Z.of_nat (length (ProducerOutput.envelope o)))); [done|].
    injection Hr as <-. lia.
  - unfold fixture_acquire. destruct (FixtureProducer.scripts p !! _) as [[]|]; by eexists.
Qed.
