(* ===== verification/Process.v ===== *)
(** * The daemon process ([dioptron::main], [cli::run], [cli::serve], [clock], [cancel])

    A process runs one command over a [Machine]: the root key's file, the
    store's directory and records, the socket's path, and what was announced
    on standard output. It makes its system calls one at a time; the
    environment may fail each, or kill the process there. *)
From S2P Require Import Prelude Vocab Ids Payload Wire Epitrope Origin View Chain Issue Decision Revoke Lifecycle.
From S2P Require Import Records Store Seal RecordKey StoreAudit Invocation Transition Directory Recovery Invariant StoreRun.
From S2P Require Import Runs Guarantees Custody Daemon Ends Keys Disk Proc StoreDir StoreDirGuarantees KeyFile.
From S2P Require Import Socket SocketInv Cli CliGuarantees CliRun Fixture.
Local Open Scope Z_scope.

(** ** Clocks ([clock.rs]) *)
Definition I64_MAX : Z := 2 ^ 63 - 1.
(** [SystemClock::now], from the milliseconds since the epoch, if the system's
    clock is not before it. *)
Definition system_now (since_epoch : option Z) : Timestamp :=
  match since_epoch with Some millis => Z.min millis I64_MAX | None => 0 end.
(** [FileClock::now], from what the file holds, if it can be read. *)
Definition file_now (file : option bytes) : Timestamp :=
  default I64_MAX (text ← file; if valid_utf8 text then parse_i64 (trim text) else None).
(** [daemon_clock]: [test_clock] is the feature, [var] the variable's value. *)
Module DaemonClock.
Inductive DaemonClock : Set := System | File (path : str).
End DaemonClock.
Abbreviation DaemonClock := DaemonClock.DaemonClock.
Definition daemon_clock (test_clock : bool) (var : option str) : DaemonClock :=
  match test_clock, var with
  | true, Some path => DaemonClock.File path
  | _, _ => DaemonClock.System
  end.
(** What one reading finds. *)
Module Reading.
Record Reading : Type := mk { since_epoch : option Z; file : str -> option bytes }.
End Reading.
Abbreviation Reading := Reading.Reading.
Definition clock_now (clock : DaemonClock) (reading : Reading) : Timestamp :=
  match clock with
  | DaemonClock.System => system_now (Reading.since_epoch reading)
  | DaemonClock.File path => file_now (Reading.file reading path)
  end.

(** ** Cancellation ([cancel.rs]) *)

(** The channel: the flag, and whether the handle is gone. *)
Module Watch.
Record Watch : Set := mk { flag : bool; closed : bool }.
End Watch.
Abbreviation Watch := Watch.Watch.
Definition cancel_pair : Watch := Watch.mk false false.
(** What an owner does with its handle. *)
Module Owner.
Inductive Owner : Set := Cancel | Drop.
End Owner.
Abbreviation Owner := Owner.Owner.
Definition owner_does (w : Watch) (act : Owner) : Watch :=
  match act with
  | Owner.Cancel => Watch.mk true (Watch.closed w)
  | Owner.Drop => Watch.mk (Watch.flag w) true
  end.
(** [CancelSignal::is_cancelled], and whether [CancelSignal::cancelled] has
    completed: [wait_for] answers [Ok] for the flag, [Err] for a handle that
    is gone. *)
Definition is_cancelled (w : Watch) : bool := Watch.flag w || Watch.closed w.
Definition wait_for (w : Watch) : option (result unit unit) :=
  if Watch.flag w then Some (Ok tt) else if Watch.closed w then Some (Err tt) else None.
Definition cancelled_done (w : Watch) : bool := bool_decide (is_Some (wait_for w)).

(** The signal fires exactly when its owner cancels or lets go, and stays
    fired; both ways of watching it agree. *)
Lemma is_cancelled_acts acts w :
  is_cancelled (foldl owner_does w acts) = is_cancelled w || bool_decide (acts <> []).
Proof.
  revert w. induction acts as [|act acts IH]; intros w; cbn [foldl].
  - by rewrite (bool_decide_eq_false_2 ([] <> [])), orb_false_r by auto.
  - rewrite IH, (bool_decide_eq_true_2 (act :: acts <> [])) by done. rewrite orb_true_r.
    destruct act; unfold is_cancelled; cbn; [done|]. by rewrite orb_true_r.
Qed.
Theorem cancel_fires_once (acts : list Owner) :
  is_cancelled (foldl owner_does cancel_pair acts) = bool_decide (acts <> []) /\
  forall w, cancelled_done w = is_cancelled w.
Proof.
  split; [by rewrite is_cancelled_acts|]. intros [[] []]; done.
Qed.

(** ** The producer ([DaemonProducer]) *)
Module DaemonProducer.
Inductive DaemonProducer : Type := Unavailable | Fixture (producer : FixtureProducer).
End DaemonProducer.
Abbreviation DaemonProducer := DaemonProducer.DaemonProducer.
Definition daemon_acquire (producer : DaemonProducer) (request : AcquireRequest) (stopped : bool)
    : option (result ProducerError ProducerOutput) :=
  match producer with
  | DaemonProducer.Unavailable => Some (unavailable_producer request)
  | DaemonProducer.Fixture producer => fixture_acquire producer request stopped
  end.

(** ** The machine *)

(** [stores] are the records of the stores that were ever written to, by
    path; [announced] the lines [announce] wrote. *)
Module Machine.
Record Machine : Type := mk { host : Host; stores : gmap (list byte) Db; place : Place; announced : list str }.
End Machine.
Abbreviation Machine := Machine.Machine.
Definition store_at (name : str) (m : Machine) : Db := default empty_db (Machine.stores m !! name).
Definition with_host (host : Host) (m : Machine) : Machine :=
  Machine.mk host (Machine.stores m) (Machine.place m) (Machine.announced m).
Definition with_store (name : str) (db : Db) (m : Machine) : Machine :=
  Machine.mk (Machine.host m) (<[name := db]> (Machine.stores m)) (Machine.place m) (Machine.announced m).
Definition with_place (place : Place) (m : Machine) : Machine :=
  Machine.mk (Machine.host m) (Machine.stores m) place (Machine.announced m).
Definition with_line (line : str) (m : Machine) : Machine :=
  Machine.mk (Machine.host m) (Machine.stores m) (Machine.place m) (Machine.announced m ++ [line]).

(** The features the program was built with. *)
Module Build.
Record Build : Set := mk { failpoints : bool; test_clock : bool }.
End Build.
Abbreviation Build := Build.Build.
(** What a run finds outside the machine: its variables, the clock's readings
    in the order they are taken, the random source's draws, the fixture
    script and the files it names, the order in which recovery finds the
    invocations, and the store operations that the requests' tasks run until
    the shutdown signal ([session]) and after it, while the server and the
    orchestrator drain ([drained]). *)
Module Given.
Record Given : Type := mk {
  failpoint_var : option str;
  clock_var : option str;
  readings : nat -> Reading;
  draws : nat;
  random : option bytes;
  script : option bytes;
  script_files : str -> result str bytes;
  scan : list InvocationRecord;
  session : list Event;
  drained : list Event;
}.
End Given.
Abbreviation Given := Given.Given.

Definition on_host {A : Type} (f : Proc Host DaemonError A) : Proc Machine DaemonError A := fun m i =>
  let '(r, host, i) := f (Machine.host m) i in (r, with_host host m, i).
(** One transaction on the store. The process may die before it, the
    database may refuse it, and an injected crash aborts the process. *)
Definition on_store `{Env} {A : Type} (name : str) (f : Db -> result StoreError A * Db) : Proc Machine DaemonError A := fun m i =>
  match fate i with
  | Fault.Crash => (None, m, S i)
  | Fault.Fail _ => (Some (Err (DaemonError.Store StoreError.Database)), m, S i)
  | Fault.Fine =>
      let '(r, db) := f (store_at name m) in
      let m := with_store name db m in
      match r with
      | Err (StoreError.InjectedCrash _ _) => (None, m, S i)
      | r => (Some (map_err DaemonError.Store r), m, S i)
      end
  end.
(** A program on the socket, run by process [p]. *)
Fixpoint on_socket `{Env} `{Users} {A : Type} (p : nat) (prog : Prog A) : Proc Machine DaemonError A := fun m i =>
  match prog with
  | Return r => (Some r, m, i)
  | Ask c k =>
      match fate i with
      | Fault.Crash => (None, m, S i)
      | f =>
          let fault := match f with Fault.Fail _ => true | _ => false end in
          let '(a, w) := perform p fault (Machine.place m) c in
          on_socket p (k a) (with_place w m) (S i)
      end
  end.

(** ** Serving ([cli/serve.rs]) *)
Definition SOCKET_NAME : str := lit "dioptron.sock".
(** [Path::file_name] and [Path::join] of a file name. *)
Definition file_name (path : str) : option str :=
  name ← last (filter (fun part => part <> [] /\ part <> lit ".") (split_on "/" path));
  if decide (name = lit "..") then None else Some name.
Definition join_path (dir name : str) : str :=
  match last dir with
  | None => name
  | Some c => if decide (c = "/"%byte) then dir ++ name else dir ++ lit "/" ++ name
  end.

Section process.
Context `{Holder} `{Kdf} `{Entropy} `{Users} `{Hashes} (p : nat) (build : Build) (given : Given).

Definition clock : DaemonClock := daemon_clock (Build.test_clock build) (Given.clock_var given).
Definition now_at (n : nat) : Timestamp := clock_now clock (Given.readings given n).

(** The producer [serve] is configured with. *)
Definition producer_for (fixture : option str) : result DaemonError DaemonProducer :=
  match fixture with
  | None => Ok DaemonProducer.Unavailable
  | Some script =>
      producer ← fixture_load (Given.script_files given) (Given.script given);
      log ← call_log_name (file_name script);
      Ok (DaemonProducer.Fixture (with_call_log log producer))
  end.
(** [serve::open]: the store's failpoint. *)
Definition serve_open (options : Serve) : Proc Machine DaemonError Failpoint :=
  at_ ← proc_lift (if Build.failpoints build then abort_at_from_env (Given.failpoint_var given) else Ok None);
  _ ← on_host (cli_open_store (Serve.store options));
  mret (match at_ with Some at_ => abort_failpoint at_ | None => NoFailpoints end).
(** [announce]: a failed write is ignored. *)
Definition announce (path : str) : Proc Machine DaemonError unit := fun m i =>
  match fate i with
  | Fault.Fine => (Some (Ok tt), with_line (lit "ready " ++ path) m, S i)
  | Fault.Fail _ => (Some (Ok tt), m, S i)
  | Fault.Crash => (None, m, S i)
  end.
(** One store operation of a request's task, or the process's death. *)
Definition served (name : str) (e : Event) : Proc Machine DaemonError unit := fun m i =>
  match fate i with
  | Fault.Crash => (None, m, S i)
  | _ => (Some (Ok tt), with_store name (run (store_at name m) [e]) m, S i)
  end.
(** [Store::recover] as the process runs it: one step per transaction. *)
Definition recover_steps_one (name : str) (fp : Failpoint) (report : RecoveryReport)
    (id : InvocationId) (action : RecoveryAction) : Proc Machine DaemonError RecoveryReport :=
  let '(RecoveryReport.mk released unknown published settled) := report in
  match action with
  | RecoveryAction.ReleaseAbandoned =>
      _ ← on_store name (fun db => Transition.release fp (now_at 0) db id ReleaseReason.Abandoned);
      mret (RecoveryReport.mk (bump released) unknown published settled)
  | RecoveryAction.MarkUnknownEffect =>
      _ ← on_store name (fun db => mark_unknown_effect fp (now_at 0) db id);
      mret (RecoveryReport.mk released (bump unknown) published settled)
  | RecoveryAction.RollForwardPublish =>
      _ ← on_store name (fun db => publish fp (now_at 0) db id);
      _ ← on_store name (fun db => settle fp (now_at 0) db id SettleOutcome.Success);
      mret (RecoveryReport.mk released unknown (bump published) settled)
  | RecoveryAction.RollForwardSettle =>
      _ ← on_store name (fun db => settle fp (now_at 0) db id SettleOutcome.Success);
      mret (RecoveryReport.mk released unknown published (bump settled))
  end.
Fixpoint recover_steps (name : str) (fp : Failpoint) (report : RecoveryReport)
    (work : list (InvocationId * RecoveryAction)) : Proc Machine DaemonError RecoveryReport :=
  match work with
  | [] => mret report
  | (id, action) :: work =>
      report ← recover_steps_one name fp report id action;
      recover_steps name fp report work
  end.
(** [serve] until the socket is bound. *)
Definition serve_start (options : Serve) : Proc Machine DaemonError unit :=
  _ ← proc_lift (producer_for (Serve.fixture options));
  fp ← serve_open options;
  _ ← recover_steps (Serve.store options) fp report_default (open_invocations (Given.scan given));
  _ ← step (fun _ => DaemonError.Runtime) id;
  _ ← step (fun _ => DaemonError.Signal) id;
  _ ← step (fun _ => DaemonError.Signal) id;
  on_socket p (server_bind (bool_decide (Serve.socket_dir options <> []))).
(** [serve]: requests run until the signal; then the server lets go of the
    listener, the socket's file and the lock, and only after that drains what
    is in flight. What the drain leaves undone is left to the next start. *)
Definition serve (options : Serve) : Proc Machine DaemonError unit :=
  _ ← serve_start options;
  _ ← announce (join_path (Serve.socket_dir options) SOCKET_NAME);
  _ ← proc_each (served (Serve.store options)) (Given.session given);
  _ ← on_socket p server_serve;
  proc_each (served (Serve.store options)) (Given.drained given).

(** ** Commands and exit codes ([cli::run], [main]) *)

(** [tenant add] as the process runs it: two transactions, and between them
    the random source. *)
Definition tenant_add_steps (add : TenantAdd) : Proc Machine DaemonError unit :=
  _ ← on_store (TenantAdd.store add) (fun db => register_tenant NoFailpoints (now_at 0) db (registration_of add));
  if bool_decide (TenantAdd.class add <> TenantClass.Operator) then mret tt
  else
    grant ← proc_lift (root_grant_id (now_at 2) (Given.random given) add);
    on_store (TenantAdd.store add) (fun db => install_root_grant NoFailpoints db (root_of add grant (now_at 1))).
Definition run_command (command : Command) : Proc Machine DaemonError unit :=
  match command with
  | Command.Help => mret tt
  | Command.Keygen _ => on_host (run_keygen (Given.draws given))
  | Command.Init store _ => on_host (run_init store (Given.draws given))
  | Command.TenantAdd add =>
      _ ← on_host (cli_open_store (TenantAdd.store add));
      tenant_add_steps add
  | Command.Serve options => serve options
  end.
Definition exit_code (r : result DaemonError unit) : Z :=
  match r with
  | Ok _ => 0
  | Err (DaemonError.Usage _) => 2
  | Err _ => 1
  end.
(** [main]: the code the process exits with, none when it dies. What it held
    of the socket it lets go of. *)
Definition main (args : list bytes) (m : Machine) (i : nat) : option Z * Machine * nat :=
  if negb (forallb valid_utf8 args) then (Some 2, m, i)
  else match parse args with
       | Err _ => (Some 2, m, i)
       | Ok command =>
           let '(r, m, i) := run_command command m i in
           (exit_code <$> r, with_place (release p (Machine.place m)) m, i)
       end.
End process.

(** ** What a start guarantees *)

Lemma with_tx_unfired {A} fp db (body : result StoreError (Finish A)) a db' :
  with_tx fp db body = (Ok a, db') -> with_tx NoFailpoints db body = (Ok a, db').
Proof. intros [[-> ->]|[[b|] ->]]%with_tx_Ok; done. Qed.

Section recovering.
Context `{Hashes}.

Lemma recover_one_unfired fp now db report id action report' db' :
  recover_one fp now db report id action = (Ok report', db') ->
  recover_one NoFailpoints now db report id action = (Ok report', db').
Proof using Type.
  unfold recover_one. destruct report as [a b c d], action.
  - destruct (Transition.release fp now db id _) as [[x|] db1] eqn:E; [|done]. apply with_tx_unfired in E.
    unfold Transition.release, transition. by rewrite E.
  - destruct (mark_unknown_effect fp now db id) as [[x|] db1] eqn:E; [|done]. apply with_tx_unfired in E.
    unfold mark_unknown_effect, transition. by rewrite E.
  - destruct (publish fp now db id) as [[x|] db1] eqn:E; [|done]. apply with_tx_unfired in E.
    destruct (settle fp now db1 id _) as [[y|] db2] eqn:E2; [|done]. apply with_tx_unfired in E2.
    unfold publish, settle, transition in *. by rewrite E, E2.
  - destruct (settle fp now db id _) as [[y|] db2] eqn:E2; [|done]. apply with_tx_unfired in E2.
    unfold settle, transition in *. by rewrite E2.
Qed.
(** A recovery that ran to its end met no failpoint. *)
Lemma recover_unfired fp now db scan report db' :
  recover fp now db scan = (Ok report, db') -> recover NoFailpoints now db scan = (Ok report, db').
Proof using Type.
  unfold recover. generalize (open_invocations scan), report_default. intros work. revert db.
  induction work as [|[id action] work IH]; intros db r; cbn [recover_loop]; [done|].
  destruct (recover_one fp now db r id action) as [[r1|e] db1] eqn:E; [|done].
  apply recover_one_unfired in E. rewrite E. apply IH.
Qed.
(** Every invocation has ended. *)
Definition settled_down (db : Db) : Prop :=
  forall i r, Db.invocations db !! i = Some r -> is_terminal (InvocationRecord.state r) = true.
Lemma recover_settles fp now db scan report db' :
  Inv db -> Scan db scan -> last_seq db + Z.of_nat (length scan) <= u64_max ->
  recover fp now db scan = (Ok report, db') -> Inv db' /\ settled_down db'.
Proof using Type.
  intros HI Hs Hl Hr%recover_unfired. destruct (recover_ends db now scan HI Hs Hl) as (rep & d & Hrec & HI' & Hdom & Hall).
  rewrite Hr in Hrec. injection Hrec as <- <-. split; [done|]. intros i r' Hr'.
  assert (is_Some (Db.invocations db !! i)) as [r Hir]; [apply elem_of_dom; rewrite <- Hdom; by apply elem_of_dom|].
  destruct (Hall i r Hir) as (x & Hx & _ & Ht & _). congruence.
Qed.
End recovering.

Section socket.
Context `{Env} `{Users} (p : nat).

(** A program on the socket leaves the rest of the machine alone. *)
Definition beside (m m' : Machine) : Prop :=
  Machine.host m' = Machine.host m /\ Machine.stores m' = Machine.stores m /\ Machine.announced m' = Machine.announced m.
Lemma on_socket_beside {A : Type} (prog : Prog A) : forall m i, beside m (on_socket p prog m i).1.2.
Proof using Type.
  induction prog as [r|c k IH]; intros m i; cbn [on_socket]; [done|].
  destruct (fate i); [| |done];
    destruct (perform p _ (Machine.place m) c) as [a w]; apply (IH a (with_place w m)).
Qed.
(** What holds of a program whatever the others do holds when it is run. *)
Lemma on_socket_good {A : Type} (prog : Prog A) : forall P (Q : A -> Place -> Prop) m i a m' j,
  good p P prog Q nothing -> P (Machine.place m) ->
  on_socket p prog m i = (Some (Ok a), m', j) -> Q a (Machine.place m').
Proof using Type.
  induction prog as [[r|e]|c k IH]; intros P Q m i a m' j Hg HP; cbn [on_socket good] in *.
  - intros [= <- <- <-]. by apply Hg.
  - done.
  - destruct (fate i) as [|errno|]; [| |done].
    + destruct (Hg _ false HP) as (_ & _ & P' & _ & HP' & Hk).
      destruct (perform p false (Machine.place m) c) as [x w]. by apply (IH x P' Q (with_place w m)).
    + destruct (Hg _ true HP) as (_ & _ & P' & _ & HP' & Hk).
      destruct (perform p true (Machine.place m) c) as [x w]. by apply (IH x P' Q (with_place w m)).
Qed.
Lemma serving_Secure s w : serving p s w -> Secure p w.
Proof using Type. intros ([[Hd Hm] Hu] & Hdir & Hl & m & He & ->). split; [done|]. split; [done|]. by exists s. Qed.
End socket.

Section serving.
Context `{Holder} `{Kdf} `{Entropy} `{Users} `{Hashes} (p : nat) (build : Build) (given : Given) (options : Serve).
Local Abbreviation name := (Serve.store options).
Local Abbreviation others m0 m := (forall n, n <> name -> Machine.stores m !! n = Machine.stores m0 !! n).

(** The key's file and the store's directory apart, the machine is as it was. *)
Definition untouched (m0 m : Machine) : Prop :=
  Machine.stores m = Machine.stores m0 /\ Machine.place m = Machine.place m0 /\ Machine.announced m = Machine.announced m0.
(** Recovery is done: nothing is open any more, and nothing announced yet. *)
Definition recovered (m0 m : Machine) : Prop :=
  Inv (store_at name m) /\ settled_down (store_at name m) /\ others m0 m /\ Machine.announced m = Machine.announced m0.
(** Where a start that does not succeed may stop. *)
Definition stopped (m0 m : Machine) : Prop :=
  Inv (store_at name m) /\ others m0 m /\ Machine.announced m = Machine.announced m0 /\
  (Machine.place m = Machine.place m0 \/ settled_down (store_at name m)).
Lemma recovered_stopped m0 m : recovered m0 m -> stopped m0 m.
Proof using Type. intros (? & ? & ? & ?). split_and!; auto. Qed.

Lemma on_host_untouched {A : Type} (f : Proc Host DaemonError A) m0 R : (forall m, untouched m0 m -> R m) ->
  hoare (untouched m0) (on_host f) (fun _ => untouched m0) R.
Proof using Type.
  intros HR m i Hm. unfold on_host. destruct (f (Machine.host m) i) as [[[[a|e]|] h] j]; [done|by apply HR|by apply HR].
Qed.
Lemma store_at_with db m : store_at name (with_store name db m) = db.
Proof using Type. unfold store_at. cbn. by rewrite lookup_insert_eq. Qed.

Section start.
Context (m0 : Machine) (HI : Inv (store_at name m0)) (Hscan : Scan (store_at name m0) (Given.scan given)).
Context (Hseq : last_seq (store_at name m0) + Z.of_nat (length (Given.scan given)) <= u64_max).

Lemma untouched_stopped m : untouched m0 m -> stopped m0 m.
Proof using HI.
  intros (Hs & Hp & Ha). unfold stopped, store_at. rewrite Hs. split_and!; [exact HI|done|done|by left].
Qed.
(** While recovery runs: the store keeps its invariant, and the path, the
    announcements and the other stores are as they were. *)
Definition recovering (m : Machine) : Prop :=
  Inv (store_at name m) /\ others m0 m /\ Machine.place m = Machine.place m0 /\ Machine.announced m = Machine.announced m0.
Lemma recovering_stopped m : recovering m -> stopped m0 m.
Proof using Type. intros (? & ? & ? & ?). split_and!; auto. Qed.
Lemma untouched_recovering m : untouched m0 m -> recovering m.
Proof using HI. intros (Hs & Hp & Ha). unfold recovering, store_at. rewrite Hs. by split_and!. Qed.
Lemma on_store_hoare {A : Type} (f : Db -> result StoreError A * Db) db : (Inv db -> Inv (f db).2) ->
  hoare (fun m => recovering m /\ store_at name m = db) (on_store name f)
    (fun a m => recovering m /\ f db = (Ok a, store_at name m)) recovering.
Proof using Type.
  intros Hf m i [(HI1 & Ho & Hp & Ha) <-]. unfold on_store. destruct (fate i); [|by split_and!..].
  specialize (Hf HI1). destruct (f (store_at name m)) as [r db'] eqn:E. cbn [snd] in Hf.
  assert (recovering (with_store name db' m)) as Hr.
  { unfold recovering. rewrite store_at_with. split_and!; [done| |done|done]. intros n Hn. cbn. by rewrite lookup_insert_ne, Ho. }
  destruct r as [a|e]; cbn [map_err]; [by rewrite store_at_with|]. by destruct e.
Qed.
Lemma on_store_then {A B : Type} (f : Db -> result StoreError A * Db) (g : A -> Proc Machine DaemonError B) db Q :
  (Inv db -> Inv (f db).2) ->
  (forall a db', Inv db' -> f db = (Ok a, db') -> hoare (fun m => recovering m /\ store_at name m = db') (g a) Q recovering) ->
  hoare (fun m => recovering m /\ store_at name m = db) (on_store name f ≫= g) Q recovering.
Proof using Type.
  intros Hf Hg. eapply hoare_bind; [by apply on_store_hoare|]. intros a m i [Hr E]. apply (Hg a (store_at name m)); [apply Hr|done|done].
Qed.
(** Step by step, recovery does what [recover] does at once, wherever it is
    interrupted. *)
Lemma recover_steps_one_hoare fp db report id action :
  hoare (fun m => recovering m /\ store_at name m = db) (recover_steps_one build given name fp report id action)
    (fun report' m => recovering m /\ recover_one fp (now_at build given 0) db report id action = (Ok report', store_at name m)) recovering.
Proof using Type.
  destruct report, action; cbn [recover_steps_one recover_one].
  - apply on_store_then; [by apply release_Inv|]. intros a db' _ ->. apply hoare_ret. by intros m [Hr ->].
  - apply on_store_then; [by apply mark_unknown_effect_Inv|]. intros a db' _ ->. apply hoare_ret. by intros m [Hr ->].
  - apply on_store_then; [by apply publish_Inv|]. intros a db' HI' ->.
    apply on_store_then; [by intros _; apply settle_Inv|]. intros b db2 _ ->. apply hoare_ret. by intros m [Hr ->].
  - apply on_store_then; [by intros ?; apply settle_Inv|]. intros b db2 _ ->. apply hoare_ret. by intros m [Hr ->].
Qed.
Lemma recover_steps_hoare fp work : forall db report,
  hoare (fun m => recovering m /\ store_at name m = db) (recover_steps build given name fp report work)
    (fun report' m => recovering m /\ recover_loop fp (now_at build given 0) db report work = (Ok report', store_at name m)) recovering.
Proof using Type.
  induction work as [|[id action] work IH]; intros db report; cbn [recover_steps recover_loop].
  { apply hoare_ret. by intros m [Hr ->]. }
  eapply hoare_bind; [apply recover_steps_one_hoare|]. intros report' m i [Hr ->]. by apply IH.
Qed.
Lemma recover_hoare fp : hoare (untouched m0)
  (recover_steps build given name fp report_default (open_invocations (Given.scan given))) (fun _ => recovered m0) (stopped m0).
Proof using HI Hscan Hseq.
  eapply hoare_conseq; [| | |apply (recover_steps_hoare fp _ (store_at name m0))].
  - intros m Hm. split; [by apply untouched_recovering|]. destruct Hm as [Hs _]. unfold store_at. by rewrite Hs.
  - intros report m [(HI1 & Ho & _ & Ha) Hrec]. apply (recover_settles fp _ _ (Given.scan given)) in Hrec as [_ Hset]; done.
  - apply recovering_stopped.
Qed.
Lemma on_socket_recovered {A : Type} (prog : Prog A) Q : good p nothing prog Q nothing ->
  hoare (recovered m0) (on_socket p prog) (fun a m => recovered m0 m /\ Q a (Machine.place m)) (stopped m0).
Proof using Type.
  intros Hg m i Hm. pose proof (on_socket_beside p prog m i) as Hb. pose proof (on_socket_good p prog nothing Q m i) as Hq.
  destruct (on_socket p prog m i) as [[r m'] j]. cbn in Hb. destruct Hb as (_ & Hs & Ha).
  assert (recovered m0 m') as Hr. { unfold recovered, store_at in *. by rewrite Hs, Ha. }
  destruct r as [[a|e]|]; [|by apply recovered_stopped..]. split; [done|]. by apply (Hq a m' j).
Qed.
(** Nothing is bound before recovery is done, and a start that succeeds left
    nothing open and serves from a private socket of its own. *)
Lemma serve_start_hoare : hoare (untouched m0) (serve_start p build given options)
  (fun _ m => recovered m0 m /\ Secure p (Machine.place m)) (stopped m0).
Proof using HI Hscan Hseq.
  unfold serve_start, serve_open.
  eapply (hoare_bind _ _ _ _ (fun _ => untouched m0)); [apply hoare_lift; [done|apply untouched_stopped]|]. intros producer.
  eapply (hoare_bind _ _ _ _ (fun _ => untouched m0)).
  { eapply (hoare_bind _ _ _ _ (fun _ => untouched m0)); [apply hoare_lift; [done|apply untouched_stopped]|]. intros at_.
    eapply hoare_bind; [apply on_host_untouched, untouched_stopped|]. intros keys. by apply hoare_ret. }
  intros fp. eapply hoare_bind; [apply recover_hoare|]. intros report.
  do 3 (eapply hoare_bind; [apply hoare_noop; intros ?; apply recovered_stopped|]; intros []).
  eapply hoare_conseq; [intros m; exact id| |intros m; exact id|apply on_socket_recovered, good_server_bind].
  intros [] m [Hr (s & Hs)]. split; [done|]. by eapply serving_Secure.
Qed.
End start.

Lemma run_snoc db e l : run (run db [e]) l = run db (e :: l).
Proof using Type. done. Qed.
(** Request tasks run some first part of the session, all of it unless the
    process dies. *)
Lemma session_runs session : forall m i r m' j, proc_each (served name) session m i = (r, m', j) ->
  exists ran, ran `prefix_of` session /\ store_at name m' = run (store_at name m) ran /\ others m m' /\
    Machine.place m' = Machine.place m /\ Machine.announced m' = Machine.announced m /\
    (r = None \/ r = Some (Ok tt) /\ ran = session).
Proof using Type.
  induction session as [|e session IH]; intros m i r m' j; cbn [proc_each].
  { intros [= <- <- <-]. exists []. split_and!; auto using prefix_nil. }
  unfold mbind, Proc_bind, served at 1. destruct (fate i).
  3: { intros [= <- <- <-]. exists []. split_and!; auto using prefix_nil. }
  all: intros (ran & Hp & Hs & Ho & Hpl & Ha & Hr)%IH; exists (e :: ran); rewrite store_at_with, run_snoc in Hs;
    split_and!; [by apply prefix_cons|done| |done|done|destruct Hr as [?|[? ->]]; auto];
    intros n Hn; rewrite Ho by done; cbn; by rewrite lookup_insert_ne.
Qed.
Lemma session_Typed session ran : Typed session -> ran `prefix_of` session -> Typed ran.
Proof using Type. intros Ht [rest Hr]. unfold Typed in *. rewrite Hr in Ht. by apply Forall_app in Ht as [? _]. Qed.
Local Abbreviation requests := (Given.session given ++ Given.drained given).

(** After the session: the server lets go of the path, and the drain runs. *)
Lemma drain_runs m i r m' j :
  (_ ← on_socket p server_serve; proc_each (served name) (Given.drained given)) m i = (r, m', j) ->
  exists ran, ran `prefix_of` Given.drained given /\ store_at name m' = run (store_at name m) ran /\ others m m' /\
    Machine.announced m' = Machine.announced m /\ (r = Some (Ok tt) -> ran = Given.drained given).
Proof using Type.
  unfold mbind, Proc_bind. pose proof (on_socket_beside p server_serve m i) as Hb.
  destruct (on_socket p server_serve m i) as [[r1 m1] k]. cbn in Hb. destruct Hb as (_ & Hs & Ha).
  assert (store_at name m1 = store_at name m /\ others m m1) as [Hs1 Ho1] by (unfold store_at; by rewrite Hs).
  destruct r1 as [[[]|e]|].
  - intros (ran & Hp & Hd & Ho & _ & Ha' & Hr)%session_runs. exists ran. rewrite <- Hs1. split_and!; [done|done| |congruence|].
    + intros n Hn. by rewrite Ho, Ho1.
    + intros ->. by destruct Hr as [?|[_ ?]].
  - intros [= <- <- <-]. exists []. split_and!; [apply prefix_nil|done|done|done|done].
  - intros [= <- <- <-]. exists []. split_and!; [apply prefix_nil|done|done|done|done].
Qed.
(** The session, then the end. *)
Lemma requests_run m i r m' j :
  (_ ← proc_each (served name) (Given.session given); _ ← on_socket p server_serve;
   proc_each (served name) (Given.drained given)) m i = (r, m', j) ->
  exists ran, ran `prefix_of` requests /\ store_at name m' = run (store_at name m) ran /\ others m m' /\
    Machine.announced m' = Machine.announced m /\ (r = Some (Ok tt) -> ran = requests).
Proof using Type.
  unfold mbind at 1, Proc_bind at 1. destruct (proc_each _ _ m i) as [[r1 m1] k] eqn:E.
  apply session_runs in E as (ran & Hp & Hd & Ho & _ & Ha & [->|[-> ->]]).
  { intros [= <- <- <-]. exists ran. split_and!; [by apply prefix_app_r|done|done|done|done]. }
  intros (ran & Hp2 & Hd2 & Ho2 & Ha2 & Hr2)%drain_runs. exists (Given.session given ++ ran).
  split_and!; [by apply prefix_app|rewrite Hd2, Hd; unfold run; by rewrite foldl_app| |congruence|by intros ->%Hr2].
  intros n Hn. by rewrite Ho2, Ho.
Qed.

(** What follows a start: the announcement, the requests, the end. *)
Lemma serve_rest line ready k r m' j :
  (_ ← announce line; _ ← proc_each (served name) (Given.session given); _ ← on_socket p server_serve;
   proc_each (served name) (Given.drained given)) ready k = (r, m', j) ->
  exists ran, store_at name m' = run (store_at name ready) ran /\ ran `prefix_of` requests /\ others ready m' /\
    (r = Some (Ok tt) -> ran = requests) /\
    (ran <> [] -> fate k = Fault.Fine -> Machine.announced m' = Machine.announced ready ++ [lit "ready " ++ line]).
Proof using Type.
  unfold mbind at 1, Proc_bind at 1, announce. destruct (fate k).
  - intros (ran & Hp & Hd & Ho & Ha & Hr)%requests_run. exists ran. by split_and!.
  - intros (ran & Hp & Hd & Ho & Ha & Hr)%requests_run. exists ran. by split_and!.
  - intros [= <- <- <-]. exists []. split_and!; [done|apply prefix_nil|done|done|done].
Qed.

(** C13. A daemon recovers before it is reachable. Whatever fails and wherever
    the process dies, the store keeps its invariant and no other store is
    touched; until recovery has ended every open invocation, [serve] touches
    neither the socket's path nor announces anything; and it runs requests
    only from a machine in which every invocation has ended and it holds the
    directory's lock and listens at a private socket of its own, so that what
    it leaves is the recovered store after some first part of the operations
    that the requests' tasks ran before the shutdown and then in the drain,
    all of them when it returns. The process may die before any transaction,
    those of the recovery too. *)
Theorem serve_recovers_first (m m' : Machine) (i j : nat) (r : option (result DaemonError unit)) :
  Inv (store_at name m) -> Scan (store_at name m) (Given.scan given) ->
  last_seq (store_at name m) + Z.of_nat (length (Given.scan given)) <= u64_max -> Typed requests ->
  serve p build given options m i = (r, m', j) ->
  Inv (store_at name m') /\ (forall n, n <> name -> Machine.stores m' !! n = Machine.stores m !! n) /\
  ((forall a, r <> Some (Ok a)) /\ Machine.announced m' = Machine.announced m /\
     (Machine.place m' = Machine.place m \/ settled_down (store_at name m')) \/
   exists ready ran k, serve_start p build given options m i = (Some (Ok tt), ready, k) /\
     settled_down (store_at name ready) /\ Secure p (Machine.place ready) /\
     Machine.announced ready = Machine.announced m /\
     ran `prefix_of` requests /\ store_at name m' = run (store_at name ready) ran /\
     (r = Some (Ok tt) -> ran = requests) /\
     (ran <> [] -> fate k = Fault.Fine ->
        Machine.announced m' = Machine.announced m ++ [lit "ready " ++ join_path (Serve.socket_dir options) SOCKET_NAME])).
Proof using Type.
  intros HI Hs Hl Ht. pose proof (serve_start_hoare m HI Hs Hl m i) as Hst. unfold serve, mbind at 1, Proc_bind at 1.
  destruct (serve_start p build given options m i) as [[[[[]|e]|] m1] k].
  2, 3: intros [= <- <- <-]; destruct (Hst (conj eq_refl (conj eq_refl eq_refl))) as (HI' & Ho & Ha & Hp);
    split_and!; [done|done|]; left; split_and!; done.
  destruct (Hst (conj eq_refl (conj eq_refl eq_refl))) as [(HI1 & Hset & Ho & Ha) Hsec].
  intros (ran & Hd & Hpre & Ho' & Hall & Hann)%serve_rest. rewrite Ha in Hann. split; [|split].
  - rewrite Hd. apply run_Inv_from; [done|]. by apply (session_Typed requests).
  - intros n Hn. by rewrite Ho', Ho.
  - right. exists m1, ran, k. split_and!; done.
Qed.
End serving.

(** ** [tenant add] step by step *)
Section adding.
Context `{Holder} `{Hashes} (build : Build) (given : Given).

Lemma on_store_Ok {A : Type} name (f : Db -> result StoreError A * Db) m i a m' j :
  on_store name f m i = (Some (Ok a), m', j) -> f (store_at name m) = (Ok a, store_at name m').
Proof using Type.
  unfold on_store. destruct (fate i); [|done..]. destruct (f (store_at name m)) as [[x|[]] db]; try done.
  intros [= -> <- _]. unfold store_at. cbn. by rewrite lookup_insert_eq.
Qed.
(** A [tenant add] that returns did what [tenant_add] does. *)
Lemma tenant_add_steps_Ok (add : TenantAdd) (m m' : Machine) (i j : nat) :
  tenant_add_steps build given add m i = (Some (Ok tt), m', j) ->
  tenant_add NoFailpoints (now_at build given 0) (now_at build given 1) (now_at build given 2) (Given.random given) add
    (store_at (TenantAdd.store add) m) = (Ok tt, store_at (TenantAdd.store add) m').
Proof using Type.
  intros (a & m1 & k & Hreg%on_store_Ok & Hrest)%proc_bind_Ok. unfold tenant_add. rewrite Hreg. revert Hrest.
  destruct (bool_decide _); [by intros (_ & -> & _)%proc_ret_Ok|].
  intros (grant & m2 & k2 & (-> & -> & ->)%proc_lift_Ok & Hins%on_store_Ok)%proc_bind_Ok. by rewrite Hins.
Qed.
End adding.

(** ** Exit codes *)

(** A computation that never ends in a usage error. *)
Definition no_usage {T A : Type} (f : Proc T DaemonError A) : Prop :=
  forall w i message, (f w i).1.1 <> Some (Err (DaemonError.Usage message)).
Lemma no_usage_ret {T A : Type} (a : A) : no_usage (T := T) (mret a).
Proof. done. Qed.
Lemma no_usage_bind {T A B : Type} (f : Proc T DaemonError A) (g : A -> Proc T DaemonError B) :
  no_usage f -> (forall a, no_usage (g a)) -> no_usage (f ≫= g).
Proof.
  intros Hf Hg w i message. specialize (Hf w i message). unfold mbind, Proc_bind.
  destruct (f w i) as [[[[a|e]|] w'] j]; [by apply Hg|by intros [= ->]|done].
Qed.
Lemma no_usage_lift {T A : Type} (r : result DaemonError A) :
  (forall message, r <> Err (DaemonError.Usage message)) -> no_usage (T := T) (proc_lift r).
Proof. intros Hr w i message [= ->]. by apply (Hr message). Qed.
Lemma no_usage_step `{Env} {T : Type} (e : Errno -> DaemonError) (f : T -> T) :
  (forall errno message, e errno <> DaemonError.Usage message) -> no_usage (step e f).
Proof. intros He w i message. unfold step. destruct (fate i); cbn; [done| |done]. intros [= Hx]. by apply He in Hx. Qed.
Lemma no_usage_each {T A : Type} (f : A -> Proc T DaemonError unit) l : (forall a, no_usage (f a)) -> no_usage (proc_each f l).
Proof. intros Hf. induction l as [|a l IH]; [apply no_usage_ret|]. apply no_usage_bind; [done|]. by intros []. Qed.

Lemma no_usage_on_key {A : Type} (f : Proc Entry StoreError A) : no_usage (on_key f).
Proof. intros w i message. unfold on_key. by destruct (f _ _) as [[[[a|e]|] h] j]. Qed.
Lemma no_usage_on_dirs {A : Type} (f : Proc Fs StoreError A) : no_usage (on_dirs f).
Proof. intros w i message. unfold on_dirs. by destruct (f _ _) as [[[[a|e]|] h] j]. Qed.
Lemma no_usage_on_host {A : Type} (f : Proc Host DaemonError A) : no_usage f -> no_usage (on_host f).
Proof.
  intros Hf m i message. unfold on_host. specialize (Hf (Machine.host m) i message). by destruct (f _ _) as [[r h] j].
Qed.
Lemma no_usage_on_store `{Env} {A : Type} name (f : Db -> result StoreError A * Db) : no_usage (on_store name f).
Proof. intros m i message. unfold on_store. destruct (fate i); [|done..]. by destruct (f _) as [[a|[]] db]. Qed.

Fixpoint prog_no_usage {A : Type} (prog : Prog A) : Prop :=
  match prog with
  | Return r => forall message, r <> Err (DaemonError.Usage message)
  | Ask c k => forall a, prog_no_usage (k a)
  end.
Lemma prog_no_usage_bind {A B : Type} (prog : Prog A) (f : A -> Prog B) :
  prog_no_usage prog -> (forall a, prog_no_usage (f a)) -> prog_no_usage (prog ≫= f).
Proof. intros Hp Hf. induction prog as [[a|e]|c k IH]; cbn in *; [by apply Hf| |auto]. intros msg [= ->]. by apply (Hp msg). Qed.
Lemma prog_no_usage_or_undo undo prog : prog_no_usage prog -> prog_no_usage (or_undo undo prog).
Proof.
  induction prog as [[a|e]|c k IH]; cbn [or_undo]; intros Hp; [done| |intros x; apply IH, Hp].
  induction undo as [|c undo IH]; [|by intros x]. intros msg [= ->]. by apply (Hp msg).
Qed.
Lemma prog_no_usage_context {A : Type} e (r : result IoKind A) :
  (forall message, e <> DaemonError.Usage message) -> prog_no_usage (context e r).
Proof. intros He message. destruct r; cbn; congruence. Qed.
Lemma prog_no_usage_require b e : (forall message, e <> DaemonError.Usage message) -> prog_no_usage (require b e).
Proof. intros He message. destruct b; cbn; congruence. Qed.
Ltac prog_no_usage := repeat first
  [ progress intros | apply prog_no_usage_bind | apply prog_no_usage_or_undo
  | apply prog_no_usage_context; discriminate | apply prog_no_usage_require; discriminate
  | done | progress (cbn [prog_no_usage ask fail mret Prog_ret])
  | match goal with |- prog_no_usage (match ?x with _ => _ end) => destruct x end ].
Lemma prog_no_usage_server_bind has_parent : prog_no_usage (server_bind has_parent).
Proof. unfold server_bind, bind, prepare_dir, lock_dir, clear_stale, restrict. prog_no_usage. Qed.
Lemma prog_no_usage_server_serve : prog_no_usage server_serve.
Proof. unfold server_serve. prog_no_usage. Qed.
Lemma no_usage_on_socket `{Env} `{Users} {A : Type} p (prog : Prog A) : prog_no_usage prog -> no_usage (on_socket p prog).
Proof.
  induction prog as [r|c k IH]; cbn [prog_no_usage on_socket]; intros Hp m i message; [by intros [= ->]; apply (Hp message)|].
  destruct (fate i); [| |done]; destruct (perform _ _ _ _) as [a w]; by apply IH.
Qed.

Section exits.
Context `{Holder} `{Kdf} `{Entropy} `{Users} `{Hashes} (p : nat) (build : Build) (given : Given).

Lemma no_usage_open store : no_usage (cli_open_store store).
Proof using Type. apply no_usage_bind; [apply no_usage_on_key|]. intros root. apply no_usage_on_dirs. Qed.
Lemma load_lines_no_usage files index l producer message :
  load_lines files index l producer <> Err (DaemonError.Usage message).
Proof using Type.
  revert index producer. induction l as [|line l IH]; intros index producer; cbn [load_lines]; [done|].
  destruct (_ || _); [apply IH|]. destruct (parse_line files line) as [[target script]|]; [apply IH|done].
Qed.
Lemma producer_no_usage fixture message : producer_for given fixture <> Err (DaemonError.Usage message).
Proof using Type.
  unfold producer_for. destruct fixture as [script|]; [|done]. unfold fixture_load.
  destruct (Given.script given) as [text|]; [|done]. destruct (valid_utf8 text); [|done].
  pose proof (load_lines_no_usage (Given.script_files given) 0 (lines text) fixture_new message) as Hl.
  destruct (load_lines _ _ _ _) as [producer|e]; cbn [mbind result_bind]; [|congruence].
  unfold call_log_name. by destruct (file_name script).
Qed.
Lemma tenant_add_no_usage add : no_usage (tenant_add_steps build given add).
Proof using Type.
  apply no_usage_bind; [apply no_usage_on_store|]. intros []. destruct (bool_decide _); [apply no_usage_ret|].
  apply no_usage_bind; [|intros grant; apply no_usage_on_store]. apply no_usage_lift. intros message. unfold root_grant_id.
  destruct (TenantAdd.root_grant add); [done|]. by destruct (Given.random given).
Qed.
Lemma recover_no_usage name fp work : forall report, no_usage (recover_steps build given name fp report work).
Proof using Type.
  induction work as [|[id action] work IH]; intros report; cbn [recover_steps]; [apply no_usage_ret|].
  apply no_usage_bind; [|apply IH]. destruct report, action; cbn [recover_steps_one];
    repeat first [apply no_usage_bind; [apply no_usage_on_store|intros ?]|apply no_usage_ret].
Qed.
(** [serve] once its failpoint is known. *)
Lemma no_usage_serve options fp : no_usage (
  _ ← recover_steps build given (Serve.store options) fp report_default (open_invocations (Given.scan given));
  _ ← step (fun _ => DaemonError.Runtime) id;
  _ ← step (fun _ => DaemonError.Signal) id;
  _ ← step (fun _ => DaemonError.Signal) id;
  on_socket p (server_bind (bool_decide (Serve.socket_dir options <> [])))).
Proof using Type.
  apply no_usage_bind; [apply recover_no_usage|intros report].
  do 3 (apply no_usage_bind; [by apply no_usage_step|intros []]). apply no_usage_on_socket, prog_no_usage_server_bind.
Qed.
Lemma no_usage_rest options line : no_usage (
  _ ← announce line;
  _ ← proc_each (served (Serve.store options)) (Given.session given);
  _ ← on_socket p server_serve;
  proc_each (served (Serve.store options)) (Given.drained given)).
Proof using Type.
  apply no_usage_bind; [by intros m i message; unfold announce; destruct (fate i)|]. intros [].
  assert (forall l, no_usage (proc_each (served (Serve.store options)) l)) as Hs.
  { intros l. apply no_usage_each. intros e m i message. unfold served. by destruct (fate i). }
  apply no_usage_bind; [done|]. intros []. apply no_usage_bind; [apply no_usage_on_socket, prog_no_usage_server_serve|]. by intros [].
Qed.
(** The failpoint variable [serve] refuses. *)
Definition bad_failpoint (options : Serve) : Prop :=
  (exists producer, producer_for given (Serve.fixture options) = Ok producer) /\ Build.failpoints build = true /\
  exists message, abort_at_from_env (Given.failpoint_var given) = Err (DaemonError.Usage message).
Lemma serve_usage options m i m' j message :
  serve p build given options m i = (Some (Err (DaemonError.Usage message)), m', j) -> bad_failpoint options /\ m' = m.
Proof using Type.
  pose proof (no_usage_rest options (join_path (Serve.socket_dir options) SOCKET_NAME)) as Hrest.
  unfold serve. unfold mbind at 1, Proc_bind at 1. destruct (serve_start p build given options m i) as [[[[[]|e]|] m1] k] eqn:E.
  { intros Hr. exfalso. apply (Hrest m1 k message). by rewrite Hr. }
  2: done. intros [= -> -> ->]. revert E. unfold serve_start. unfold mbind at 1, Proc_bind at 1, proc_lift.
  pose proof (producer_no_usage (Serve.fixture options) message) as Hp. destruct (producer_for _ _) as [producer|e] eqn:Hprod; [|congruence].
  unfold mbind at 1, Proc_bind at 1. destruct (serve_open build given options m i) as [[[[fp|e]|] m2] k2] eqn:E.
  { intros Hr. exfalso. apply (no_usage_serve options fp m2 k2 message). by rewrite Hr. }
  2: done. intros [= -> -> ->]. revert E. unfold serve_open. unfold mbind at 1, Proc_bind at 1, proc_lift.
  destruct (Build.failpoints build) eqn:Hb.
  - destruct (abort_at_from_env (Given.failpoint_var given)) as [at_|e] eqn:Ha.
    + intros Hr. exfalso. revert Hr. unfold mbind, Proc_bind. cbn beta iota.
      pose proof (no_usage_on_host _ (no_usage_open (Serve.store options)) m i message) as Ho.
      destruct (on_host _ m i) as [[[[a|e]|] m3] k3]; unfold mret, Proc_ret; cbn in *; congruence.
    + intros [= -> -> ->]. split; [|done]. split; [by exists producer|]. split; [done|]. by exists message.
  - intros Hr. exfalso. revert Hr. unfold mbind, Proc_bind.
    pose proof (no_usage_on_host _ (no_usage_open (Serve.store options)) m i message) as Ho.
    destruct (on_host _ m i) as [[[[a|e]|] m3] k3]; unfold mret, Proc_ret; cbn in *; congruence.
Qed.
Lemma no_usage_command command : (forall options, command <> Command.Serve options) ->
  no_usage (run_command p build given command).
Proof using Type.
  intros Hc. destruct command as [|path|store key|add|options]; cbn [run_command]; [apply no_usage_ret|..|by destruct (Hc options)].
  - apply no_usage_on_host. apply no_usage_bind; [apply no_usage_on_key|]. intros ?. apply no_usage_ret.
  - apply no_usage_on_host. apply no_usage_bind; [apply no_usage_on_key|]. intros root.
    apply no_usage_bind; [apply no_usage_on_dirs|]. intros ?. apply no_usage_ret.
  - apply no_usage_bind; [apply no_usage_on_host, no_usage_open|]. intros keys. apply tenant_add_no_usage.
Qed.

(** A command line the program refuses. *)
Definition refused (args : list bytes) : Prop :=
  forallb valid_utf8 args = false \/ (exists e, parse args = Err e) \/
  exists options, parse args = Ok (Command.Serve options) /\ bad_failpoint options.

(** C29. What the exit code says. A process that does not die exits with 0, 1
    or 2; with 0 exactly when its command ran to its end; and with 2 exactly
    when the words are not UTF-8 or no command, or [serve] was given a
    failpoint that is none, and then nothing of the machine has changed. *)
Theorem exit_codes_exact (args : list bytes) (m m' : Machine) (i j : nat) (code : Z) :
  release p (Machine.place m) = Machine.place m ->
  main p build given args m i = (Some code, m', j) ->
  (code = 0 \/ code = 1 \/ code = 2) /\
  (code = 0 <-> forallb valid_utf8 args = true /\ exists command m1, parse args = Ok command /\
     run_command p build given command m i = (Some (Ok tt), m1, j)) /\
  (code = 2 <-> refused args) /\
  (code = 2 -> m' = m).
Proof using Type.
  intros Hp. unfold main, refused. destruct (forallb valid_utf8 args) eqn:Hu; cbn [negb].
  2: { intros [= <- <- <-]. split_and!; [auto|split; [done|by intros [? _]]|split; auto|done]. }
  destruct (parse args) as [command|e] eqn:Hc.
  2: { intros [= <- <- <-]. split_and!; [auto|split; [done|by intros (_ & ? & ? & ? & _)]|split; eauto|done]. }
  destruct (run_command p build given command m i) as [[r m1] k] eqn:Hr.
  assert (forall message, r = Some (Err (DaemonError.Usage message)) ->
    exists options, command = Command.Serve options /\ bad_failpoint options /\ m1 = m) as Huse.
  { intros message ->. destruct command as [|path|store key|add|options].
    5: { exists options. apply serve_usage in Hr as [? ?]. done. }
    all: exfalso; eapply no_usage_command; [|by rewrite Hr]; done. }
  assert (forall options, command = Command.Serve options -> bad_failpoint options ->
    exists message, r = Some (Err (DaemonError.Usage message))) as Hbad.
  { intros options -> ([producer Hprod] & Hf & message & Ha). exists message. revert Hr. cbn [run_command].
    unfold serve, serve_start, serve_open, mbind, Proc_bind, proc_lift. rewrite Hprod, Hf, Ha. by intros [= <- _ _]. }
  assert (refused args <-> exists message, r = Some (Err (DaemonError.Usage message))) as Hiff.
  { unfold refused. rewrite Hu, Hc. split.
    - intros [?|[(e & ?)|(options & [= ->] & Hb)]]; [done|done|by apply (Hbad options)].
    - intros [message (options & -> & Hb & _)%Huse]. right. right. by exists options. }
  unfold refused in Hiff. rewrite Hu, Hc in Hiff. rewrite Hiff. clear Hbad Hiff.
  destruct r as [[[]|e]|]; cbn [fmap option_fmap option_map exit_code]; [| |done].
  - intros [= <- <- <-]. split_and!; [auto| |split; [done|by intros [? ?]]|done]. split; [|done]. intros _. eauto.
  - intros [= <- <- <-]. destruct e.
    all: try (split_and!; [auto|split; [done|]|split; [done|]|done]; [intros (_ & c & m2 & [= <-] & Hx); congruence|by intros [? ?]]).
    destruct (Huse message eq_refl) as (options & _ & _ & ->). split_and!; [auto| |split; eauto|].
    + split; [done|]. intros (_ & c & m2 & [= <-] & Hx). congruence.
    + intros _. unfold with_place. rewrite Hp. by destruct m.
Qed.
End exits.

(** ** An unreadable clock *)

(** A clock file that is missing, not UTF-8 or no number reads as the last
    instant, at which no grant is valid: every request is refused. *)
Theorem unreadable_clock_denies `{Hashes} (db : Db) (path : str) (reading : Reading) (request : AuthzRequest) :
  Inv db -> (forall g grant, view_grant db g = Ok (Some grant) -> Grant.expires_at grant <= I64_MAX) ->
  (text ← Reading.file reading path; if valid_utf8 text then parse_i64 (trim text) else None) = None ->
  forall ids reservation,
    authorize db request (clock_now (daemon_clock true (Some path)) reading) <> Ok (Decision.Allowed ids reservation).
Proof.
  intros HI He Hr ids res (_ & chain & debited & ledgers & Hd & _)%authorize_inv. cbn in Hd. unfold file_now in Hd. rewrite Hr in Hd.
  apply designated_chain_Ok in Hd as (leaf & Hv & _ & _ & HL & Hus & _); [|apply Inv_view_u8, HI].
  apply He in Hv. destruct HL; apply Forall_cons in Hus as [[_ Hus] _]; cbn in Hus; lia.
Qed.
