(* ===== verification/Scenario.v ===== *)
(** * A concrete deployment, on which the properties are exercised

    One operator tenant with a root grant, one agent tenant with a grant
    issued from it, a session, and one capture taken through every boundary.
    The hashes are the identity, which is injective. *)
From S2P Require Import Prelude Vocab Ids Payload Wire Epitrope Origin View Chain Issue.
From S2P Require Import Budget Decision Lifecycle Records Store Seal RecordKey StoreAudit.
From S2P Require Import Invocation Transition Directory Claim Shred Recovery Read Invariant.
From S2P Require Import Steps StoreRun Runs Ceiling.
Local Open Scope Z_scope.

(** Physical keys as the bits of a code of the slot. *)
Fixpoint pos_bytes (p : positive) : bytes :=
  match p with
  | xH => []
  | xO p => z2b 0 :: pos_bytes p
  | xI p => z2b 1 :: pos_bytes p
  end.
Lemma pos_bytes_inj p q : pos_bytes p = pos_bytes q -> p = q.
Proof. revert q; induction p as [p IH|p IH|]; intros [q|q|]; cbn; intros He; try done; f_equal; apply IH; congruence. Qed.
Definition walk_code (k : WalkKey) : positive :=
  match k with
  | WalkKey.Idem slot => countable.encode (1%positive, countable.encode slot)
  | WalkKey.Artifact slot => countable.encode (2%positive, countable.encode slot)
  | WalkKey.Pending slot => countable.encode (3%positive, countable.encode slot)
  | WalkKey.Locator slot => countable.encode (4%positive, countable.encode slot)
  | WalkKey.Blob slot => countable.encode (5%positive, countable.encode slot)
  | WalkKey.SessionIndex slot => countable.encode (6%positive, countable.encode slot)
  | WalkKey.Audit slot => countable.encode (7%positive, countable.encode slot)
  end.
Lemma walk_code_inj k k' : walk_code k = walk_code k' -> k = k'.
Proof.
  destruct k, k'; unfold walk_code; intros He; apply encode_inj in He; simplify_eq; try done; f_equal;
    match goal with H : countable.encode _ = countable.encode _ |- _ => by apply encode_inj in H end.
Qed.
#[global] Instance plain_hashes : Hashes.
Proof.
  refine {| sha256 b := b; blob_address _ b := b; physical k := pos_bytes (walk_code k) |}.
  intros k k' _ He. by apply walk_code_inj, pos_bytes_inj.
Defined.

(** ** Names *)
Definition id16 (b : byte) : bytes := repeat b 16.
Definition operator : TenantId := TenantId_from_bytes (id16 x01).
Definition agent : TenantId := TenantId_from_bytes (id16 x02).
Definition root_id : GrantId := GrantId_from_bytes (id16 x03).
Definition child_id : GrantId := GrantId_from_bytes (id16 x04).
Definition session_id : SessionId := SessionId_from_bytes (id16 x05).
Definition call (b : byte) : InvocationId := InvocationId_from_bytes (id16 b).

(** ** Requests *)
Definition limits : Ceilings := Ceilings.mk (Some 60000) (Some 10) (Some 1000000) None None None.
Definition small_cost : Cost := Cost.mk 1000 1 4096 2048 0 0.
Definition register (t : TenantId) (class : TenantClass) (parent : option TenantId) : TenantRegistration :=
  TenantRegistration.mk t class (repeat x07 32) [1000] parent ceilings_default.
Definition root : RootGrant :=
  RootGrant.mk root_id operator
    {[Capability.Capture; Capability.Read; Capability.GrantIssue; Capability.GrantRevoke]}
    SessionScope.Own [lit "*.example.org"] AuditScope.All limits 0 10000 3.
Definition issue_request : GrantIssueRequest :=
  GrantIssueRequest.mk agent [Capability.Capture; Capability.Read] SessionScope.Own
    [lit "docs.example.org"] (Ceilings.mk (Some 5000) (Some 2) (Some 100000) None None None) 10 5000 None.
Definition issue : GrantIssue :=
  GrantIssue.mk (IssueContext.mk operator root_id child_id) issue_request (call x10).
Definition new_session : NewSession := NewSession.mk session_id agent ceilings_default (call x11).
Definition capture_authz : AuthzRequest :=
  AuthzRequest.mk agent child_id Capability.Capture (Some (lit "https://docs.example.org/page"))
    (Some session_id) small_cost.
Definition capture_key : IdempotencyKey := IdempotencyKey_unchecked (repeat x09 16).
Definition capture : Intent := Intent.mk (call x20) capture_authz capture_key (repeat x08 32).
Definition page : bytes := lit "captured page bytes".
Definition transfer : Transfer :=
  Transfer.mk page (SourceRef.mk (lit "f") (lit "s") (lit "r")) (Some (lit "text")) false 19
    (Cost.mk 500 1 19 19 0 0) false.

(** ** Traces *)
Definition at_ (now : Timestamp) (op : Op) : Event := (NoFailpoints, now, op).
Definition setup : list Event :=
  [at_ 1 (Op.RegisterTenant (register operator TenantClass.Operator None));
   at_ 2 (Op.RegisterTenant (register agent TenantClass.Agent (Some operator)));
   at_ 3 (Op.InstallRootGrant root);
   at_ 20 (Op.IssueGrant issue);
   at_ 30 (Op.OpenSession new_session None)].
Definition begun : list Event := setup ++ [at_ 40 (Op.Begin capture)].
Definition dispatched : list Event := begun ++ [at_ 41 (Op.Dispatch (call x20))].
Definition transferred : list Event := dispatched ++ [at_ 42 (Op.CompleteTransfer (call x20) transfer)].
Definition finished : list Event :=
  transferred ++ [at_ 43 (Op.Publish (call x20)); at_ 44 (Op.Settle (call x20) SettleOutcome.Success)].

(** ** The traces are within the machine widths *)
Lemma ceilings_wf_default : ceilings_wf ceilings_default.
Proof. by intros []. Qed.
Ltac by_widths :=
  repeat match goal with |- _ /\ _ => split end;
  first [ done | apply ceilings_wf_default
        | by apply cost_wfb_spec; vm_compute
        | by intros [] z [= <-]; vm_compute; split; intros [=] | by vm_compute; split; intros [=] ].
Ltac by_typed :=
  unfold Typed; cbv [begun dispatched transferred finished setup app];
  repeat (apply Forall_cons; split; [cbn [OpTyped at_ snd]|]); [..|apply Forall_nil; exact I];
  cbn; by_widths.
Lemma typed_setup : Typed setup.
Proof. by_typed. Qed.
Lemma typed_begun : Typed begun.
Proof. by_typed. Qed.
Lemma typed_dispatched : Typed dispatched.
Proof. by_typed. Qed.
Lemma typed_finished : Typed finished.
Proof. by_typed. Qed.

(** The agent's record after the capture. *)
Definition agent_record : TenantRecord :=
  default (TenantRecord.mk agent TenantClass.Agent [] [] None ceilings_default 0 0)
    (Db.tenants (run empty_db finished) !! agent).
Lemma agent_registered : Db.tenants (run empty_db finished) !! agent = Some agent_record.
Proof. vm_compute. reflexivity. Qed.

(** The deployment before any call, as a store. *)
Definition ready : Db := run empty_db setup.
Lemma ready_Inv : Inv ready.
Proof. apply run_Inv, typed_setup. Qed.
Lemma ready_u8 : view_u8 ready.
Proof. apply Inv_view_u8, ready_Inv. Qed.

(** Its two grants as the view reads them; the other branch is not taken. *)
Definition no_grant : Grant :=
  Grant.mk root_id operator operator ∅ SessionScope.Own (TargetScope_mk []) AuditScope.All
    ceilings_default 0 0 None 0 0.
Definition grant_at (i : GrantId) : Grant :=
  match view_grant ready i with Ok (Some g) => g | _ => no_grant end.
Definition root_grant : Grant := grant_at root_id.
Definition child_grant : Grant := grant_at child_id.
Definition found (i : GrantId) : bool := match view_grant ready i with Ok (Some _) => true | _ => false end.
Lemma grant_at_found i : found i = true -> view_grant ready i = Ok (Some (grant_at i)).
Proof. unfold found, grant_at. by destruct (view_grant ready i) as [[g|]|e]. Qed.
Lemma child_found : view_grant ready child_id = Ok (Some child_grant).
Proof. apply grant_at_found. vm_compute. reflexivity. Qed.
Lemma root_found : view_grant ready root_id = Ok (Some root_grant).
Proof. apply grant_at_found. vm_compute. reflexivity. Qed.

(** The chain of the agent's grant, as the walk reads it. *)
Definition agent_chain : list Grant :=
  match check_chain ready child_grant 100 with Ok (ChainStatus.Valid chain) => chain | _ => [] end.
Lemma agent_chain_valid : check_chain ready child_grant 100 = Ok (ChainStatus.Valid agent_chain).
Proof.
  assert (match check_chain ready child_grant 100 with Ok (ChainStatus.Valid _) => true | _ => false end = true)
    as Hv by (vm_compute; reflexivity).
  unfold agent_chain. by destruct (check_chain ready child_grant 100) as [[chain|code i]|e].
Qed.

(** B1 of the capture commits. *)
Lemma capture_persisted : exists status, begin_tx 40 ready capture =
  Ok (Committed (Some Boundary.PersistIntent) (Begin.Persisted status) (run empty_db begun)).
Proof.
  assert (match begin_tx 40 ready capture with
          | Ok (Committed (Some Boundary.PersistIntent) (Begin.Persisted _) _) => true | _ => false end = true)
    as Hv by (vm_compute; reflexivity).
  assert (run empty_db begun = snd (begin NoFailpoints 40 ready capture)) as -> by reflexivity.
  unfold begin, with_tx. destruct (begin_tx 40 ready capture) as [[a|[[]|] [status| | |] db']|e]; try discriminate Hv.
  by exists status.
Qed.
Lemma setup_persisted : exists status, begin_tx 40 (run empty_db setup) capture =
  Ok (Committed (Some Boundary.PersistIntent) (Begin.Persisted status) (run empty_db begun)).
Proof. exact capture_persisted. Qed.
(** B3 and B4 too. *)
Lemma capture_stored : exists st1 st2 db1 db2,
  complete_transfer NoFailpoints 42 (run empty_db dispatched) (call x20) transfer = (Ok st1, db1) /\
  publish NoFailpoints 43 db1 (call x20) = (Ok st2, db2).
Proof.
  destruct (complete_transfer NoFailpoints 42 (run empty_db dispatched) (call x20) transfer)
    as [r1 db1] eqn:E1. destruct (publish NoFailpoints 43 db1 (call x20)) as [r2 db2] eqn:E2.
  assert (match r1 with Ok _ => true | _ => false end = true) as H1.
  { replace r1 with (fst (complete_transfer NoFailpoints 42 (run empty_db dispatched) (call x20) transfer))
      by (by rewrite E1). vm_compute. reflexivity. }
  assert (match r2 with Ok _ => true | _ => false end = true) as H2.
  { replace r2 with (fst (publish NoFailpoints 43 db1 (call x20))) by (by rewrite E2).
    replace db1 with (snd (complete_transfer NoFailpoints 42 (run empty_db dispatched) (call x20) transfer))
      by (by rewrite E1). vm_compute. reflexivity. }
  destruct r1 as [st1|]; [|discriminate H1]. destruct r2 as [st2|]; [|discriminate H2].
  exists st1, st2, db1, db2. split; [reflexivity|exact E2].
Qed.

(** A claim of the operator's idempotency key. *)
Definition revoke_claim : IdemClaim :=
  IdemClaim.mk operator root_id Capability.GrantRevoke (IdempotencyKey_unchecked (repeat x0a 16))
    (repeat x0b 32) (call x30).
Definition revoke_child : RevokeGrant := RevokeGrant.mk operator child_id (call x31).
(** The agent's key rotating from 1 to 2, a claim made before still under 1. *)
Definition rotating : Db :=
  set_idem <[(agent, Capability.GrantRevoke, capture_key) :=
               Sealed.mk 1 (IdemRecord.mk (call x32) (repeat x0c 32))]>
    (set_rekey <[agent := RekeyRecord.mk agent 1 2 0 None 0 0 1 false 50 None]>
      (set_address_keys (union {[agent]}) (set_data_keys (union {[(agent, 2)]})
        (set_tenants <[agent := TenantRecord.mk agent TenantClass.Agent (repeat x07 32) [1000]
           (Some operator) ceilings_default 2 2]> ready)))).
Definition rotating_claim : IdemClaim :=
  IdemClaim.mk agent child_id Capability.GrantRevoke capture_key (repeat x0b 32) (call x33).

(** The root grant revoked, and a grant id nobody holds. *)
Definition root_revoked : Db :=
  set_revocations <[root_id := RevocationRecord.mk root_id 9 60 operator]> ready.
Lemma revocations_u8 f db : Inv db -> view_u8 (set_revocations f db).
Proof. intros HI. apply Inv_view_u8. apply (inv_grants db HI). Qed.
Lemma view_grant_revocations f db i : view_grant (set_revocations f db) i = view_grant db i.
Proof. reflexivity. Qed.
Lemma root_found_revoked : view_grant root_revoked root_id = Ok (Some root_grant).
Proof. unfold root_revoked. rewrite view_grant_revocations. apply root_found. Qed.
Lemma root_revoked_u8 : view_u8 root_revoked.
Proof. apply revocations_u8. exact ready_Inv. Qed.
Definition unused_id : GrantId := GrantId_from_bytes (id16 x0f).
Definition grants_read (db : Db) : bool :=
  forallb (fun p => match grant_of_record (Some p.2) with Ok _ => true | _ => false end)
    (map_to_list (Db.grants db)).
Lemma grants_read_spec db i : grants_read db = true -> exists g, view_grant db i = Ok g.
Proof.
  intros Hall. cbn. destruct (Db.grants db !! i) as [rec|] eqn:E; [|eexists; reflexivity].
  unfold grants_read in Hall. rewrite forallb_forall in Hall. specialize (Hall (i, rec)).
  rewrite <- list_elem_of_In, elem_of_map_to_list in Hall. specialize (Hall E). cbn [snd] in Hall.
  destruct (grant_of_record (Some rec)) as [g|e]; [|discriminate Hall]. by exists g.
Qed.

(** A fixed-width codec for [Cancel]. *)
Definition cancel_to_bytes (m : Cancel) : option bytes :=
  if bool_decide (in_range u64_max (Cancel.request_id m)) then Some (to_le_bytes 8 (Cancel.request_id m)) else None.
Definition cancel_access (b : bytes) : option Cancel :=
  if bool_decide (length b = 8%nat) then Some (Cancel.mk (from_le_bytes b)) else None.
Lemma cancel_codec m b : cancel_to_bytes m = Some b -> cancel_access b = Some m.
Proof.
  unfold cancel_to_bytes, cancel_access. case_bool_decide as Hr; [|done].
  intros He. apply (inj Some) in He. subst b.
  rewrite bool_decide_eq_true_2 by apply length_to_le_bytes. destruct m as [n]. do 2 f_equal.
  cbn [Cancel.request_id] in *. rewrite from_to_le_bytes. apply Z.mod_small.
  unfold in_range, u64_max in Hr. lia.
Qed.

(** A cipher that obeys the laws: the tag repeats the length of the
    additional data. *)
Definition toy_tag (a : bytes) : bytes := repeat (z2b (Z.of_nat (length a))) TAG_LEN.
#[global] Instance toy_aead : Aead := {|
  aead_encrypt _ _ a m := Some (m ++ toy_tag a);
  aead_decrypt _ _ a c :=
    let m := take (length c - TAG_LEN) c in
    if bool_decide (c = m ++ toy_tag a) then Some m else None |}.
#[global] Instance toy_laws : AeadLaws.
Proof.
  constructor. cbn [aead_encrypt aead_decrypt toy_aead]. intros k n a m c Hc. apply (inj Some) in Hc. subst c.
  assert (length (toy_tag a) = TAG_LEN) as Ht by apply repeat_length.
  rewrite length_app, Ht. replace (length m + TAG_LEN - TAG_LEN)%nat with (length m) by lia.
  rewrite take_app_length. by rewrite bool_decide_eq_true_2.
Qed.
Definition seal_key : SealingKey := SealingKey.mk 7 (repeat x01 32).
Definition seal_ctx (record_key : bytes) : SealContext :=
  SealContext.mk 1 Keyspace.Blobs 11 record_key.
Definition seal_nonce : bytes := repeat x02 NONCE_LEN.
Definition store_kek : StoreKek := StoreKek.mk 1 (repeat x03 32).
Definition agent_data_key : TenantDataKey := TenantDataKey.mk 2 (repeat x04 32).

#[global] Opaque ready child_grant root_grant agent_chain.
