(* ===== verification/Witness.v ===== *)
(** * The properties at concrete inputs

    One lemma per property with hypotheses: the property applied to the
    deployment of [Scenario], each hypothesis discharged by evaluation. *)
From S2P Require Import Prelude Vocab Ids Payload Wire Epitrope Origin View Chain Issue.
From S2P Require Import Budget Decision Revoke Lifecycle Records Store Seal RecordKey StoreAudit.
From S2P Require Import Invocation Transition Directory Claim Shred Recovery Read Invariant.
From S2P Require Import Steps StoreRun Runs Ceiling Guarantees.
From S2P Require Import Idempotency Custody AuditRead Rekey RekeyInv Rotation Scenario.
Local Open Scope Z_scope.

(** ** The store *)
Lemma ledgers_balanced_witness :
  let db := run empty_db begun in
  cost_get (view_ledger db (LedgerRef.Grant root_id)) Dimension.BytesTransferred = 4096 /\
  map_sum (share (LedgerRef.Grant root_id) Dimension.BytesTransferred) (Db.invocations db) = 4096.
Proof.
  pose proof (ledgers_balanced begun (LedgerRef.Grant root_id) Dimension.BytesTransferred typed_begun)
    as [He _].
  cbv zeta. rewrite <- He. split; vm_compute; reflexivity.
Defined.

Lemma no_ledger_over_ceiling_witness :
  cost_get (view_ledger (run empty_db begun) (LedgerRef.Grant child_id)) Dimension.Fetches <= 2.
Proof.
  apply (no_ledger_over_ceiling begun (LedgerRef.Grant child_id) Dimension.Fetches
           (Ceilings.mk (Some 5000) (Some 2) (Some 100000) None None None) 2 typed_begun);
    vm_compute; reflexivity.
Defined.

Lemma invocations_follow_table_witness :
  exists r, Db.invocations (run empty_db begun) !! call x20 = Some r /\
  exists r' steps,
    Db.invocations (exec NoFailpoints 41 (run empty_db begun) (Op.Dispatch (call x20))) !! call x20 = Some r' /\
    Run (InvocationRecord.state r) steps (InvocationRecord.state r').
Proof.
  destruct (Db.invocations (run empty_db begun) !! call x20) as [r|] eqn:E; [|vm_compute in E; discriminate E].
  destruct (invocations_follow_table begun NoFailpoints 41 (Op.Dispatch (call x20)) (call x20) r
              typed_begun I E) as [(r' & steps & Hr & Hrun & _) _].
  exists r. split; [reflexivity|]. exists r', steps. split; [exact Hr|exact Hrun].
Defined.

(** The record of the capture, ended. *)
Lemma settled_exactly_once_witness :
  exists r, Db.invocations (run empty_db finished) !! call x20 = Some r /\
    dispatch NoFailpoints 50 (run empty_db finished) (call x20) =
      (Err (StoreError.Authz (Error.IllegalTransition (InvocationRecord.state r) Step.Dispatch)),
       run empty_db finished).
Proof.
  destruct (Db.invocations (run empty_db finished) !! call x20) as [r|] eqn:E; [|vm_compute in E; discriminate E].
  assert (is_terminal (InvocationRecord.state r) = true) as Ht
    by (vm_compute in E; injection E as <-; reflexivity).
  exists r. split; [reflexivity|].
  exact (proj1 (settled_exactly_once NoFailpoints 50 (run empty_db finished) (call x20) r transfer
           SettleOutcome.Success ReleaseReason.Cancelled E Ht)).
Defined.

Lemma crash_atomic_witness :
  let fp := {| Failpoint.before_commit _ := false; Failpoint.after_commit _ := true |} in
  exec fp 40 ready (Op.Begin capture) = ready \/
  exec fp 40 ready (Op.Begin capture) = exec NoFailpoints 40 ready (Op.Begin capture).
Proof. intros fp. apply (crash_atomic fp 40 ready (Op.Begin capture)). intros scan. discriminate. Defined.

Lemma audit_contiguous_witness : is_Some (Db.audit_stub (run empty_db finished) !! 3) /\ last_seq (run empty_db finished) = 3.
Proof.
  split; [|vm_compute; reflexivity].
  apply (audit_contiguous finished 3 typed_finished). vm_compute. split; intros [=].
Defined.

Lemma recover_completes_witness :
  exists report db', recover NoFailpoints 100 (run empty_db dispatched)
      (map_to_list (Db.invocations (run empty_db dispatched))).*2 = (Ok report, db') /\
    exists r', Db.invocations db' !! call x20 = Some r' /\
      InvocationRecord.state r' = InvocationState.UnknownEffect.
Proof.
  destruct (recover_completes dispatched 100 200 NoFailpoints
    (map_to_list (Db.invocations (run empty_db dispatched))).*2 typed_dispatched)
    as (report & db' & Hr & _ & Hall & _).
  - unfold Scan. reflexivity.
  - vm_compute. intros [=].
  - destruct (Db.invocations (run empty_db dispatched) !! call x20) as [r|] eqn:E; [|vm_compute in E; discriminate E].
    destruct (Hall _ _ E) as (r' & Hr' & Hs & _).
    assert (InvocationRecord.state r = InvocationState.Dispatched) as Hd
      by (vm_compute in E; injection E as <-; reflexivity).
    rewrite Hd in Hs. exists report, db'. split; [exact Hr|]. exists r'. split; [exact Hr'|exact Hs].
Defined.

Lemma begin_outcomes_witness :
  exists r, Db.invocations (run empty_db begun) = <[call x20 := r]> (Db.invocations ready) /\
    InvocationRecord.reserved r = small_cost.
Proof.
  destruct capture_persisted as [status Hb].
  assert (begin NoFailpoints 40 ready capture = (Ok (Begin.Persisted status), run empty_db begun)) as Hr
    by (unfold begin; rewrite Hb; reflexivity).
  destruct (begin_outcomes _ _ _ _ _ _ Hr) as (chain & res & r & _ & _ & Hi & _ & _ & _ & Hc & _).
  exists r. split; [exact Hi|exact Hc].
Defined.

(** The same key again after the first attempt has run to its end. *)
Lemma begin_idempotent_witness :
  let later := [at_ 41 (Op.Dispatch (call x20)); at_ 42 (Op.CompleteTransfer (call x20) transfer);
                at_ 43 (Op.Publish (call x20)); at_ 44 (Op.Settle (call x20) SettleOutcome.Success)] in
  let again := Intent.mk (call x21) capture_authz capture_key (repeat x08 32) in
  exists status, begin NoFailpoints 60 (run (run empty_db begun) later) again =
    (Ok (Begin.Replayed status), run (run empty_db begun) later).
Proof.
  intros later again. assert (Typed later) as Hl by (unfold later; by_typed).
  assert (cost_wf (AuthzRequest.declared (Intent.authz capture))) as Hw by by_widths.
  destruct setup_persisted as [status Hb].
  assert (idem_slot again = idem_slot capture) as Hs by reflexivity.
  destruct (begin_idempotent setup later NoFailpoints 40 60 (run empty_db begun) capture again
    (Some Boundary.PersistIntent) status typed_setup Hw Hb Hl Hs) as (r & _ & _ & He).
  exists (status_of r). rewrite He.
  assert (Db.tombstones (run (run empty_db begun) later) !! AuthzRequest.tenant (Intent.authz capture) = None)
    as -> by (vm_compute; reflexivity).
  rewrite bool_decide_eq_true_2 by (vm_compute; reflexivity). reflexivity.
Defined.

Lemma claim_idempotent_witness :
  exists db', claim NoFailpoints ready revoke_claim = (Ok (Claimed.Fresh (call x30)), db') /\
    claimed db' revoke_claim = Ok (Some (Claimed.Replay (call x30))).
Proof.
  destruct (claim NoFailpoints ready revoke_claim) as [r db'] eqn:E. exists db'.
  assert (r = Ok (Claimed.Fresh (call x30))) as ->.
  { change r with (fst (r, db')). rewrite <- E. vm_compute. reflexivity. }
  split; [reflexivity|].
  exact (proj2 (proj2 (claim_idempotent NoFailpoints NoFailpoints ready db' revoke_claim revoke_claim _ E eq_refl))).
Defined.

Lemma claim_fails_during_rotation_witness :
  claimed rotating rotating_claim = Err (StoreError.UnknownKeyId 1).
Proof.
  refine (proj1 (proj2 (claim_fails_during_rotation NoFailpoints rotating rotating_claim 2 1
    (IdemRecord.mk (call x32) (repeat x0c 32)) _ _ _))).
  - vm_compute. reflexivity.
  - discriminate.
  - vm_compute. reflexivity.
Defined.

(** ** Custody *)
Lemma unpublished_invisible_witness :
  read_artifact (run empty_db dispatched) (artifact_ref (call x20)) 0 8 = Ok None.
Proof.
  apply (unpublished_invisible dispatched (call x20) 0 8 typed_dispatched).
  intros r Hr. vm_compute in Hr. injection Hr as <-. split; discriminate.
Defined.

Lemma capture_readable_witness :
  exists db2, read_artifact db2 (artifact_ref (call x20)) 9 4 =
    Ok (Some (ReadChunk.mk 9 (lit "page") 19)).
Proof.
  destruct capture_stored as (st1 & st2 & db1 & db2 & H1 & H2). exists db2.
  refine (proj2 (capture_readable dispatched NoFailpoints NoFailpoints 42 43 (call x20) transfer
    st1 st2 db1 db2 9 4 typed_dispatched _ H1 H2 _ _ _)).
  - intros t a s _ He. exact He.
  - vm_compute. split; intros [=].
  - vm_compute. split; intros [=].
  - vm_compute. intros [=].
Defined.

Lemma shred_erases_witness :
  exists db1, tenant_keys (run db1 []) agent = Err (StoreError.TenantShredded agent).
Proof.
  destruct (shred_tenant NoFailpoints 90 (run empty_db finished) agent) as [r db1] eqn:E. exists db1.
  assert (r = Ok tt) as ->.
  { change r with (fst (r, db1)). rewrite <- E. vm_compute. reflexivity. }
  refine (proj1 (proj2 (proj2 (shred_erases finished [] NoFailpoints NoFailpoints 90 95 agent db1
    (artifact_ref (call x20)) 0 8 (register agent TenantClass.Agent None) typed_finished _ _ E _)))).
  - apply Forall_nil. exact I.
  - vm_compute. eexists. reflexivity.
  - reflexivity.
Defined.

Lemma rekey_completes_witness :
  exists st db', rekey_tenant 40 NoFailpoints 95 (run empty_db finished) agent 2 = Some (Ok st, db') /\
    RekeyStatus.is_done st = true.
Proof.
  destruct (rekey_completes finished 95 agent agent_record 2 40) as (st & db' & Hr & Hd & _).
  - exact typed_finished.
  - exact agent_registered.
  - intros _. vm_compute. reflexivity.
  - apply Nat.ltb_lt. vm_compute. reflexivity.
  - exists st, db'. split; [exact Hr|exact Hd].
Defined.

Lemma no_record_stranded_witness :
  exists keys, tenant_keys (run empty_db finished) agent = Ok keys /\
    forall k id, walk_owner k = Some agent -> header (run empty_db finished) k = Some id -> id ∈ openers keys.
Proof. exact (no_record_stranded finished agent agent_record typed_finished agent_registered). Defined.

Lemma rotation_invisible_witness :
  artifact (exec NoFailpoints 95 (run empty_db finished) (Op.BeginRekey agent)) (artifact_ref (call x20)) =
  artifact (run empty_db finished) (artifact_ref (call x20)).
Proof.
  exact (proj1 (rotation_invisible finished NoFailpoints 95 (Op.BeginRekey agent) agent 1
    (artifact_ref (call x20)) 0 8 typed_finished (or_introl eq_refl))).
Defined.

Lemma revocation_denies_witness :
  exists x db1, revoke_grant NoFailpoints 80 (run empty_db finished) revoke_child = (Ok (Some x), db1) /\
    forall request now' ids res,
      authorize (run db1 []) request now' = Ok (Decision.Allowed ids res) -> child_id ∉ ids.
Proof.
  destruct (revoke_grant NoFailpoints 80 (run empty_db finished) revoke_child) as [r db1] eqn:E.
  assert (match r with Ok (Some _) => true | _ => false end = true) as Hr.
  { change r with (fst (r, db1)). rewrite <- E. vm_compute. reflexivity. }
  destruct r as [[x|]|]; [|discriminate Hr..]. exists x, db1. split; [reflexivity|].
  exact (proj1 (revocation_denies finished [] NoFailpoints 80 revoke_child x db1 typed_finished
    (proj2 (Forall_nil _) I) E)).
Defined.

(** ** Authorization *)

Lemma authorize_allowed_iff_witness :
  exists leaf chain debited ledgers,
    Authorized ready capture_authz 40 leaf chain debited ledgers /\
    [child_id; root_id] = Grant.id <$> chain.
Proof.
  destruct (proj1 (authorize_allowed_iff ready capture_authz 40 [child_id; root_id]
    (ReservationPlan.mk small_cost [LedgerId.Grant child_id; LedgerId.Grant root_id;
       LedgerId.Session session_id; LedgerId.Tenant agent]) ready_u8))
    as (leaf & chain & debited & ledgers & Ha & Hids & _).
  - vm_compute. reflexivity.
  - exists leaf, chain, debited, ledgers. split; [exact Ha|exact Hids].
Defined.

Lemma authorize_hides_foreign_witness :
  authorize ready (AuthzRequest.mk operator child_id Capability.Read None None small_cost) 40 =
    Ok Decision.NotFoundOrDenied.
Proof.
  refine (proj1 (authorize_hides_foreign ready
    (AuthzRequest.mk operator child_id Capability.Read None None small_cost) 40 (Some child_grant) _ child_found) _).
  - intros [s Hs]. discriminate Hs.
  - intros leaf Hl _ Hh. apply (inj Some) in Hl. rewrite <- Hl in Hh.
    apply (f_equal TenantId_to_bytes) in Hh. vm_compute in Hh. discriminate Hh.
Defined.

Lemma authorize_refusal_honest_witness :
  let request := AuthzRequest.mk agent child_id Capability.GrantIssue None None small_cost in
  exists p, plan ready request 40 = Ok p /\ Plan.refusal p = Some (Failure.Denied DenyCode.CapabilityNotGranted None).
Proof.
  intros request.
  destruct (authorize_refusal_honest ready request 40 (Decision.Denied DenyCode.CapabilityNotGranted))
    as (_ & _ & _ & p & Hp & Hr & _); [vm_compute; reflexivity|].
  exists p. split; [exact Hp|exact Hr].
Defined.

Lemma check_chain_valid_iff_witness :
  Linked ready child_grant agent_chain /\ Forall (usable ready 100) agent_chain.
Proof.
  apply (check_chain_valid_iff ready child_grant 100 agent_chain ready_u8); [|exact agent_chain_valid].
  vm_compute. intros [=].
Defined.

Lemma check_chain_revoked_ancestor_witness :
  exists code failing, check_chain root_revoked child_grant 100 = Ok (ChainStatus.Invalid code failing).
Proof.
  refine (check_chain_revoked_ancestor root_revoked child_grant root_grant [child_grant; root_grant] 100
    (Revocation.mk root_id 9 60) root_revoked_u8 _ _ _ _ _).
  - vm_compute. intros [=].
  - eapply (Linked_link _ _ root_id root_grant); [vm_compute; reflexivity|exact root_found_revoked| |apply Linked_root];
      vm_compute; reflexivity.
  - right. left. reflexivity.
  - vm_compute. reflexivity.
  - intros l _. eexists. reflexivity.
Defined.

Lemma check_issue_sound_witness :
  exists child parent used,
    check_issue ready (IssueContext.mk operator root_id unused_id) issue_request 50 =
      Ok (IssueDecision.Issued child) /\
    Attenuates ready parent used child.
Proof.
  destruct (check_issue ready (IssueContext.mk operator root_id unused_id) issue_request 50) as [r|e] eqn:E.
  - assert (match r with IssueDecision.Issued _ => true | _ => false end = true) as Hr.
    { replace r with (match check_issue ready (IssueContext.mk operator root_id unused_id) issue_request 50 with
        Ok r => r | _ => r end) by (rewrite E; reflexivity). vm_compute. reflexivity. }
    destruct r as [child| | |]; [|discriminate Hr..].
    destruct (check_issue_sound ready _ _ _ _ ready_u8 E) as (parent & chain & used & _ & _ & _ & _ & _ & _ & _ & Ha & _).
    exists child, parent, used. split; [reflexivity|exact Ha].
  - exfalso. assert (match check_issue ready (IssueContext.mk operator root_id unused_id) issue_request 50 with
      Ok _ => true | _ => false end = true) as Hr by (vm_compute; reflexivity).
    rewrite E in Hr. discriminate Hr.
Defined.

Lemma check_revoke_iff_witness :
  exists n, (n < 256)%nat /\ Below ready root_id n child_id.
Proof.
  apply (proj1 (check_revoke_iff ready operator root_id child_id 50 None ready_u8 ltac:(vm_compute; reflexivity))).
  vm_compute. reflexivity.
Defined.

Lemma below_cases (view : Db) root n target :
  Below view root n target -> target = root \/ exists g, view_grant view target = Ok (Some g).
Proof. destruct 1; eauto. Qed.
Lemma check_revoke_hides_foreign_witness :
  check_revoke ready operator root_id unused_id 50 = Ok RevokeDecision.NotFoundOrDenied.
Proof.
  destruct (designated_chain ready operator root_id Capability.GrantRevoke 50) as [[chain|d]|e] eqn:E.
  2-3: assert (match designated_chain ready operator root_id Capability.GrantRevoke 50 with
      Ok (Ok _) => true | _ => false end = true) as Hr by (vm_compute; reflexivity);
      rewrite E in Hr; discriminate Hr.
  apply (check_revoke_hides_foreign ready operator root_id unused_id 50 chain E).
  - intros i. apply grants_read_spec. vm_compute. reflexivity.
  - intros n _ Hb. destruct (below_cases _ _ _ _ Hb) as [He|[g Hg]].
    + apply (f_equal GrantId_to_bytes) in He. vm_compute in He. discriminate He.
    + assert (view_grant ready unused_id = Ok None) as Hn by (vm_compute; reflexivity).
      rewrite Hn in Hg. discriminate Hg.
Defined.

(** ** Budgets *)

Lemma budget_refusal_disclosure_witness :
  let ledgers := [LedgerState.mk (LedgerId.Grant child_id) ceilings_default cost_default true;
                  LedgerState.mk (LedgerId.Grant root_id) (Ceilings.mk None (Some 0) None None None None)
                    cost_default false] in
  exists l, In l ledgers /\ LedgerState.own l = false /\ ~ Covered small_cost l.
Proof.
  intros ledgers.
  refine (proj2 (budget_refusal_disclosure (V := StoreError) ledgers small_cost BudgetRefusal.Upstream _)).
  vm_compute. reflexivity.
Defined.

Definition big_cost : Cost := Cost.mk 5000 3 9999 9999 7 1.
Lemma small_cost_wf : cost_wf small_cost.
Proof. apply cost_wfb_spec. vm_compute. reflexivity. Qed.
Lemma big_cost_wf : cost_wf big_cost.
Proof. apply cost_wfb_spec. vm_compute. reflexivity. Qed.
Lemma default_cost_wf : cost_wf cost_default.
Proof. apply cost_wfb_spec. vm_compute. reflexivity. Qed.

Lemma settle_conserves_witness :
  exists s d, Budget.settle (V := StoreError) small_cost big_cost =
    Err (Error.SettleOverrun d (cost_get small_cost d) (cost_get big_cost d) s).
Proof.
  destruct (settle_conserves (V := StoreError) small_cost big_cost small_cost_wf big_cost_wf)
    as (s & _ & [[_ Hle]|(d & _ & He)]).
  - specialize (Hle Dimension.Fetches). vm_compute in Hle. destruct Hle. reflexivity.
  - exists s, d. exact He.
Defined.

Lemma reserve_settle_release_witness :
  exists used'', Budget.release (V := StoreError) small_cost
    (Settlement.release (settlement_of small_cost (Cost.mk 500 1 19 19 0 0))) = Ok used'' /\
    cost_get used'' Dimension.WallTimeMs = 500.
Proof.
  destruct (reserve_settle_release (V := StoreError) cost_default small_cost (Cost.mk 500 1 19 19 0 0) small_cost)
    as (used'' & Hr & Hd).
  - exact default_cost_wf.
  - exact small_cost_wf.
  - apply cost_wfb_spec. vm_compute. reflexivity.
  - vm_compute. reflexivity.
  - exists used''. split; [exact Hr|]. rewrite Hd. vm_compute. reflexivity.
Defined.

Lemma own_remaining_never_own_refusal_witness :
  let l := LedgerState.mk (LedgerId.Grant child_id) limits small_cost true in
  plan_reservation (V := StoreError) [l] small_cost <>
    Ok (BudgetCheck.Exceeded (BudgetRefusal.Own (LedgerId.Grant child_id) Dimension.Fetches)).
Proof.
  intros l. apply (own_remaining_never_own_refusal [l] small_cost (LedgerId.Grant child_id) Dimension.Fetches).
  - intros l' [<-|[]] _. split; [intros [] z [= <-]; vm_compute; split; intros [=]|].
    intros [] z [= <-]; vm_compute; intros [=].
  - intros [] left Hl; vm_compute in Hl; try discriminate Hl; injection Hl as <-; vm_compute; intros [=].
Defined.

(** ** The lifecycle *)

Definition happy_path : list Step :=
  [Step.PersistIntent; Step.Dispatch; Step.CompleteTransfer; Step.Publish; Step.Settle].
Lemma happy_run : Run InvocationState.Planned happy_path InvocationState.Settled.
Proof. repeat (econstructor; [vm_compute; reflexivity|]). constructor. Qed.
Lemma lifecycle_runs_end_witness : (length happy_path <= 5)%nat.
Proof. exact (proj1 (lifecycle_runs_end _ _ _ happy_run)). Defined.
Lemma durable_effect_rolls_forward_witness :
  ~ (Step.MarkUnknownEffect ∈ [Step.Publish; Step.Settle]).
Proof.
  refine (proj1 (proj2 (durable_effect_rolls_forward InvocationState.TransferComplete InvocationState.Settled
    [Step.Publish; Step.Settle] _ (or_introl eq_refl)))).
  repeat (econstructor; [vm_compute; reflexivity|]). constructor.
Defined.

(** ** Records, origins, identifiers and frames *)

Lemma grant_record_roundtrip_witness :
  to_grant (V := StoreError) (from_grant no_grant []) = Ok no_grant.
Proof. apply (grant_record_roundtrip no_grant []). reflexivity. Defined.

Definition docs_url : str := lit "HTTPS://Docs.Example.ORG/page?q".
Definition docs_origin : Origin := Origin.mk Scheme.Https (Host.Domain (lit "docs.example.org")) 443.
Lemma origin_roundtrip_witness :
  origin_parse (V := StoreError) (origin_display docs_origin) = Ok docs_origin.
Proof. apply (origin_roundtrip docs_url docs_origin). vm_compute. reflexivity. Defined.
Lemma origin_parse_sound_witness :
  exists scheme host port tail, docs_url = scheme ++ lit "://" ++ host ++ port ++ tail /\
    to_ascii_lowercase <$> host = lit "docs.example.org".
Proof.
  destruct (origin_parse_sound (V := StoreError) docs_url docs_origin) as (scheme & host & port & tail & He & _ & Hh & _).
  - vm_compute. reflexivity.
  - exists scheme, host, port, tail. split; [exact He|exact Hh].
Defined.

Definition scope_of (patterns : list str) : TargetScope :=
  match scope_parse (V := StoreError) patterns with Ok s => s | Err _ => TargetScope_mk [] end.
Lemma scope_covers_sound_witness : scope_matches (scope_of [lit "*.example.org"]) docs_origin = true.
Proof.
  apply (scope_covers_sound (scope_of [lit "*.example.org"]) (scope_of [lit "https://docs.example.org"]) docs_origin);
    vm_compute; reflexivity.
Defined.

Lemma ulid_roundtrip_witness : parse_ulid (write_ulid (id16 x7f)) = Ok (id16 x7f).
Proof. apply (ulid_roundtrip (id16 x7f)). reflexivity. Defined.

Lemma frame_header_roundtrip_witness :
  header_decode (header_encode (header_new FrameKind.Request 5000)) 4096 = Err (FrameTooLarge 5000 4096).
Proof.
  rewrite (frame_header_roundtrip FrameKind.Request 5000 4096); [reflexivity|].
  vm_compute. split; intros [=].
Defined.

Definition nonce (b : byte) : Nonce := Nonce_from_bytes (id16 b).
Lemma auth_transcript_injective_witness :
  auth_transcript 1 agent (nonce x01) (nonce x02) <> auth_transcript 1 agent (nonce x01) (nonce x03).
Proof.
  intros He.
  destruct (auth_transcript_injective 1 1 agent agent (nonce x01) (nonce x01) (nonce x02) (nonce x03)) as [_ Hi];
    try reflexivity; try (vm_compute; split; intros [=]).
  destruct (Hi He) as (_ & _ & _ & Hn). discriminate Hn.
Defined.

Lemma encode_frame_roundtrip_witness :
  exists frame header, encode_frame cancel_to_bytes (Cancel.mk 7) 1024 = Ok frame /\
    header_decode (take HEADER_LEN frame) 1024 = Ok header /\
    decode_frame cancel_to_bytes cancel_access header (drop HEADER_LEN frame) 1024 = Ok (Cancel.mk 7).
Proof.
  destruct (encode_frame cancel_to_bytes (Cancel.mk 7) 1024) as [frame|e] eqn:E; [|vm_compute in E; discriminate E].
  destruct (encode_frame_roundtrip cancel_to_bytes cancel_access (Cancel.mk 7) 1024 frame cancel_codec E)
    as (header & Hh & Hd).
  exists frame, header. split; [reflexivity|]. split; [exact Hh|exact Hd].
Defined.

Lemma decode_unique_body_witness :
  to_le_bytes 8 7 = to_le_bytes 8 7 ++ [].
Proof.
  apply (decode_unique_body cancel_to_bytes cancel_access (to_le_bytes 8 7) (to_le_bytes 8 7 ++ []) 1024 8 (Cancel.mk 7));
    vm_compute; reflexivity.
Defined.

Lemma sealed_opens_only_in_place_witness :
  exists sealed, seal_with seal_key (seal_ctx (lit "k1")) page (Some seal_nonce) = Ok sealed /\
    open [SealingKey.mk 9 []; seal_key] (seal_ctx (lit "k1")) sealed = Ok page.
Proof.
  destruct (seal_with seal_key (seal_ctx (lit "k1")) page (Some seal_nonce)) as [sealed|e] eqn:E;
    [|vm_compute in E; discriminate E].
  exists sealed. split; [reflexivity|].
  refine (proj2 (proj2 (sealed_opens_only_in_place seal_key [SealingKey.mk 9 []; seal_key] (seal_ctx (lit "k1"))
    (seal_ctx (lit "k1")) page page seal_nonce sealed _ _ _ _ _ E)) (or_introl (conj eq_refl eq_refl))).
  1-2: split; vm_compute; split; intros [=].
  - vm_compute. split; intros [=].
  - reflexivity.
  - reflexivity.
Defined.

Lemma wrapped_key_unwraps_only_in_place_witness :
  exists wrapped, wrap_tenant_key_with store_kek (TenantId_to_bytes agent) agent_data_key (Some seal_nonce) = Ok wrapped /\
    unwrap_tenant_key store_kek (TenantId_to_bytes agent) wrapped = Ok agent_data_key.
Proof.
  destruct (wrap_tenant_key_with store_kek (TenantId_to_bytes agent) agent_data_key (Some seal_nonce))
    as [wrapped|e] eqn:E; [|vm_compute in E; discriminate E].
  exists wrapped. split; [reflexivity|].
  refine (proj1 (wrapped_key_unwraps_only_in_place store_kek (TenantId_to_bytes agent) (TenantId_to_bytes agent)
    seal_nonce wrapped agent_data_key agent_data_key _ _ _ _ E)).
  1-2: vm_compute; split; intros [=].
  all: reflexivity.
Defined.

Lemma record_key_injective_witness :
  keyed_input (domain (Slot.Session session_id)) (parts (Slot.Session session_id)) <>
  keyed_input (domain (Slot.SessionIndex agent session_id)) (parts (Slot.SessionIndex agent session_id)).
Proof.
  intros He.
  apply (proj1 (record_key_injective (fun k x => k ++ x) [] (Slot.Session session_id)
    (Slot.SessionIndex agent session_id) ltac:(repeat constructor) ltac:(repeat constructor))) in He.
  discriminate He.
Defined.

Lemma binding_covers_request_witness :
  binding_input capture = binding_input (Intent.mk (call x21)
    (AuthzRequest.mk agent child_id Capability.Capture (Some (lit "https://docs.example.org/page"))
       (Some session_id) big_cost) capture_key (repeat x08 32)).
Proof.
  apply (binding_covers_request capture (Intent.mk (call x21)
    (AuthzRequest.mk agent child_id Capability.Capture (Some (lit "https://docs.example.org/page"))
       (Some session_id) big_cost) capture_key (repeat x08 32))).
  1-2: (split; [reflexivity|split; [reflexivity|split]]);
    [intros s [= <-]; reflexivity|intros t Ht; apply (inj Some) in Ht; subst t; vm_compute; intros [=]].
  split_and!; reflexivity.
Defined.

Lemma audit_query_exact_witness :
  exists all e, audit_query (run empty_db finished) [agent; operator]
      (AuditQuery.mk agent AuditScope.OwnAndOwnedSessions None (Some 1) 10) = Ok (take 10 all) /\
    e ∈ all /\ event_seq e = 3.
Proof.
  destruct (audit_query_exact finished [agent; operator]
    (AuditQuery.mk agent AuditScope.OwnAndOwnedSessions None (Some 1) 10) typed_finished) as (all & Hq & _ & Hall).
  - vm_compute. apply Permutation_refl || apply perm_swap.
  - destruct (Db.audit (run empty_db finished) !! (agent, 3)) as [x|] eqn:E; [|vm_compute in E; discriminate E].
    exists all, (to_event (Sealed.plain x)). split; [exact Hq|]. split.
    + apply Hall. exists agent, 3, x. split_and!.
      * vm_compute. eexists. reflexivity.
      * exact E.
      * reflexivity.
      * vm_compute in E. injection E as <-. vm_compute. reflexivity.
      * reflexivity.
    + vm_compute in E. injection E as <-. reflexivity.
Defined.
