(* ===== verification/DaemonWitness.v ===== *)
(** * The daemon's and the client's properties at concrete inputs

    For the orchestrator, the deployment of [Scenario] with a quiet
    environment: no other task acts, no crash is injected, the clocks advance,
    and the producer answers with one page. *)
From S2P Require Import Prelude Vocab Ids Payload Wire Epitrope Origin View Chain Issue.
From S2P Require Import Budget Decision Revoke Lifecycle Records Store Seal StoreAudit Invocation.
From S2P Require Import Transition Directory Claim Read Invariant Runs Guarantees Custody Scenario.
From S2P Require Import Daemon Limits Calls Reads Capture Orchestrator Confine Ends Authority Replies.
From S2P Require Import Stream Server Client Connection Handshake Interop Serving.
Local Open Scope Z_scope.

Definition output : ProducerOutput :=
  ProducerOutput.mk page (lit "s") (lit "r") (lit "f") (Some (lit "text")).
Definition quiet_tick (k : nat) : Tick :=
  Tick.mk [] [] 100 (100 * Z.of_nat k) NoFailpoints (Some (repeat (z2b (Z.of_nat k)) 10)) false
    (fun _ => Some (Ok output)).
#[global] Instance quiet : Environment :=
  {| env := quiet_tick; wakes t := Z.to_nat (t / 100); request_to_bytes _ := Some (lit "request") |}.
Lemma quiet_typed k : Typed (Tick.others (env k)).
Proof. constructor. Qed.

Definition w0 : World := World.mk (run empty_db setup) ∅ 0.
Definition conn : ConnIdentity := ConnIdentity.mk agent 1000 None 1 DEFAULT_MAX_BODY.
Definition the_capture : CaptureRequest :=
  CaptureRequest.mk session_id (lit "https://docs.example.org/page") (CaptureLimits.mk None (Some 4096)) None.
Definition request_of (mode : Mode) (body : RequestBody) : Request :=
  Request.mk 1 child_id (Some capture_key) mode 1000 body.
Definition capture_request : Request := request_of Mode.Execute (RequestBody.Capture the_capture).
Definition the_call : Call :=
  Call.mk agent child_id (Some capture_key) (repeat x08 32) 1000 DEFAULT_MAX_BODY.
Lemma the_capture_typed : body_typed (RequestBody.Capture the_capture).
Proof. split; [done|]. intros x [= <-]. lia. Qed.
Lemma capture_request_typed mode : request_typed conn (request_of mode (RequestBody.Capture the_capture)).
Proof. split; [by vm_compute|]. split; [by vm_compute|apply the_capture_typed]. Qed.
Lemma the_call_typed : call_typed the_call.
Proof. by vm_compute. Qed.

Definition is_captured (r : result DaemonError Reply) : bool :=
  match r with Ok (Reply.mk _ (ResponseBody.Captured _)) => true | _ => false end.
Lemma capture_answers : is_captured (handle conn capture_request 60000 w0).1 = true.
Proof. vm_compute. reflexivity. Qed.

Lemma request_confined_witness :
  exists trace, World.db (handle conn capture_request 60000 w0).2 = run (run empty_db setup) trace /\ Typed trace.
Proof.
  destruct (request_confined conn capture_request 60000 w0 (capture_request_typed Mode.Execute))
    as (trace & _ & Hd & Ht).
  exists trace. split; [exact Hd|]. apply Ht. exact quiet_typed.
Defined.

Lemma dry_run_writes_nothing_witness :
  World.db (handle conn (request_of Mode.DryRun (RequestBody.Capture the_capture)) 60000 w0).2
  = run (run empty_db setup)
      (seq 0 (World.tick (handle conn (request_of Mode.DryRun (RequestBody.Capture the_capture)) 60000 w0).2 - 0)
       ≫= fun k => Tick.others (env k)).
Proof.
  apply (dry_run_writes_nothing conn (request_of Mode.DryRun (RequestBody.Capture the_capture)) 60000 w0).
  reflexivity.
Defined.

Lemma content_authorized_witness :
  exists k chain,
    designated_chain (run (run empty_db setup) (others_between 0 (S k))) agent child_id Capability.Capture 100
    = Ok (Ok chain).
Proof.
  pose proof capture_answers as Ha. destruct (handle conn capture_request 60000 w0) as [[reply|e] w'] eqn:E;
    [|discriminate Ha].
  destruct (content_authorized conn capture_request 60000 w0 w' reply (capture_request_typed Mode.Execute) eq_refl E)
    as (k & chain & _ & Hd).
  - intros failure Hf. destruct reply as [i b]. cbn in Hf. subst b. discriminate Ha.
  - exists k, chain. exact Hd.
Defined.

Lemma capture_ends_witness :
  exists reply w' r, capture the_call the_capture 60000 w0 = (Ok reply, w') /\
    is_terminal (InvocationRecord.state r) = true /\ Reply.invocation reply <> None.
Proof.
  assert (match (begin_capture the_call the_capture (others (env 0) w0)).1 with
          | Ok (Started.Persisted _ _) => true | _ => false end = true) as Hv by (vm_compute; reflexivity).
  assert ((last_seq (World.db (capture the_call the_capture 60000 w0).2) <? u64_max) = true) as Hl
    by (vm_compute; reflexivity).
  destruct (begin_capture the_call the_capture (others (env 0) w0)) as [[[status limits|reply]|e] w1] eqn:E;
    try discriminate Hv.
  destruct (capture_ends setup the_call the_capture 60000 w0 w1 status limits typed_setup eq_refl the_call_typed
              the_capture_typed quiet_typed ltac:(intros k; constructor) E)
    as (reply & w' & r & Hc & _ & _ & Hend).
  rewrite Hc in Hl. destruct (Hend ltac:(intros k; reflexivity) ltac:(by apply Z.ltb_lt)) as [Ht [Hi _]].
  exists reply, w', r. split; [exact Hc|]. split; [exact Ht|]. rewrite Hi. discriminate.
Defined.

(** A read of an artifact that does not exist. *)
Definition missing : RequestBody :=
  RequestBody.Read (ReadRequest.mk (artifact_ref (Scenario.call x44)) 0 100).
Lemma missing_refused :
  match (execute the_call missing w0).1 with
  | Ok (Reply.mk _ (ResponseBody.Failed Failure.NotFoundOrDenied)) => true | _ => false end = true.
Proof. vm_compute. reflexivity. Qed.
Lemma refusals_uniform_witness :
  exists w', execute the_call missing w0 = (Ok (failed Failure.NotFoundOrDenied), w').
Proof.
  pose proof missing_refused as Hv. destruct (execute the_call missing w0) as [[reply|e] w'] eqn:E; [|discriminate Hv].
  exists w'. cbn [fst] in Hv.
  assert (Reply.body reply = ResponseBody.Failed Failure.NotFoundOrDenied) as Hb.
  { destruct reply as [i [| | | | | | | | | |[]]]; try discriminate Hv. reflexivity. }
  rewrite (refusals_uniform the_call missing w0 w' reply Failure.NotFoundOrDenied E Hb). reflexivity.
Defined.

Lemma refusal_audited_witness :
  exists w' sealed, deny the_call Capability.Read None Failure.NotFoundOrDenied w0 =
      (Ok (failed Failure.NotFoundOrDenied), w') /\
    AuditEntryRecord.state (Sealed.plain sealed) = InvocationState.Denied.
Proof.
  assert (match (deny the_call Capability.Read None Failure.NotFoundOrDenied w0).1 with Ok _ => true | _ => false end
          = true) as Hv by (vm_compute; reflexivity).
  destruct (deny the_call Capability.Read None Failure.NotFoundOrDenied w0) as [[reply|e] w'] eqn:E; [|discriminate Hv].
  destruct (refusal_audited the_call Capability.Read None Failure.NotFoundOrDenied w0 w' (Ok reply) E)
    as [-> (db & id & sealed & _ & _ & _ & _ & Hs & _)].
  exists w', sealed. split; [reflexivity|exact Hs].
Defined.

Lemma replies_fit_witness :
  exists reply w', execute the_call missing w0 = (Ok reply, w') /\ fits the_call reply.
Proof.
  pose proof missing_refused as Hv. destruct (execute the_call missing w0) as [[reply|e] w'] eqn:E; [|discriminate Hv].
  exists reply, w'. split; [reflexivity|]. apply (replies_fit the_call missing w0 w' reply); [|exact E].
  vm_compute. discriminate.
Defined.


Lemma revocation_reaches_running_witness :
  exists leaf chain, load_chain (run empty_db setup) leaf = Ok chain /\
    forall link, link ∈ chain -> view_revocation (run empty_db setup) (Grant.id link) = Ok None.
Proof.
  assert (match (pre_dispatch child_id false 60000 w0).1 with Ok None => true | _ => false end = true) as Hv
    by (vm_compute; reflexivity).
  destruct (pre_dispatch child_id false 60000 w0) as [[[r|]|e] w'] eqn:E; try discriminate Hv.
  destruct (revocation_reaches_running child_id false 60000 w0 w' (Scenario.call x20) E)
    as (leaf & chain & _ & Hl & Hr & _).
  exists leaf, chain. split; [exact Hl|exact Hr].
Defined.

(** A registered call of the agent, whose producer answers at once. *)
Lemma produce_exact_witness :
  let request := AcquireRequest.mk (Scenario.call x20) (lit "t") (CaptureLimits.mk None None) None in
  let w := World.mk (run empty_db dispatched) {[Scenario.call x20 := Running.mk [child_id; root_id] false]} 0 in
  exists w', produce request child_id (Flight.mk 60000 0) w = (Ok (Produced.Output output), w') /\
    is_Some (World.running w' !! Scenario.call x20).
Proof.
  intros request w.
  destruct (produce_exact request child_id (Flight.mk 60000 0) w [child_id; root_id] false)
    as (k & w' & c' & _ & Hp & _ & _ & _ & Hc & _).
  - intros j. apply Forall_nil. exact I.
  - apply lookup_singleton_eq.
  - exists w'. split; [exact Hp|]. eexists. exact Hc.
Defined.

(** ** The server's and the client's properties at concrete inputs

    The store of [Scenario], whose agent connects: one message of each kind, an
    archive library that knows just these, and a signature scheme in which a
    message signs itself. *)

#[global] Instance ClientHello_eq_dec : EqDecision ClientHello.
Proof. solve_decision. Defined.
#[global] Instance ServerHello_eq_dec : EqDecision ServerHello.
Proof. solve_decision. Defined.
#[global] Instance Auth_eq_dec : EqDecision Auth.
Proof. solve_decision. Defined.
#[global] Instance AdmittedMsg_eq_dec : EqDecision AdmittedMsg.
Proof. solve_decision. Defined.
#[global] Instance Request_eq_dec : EqDecision Request.
Proof. solve_decision. Defined.
#[global] Instance Cancel_eq_dec : EqDecision Cancel.
Proof. solve_decision. Defined.
#[global] Instance Response_eq_dec : EqDecision Response.
Proof. solve_decision. Defined.
#[global] Instance Fault_eq_dec : EqDecision Fault.
Proof. solve_decision. Defined.

(** An archive library that knows just [known]. *)
Section sample.
Context {T : Type} `{EqDecision T} (known : T).
Definition sample_to_bytes (m : T) : option bytes := if decide (m = known) then Some [x2a] else None.
Definition sample_access (b : bytes) : option T := if decide (b = [x2a]) then Some known else None.
Lemma sample_laws m b : sample_to_bytes m = Some b -> sample_access b = Some m.
Proof. unfold sample_to_bytes, sample_access. case_decide; [|done]. intros [= <-]. subst. done. Qed.
End sample.

Definition the_tenant : TenantId := agent.
Definition cnonce : bytes := repeat x01 16.
Definition snonce : bytes := repeat x02 16.
Definition the_transcript : bytes :=
  auth_transcript WIRE_VERSION the_tenant (Nonce_from_bytes cnonce) (Nonce_from_bytes snonce).
Definition the_hello : ClientHello := ClientHello.mk 1 1 the_tenant (Nonce_from_bytes cnonce).
Definition the_server_hello : ServerHello :=
  ServerHello.mk (VersionChoice.Chosen WIRE_VERSION) (Nonce_from_bytes snonce) DEFAULT_MAX_BODY.
Definition the_auth : Auth := Auth.mk the_transcript.
Definition the_request : Request :=
  Request.mk 5 (GrantId_from_bytes (repeat x03 16)) None Mode.DryRun 1000 RequestBody.SessionCreate.
Definition the_response : Response := Response.mk 5 None (ResponseBody.Failed Failure.NotFoundOrDenied).
#[global] Instance hello_archive : Archive ClientHello :=
  {| to_bytes := sample_to_bytes the_hello; access := sample_access the_hello |}.
#[global] Instance server_hello_archive : Archive ServerHello :=
  {| to_bytes := sample_to_bytes the_server_hello; access := sample_access the_server_hello |}.
#[global] Instance auth_archive : Archive Auth :=
  {| to_bytes := sample_to_bytes the_auth; access := sample_access the_auth |}.
#[global] Instance admitted_archive : Archive AdmittedMsg :=
  {| to_bytes := sample_to_bytes AdmittedMsg_unit; access := sample_access AdmittedMsg_unit |}.
#[global] Instance request_archive : Archive Request :=
  {| to_bytes := sample_to_bytes the_request; access := sample_access the_request |}.
#[global] Instance cancel_archive : Archive Cancel :=
  {| to_bytes := sample_to_bytes (Cancel.mk 5); access := sample_access (Cancel.mk 5) |}.
#[global] Instance response_archive : Archive Response :=
  {| to_bytes := sample_to_bytes the_response; access := sample_access the_response |}.
#[global] Instance fault_archive : Archive Fault :=
  {| to_bytes := sample_to_bytes (Fault.mk Failure.AuthFailed); access := sample_access (Fault.mk Failure.AuthFailed) |}.
#[global] Instance hello_laws : ArchiveLaws ClientHello := sample_laws the_hello.
#[global] Instance server_hello_laws : ArchiveLaws ServerHello := sample_laws the_server_hello.
#[global] Instance auth_laws : ArchiveLaws Auth := sample_laws the_auth.
#[global] Instance admitted_laws : ArchiveLaws AdmittedMsg := sample_laws AdmittedMsg_unit.
#[global] Instance request_laws : ArchiveLaws Request := sample_laws the_request.
#[global] Instance response_laws : ArchiveLaws Response := sample_laws the_response.

Definition the_key : bytes := repeat x07 32.
#[global] Instance self_signed : Signatures :=
  {| verify_strict key message signature := bool_decide (key = the_key) && bool_decide (signature = message) |}.
Definition the_auth_record : TenantAuth := TenantAuth.mk the_key [1000].
Definition directory : TenantDirectory := fun t => if decide (t = the_tenant) then Some the_auth_record else None.
Definition nobody : TenantDirectory := fun _ => None.

(** The frame of a known message of kind [kind]. *)
Definition frame_of (kind : FrameKind) : bytes := header_encode (header_new kind 1) ++ [x2a].
Definition client_frames : list Arrival :=
  arriving 10 (frame_of FrameKind.ClientHello) ++ arriving 20 (frame_of FrameKind.Auth).
Definition the_peer : Peer := Peer.mk client_frames [Write.Sent; Write.Sent; Write.Sent] [].
Definition handshake_run (uid : Z) (dir : TenantDirectory) (dummy : bytes) : Entry * Peer :=
  run_handshake uid None 0 None default_limits dir dummy (Some snonce) the_peer.
Definition accepted (e : Entry) : bool := match e with Entry.Accepted _ => true | _ => false end.

Lemma admission_authenticated_witness :
  exists id p hello record, handshake_run 1000 directory [] = (Entry.Accepted id, p) /\
    directory (ClientHello.tenant hello) = Some record /\ 1000 ∈ TenantAuth.bound_uids record /\
    ConnIdentity.tenant id = ClientHello.tenant hello.
Proof.
  destruct (handshake_run 1000 directory []) as [e p] eqn:E.
  assert (accepted e = true) as Ha.
  { change e with (e, p).1. rewrite <- E. vm_compute. reflexivity. }
  destruct e as [id| |]; [|discriminate Ha|discriminate Ha].
  destruct (admission_authenticated 1000 None 0 None default_limits directory [] (Some snonce) the_peer p id E)
    as (hello & auth & nonce & record & pre & b1 & b2 & sh & ad & _ & _ & _ & _ & _ & Hd & Hu & _ & _ & Hid & _).
  exists id, p, hello, record. split; [reflexivity|]. split; [exact Hd|]. split; [exact Hu|]. rewrite Hid. reflexivity.
Defined.

Lemma only_registered_admitted_witness :
  exists id p rec, handshake_run 1000 (store_tenants (run empty_db setup)) [] = (Entry.Accepted id, p) /\
    Db.tenants (run empty_db setup) !! ConnIdentity.tenant id = Some rec /\ 1000 ∈ TenantRecord.bound_uids rec.
Proof.
  destruct (handshake_run 1000 (store_tenants (run empty_db setup)) []) as [e p] eqn:E.
  assert (accepted e = true) as Ha.
  { change e with (e, p).1. rewrite <- E. vm_compute. reflexivity. }
  destruct e as [id| |]; [|discriminate Ha|discriminate Ha].
  destruct (only_registered_admitted setup 1000 None 0 None default_limits [] (Some snonce) the_peer p id typed_setup E)
    as (rec & Hr & Hu & _).
  exists id, p, rec. split; [reflexivity|]. split; [exact Hr|exact Hu].
Defined.

Lemma auth_failures_indistinguishable_witness :
  handshake_run 1000 nobody [] = handshake_run 2000 directory [x01] /\
  Peer.written (handshake_run 1000 nobody []).2 = [frame_of FrameKind.ServerHello; frame_of FrameKind.Fault].
Proof.
  split; [|vm_compute; reflexivity].
  assert (accepted (handshake_run 1000 nobody []).1 = false) as H1 by (vm_compute; reflexivity).
  assert (accepted (handshake_run 2000 directory [x01]).1 = false) as H2 by (vm_compute; reflexivity).
  apply (auth_failures_indistinguishable 1000 2000 None 0 None default_limits nobody directory [] [x01]
    (Some snonce) the_peer).
  - vm_compute. reflexivity.
  - exists [Write.Sent]. reflexivity.
  - intros id Hid. change (accepted (handshake_run 1000 nobody []).1 = false) in H1.
    unfold handshake_run in H1. rewrite Hid in H1. discriminate H1.
  - intros id Hid. unfold handshake_run in H2. rewrite Hid in H2. discriminate H2.
Defined.

Definition writable (n : nat) : list WriteCall := repeat (WriteCall.mk 5 (WriteCall.Wrote 1)) n.
Lemma writable_takes n deadline : 5 < deadline -> Forall (takes deadline) (writable n).
Proof. intros Hd. apply Forall_forall. intros w Hw%list_elem_of_In%repeat_spec. subst w. split; [done|]. by exists O. Qed.

Lemma handshake_interop_witness :
  (handshake_run 1000 directory []).1 = Entry.Accepted (ConnIdentity.mk the_tenant 1000 None 1 DEFAULT_MAX_BODY) /\
  exists calls', handshake_with 0 the_tenant id (1, 1) default_timeouts true (Some cnonce)
    (Socket.mk (arriving 15 (frame_of FrameKind.ServerHello) ++ arriving 25 (frame_of FrameKind.Admitted_) ++ [])
       (writable 26) []) =
    (Ok (Client.mk 1 DEFAULT_MAX_BODY default_timeouts false),
     Socket.mk [] calls' (frame_of FrameKind.ClientHello ++ frame_of FrameKind.Auth)).
Proof.
  destruct (handshake_interop 1000 None 0 0 default_limits directory [] snonce cnonce the_tenant the_auth_record
    id 1 1 default_timeouts (frame_of FrameKind.ClientHello) (frame_of FrameKind.Auth)
    (frame_of FrameKind.ServerHello) (frame_of FrameKind.Admitted_) 10 20 15 25 (writable 26) [Write.Sent] [] [])
    as [H1 H2]; try (vm_compute; first [reflexivity|discriminate|lia]).
  - constructor.
  - intros m. unfold verify_strict, self_signed, id. by rewrite !bool_decide_eq_true_2.
  - unfold WIRE_VERSION. lia.
  - apply writable_takes. vm_compute. reflexivity.
  - split; [|exact H2]. unfold handshake_run, the_peer, client_frames.
    change (arriving 20 (frame_of FrameKind.Auth)) with (arriving 20 (frame_of FrameKind.Auth) ++ []).
    rewrite H1. reflexivity.
Defined.

Lemma client_codec_agrees_witness :
  received_decode (T := Cancel) (Received.mk FrameKind.Cancel [x2a]) 4096 = Ok (Cancel.mk 5).
Proof.
  apply (proj2 (proj2 (client_codec_agrees [x2a] (Cancel.mk 5) (header_new FrameKind.Cancel 1) 4096))).
  - reflexivity.
  - vm_compute. reflexivity.
Defined.

Definition the_identity : ConnIdentity := ConnIdentity.mk the_tenant 1000 None 1 DEFAULT_MAX_BODY.
Definition the_client : Client := Client.mk 1 DEFAULT_MAX_BODY default_timeouts false.
Definition spawn_fresh (ts : gmap nat Task) : nat := fresh (dom ts : gset nat).
Lemma spawn_fresh_ok (ts : gmap nat Task) : ts !! spawn_fresh ts = None.
Proof. apply (not_elem_of_dom (D := gset nat)). exact (is_fresh (dom ts : gset nat)). Qed.
Definition p_read : Poll := Poll.mk 30 false None true None spawn_fresh.
Definition p_join : Poll := Poll.mk 40 false (Some (spawn_fresh ∅, Ended.Answered the_response)) false None spawn_fresh.
Lemma polls_fresh : Forall fresh_ids [p_read; p_join].
Proof. repeat constructor; intros ts; apply spawn_fresh_ok. Qed.

Lemma call_answered_witness :
  exists calls', call 0 50 the_client the_request
      (Socket.mk (arriving 45 (frame_of FrameKind.Response) ++ []) (writable 13) []) =
    (Ok the_response, the_client, Socket.mk [] calls' (frame_of FrameKind.Request)).
Proof.
  apply (call_answered 0 50 25 the_client the_request the_identity default_limits (Ended.Answered the_response)
    p_read p_join (frame_of FrameKind.Request) (frame_of FrameKind.Response) 28 45 (writable 13) [] []);
    try reflexivity; try (vm_compute; first [reflexivity|discriminate|lia]).
  apply writable_takes. vm_compute. reflexivity.
Defined.

Lemma client_framing_kept_witness :
  exists c s n, call 0 50 the_client the_request (Socket.mk [] (writable 13) []) =
      (Err ClientError.Timeout, c, s) /\
    Client.broken c = true /\ Socket.written s = take n (frame_of FrameKind.Request).
Proof.
  destruct (call 0 50 the_client the_request (Socket.mk [] (writable 13) [])) as [[r c] s] eqn:E.
  pose proof (client_framing_kept 0 50 the_client c the_request (Socket.mk [] (writable 13) []) s r E) as Hk.
  assert (r = Err ClientError.Timeout) as ->.
  { change r with ((r, c, s).1.1). rewrite <- E. vm_compute. reflexivity. }
  change (frame_bytes the_request (Client.max_frame the_client)) with (frame_bytes the_request DEFAULT_MAX_BODY) in Hk.
  replace (frame_bytes the_request DEFAULT_MAX_BODY) with (@Ok ClientError bytes (frame_of FrameKind.Request))
    in Hk by (vm_compute; reflexivity).
  destruct Hk as (n & Hw & Hb). exists c, s, n. split; [reflexivity|]. split; [exact Hb|exact Hw].
Defined.

Lemma answered_exactly_once_witness :
  exists stop l, run_loop default_limits [p_read; p_join]
      (Loop.mk [Ok (Inbound.Request the_request)] (admitted_new the_identity 0) []) = (stop, l) /\
    exists answered : list (Request * Response), [the_request] ≡ₚ answered.*1 ++ pending (Loop.conn l) /\ length (Loop.written l) = 1%nat.
Proof.
  destruct (run_loop default_limits [p_read; p_join]
      (Loop.mk [Ok (Inbound.Request the_request)] (admitted_new the_identity 0) [])) as [stop l] eqn:E.
  exists stop, l. split; [reflexivity|].
  assert (stop = None) as ->. { pose proof (f_equal (@fst (option Close) Loop) E) as Ef. cbn [fst] in Ef. rewrite <- Ef. vm_compute. reflexivity. }
  assert (Loop.items l = []) as Hi. { pose proof (f_equal (@snd (option Close) Loop) E) as El. cbn [snd] in El. rewrite <- El. vm_compute. reflexivity. }
  destruct (answered_exactly_once default_limits the_identity 0 [Ok (Inbound.Request the_request)] [p_read; p_join]
    None l ltac:(discriminate) polls_fresh E)
    as (taken & acc & ans & lost & Ht & _ & Hp & _ & Ho & _).
  destruct (Ho eq_refl) as [Ha ->]. rewrite Hi, app_nil_r in Ht. exists ans. split.
  - subst taken. rewrite Ha in Hp. exact Hp.
  - pose proof (f_equal (@snd (option Close) Loop) E) as El. cbn [snd] in El. rewrite <- El. vm_compute. reflexivity.
Defined.

Lemma connection_closes_cleanly_witness :
  Loop.written (finish default_limits 50 (Close.Fault Failure.AuthFailed "test") None [p_join]
    (Loop.mk [] (admitted_new the_identity 0) [])) = [frame_of FrameKind.Fault].
Proof.
  destruct (connection_closes_cleanly default_limits 50 (Close.Fault Failure.AuthFailed "test") None [p_join]
    (Loop.mk [] (admitted_new the_identity 0) [])) as (_ & _ & Hf & _).
  - apply conn_ok_new. discriminate.
  - rewrite Hf by discriminate. vm_compute. reflexivity.
Defined.

(** A connection whose reader read, decoded and sent a request, which the loop
    has started. *)
Definition busy : list ServerEvent :=
  [ServerEvent.Accepted 0;
   ServerEvent.Entered 0 (Admission.mk the_tenant 1) 1000 None 0 (arriving 28 (frame_of FrameKind.Request));
   ServerEvent.Moved 0 Move.Read; ServerEvent.Moved 0 Move.Decode; ServerEvent.Moved 0 Move.Send;
   ServerEvent.Moved 0 (Move.Turn p_read)].
Lemma memory_bounded_witness :
  let cs := foldl (server_event (clamped 1000 default_limits)) ∅ busy in
  0 < map_sum (connection_bytes (clamped 1000 default_limits)) cs <= DEFAULT_MEMORY_BUDGET.
Proof.
  destruct (memory_bounded 1000 default_limits busy) as (_ & Hm & Hd).
  - lia.
  - vm_compute. reflexivity.
  - repeat (constructor; [first [exact I|intros ts; apply spawn_fresh_ok]|]). constructor.
  - rewrite Hd in Hm by lia. split; [vm_compute; reflexivity|exact Hm].
Defined.
