(* ===== verification/DiskWitness.v ===== *)
(** * The disk's, the key file's and the commands' properties at concrete inputs

    A store with one registered tenant, written out on a disk: a key
    derivation that repeats the root key's first byte, a hash that knows the
    keys of the two records on the disk, and an archive library that knows
    the tenant's record. *)
From S2P Require Import Prelude Vocab Ids Payload Wire Epitrope Origin View Chain Issue Decision Revoke Lifecycle.
From S2P Require Import Records Store Seal RecordKey StoreAudit Invocation Directory Invariant Runs Daemon Scenario.
From S2P Require Import Keys Disk RootRotation RootRep RootStage RootGuarantees Owned Keyring DiskView Proc StoreDir StoreDirGuarantees.
From S2P Require Import Shred DiskWrite KeyFile Socket SocketInv Cli CliGuarantees CliRun Fixture Process.
Local Open Scope Z_scope.

(** ** The store *)
Definition tenant_only : list Event := [(NoFailpoints, 0, Op.RegisterTenant (register operator TenantClass.Operator None))].
Definition small : Db := run empty_db tenant_only.
Definition operator_record : TenantRecord :=
  TenantRecord.mk operator TenantClass.Operator (repeat x07 32) [1000] None ceilings_default 1 0.
Lemma small_eq : small = set_tenants <[operator := operator_record]> (set_data_keys (union {[(operator, 1)]}) empty_db).
Proof. reflexivity. Qed.
Lemma small_typed : Typed tenant_only.
Proof. apply Forall_singleton. apply ceilings_wf_default. Qed.
Lemma small_ready : RootReady small /\ Inv small.
Proof. destruct (run_Owned tenant_only small_typed). split; [by apply Owned_RootReady|done]. Qed.
Lemma small_present c : present small c -> c = Cell.Tenant operator \/ c = Cell.DataKey operator 1.
Proof.
  rewrite small_eq. destruct c as [t|t|g|g|s|i|q|t|a|l|t k|t]; cbn.
  all: try (rewrite lookup_empty; by intros [? ?]).
  - intros [r Hr]. apply lookup_insert_Some in Hr as [[<- _]|[_ Hr]]; [by left|]. by rewrite lookup_empty in Hr.
  - intros [Hx|Hx]%elem_of_union; [|by apply elem_of_empty in Hx]. apply elem_of_singleton in Hx as [= -> ->]. by right.
  - by intros ?%elem_of_empty.
Qed.

#[global] Instance TenantRecord_eq_dec : EqDecision TenantRecord.
Proof. solve_decision. Defined.

(** ** The primitives *)
Definition head_byte (b : bytes) : byte := default x00 (head b).
Definition tenant_input : bytes := keyed_input (lit "tenant") [id16 x01].
Definition data_key_input : bytes := keyed_input (lit "data-key") [id16 x01; to_le_bytes 4 1].
Definition toy_hmac (k m : bytes) : bytes :=
  if decide (m = tenant_input) then repeat x01 32
  else if decide (m = data_key_input) then repeat x02 32
  else repeat (z2b (128 + b2z (head_byte k) mod 128)) 32.
#[global] Instance toy_kdf : Kdf := {|
  hmac k m := Some (toy_hmac k m);
  extract _ ikm := ikm;
  expand prk _ n := Some (repeat (head_byte prk) n) |}.
#[global] Instance toy_kdf_laws : KdfLaws.
Proof.
  constructor.
  - intros k m. eexists. split; [done|]. unfold toy_hmac. repeat case_decide; apply repeat_length.
  - intros prk info n _. eexists. split; [done|]. apply repeat_length.
Qed.
#[global] Instance toy_entropy : Entropy := fun _ n => Some (repeat x2a n).
Lemma toy_healthy : healthy.
Proof. intros i n. eexists. split; [done|]. apply repeat_length. Qed.
#[global] Instance toy_total : AeadTotal.
Proof. constructor. intros. by eexists. Qed.
#[global] Instance TombstoneRecord_eq_dec : EqDecision TombstoneRecord.
Proof. solve_decision. Defined.
Definition operator_tombstone : TombstoneRecord := TombstoneRecord.mk operator 9.
Definition no_codec {T : Type} : StoredRecord T := {| to_archive _ := None; from_archive _ := None |}.
#[global] Instance toy_codec : StoreCodec := {|
  tenant_codec := {| to_archive r := if decide (r = operator_record) then Some [x2a] else None;
                     from_archive b := if decide (b = [x2a]) then Some operator_record else None |};
  tombstone_codec := {| to_archive r := if decide (r = operator_tombstone) then Some [x2b] else None;
                        from_archive b := if decide (b = [x2b]) then Some operator_tombstone else None |};
  grant_codec := no_codec; revocation_codec := no_codec; session_codec := no_codec;
  invocation_codec := no_codec; ledger_codec := no_codec; locator_codec := no_codec; audit_stub_codec := no_codec;
  rekey_codec := no_codec |}.

(** ** The disk *)
Definition blank_disk : Disk := list_to_map ((fun ks => (ks, ∅)) <$>
  [Keyspace.Meta; Keyspace.Keys; Keyspace.Tenants; Keyspace.Grants; Keyspace.Revocations; Keyspace.Sessions;
   Keyspace.Invocations; Keyspace.Idem; Keyspace.Ledgers; Keyspace.Artifacts; Keyspace.Blobs; Keyspace.SessionIndex;
   Keyspace.Audit; Keyspace.AuditStub; Keyspace.Rekey]).
Lemma blank_complete : complete blank_disk.
Proof. intros ks. by destruct ks; eexists. Qed.
Definition keys_of (first : byte) (id : Z) : StoreKeys :=
  let key := SealingKey.mk id (repeat first 32) in
  StoreKeys.mk id key key key (repeat first 32) (repeat first 32) (repeat first 32).
Definition root_a : bytes := repeat x05 32.
Definition root_b : bytes := repeat x06 32.
Definition salt_a : bytes := repeat x09 32.
Definition keys_a : StoreKeys := keys_of x05 1.
Definition keys_b : StoreKeys := keys_of x06 2.
Lemma derive_a salt : store_derive root_a 1 salt = Ok keys_a.
Proof. reflexivity. Qed.
Lemma derive_b salt : store_derive root_b 2 salt = Ok keys_b.
Proof. reflexivity. Qed.
Definition check_a : bytes := repeat (z2b 133) 32.
Definition meta_a : Meta := Meta.mk 1 salt_a check_a.
Definition or_empty (r : result StoreError bytes) : bytes := match r with Ok b => b | Err _ => [] end.
Definition toy_nonce : bytes := repeat x0b NONCE_LEN.
Definition tenant_key : bytes := repeat x01 32.
Definition data_key_key : bytes := repeat x02 32.
Definition toy_material : Material := {|
  data_key_of _ _ := repeat x0c 32;
  address_keys_of _ := AddressKeys.mk (repeat x0c 32) (repeat x0c 32) |}.
Definition sealed_tenant : bytes :=
  or_empty (seal_with (StoreKeys.meta keys_a) (seal_context slot_TENANT tenant_key) [x2a] (Some toy_nonce)).
Definition wrapped_data_key : bytes :=
  or_empty (wrap_tenant_key_with (Keys.store_kek keys_a) (id16 x01) (TenantDataKey.mk 1 (repeat x0c 32)) (Some toy_nonce)).
Definition disk_a : Disk :=
  <[Keyspace.Meta := meta_write meta_a ∅]> (<[Keyspace.Tenants := {[tenant_key := sealed_tenant]}]>
    (<[Keyspace.Keys := {[data_key_key := wrapped_data_key]}]> blank_disk)).
Lemma disk_a_complete : complete disk_a.
Proof. intros ks. by destruct ks; eexists. Qed.

Lemma tenant_cell_key index : cell_key index (Cell.Tenant operator) = Ok tenant_key.
Proof. reflexivity. Qed.
Lemma data_key_cell_key index : cell_key index (Cell.DataKey operator 1) = Ok data_key_key.
Proof. reflexivity. Qed.
Lemma address_cell_key index :
  cell_key index (Cell.AddressKeys operator) = Ok (repeat (z2b (128 + b2z (head_byte index) mod 128)) 32).
Proof. reflexivity. Qed.
Lemma disk_a_get ks k v : disk_get disk_a ks k = Some v -> ks <> Keyspace.Meta ->
  (ks = Keyspace.Tenants /\ k = tenant_key /\ v = sealed_tenant) \/ (ks = Keyspace.Keys /\ k = data_key_key /\ v = wrapped_data_key).
Proof.
  unfold disk_get, table, disk_a. intros Hg Hm. rewrite lookup_insert_ne in Hg by done.
  destruct (decide (ks = Keyspace.Tenants)) as [->|Ht].
  - rewrite lookup_insert_eq in Hg. cbn in Hg. apply lookup_singleton_Some in Hg as [<- <-]. auto.
  - rewrite lookup_insert_ne in Hg by done. destruct (decide (ks = Keyspace.Keys)) as [->|Hk].
    + rewrite lookup_insert_eq in Hg. cbn in Hg. apply lookup_singleton_Some in Hg as [<- <-]. auto.
    + rewrite lookup_insert_ne in Hg by done. by destruct ks.
Qed.
Lemma small_asked c : asked small c -> c = Cell.Tenant operator \/ c = Cell.DataKey operator 1 \/
  c = Cell.Ledger (LedgerRef.Tenant operator) \/ c = Cell.AddressKeys operator.
Proof.
  intros [Hp|Hc]; [destruct (small_present c Hp) as [->| ->]; auto|]. destruct c as [| | | | | | | | |l| |t]; try done.
  - destruct l as [g|s|t]; unfold asked in Hc; cbn -[small] in Hc; rewrite ?small_eq in Hc; cbn in Hc; rewrite ?lookup_empty in Hc;
      try (by destruct Hc as [? ?]); try (by destruct Hc as [[? ?]|[? ?]]).
    destruct Hc as [[r Hr]|[r Hr]]; [|done].
    apply lookup_insert_Some in Hr as [[<- _]|[_ Hr]]; [auto|by rewrite lookup_empty in Hr].
  - cbn -[small] in Hc. rewrite small_eq in Hc. destruct Hc as [r Hr]. cbn in Hr.
    apply lookup_insert_Some in Hr as [[<- _]|[_ Hr]]; [auto|by rewrite lookup_empty in Hr].
Qed.
Lemma toy_distinct index : Distinct index small ∅.
Proof.
  split.
  - intros c c' k Hc Hc' Hks Hk Hk'.
    destruct (small_present c Hc) as [->| ->], (small_asked c' Hc') as [->|[->|[->| ->]]]; try done.
    rewrite data_key_cell_key in Hk. rewrite address_cell_key in Hk'. injection Hk as <-. injection Hk' as Hk'. by destruct (head_byte index).
  - intros a k Hp _. by destruct (small_present _ Hp).
Qed.
Lemma disk_a_Rep : Rep keys_a disk_a small toy_material ∅.
Proof.
  split.
  - intros c Hc. destruct (small_present c Hc) as [->| ->].
    + exists tenant_key, sealed_tenant. split; [done|]. split; [done|]. exists [x2a]. split.
      * exists toy_nonce. split; [done|]. by vm_compute.
      * split; [by rewrite small_eq|]. by rewrite small_eq.
    + exists data_key_key, wrapped_data_key. split; [done|]. split; [done|]. exists toy_nonce. split; [done|]. by vm_compute.
  - intros ks k v Hks [(-> & -> & _)|(-> & -> & _)]%disk_a_get.
    + exists (Cell.Tenant operator). split; [by rewrite small_eq; eexists|]. done.
    + exists (Cell.DataKey operator 1). split; [|done]. rewrite small_eq. cbn. set_solver.
    + intros ->. by apply (bool_decide_eq_true_2 _) in Hks.
  - intros k v Hg. by apply disk_a_get in Hg as [(? & _)|(? & _)].
  - intros k v Hg. done.
  - intros ks Hks. unfold tenant_keyspaces in Hks. 
    repeat (apply elem_of_cons in Hks as [->|Hks]; [reflexivity|]). by apply elem_of_nil in Hks.
  - apply toy_distinct.
Qed.

Lemma toy_slot_key index s : slot_key index s = Ok (toy_hmac index (keyed_input (domain s) (parts s))).
Proof. unfold slot_key, keyed_hash, hmac_sha256. cbn [concat]. by rewrite ?app_nil_r. Qed.
Lemma toy_hmac_tenant index m : toy_hmac index m = tenant_key -> m = tenant_input.
Proof. unfold toy_hmac. repeat case_decide; [done|done|]. by destruct (head_byte index). Qed.
Lemma tenant_input_inj t : keyed_input (domain (Slot.Tenant t)) (parts (Slot.Tenant t)) = tenant_input -> t = operator.
Proof.
  unfold tenant_input, keyed_input. cbn [domain parts map concat]. intros He.
  apply app_inv_head, app_inv_head in He. rewrite !app_nil_r in He. unfold push_part in He.
  apply app_inj_1 in He as [_ He]; [|by rewrite !length_to_le_bytes]. destruct t. unfold operator. cbn in He. by rewrite He.
Qed.
Lemma toy_unaliased index c : sealed_cell c -> Unaliased index small c.
Proof.
  intros Hc c' k Hp Hks Hk' Hk.
  destruct (small_present c' Hp) as [->| ->]; [|by destruct c].
  rewrite tenant_cell_key in Hk'. injection Hk' as <-.
  destruct c as [t|t|g|g|s|i|q|t|a|l|t n|t]; try done; cbn [cell_key] in Hk;
    rewrite toy_slot_key in Hk; apply Ok_inj, toy_hmac_tenant in Hk; try done.
  f_equal. symmetry. by apply tenant_input_inj.
Qed.
Lemma keys_a_Ok : StoreKeysOk 1 keys_a.
Proof. by split. Qed.
Lemma toy_material_ok : MaterialOk small toy_material.
Proof. by split. Qed.
Lemma toy_coherent : Coherent toy_material.
Proof. intros t k Hk. by vm_compute in Hk; injection Hk as <-. Qed.
Lemma toy_readable t : Readable keys_a small t.
Proof. by split; apply toy_unaliased. Qed.

(** ** The disk's properties *)
Lemma run_root_ready_witness : RootReady (run empty_db tenant_only).
Proof. apply run_root_ready. apply small_typed. Defined.
Lemma rotate_root_hands_over_witness : exists check disk',
  store_unlock root_b 2 (repeat x2a 32) check = Ok keys_b /\ Rep keys_b disk' small toy_material ∅ /\
  rotate_root NoFailpoints keys_a disk_a root_a root_b 0 = (Ok 2, disk', keys_b).
Proof.
  destruct (rotate_root_hands_over NoFailpoints keys_a keys_b disk_a small toy_material ∅ root_a root_b (repeat x2a 32) meta_a 0%nat)
    as (check & disk' & _ & Hu & HR & _ & He).
  - apply toy_healthy.
  - by vm_compute.
  - by vm_compute.
  - by vm_compute.
  - apply disk_a_Rep.
  - split; [|done]. intros t k v Hp. by destruct (small_present _ Hp).
  - apply small_ready.
  - apply toy_material_ok.
  - done.
  - apply derive_b.
  - apply toy_distinct.
  - exists check, disk'. split; [exact Hu|]. split; [exact HR|]. rewrite He. reflexivity.
Defined.
Lemma keyring_refines_witness :
  let '(result, _) := disk_tenant_keys keys_a ∅ disk_a disk_a operator in
  result = (ring ← tenant_keys small operator; keyring_of toy_material operator ring).
Proof.
  pose proof (keyring_refines keys_a disk_a disk_a small small toy_material ∅ ∅ ∅ operator) as Hr.
  destruct (disk_tenant_keys keys_a ∅ disk_a disk_a operator) as [r cache].
  destruct Hr as [_ Hr]; [apply keys_a_Ok|by vm_compute|apply disk_a_Rep|apply disk_a_Rep|apply toy_readable|apply toy_readable| | | | | |exact Hr].
  - apply small_ready.
  - apply small_ready.
  - apply toy_material_ok.
  - apply toy_coherent.
  - intros t k Hk. by rewrite lookup_empty in Hk.
Defined.
Lemma disk_decisions_refine_witness :
  disk_directory_tenant (Reader.mk keys_a disk_a) operator = Ok (directory_tenant small operator).
Proof.
  destruct (disk_decisions_refine keys_a disk_a small toy_material ∅) as (_ & _ & _ & Hd);
    [apply keys_a_Ok|by vm_compute|apply disk_a_Rep|intros c Hc; apply toy_unaliased; by destruct c|exact (Hd operator)].
Defined.

(** The store once its tenant is shredded. *)
Definition shredded : Db := (shred_tenant NoFailpoints 9 small operator).2.
Lemma shredded_eq : shredded = set_tombstones <[operator := operator_tombstone]> (set_tenants (delete operator)
  (set_address_keys (fun k => k ∖ {[operator]}) (set_data_keys (fun k => k ∖ {[(operator, 1)]}) small))).
Proof. reflexivity. Qed.
Lemma shredded_present c : present shredded c -> c = Cell.Tombstone operator.
Proof.
  rewrite shredded_eq, small_eq. destruct c as [t|t|g|g|s|i|q|t|a|l|t k|t]; cbn.
  all: try (rewrite lookup_empty; by intros [? ?]).
  - rewrite delete_insert_eq. intros [r Hr]. by rewrite lookup_delete_ne, lookup_empty in Hr.
  - intros [r Hr]. apply lookup_insert_Some in Hr as [[<- _]|[_ Hr]]; [done|]. by rewrite lookup_empty in Hr.
  - intros [Hx Hn]%elem_of_difference. exfalso. apply Hn. apply elem_of_union in Hx as [Hx|Hx]; [done|by apply elem_of_empty in Hx].
  - intros [Hx _]%elem_of_difference. by apply elem_of_empty in Hx.
Qed.
Lemma shredded_distinct index : Distinct index shredded ∅.
Proof.
  split.
  - intros c c' k ->%shredded_present [Hp|Hc] Hks _ _; [by apply shredded_present in Hp|]. by destruct c'.
  - by intros a k ?%shredded_present.
Qed.
Lemma tombstone_archives : archives (TombstoneRecord.mk operator 9).
Proof. exists [x2b]. split_and!; [done|done|]. by vm_compute. Qed.
Lemma disk_writes_refine_witness : exists disk' cache',
  disk_shred_tenant NoFailpoints 9 keys_a ∅ disk_a operator 0%nat = (Ok tt, disk', cache') /\ cache' !! operator = None.
Proof.
  destruct (disk_writes_refine NoFailpoints 9 keys_a disk_a small toy_material ∅ 0%nat) as (_ & _ & Hs).
  - apply toy_healthy.
  - apply keys_a_Ok.
  - by vm_compute.
  - apply disk_a_Rep.
  - apply small_ready.
  - intros c. apply toy_unaliased.
  - specialize (Hs operator ∅ tombstone_archives).
    change (shred_tenant NoFailpoints 9 small operator) with (@Ok StoreError unit tt, shredded) in Hs. cbn beta iota in Hs.
    destruct (Hs (shredded_distinct _)) as (disk' & cache' & Hd & _ & Hc). exists disk', cache'. split; [exact Hd|].
    by apply Hc.
Defined.
Lemma shred_compact_erases_witness : exists disk' cache',
  disk_shred_tenant NoFailpoints 9 keys_a ∅ disk_a operator 0%nat = (Ok tt, disk', cache') /\
  forall (fs : Fs) written i fs' j, fs !! lit "store" = Some (Node.Database disk' written) ->
    @compact calm (lit "store") disk' fs i = (Some (Ok tt), fs', j) ->
    exists left', fs' !! lit "store" = Some (Node.Database disk' left') /\
  forall x, x ∈ left' -> exists ks k, disk_get disk' ks k = Some x /\
        (ks = Keyspace.Keys -> exists c, anothers_key operator c).
Proof.
  destruct (@shred_compact_erases _ _ _ _ _ _ _ _ calm tenant_only NoFailpoints 9 operator keys_a disk_a toy_material ∅ ∅ 0%nat)
    as (disk' & cache' & Hd & _ & He).
  - apply small_typed.
  - apply toy_healthy.
  - apply keys_a_Ok.
  - by vm_compute.
  - apply disk_a_Rep.
  - intros c. apply toy_unaliased.
  - apply tombstone_archives.
  - apply disk_a_complete.
  - reflexivity.
  - apply shredded_distinct.
  - exists disk', cache'. split; [exact Hd|]. intros fs written i fs' j Hfs Hc.
    destruct (He _ _ _ _ _ _ Hfs Hc) as (left' & Hl & Hx). exists left'. split; [exact Hl|].
    intros x Hin. destruct (Hx x Hin) as (ks & k & Hg & Hk). exists ks, k. split; [exact Hg|]. intros Hks.
    destruct (Hk Hks) as (c & Ha & _). by exists c.
Defined.

(** ** The key file's and the directory's properties *)

(** A process nothing interferes with. *)
#[global] Instance calm_holder : Holder :=
  {| holder_env := calm; euid := 1000; umask := 18; drift _ ino := ino; partial _ := 0%nat |}.
Lemma calm_holder_undisturbed : undisturbed calm_holder.
Proof. by split. Qed.
Definition store_path : str := lit "store".
Lemma compact_keeps_store_witness :
  exists w, (compact store_path blank_disk {[store_path := Node.Database blank_disk {[root_a]}]} 0%nat).1.2 !! store_path =
    Some (Node.Database blank_disk w) /\ live blank_disk w.
Proof.
  pose proof (compact_keeps_store store_path blank_disk {[root_a]} {[store_path := Node.Database blank_disk {[root_a]}]} 0%nat
    blank_complete eq_refl) as Hc.
  destruct (compact store_path blank_disk {[store_path := Node.Database blank_disk {[root_a]}]} 0%nat) as [[o fs] i] eqn:He.
  destruct Hc as (_ & _ & Hc). apply Hc. change o with (o, fs, i).1.1. rewrite <- He. by vm_compute.
Defined.
Lemma create_all_or_nothing_witness : exists keys,
  store_derive root_a 1 (repeat x2a 32) = Ok keys /\
  opened store_path root_a (create store_path root_a 0%nat ∅ 0%nat).1.2 = Some (Ok keys).
Proof.
  pose proof (create_all_or_nothing store_path root_a (repeat x2a 32) ∅ 0%nat 0%nat toy_healthy eq_refl (or_introl eq_refl)
    ltac:(discriminate)) as Hc.
  destruct (create store_path root_a 0%nat ∅ 0%nat) as [[o fs] i] eqn:He.
  destruct Hc as (keys & Hk & _ & _ & Hc). exists keys. split; [exact Hk|].
  destruct (Hc keys_a) as (_ & Ho & _); [|exact Ho]. change o with (o, fs, i).1.1. rewrite <- He. by vm_compute.
Defined.
Lemma generate_whole_or_refused_witness :
  load (generate 0%nat Entry.Absent 0%nat).1.2 0%nat =
    (Some (Ok (repeat x2a 32)), (generate 0%nat Entry.Absent 0%nat).1.2, 4%nat).
Proof.
  pose proof (generate_whole_or_refused calm_holder 0%nat 0%nat Entry.Absent (repeat x2a 32) eq_refl eq_refl) as Hg.
  destruct (generate 0%nat Entry.Absent 0%nat) as [[o w] i] eqn:He. destruct Hg as (_ & _ & Hg).
  destruct (Hg (repeat x2a 32)) as [_ Hl]; [|by apply (Hl calm_holder 0%nat)].
  change o with (o, w, i).1.1. rewrite <- He. by vm_compute.
Defined.

(** ** The commands' properties *)
Lemma bootstrap_runs : ((_ ← run_keygen 0%nat; run_init store_path 0%nat) (Host.mk Entry.Absent ∅) 0%nat).1.1 = Some (Ok tt).
Proof. by vm_compute. Qed.
Lemma bootstrap_opens_witness : exists keys,
  store_derive (repeat x2a 32) 1 (repeat x2a 32) = Ok keys /\
  (cli_open_store store_path ((_ ← run_keygen 0%nat; run_init store_path 0%nat) (Host.mk Entry.Absent ∅) 0%nat).1.2 0%nat).1.1 =
    Some (Ok keys).
Proof.
  pose proof bootstrap_runs as Hr.
  destruct ((_ ← run_keygen 0%nat; run_init store_path 0%nat) (Host.mk Entry.Absent ∅) 0%nat) as [[o host] j] eqn:He.
  cbn [fst] in Hr. subst o.
  destruct (bootstrap_opens calm_holder store_path 0%nat 0%nat 0%nat (repeat x2a 32) (repeat x2a 32) ∅ host j
    (proj1 calm_holder_undisturbed) eq_refl eq_refl eq_refl eq_refl (or_introl (lookup_empty _)) ltac:(by rewrite lookup_empty) He)
    as (keys & Hk & _ & Ho).
  exists keys. split; [exact Hk|]. exact (Ho calm_holder 0%nat calm_holder_undisturbed eq_refl).
Defined.
Definition operator_add : TenantAdd :=
  TenantAdd.mk store_path (lit "key") operator TenantClass.Operator (repeat x07 32) [1000] None (Some root_id) [] None None None.
Lemma operator_add_wf : wf_add operator_add.
Proof. split; try done; try (by intros ? [= <-]). split; [done|]. by apply Forall_singleton. Qed.
Lemma operator_add_runs : (tenant_add NoFailpoints 0 0 0 None operator_add empty_db).1 = Ok tt.
Proof. by vm_compute. Qed.
Lemma tenant_add_bootstraps_witness : exists scope,
  designated_chain (tenant_add NoFailpoints 0 0 0 None operator_add empty_db).2 operator root_id Capability.Read 5 =
    Ok (Ok [root_leaf (root_of operator_add root_id 0) scope]).
Proof.
  pose proof operator_add_runs as Hr.
  destruct (tenant_add NoFailpoints 0 0 0 None operator_add empty_db) as [o db] eqn:He. cbn [fst] in Hr. subst o.
  destruct (tenant_add_bootstraps NoFailpoints 0 0 0 None operator_add empty_db db) as (_ & _ & _ & Ho);
    [apply Inv_empty|apply operator_add_wf|exact He|].
  destruct (Ho eq_refl) as (grant & scope & Hg & _ & _ & Hd). rewrite (Hg root_id eq_refl) in Hd.
  exists scope. by apply Hd.
Defined.

(** ** The socket's property *)

(** The daemon's calls, one after another, none of which fails. *)
Fixpoint solo `{Users} (n p : nat) (w : Place) (prog : Prog unit) : Place * Prog unit :=
  match n, prog with
  | S n, Ask c k => solo n p (perform p false w c).2 (k (perform p false w c).1)
  | _, _ => (w, prog)
  end.
Lemma solo_reachable `{Users} (n p : nat) : forall w prog, reachable (Site.mk w {[p := prog]}) ->
  reachable (Site.mk (solo n p w prog).1 {[p := (solo n p w prog).2]}).
Proof.
  induction n as [|n IH]; intros w prog Hr; [done|]. destruct prog as [r|c k]; [done|]. apply IH.
  eapply reachable_move; [exact Hr|]. pose proof (moves_call w {[p := Ask c k]} p c k false) as Hm.
  rewrite insert_singleton_eq in Hm. apply Hm. by rewrite lookup_singleton_eq.
Qed.
#[global] Instance one_user : Users := {| euid_of _ := 1000; umask_of _ := 18; new_dev := 1; new_ino := 2 |}.
Definition stale_place : Place := Place.mk (Some (DirStat.mk true 16832 1000 1 2)) None (Some (SocketEntry.mk true 1000 493 None)).
Definition serving_site : Site :=
  Site.mk (solo 14 7 stale_place (daemon true)).1 {[7%nat := (solo 14 7 stale_place (daemon true)).2]}.
Lemma serving_reachable : reachable serving_site.
Proof.
  apply solo_reachable. eapply reachable_move; [apply (reachable_start stale_place)|].
  by apply (moves_start stale_place ∅ 7%nat true).
Qed.
Lemma serving_exclusive_witness : Secure 7 (Site.place serving_site).
Proof.
  destruct (serving_exclusive serving_site serving_reachable) as (Hs & _). eapply (Hs 7%nat). vm_compute. reflexivity.
Defined.

(** ** The process's properties *)

(** A machine on which [keygen] and [init] ran, a stale socket at the path,
    and in the store the run of [Scenario] whose capture was dispatched when
    the daemon died. *)
Definition the_host : Host := ((_ ← run_keygen 0%nat; run_init store_path 0%nat) (Host.mk Entry.Absent ∅) 0%nat).1.2.
Definition the_machine : Machine := Machine.mk the_host {[store_path := run empty_db dispatched]} stale_place [].
Definition the_build : Build := Build.mk true false.
Definition the_given : Given :=
  Given.mk None None (fun _ => Reading.mk (Some 100) (fun _ => None)) 0%nat None None (fun _ => Err [])
    (map_to_list (Db.invocations (run empty_db dispatched))).*2 [(NoFailpoints, 120, Op.RegisterTenant (register operator TenantClass.Operator None))]
    [(NoFailpoints, 140, Op.RegisterTenant (register operator TenantClass.Operator None))].
Definition the_options : Serve := Serve.mk store_path (lit "key") (lit "run") None.
Lemma the_store : store_at store_path the_machine = run empty_db dispatched.
Proof. unfold store_at, the_machine. cbn [Machine.stores]. by rewrite lookup_singleton_eq. Qed.
Lemma the_store_Inv : Inv (store_at store_path the_machine).
Proof. rewrite the_store. apply run_Inv, typed_dispatched. Qed.
Lemma the_store_scan : Scan (store_at store_path the_machine) (Given.scan the_given).
Proof. rewrite the_store. unfold Scan. reflexivity. Qed.
Lemma the_store_seq : last_seq (store_at store_path the_machine) + Z.of_nat (length (Given.scan the_given)) <= u64_max.
Proof. rewrite the_store. vm_compute. intros [=]. Qed.
Lemma serve_recovers_first_witness : exists r m' j,
  serve 7 the_build the_given the_options the_machine 0%nat = (r, m', j) /\ r = Some (Ok tt) /\
  Inv (store_at store_path m') /\ exists ready k, serve_start 7 the_build the_given the_options the_machine 0%nat = (Some (Ok tt), ready, k) /\
    settled_down (store_at store_path ready) /\ Secure 7 (Machine.place ready).
Proof.
  destruct (serve 7 the_build the_given the_options the_machine 0%nat) as [[r m'] j] eqn:E.
  assert (r = Some (Ok tt)) as Hr. { change r with ((r, m', j).1.1). rewrite <- E. vm_compute. reflexivity. }
  destruct (serve_recovers_first 7 the_build the_given the_options the_machine m' 0%nat j r) as (HI & _ & Hd).
  - apply the_store_Inv.
  - apply the_store_scan.
  - apply the_store_seq.
  - apply Forall_cons_2; [apply ceilings_wf_default|]. apply Forall_singleton. apply ceilings_wf_default.
  - exact E.
  - exists r, m', j. split; [reflexivity|]. split; [exact Hr|]. split; [exact HI|].
    destruct Hd as [(Hno & _)|(ready & ran & k & Hst & Hset & Hsec & _)]; [by destruct (Hno tt)|].
    exists ready, k. split; [exact Hst|]. split; [exact Hset|exact Hsec].
Defined.
Lemma exit_codes_exact_witness : exists m' j,
  main 7 the_build the_given [lit "serve"; lit "--store"] the_machine 0%nat = (Some 2, m', j) /\ m' = the_machine.
Proof.
  exists the_machine, 0%nat. assert (main 7 the_build the_given [lit "serve"; lit "--store"] the_machine 0%nat = (Some 2, the_machine, 0%nat)) as E.
  { unfold main. by replace (parse [lit "serve"; lit "--store"]) with (@Err DaemonError Command (DaemonError.Usage (lit "--store needs a value"))) by reflexivity. }
  split; [exact E|].
  by apply (exit_codes_exact 7 the_build the_given [lit "serve"; lit "--store"] the_machine the_machine 0%nat 0%nat 2).
Defined.
